(** * SDFormat: the XML reader, the include resolver and the Link/Material
      domain objects, as a shallow embedding of [src/parser.cc], [src/Link.cc]
      and [src/Material.cc].

    Conventions of the embedding.
    - C++ objects reached through shared pointers are values; a pointer that
      may be null is an [option].
    - A function that dereferences a pointer without a null check returns in
      [option]: [None] stands for the null dereference.
    - The [Errors &_errors] out-parameter is threaded explicitly: functions
      take the error vector they append to and return the extended one.
    - Numeric types of the math library (poses, doubles, colours) are kept
      abstract in the class [IgnitionMath]; Params hold their text form. *)

From Stdlib Require Import ZArith Ascii.
From stdpp Require Import base option list strings pretty.

Set Warnings "-register-all".
Set Default Proof Using "Type".



(** ** Strings *)

(** [std::string::find(needle) != npos] *)
Definition contains (needle hay : string) : bool :=
  match String.index 0 needle hay with
  | Some _ => true
  | None => false
  end.

(** ** Error.hh *)

Inductive ErrorCode : Type :=
  | NONE
  | FILE_READ
  | PARSING_ERROR
  | ELEMENT_MISSING
  | ELEMENT_INVALID
  | ELEMENT_INCORRECT_TYPE
  | ELEMENT_DEPRECATED
  | ATTRIBUTE_MISSING
  | ATTRIBUTE_INVALID
  | ATTRIBUTE_INCORRECT_TYPE
  | URI_LOOKUP
  | MERGE_INCLUDE_UNSUPPORTED
  | MODEL_PLACEMENT_FRAME_INVALID
  | MODEL_CANONICAL_LINK_INVALID
  | LINK_INERTIA_INVALID
  | JOINT_PARENT_LINK_INVALID
  | JOINT_CHILD_LINK_INVALID
  | JOINT_PARENT_SAME_AS_CHILD
  | FRAME_ATTACHED_TO_INVALID
  | FRAME_ATTACHED_TO_CYCLE
  | POSE_RELATIVE_TO_INVALID
  | POSE_RELATIVE_TO_CYCLE
  | RESERVED_NAME
  | DUPLICATE_NAME.

#[global] Instance ErrorCode_eq_dec : EqDecision ErrorCode.
Proof. solve_decision. Defined.

Module Error.
(** Every error carries a kind, a message and, when derivable, the file
    path, the XML path and the line number. *)
Record t : Type := mk {
  Code : ErrorCode;
  Message : string;
  FilePath : option string;
  LineNumber : option Z;
  XmlPath : option string }.

(** [Error(code, message)] *)
Definition make (c : ErrorCode) (m : string) : t := mk c m None None None.
(** [Error(code, message, filePath)] *)
Definition makeIn (c : ErrorCode) (m file : string) : t :=
  mk c m (Some file) None None.
(** [Error(code, message, filePath, lineNumber)] *)
Definition makeAt (c : ErrorCode) (m file : string) (line : Z) : t :=
  mk c m (Some file) (Some line) None.

Definition SetXmlPath (p : string) (e : t) : t :=
  mk (Code e) (Message e) (FilePath e) (LineNumber e) (Some p).
Definition SetFilePath (p : string) (e : t) : t :=
  mk (Code e) (Message e) (Some p) (LineNumber e) (XmlPath e).
Definition SetLineNumber (l : Z) (e : t) : t :=
  mk (Code e) (Message e) (FilePath e) (Some l) (XmlPath e).
End Error.

Abbreviation Errors := (list Error.t).

(** Does the error vector hold an error of the given kind? *)
Definition hasCode (c : ErrorCode) (errs : Errors) : bool :=
  existsb (fun e => bool_decide (Error.Code e = c)) errs.

(** [struct SourceLocation] of parser.cc *)
Module SourceLocation.
Record t : Type := mk {
  xmlPath : option string;
  filePath : option string;
  lineNumber : option Z }.

Definition SetSourceLocationOnError (loc : t) (_error : Error.t) : Error.t :=
  let e1 := match xmlPath loc with
            | Some p => Error.SetXmlPath p _error
            | None => _error
            end in
  let e2 := match filePath loc with
            | Some p => Error.SetFilePath p e1
            | None => e1
            end in
  match lineNumber loc with
  | Some l => Error.SetLineNumber l e2
  | None => e2
  end.
End SourceLocation.

(** ** Param.hh *)

(** A type that a Param can hold: printed to and parsed from text. *)
Class ParamValue (T : Type) : Type := {
  toString : T → string;
  fromString : string → option T;
  (** the default-constructed [T()] *)
  construct : T }.

#[global] Instance string_ParamValue : ParamValue string :=
  {| toString := fun s : string => s;
     fromString := fun s : string => Some s;
     construct := "" |}.

#[global] Instance bool_ParamValue : ParamValue bool :=
  {| toString := fun b : bool => if b then "true" else "false";
     fromString := fun s : string =>
       if String.eqb s "true" || String.eqb s "1" then Some true
       else if String.eqb s "false" || String.eqb s "0" then Some false
       else None;
     construct := false |}.


Module Param.
(** Modelled from the spec: sdf::Param (Param.cc is not part of the
    sources at hand).  An attribute or element value "with a declared type,
    default, required flag, and current typed value"; the current value is
    kept in its text form, which is what [GetAsString] returns. *)
Record t : Type := mk {
  GetKey : string;
  GetTypeName : string;
  GetDefaultAsString : string;
  GetRequired : bool;
  GetAsString : string;
  GetSet : bool }.

(** Modelled from the spec: [Set<T>(value)] stores the value (given here
    by its text) and marks the Param as set. *)
Definition Set_ (v : string) (p : t) : t :=
  mk (GetKey p) (GetTypeName p) (GetDefaultAsString p) (GetRequired p) v true.

(** Modelled from the spec: [Reset()] goes back to the declared default and
    clears the set flag. *)
Definition Reset (p : t) : t :=
  mk (GetKey p) (GetTypeName p) (GetDefaultAsString p) (GetRequired p)
     (GetDefaultAsString p) false.

(** A fresh Param as [AddAttribute]/[AddValue] create it. *)
Definition create (k ty def : string) (req : bool) : t :=
  mk k ty def req def false.
End Param.

(** ** Element.hh *)

Module Element.
(** Modelled from the spec: sdf::Element (Element.cc is not part of the
    sources at hand).  "A node with a string name, an ordered list of named
    attributes, an optional typed textual value, an ordered list of child
    elements, a back-reference to a schema description node, and
    source-location metadata".  The child descriptions of the schema node
    are carried by the element itself, as [Clone] copies them. *)
Inductive t : Type := mk {
  GetName : string;
  GetRequired : string;
  GetCopyChildren : bool;
  ReferenceSDF : string;
  attributes : list Param.t;
  GetValue : option Param.t;
  elements : list t;
  elementDescriptions : list t;
  GetIncludeElement : option t;
  FilePath : string;
  OriginalVersion : string;
  LineNumber : option Z;
  XmlPath : string;
  GetExplicitlySetInFile : bool }.

(** [new Element] *)
Definition empty : t :=
  mk "" "" false "" [] None [] [] None "" "" None "" true.

Definition SetName (n : string) (e : t) : t :=
  mk n (GetRequired e) (GetCopyChildren e) (ReferenceSDF e) (attributes e)
     (GetValue e) (elements e) (elementDescriptions e) (GetIncludeElement e)
     (FilePath e) (OriginalVersion e) (LineNumber e) (XmlPath e)
     (GetExplicitlySetInFile e).
Definition SetRequired (r : string) (e : t) : t :=
  mk (GetName e) r (GetCopyChildren e) (ReferenceSDF e) (attributes e)
     (GetValue e) (elements e) (elementDescriptions e) (GetIncludeElement e)
     (FilePath e) (OriginalVersion e) (LineNumber e) (XmlPath e)
     (GetExplicitlySetInFile e).
Definition SetCopyChildren (b : bool) (e : t) : t :=
  mk (GetName e) (GetRequired e) b (ReferenceSDF e) (attributes e)
     (GetValue e) (elements e) (elementDescriptions e) (GetIncludeElement e)
     (FilePath e) (OriginalVersion e) (LineNumber e) (XmlPath e)
     (GetExplicitlySetInFile e).
Definition SetReferenceSDF (r : string) (e : t) : t :=
  mk (GetName e) (GetRequired e) (GetCopyChildren e) r (attributes e)
     (GetValue e) (elements e) (elementDescriptions e) (GetIncludeElement e)
     (FilePath e) (OriginalVersion e) (LineNumber e) (XmlPath e)
     (GetExplicitlySetInFile e).
Definition setAttributes (a : list Param.t) (e : t) : t :=
  mk (GetName e) (GetRequired e) (GetCopyChildren e) (ReferenceSDF e) a
     (GetValue e) (elements e) (elementDescriptions e) (GetIncludeElement e)
     (FilePath e) (OriginalVersion e) (LineNumber e) (XmlPath e)
     (GetExplicitlySetInFile e).
Definition setValue (v : option Param.t) (e : t) : t :=
  mk (GetName e) (GetRequired e) (GetCopyChildren e) (ReferenceSDF e)
     (attributes e) v (elements e) (elementDescriptions e)
     (GetIncludeElement e) (FilePath e) (OriginalVersion e) (LineNumber e)
     (XmlPath e) (GetExplicitlySetInFile e).
Definition setElements (l : list t) (e : t) : t :=
  mk (GetName e) (GetRequired e) (GetCopyChildren e) (ReferenceSDF e)
     (attributes e) (GetValue e) l (elementDescriptions e)
     (GetIncludeElement e) (FilePath e) (OriginalVersion e) (LineNumber e)
     (XmlPath e) (GetExplicitlySetInFile e).
Definition setElementDescriptions (l : list t) (e : t) : t :=
  mk (GetName e) (GetRequired e) (GetCopyChildren e) (ReferenceSDF e)
     (attributes e) (GetValue e) (elements e) l (GetIncludeElement e)
     (FilePath e) (OriginalVersion e) (LineNumber e) (XmlPath e)
     (GetExplicitlySetInFile e).
Definition SetIncludeElement (i : t) (e : t) : t :=
  mk (GetName e) (GetRequired e) (GetCopyChildren e) (ReferenceSDF e)
     (attributes e) (GetValue e) (elements e) (elementDescriptions e)
     (Some i) (FilePath e) (OriginalVersion e) (LineNumber e) (XmlPath e)
     (GetExplicitlySetInFile e).
Definition SetFilePath (p : string) (e : t) : t :=
  mk (GetName e) (GetRequired e) (GetCopyChildren e) (ReferenceSDF e)
     (attributes e) (GetValue e) (elements e) (elementDescriptions e)
     (GetIncludeElement e) p (OriginalVersion e) (LineNumber e) (XmlPath e)
     (GetExplicitlySetInFile e).
Definition SetOriginalVersion (v : string) (e : t) : t :=
  mk (GetName e) (GetRequired e) (GetCopyChildren e) (ReferenceSDF e)
     (attributes e) (GetValue e) (elements e) (elementDescriptions e)
     (GetIncludeElement e) (FilePath e) v (LineNumber e) (XmlPath e)
     (GetExplicitlySetInFile e).
Definition SetLineNumber (l : Z) (e : t) : t :=
  mk (GetName e) (GetRequired e) (GetCopyChildren e) (ReferenceSDF e)
     (attributes e) (GetValue e) (elements e) (elementDescriptions e)
     (GetIncludeElement e) (FilePath e) (OriginalVersion e) (Some l)
     (XmlPath e) (GetExplicitlySetInFile e).
Definition SetXmlPath (p : string) (e : t) : t :=
  mk (GetName e) (GetRequired e) (GetCopyChildren e) (ReferenceSDF e)
     (attributes e) (GetValue e) (elements e) (elementDescriptions e)
     (GetIncludeElement e) (FilePath e) (OriginalVersion e) (LineNumber e)
     p (GetExplicitlySetInFile e).
Definition SetExplicitlySetInFile (b : bool) (e : t) : t :=
  mk (GetName e) (GetRequired e) (GetCopyChildren e) (ReferenceSDF e)
     (attributes e) (GetValue e) (elements e) (elementDescriptions e)
     (GetIncludeElement e) (FilePath e) (OriginalVersion e) (LineNumber e)
     (XmlPath e) b.

(** *** Attributes *)

(** Modelled from the spec: [GetAttribute(key)], the first attribute of
    that name, null when there is none. *)
Definition GetAttribute (k : string) (e : t) : option Param.t :=
  List.find (fun p => String.eqb (Param.GetKey p) k) (attributes e).

Definition HasAttribute (k : string) (e : t) : bool :=
  bool_decide (is_Some (GetAttribute k e)).

(** Modelled from the spec: [AddAttribute(key, type, default, required)]
    appends a fresh attribute. *)
Definition AddAttribute (k ty def : string) (req : bool) (e : t) : t :=
  setAttributes (attributes e ++ [Param.create k ty def req]) e.

(** The shared Param object of an attribute, written through the pointer
    that [GetAttribute] returned: the first attribute of that key is
    replaced. *)
Fixpoint storeParam (p : Param.t) (l : list Param.t) : list Param.t :=
  match l with
  | [] => []
  | q :: l' =>
      if String.eqb (Param.GetKey q) (Param.GetKey p) then p :: l'
      else q :: storeParam p l'
  end.

(** [GetAttribute(k)->Set(v)]: a null dereference when the attribute does
    not exist. *)
Definition setAttribute (k v : string) (e : t) : option t :=
  p ← GetAttribute k e;
  Some (setAttributes (storeParam (Param.Set_ v p) (attributes e)) e).

(** *** Value *)

(** Modelled from the spec: [AddValue(type, default, required)]. *)
Definition AddValue (ty def : string) (req : bool) (e : t) : t :=
  setValue (Some (Param.create "" ty def req)) e.

(** Modelled from the spec: [Set<T>(value)] on an element sets its value
    Param and reports whether the element has one. *)
Definition Set_ (v : string) (e : t) : t :=
  match GetValue e with
  | Some p => setValue (Some (Param.Set_ v p)) e
  | None => e
  end.

(** *** Children *)

(** Modelled from the spec: [GetElementImpl(name)] / [FindElement(name)]
    (read-only): the first child of that name, null when there is none. *)
Definition GetElementImpl (n : string) (e : t) : option t :=
  List.find (fun c => String.eqb (GetName c) n) (elements e).

Definition FindElement := GetElementImpl.

Definition HasElement (n : string) (e : t) : bool :=
  existsb (fun c => String.eqb (GetName c) n) (elements e).

Definition GetFirstElement (e : t) : option t := head (elements e).

(** Modelled from the spec: [GetElementDescription(name)]. *)
Definition GetElementDescription (n : string) (e : t) : option t :=
  List.find (fun d => String.eqb (GetName d) n) (elementDescriptions e).

Definition HasElementDescription (n : string) (e : t) : bool :=
  existsb (fun d => String.eqb (GetName d) n) (elementDescriptions e).

Definition AddElementDescription (d : t) (e : t) : t :=
  setElementDescriptions (elementDescriptions e ++ [d]) e.

(** Modelled from the spec: [InsertElement(child)] appends the child. *)
Definition InsertElement (c : t) (e : t) : t :=
  setElements (elements e ++ [c]) e.

(** The child object behind a pointer obtained from [GetElementImpl]: the
    first child of that name is replaced by its mutated state. *)
Fixpoint storeChild (c : t) (l : list t) : list t :=
  match l with
  | [] => []
  | d :: l' =>
      if String.eqb (GetName d) (GetName c) then c :: l'
      else d :: storeChild c l'
  end.

Definition storeElementImpl (c : t) (e : t) : t :=
  setElements (storeChild c (elements e)) e.

(** The child object behind the pointer that [AddElement] returned: it is
    the last child. *)
Definition storeLastElement (c : t) (e : t) : t :=
  setElements (removelast (elements e) ++ [c]) e.

(** Modelled from the spec: "instance nodes clone from the matching
    description when inserted"; the clone of a description [d] comes with
    a clone of every child description that [d] requires ("1"), which is
    how defaults are materialised. *)
Fixpoint instantiate (d : t) : t :=
  match d with
  | mk n r cc ref a v els ds inc fp ov ln xp ex =>
      let find_inst :=
        fix find_inst (l : list t) (nm : string) : option t :=
          match l with
          | [] => None
          | d' :: l' =>
              if String.eqb (GetName d') nm then Some (instantiate d')
              else find_inst l' nm
          end in
      let add_required :=
        fix add_required (l : list t) (acc : list t) : list t :=
          match l with
          | [] => acc
          | d2 :: l' =>
              if String.eqb (GetRequired d2) "1" then
                match find_inst ds (GetName d2) with
                | Some c => add_required l' (acc ++ [c])
                | None => add_required l' acc
                end
              else add_required l' acc
          end in
      mk n r cc ref a v (add_required ds els) ds inc fp ov ln xp ex
  end.

(** Modelled from the spec: [AddElement(name)] clones the description of
    that name, appends the clone and returns it; null (and no change) when
    the element has no such description.  The result pairs the new child
    with the element that now holds it. *)
Definition AddElement (n : string) (e : t) : option (t * t) :=
  d ← GetElementDescription n e;
  let c := instantiate d in
  Some (c, InsertElement c e).

(** Modelled from the spec: [GetElement(name)] "creates-with-defaults on
    access": the first child of that name, added first when missing. *)
Definition GetElement (n : string) (e : t) : option (t * t) :=
  match GetElementImpl n e with
  | Some c => Some (c, e)
  | None => AddElement n e
  end.
(** Modelled from the spec: [SetParent(parent)]; an element without a file
    path or an original version of its own takes those of its parent. *)
Definition SetParent (parent : t) (e : t) : t :=
  let e := if String.eqb (FilePath e) "" then SetFilePath (FilePath parent) e
           else e in
  if String.eqb (OriginalVersion e) ""
  then SetOriginalVersion (OriginalVersion parent) e
  else e.

(** Modelled from the spec: "typed [Get<T>(name, default)] returning
    (value, explicitly_set)"; "a schema mismatch during typed Get is a
    recoverable error (returns default + false)".  With an empty key the
    element's own value is read; otherwise the attribute of that name, else
    the value of the child of that name, else the default of the child
    description of that name. *)
Definition getParam {T} `{ParamValue T} (p : Param.t) (_defaultValue : T)
    : T * bool :=
  match fromString (Param.GetAsString p) with
  | Some v => (v, true)
  | None => (_defaultValue, false)
  end.

Definition getValue {T} `{ParamValue T} (_defaultValue : T) (e : t)
    : T * bool :=
  match GetValue e with
  | Some p => getParam p _defaultValue
  | None => (_defaultValue, false)
  end.

Definition Get {T} `{ParamValue T} (_key : string) (_defaultValue : T)
    (e : t) : T * bool :=
  if String.eqb _key "" then getValue _defaultValue e
  else
    match GetAttribute _key e with
    | Some p => getParam p _defaultValue
    | None =>
        match GetElementImpl _key e with
        | Some c => (fst (getValue construct c), true)
        | None =>
            match GetElementDescription _key e with
            | Some d => (fst (getValue construct d), true)
            | None => (_defaultValue, false)
            end
        end
    end.

(** [Get<T>(key)], the one-argument form. *)
Definition Get1 {T} `{ParamValue T} (_key : string) (e : t) : T :=
  fst (Get _key construct e).
(** The position and the state of the first child of that name: the
    pointer that [GetElement(name)] yields when [HasElement(name)]. *)
Fixpoint findChild (n : string) (l : list t) : option (nat * t) :=
  match l with
  | [] => None
  | c :: l' =>
      if String.eqb (GetName c) n then Some (0, c)
      else '(i, d) ← findChild n l'; Some (S i, d)
  end.

(** The child object behind a pointer into the child vector, by position. *)
Definition storeElementAt (i : nat) (c : t) (e : t) : t :=
  setElements (<[i := c]> (elements e)) e.

(** Modelled from the spec: [GetNextElement(name)] of the child at position
    [i] of [parent]: its next sibling of that name. *)
Definition GetNextElement (n : string) (i : nat) (parent : t) : option t :=
  List.find (fun c => String.eqb (GetName c) n) (drop (S i) (elements parent)).
End Element.

(** Mutation through a child pointer.  [withElementImpl n f e] is
    [f(e->GetElementImpl(n))] for an [f] that returns at once on a null
    pointer and otherwise mutates its pointee; [withElement] is the same
    through [GetElement], which creates the child when it can. *)
Definition withElementImpl (n : string) (f : Element.t → option Element.t)
    (e : Element.t) : option Element.t :=
  match Element.GetElementImpl n e with
  | None => Some e
  | Some c => c' ← f c; Some (Element.storeElementImpl c' e)
  end.

Definition withElement (n : string) (f : Element.t → option Element.t)
    (e : Element.t) : option Element.t :=
  match Element.GetElement n e with
  | None => Some e
  | Some (c, e1) => c' ← f c; Some (Element.storeElementImpl c' e1)
  end.

(** ** tinyxml2 *)

(** The DOM of the XML tokenizer: "any DOM library giving
    element/attribute/line-number access suffices". *)
Module XMLAttribute.
Record t : Type := mk {
  Name : string;
  Value : string;
  GetLineNum : Z }.
End XMLAttribute.

Module XMLElement.
Inductive t : Type := mk {
  Value : string;
  attributes : list XMLAttribute.t;
  GetText : option string;
  children : list t;
  GetLineNum : Z }.

(** [Attribute(name)]: the value of the first attribute of that name. *)
Definition Attribute (n : string) (x : t) : option string :=
  XMLAttribute.Value <$>
    List.find (fun a => String.eqb (XMLAttribute.Name a) n) (attributes x).

(** [FirstChildElement(name)] *)
Definition FirstChildElement (n : string) (x : t) : option t :=
  List.find (fun c => String.eqb (Value c) n) (children x).
End XMLElement.

Module XMLDocument.
Record t : Type := mk { children : list XMLElement.t }.

(** [FirstChildElement(name)] of the document *)
Definition FirstChildElement (n : string) (d : t) : option XMLElement.t :=
  List.find (fun c => String.eqb (XMLElement.Value c) n) (children d).
End XMLDocument.

(** ** ParserConfig.hh, SDFImpl.hh *)

Inductive EnforcementPolicy : Type := ERR | WARN | LOG.

Inductive CustomModelParser : Type := customModelParser (id : nat).

Module ParserConfig.
Record t : Type := mk {
  WarningsPolicy : EnforcementPolicy;
  UnrecognizedElementsPolicy : EnforcementPolicy;
  DeprecatedElementsPolicy : EnforcementPolicy;
  CustomModelParsers : list CustomModelParser }.

Definition GlobalConfig : t := mk WARN WARN WARN [].
End ParserConfig.

Module SDF.
(** Modelled from the spec: sdf::SDF (SDFImpl.cc is not part of the
    sources at hand), the holder of the root element of a document, its
    file path and its original version. *)
Record t : Type := mk {
  Root : option Element.t;
  FilePath : string;
  OriginalVersion : string }.

Definition SetRoot (r : Element.t) (s : t) : t :=
  mk (Some r) (FilePath s) (OriginalVersion s).

(** [SetFilePath] and [SetOriginalVersion] also stamp the root element. *)
Definition SetFilePath (p : string) (s : t) : t :=
  mk (Element.SetFilePath p <$> Root s) p (OriginalVersion s).
Definition SetOriginalVersion (v : string) (s : t) : t :=
  mk (Element.SetOriginalVersion v <$> Root s) (FilePath s) v.
End SDF.

(** ** The math library *)

(** The external numeric types ("any library providing Pose3 composition
    and MassMatrix3 validity checks"), with the constants the code names. *)
Class IgnitionMath : Type := {
  double : Type;
  float : Type;
  Pose3d : Type;
  Color : Type;
  (** [unsigned int] *)
  unsigned : Type;
  double_ParamValue :: ParamValue double;
  unsigned_ParamValue :: ParamValue unsigned;
  float_ParamValue :: ParamValue float;
  Pose3d_ParamValue :: ParamValue Pose3d;
  Color_ParamValue :: ParamValue Color;
  (** the literals [0.0] and [1.0] *)
  double_0 : double;
  double_1 : double;
  float_0 : float;
  Pose3d_Zero : Pose3d;
  (** [Color(0, 0, 0, 1)] *)
  Color_0001 : Color;
  (** [MassMatrix3d(mass, xxyyzz, xyxzyz).IsValid()] *)
  MassMatrix3d_IsValid :
    double → double * double * double → double * double * double → bool }.

(** ** Model.hh, Root.hh *)

Module Model.
(** Modelled from the spec: the accessors of sdf::Model that the include
    resolver reads (Model.cc is not part of the sources at hand): "name,
    raw pose, pose-relative-to string, optional placement-frame string",
    the relative name of the canonical link
    ([CanonicalLinkAndRelativeName().second]) and the model's semantic
    pose resolver, which "resolves model pose under placement-frame
    semantics": [SemanticPose_Resolve p] is [SemanticPose().Resolve(p)],
    returning the errors and the content of its in-out argument. *)
Record t {Math : IgnitionMath} : Type := mk {
  Name : string;
  RawPose : Pose3d;
  PoseRelativeTo : string;
  PlacementFrameName : string;
  CanonicalLinkRelativeName : string;
  SemanticPose_Resolve : Pose3d → Errors * Pose3d }.
End Model.

(** Modelled from the spec: [sdf::Root::Load(SDFPtr, config)] followed by
    [Root::Model()] (Root.cc is not part of the sources at hand): the typed
    loader reads the element tree and yields its errors and the top-level
    model, if any. *)
Class RootLoader {Math : IgnitionMath} : Type := {
  Root_Load : SDF.t → ParserConfig.t → Errors * option Model.t }.

(** ** parser.cc: the include resolver *)

(** [computeMergedModelProxyFrameName] *)
Definition computeMergedModelProxyFrameName (_modelName : string) : string :=
  "_merged__" +:+ _modelName +:+ "__model__".

(** The lambda [setAttributeToProxyFrame] of [insertIncludedElement], at a
    non-null [_elem]; the null case is that of [withElementImpl]. *)
Definition setAttributeToProxyFrame (proxyModelFrameName : string)
    (_attr : string) (_elem : Element.t) (updateIfEmpty : bool)
    : option Element.t :=
  attribute ← Element.GetAttribute _attr _elem;
  if String.eqb (Param.GetAsString attribute) "__model__"
     || (updateIfEmpty && String.eqb (Param.GetAsString attribute) "")
  then Element.setAttribute _attr proxyModelFrameName _elem
  else Some _elem.

(** The rewriting of one child of the merged model: the if/else-if chain in
    the body of the loop of [insertIncludedElement]. *)
Definition rewriteMergedChild (proxyModelFrameName : string)
    (elem : Element.t) : option Element.t :=
  let name := Element.GetName elem in
  if String.eqb name "link" || String.eqb name "model" then
    (* Add a pose element even if the element doesn't originally have one *)
    withElement "pose"
      (fun pose => setAttributeToProxyFrame proxyModelFrameName
                     "relative_to" pose true) elem
  else if String.eqb name "frame" then
    elem ← setAttributeToProxyFrame proxyModelFrameName
              "attached_to" elem true;
    withElementImpl "pose"
      (fun pose => setAttributeToProxyFrame proxyModelFrameName
                     "relative_to" pose false) elem
  else if String.eqb name "joint" then
    elem ← withElementImpl "pose"
              (fun pose => setAttributeToProxyFrame proxyModelFrameName
                             "relative_to" pose false) elem;
    let rename := fun end_ : Element.t =>
      if String.eqb (Element.Get1 (T:=string) "" end_) "__model__"
      then Some (Element.Set_ proxyModelFrameName end_)
      else Some end_ in
    elem ← withElementImpl "parent" rename elem;
    elem ← withElementImpl "child" rename elem;
    let expressedIn := fun axis : Element.t =>
      withElementImpl "xyz"
        (fun xyz => setAttributeToProxyFrame proxyModelFrameName
                      "expressed_in" xyz false) axis in
    elem ← withElementImpl "axis" expressedIn elem;
    withElementImpl "axis2" expressedIn elem
  else Some elem.

(** Only named and custom elements are copied. *)
Definition isHoisted (elem : Element.t) : bool :=
  let name := Element.GetName elem in
  String.eqb name "link" || String.eqb name "model"
  || String.eqb name "joint" || String.eqb name "frame"
  || String.eqb name "gripper" || String.eqb name "plugin"
  || contains ":" name.

(** The loop of [insertIncludedElement] over the children of the merged
    model, from [GetFirstElement] along [GetNextElement]. *)
Fixpoint mergeChildren (proxyModelFrameName : string)
    (elems : list Element.t) (_parent : Element.t) : option Element.t :=
  match elems with
  | [] => Some _parent
  | elem :: nextElems =>
      elem ← rewriteMergedChild proxyModelFrameName elem;
      mergeChildren proxyModelFrameName nextElems
        (if isHoisted elem then Element.InsertElement elem _parent
         else _parent)
  end.

Section IncludeResolver.
Context {Math : IgnitionMath} {RL : RootLoader}.

(** [insertIncludedElement]: the parent element after the insertion and
    the extended error vector. *)
Definition insertIncludedElement (_includeSDF : SDF.t)
    (_sourceLoc : SourceLocation.t) (_merge : bool) (_parent : Element.t)
    (_config : ParserConfig.t) (_errors : Errors)
    : option (Element.t * Errors) :=
  let invalidFileError :=
    SourceLocation.SetSourceLocationOnError _sourceLoc
      (Error.make FILE_READ "Included model is invalid. Skipping model.") in
  match SDF.Root _includeSDF with
  | None => Some (_parent, _errors ++ [invalidFileError])
  | Some rootElem =>
  match Element.GetFirstElement rootElem with
  | None => Some (_parent, _errors ++ [invalidFileError])
  | Some firstElem =>
  if negb _merge then
    Some (Element.InsertElement firstElem _parent, _errors)
  else if negb (String.eqb (Element.GetName firstElem) "model") then
    let unsupportedError :=
      SourceLocation.SetSourceLocationOnError _sourceLoc
        (Error.make MERGE_INCLUDE_UNSUPPORTED
           "Merge-include is only supported for included models") in
    Some (_parent, _errors ++ [unsupportedError])
  else if negb (String.eqb (Element.GetName _parent) "model") then
    let unsupportedError :=
      SourceLocation.SetSourceLocationOnError _sourceLoc
        (Error.make MERGE_INCLUDE_UNSUPPORTED
           ("Merge-include does not support parent element of type " +:+
            Element.GetName _parent)) in
    Some (_parent, _errors ++ [unsupportedError])
  else
    (* Validate included model's frame semantics *)
    let '(includeDOMerrors, model) := Root_Load _includeSDF _config in
    let _errors := _errors ++ includeDOMerrors in
    match model with
    | None =>
        let unsupportedError :=
          SourceLocation.SetSourceLocationOnError _sourceLoc
            (Error.make MERGE_INCLUDE_UNSUPPORTED
               "Included model is invalid. Skipping model.") in
        Some (_parent, _errors ++ [unsupportedError])
    | Some model =>
        '(proxyModelFrame, _parent) ← Element.AddElement "frame" _parent;
        let proxyModelFrameName :=
          computeMergedModelProxyFrameName (Model.Name model) in
        proxyModelFrame ←
          Element.setAttribute "name" proxyModelFrameName proxyModelFrame;
        (* Determine the canonical link so the proxy frame can be attached
           to it *)
        let canonicalLinkName := Model.CanonicalLinkRelativeName model in
        proxyModelFrame ←
          Element.setAttribute "attached_to" canonicalLinkName
            proxyModelFrame;
        let '(_errors, modelPose) :=
          if negb (String.eqb (Model.PlacementFrameName model) "") then
            let '(resolveErrors, X_RM) :=
              Model.SemanticPose_Resolve model (Model.RawPose model) in
            (_errors ++ resolveErrors, X_RM)
          else (_errors, Model.RawPose model) in
        '(proxyModelFramePose, proxyModelFrame) ←
          Element.AddElement "pose" proxyModelFrame;
        let proxyModelFramePose :=
          Element.Set_ (toString modelPose) proxyModelFramePose in
        (* If empty, use "__model__" *)
        let modelPoseRelativeTo :=
          if String.eqb (Model.PoseRelativeTo model) "" then "__model__"
          else Model.PoseRelativeTo model in
        proxyModelFramePose ←
          Element.setAttribute "relative_to" modelPoseRelativeTo
            proxyModelFramePose;
        let proxyModelFrame :=
          Element.storeLastElement proxyModelFramePose proxyModelFrame in
        let _parent := Element.storeLastElement proxyModelFrame _parent in
        _parent ← mergeChildren proxyModelFrameName
                    (Element.elements firstElem) _parent;
        Some (_parent, _errors)
    end
  end
  end.
End IncludeResolver.

(** ** parser.cc: the XML reader *)

(** The characters that a string literal cannot hold. *)
Definition dq : string := String (Ascii.ascii_of_nat 34) EmptyString.
Definition nl : string := String (Ascii.ascii_of_nat 10) EmptyString.

(** A loop whose body may leave the enclosing function with [return false]:
    the body answers [true] to go on with the next item. *)
Fixpoint forEach {A S : Type} (body : A → S → option (bool * S))
    (l : list A) (s : S) : option (bool * S) :=
  match l with
  | [] => Some (true, s)
  | a :: l' =>
      match body a s with
      | None => None
      | Some (false, s') => Some (false, s')
      | Some (true, s') => forEach body l' s'
      end
  end.

(** Modelled from the spec: [enforceConfigurablePolicyCondition] (Utils.cc
    is not part of the sources at hand): the policy decides whether the
    condition is recorded as an error or only reported as a warning. *)
Definition enforceConfigurablePolicyCondition (_policy : EnforcementPolicy)
    (_error : Error.t) (_errors : Errors) : Errors :=
  match _policy with
  | ERR => _errors ++ [_error]
  | WARN | LOG => _errors
  end.

(** What the reader takes from its collaborators: the constants of
    Types.hh, the version converter, the semantic-version comparison, the
    parsing of Param values, the filesystem locator, the embedded schemas,
    the nested read of an included file and the parameter-passing pass. *)
Class ParserEnv : Type := {
  kSdfStringSource : string;
  kUrdfStringSource : string;
  (** [SDF::Version()] *)
  SDF_Version : string;
  (** [Converter::Convert(doc, version)] *)
  Converter_Convert : XMLDocument.t → string → XMLDocument.t;
  (** [SemanticVersion(v) >= SemanticVersion(major, minor)] *)
  SemanticVersion_ge : string → nat → nat → bool;
  (** [Param::SetFromString]: the Param after a successful parse, [None]
      when it returns false *)
  Param_SetFromString : string → Param.t → option Param.t;
  (** [Param::Reparse] *)
  Param_Reparse : Param.t → option Param.t;
  isValidFrameReference : string → bool;
  (** [XMLUtil::ToBool] *)
  XMLUtil_ToBool : string → option bool;
  findFile : string → bool → bool → ParserConfig.t → string;
  filesystem_is_directory : string → bool;
  getModelFilePath : string → string;
  (** [initFile(filename, config, element)]: the element initialised from
      the embedded schema of that name *)
  initFile : string → ParserConfig.t → Element.t → bool * Element.t;
  (** [init(sdf, config)] *)
  init : SDF.t → ParserConfig.t → bool * SDF.t;
  (** [readFile(filename, config, sdf, errors)]: the nested read of another
      document *)
  readFile :
    string → ParserConfig.t → SDF.t → Errors → bool * SDF.t * Errors;
  (** [ParamPassing::updateParams(config, source, params, root, errors)] *)
  ParamPassing_updateParams :
    ParserConfig.t → string → XMLElement.t → Element.t → Errors →
    Element.t * Errors }.

(** [SetFromString] through a Param pointer: the Param is left as it was
    when the parse fails. *)
Definition setFromString `{ParserEnv} (v : string) (p : Param.t) : Param.t :=
  default p (Param_SetFromString v p).

(** [GetAttribute(k)->SetFromString(v)] *)
Definition attributeSetFromString `{ParserEnv} (k v : string)
    (e : Element.t) : option Element.t :=
  p ← Element.GetAttribute k e;
  Some (Element.setAttributes
          (Element.storeParam (setFromString v p) (Element.attributes e)) e).

(** [GetValue()->SetFromString(v)] *)
Definition valueSetFromString `{ParserEnv} (v : string) (e : Element.t)
    : option Element.t :=
  p ← Element.GetValue e;
  Some (Element.setValue (Some (setFromString v p)) e).

(** [BoolAttribute(name, default)] *)
Definition BoolAttribute `{ParserEnv} (n : string) (_default : bool)
    (x : XMLElement.t) : bool :=
  match XMLElement.Attribute n x with
  | Some v => default _default (XMLUtil_ToBool v)
  | None => _default
  end.

(** [_fileName.substr(_fileName.rfind('.'))] *)
Fixpoint extension (_fileName : string) : option string :=
  match _fileName with
  | EmptyString => None
  | String c rest =>
      match extension rest with
      | Some ext => Some ext
      | None => if Ascii.eqb c "."%char then Some _fileName else None
      end
  end.

(** [isSdfFile] *)
Definition isSdfFile (_fileName : string) : bool :=
  match extension _fileName with
  | Some ext => String.eqb ext ".sdf" || String.eqb ext ".world"
  | None => false
  end.

(** [checkXmlFromRoot] *)
Definition checkXmlFromRoot `{ParserEnv} (_xmlRoot : option XMLElement.t)
    (_source : string) (_errors : Errors) : bool * Errors :=
  match _xmlRoot with
  | None => (true, _errors)
  | Some _xmlRoot =>
      let errorSourcePath :=
        if String.eqb _source kSdfStringSource
           || String.eqb _source kUrdfStringSource
        then "<" +:+ _source +:+ ">" else _source in
      (* Top level models must have an empty relative_to frame on the top
         level pose. *)
      match XMLElement.FirstChildElement "model" _xmlRoot with
      | Some topLevelElem =>
          match XMLElement.FirstChildElement "pose" topLevelElem with
          | Some topLevelPose =>
              match XMLElement.Attribute "relative_to" topLevelPose with
              | Some relativeToStr =>
                  if negb (String.eqb relativeToStr "") then
                    (false,
                     _errors ++
                     [Error.makeAt ATTRIBUTE_INVALID
                        ("Attribute //pose[@relative_to] of top level model "
                         +:+ "must be left empty, found //pose[@relative_to='"
                         +:+ relativeToStr +:+ "']." +:+ nl)
                        errorSourcePath
                        (XMLElement.GetLineNum topLevelPose)])
                  else (true, _errors)
              | None => (true, _errors)
              end
          | None => (true, _errors)
          end
      | None => (true, _errors)
      end
  end.

(** [shouldValidateElement] *)
Definition shouldValidateElement (_elem : Element.t) : bool :=
  if String.eqb (Element.GetName _elem) "plugin" then false
  else if contains ":" (Element.GetName _elem) then false
  else true.

(** The loop [result = f(child) && result] over the children. *)
Fixpoint andChildren (f : Element.t → bool) (l : list Element.t)
    (result : bool) : bool :=
  match l with
  | [] => result
  | child :: l' => andChildren f l' (f child && result)
  end.

(** [recursiveSiblingNoDoubleColonInNames] *)
Fixpoint recursiveSiblingNoDoubleColonInNames (_elem : Element.t) : bool :=
  if negb (shouldValidateElement _elem) then true
  else
    let result :=
      if Element.HasAttribute "name" _elem
         && contains "::" (Element.Get1 (T:=string) "name" _elem)
      then false else true in
    andChildren recursiveSiblingNoDoubleColonInNames
      (Element.elements _elem) result.

(** The attributes that hold a frame reference. *)
Definition frameReferenceAttributes : list (string * string) :=
  [ ("frame", "attached_to");
    ("pose", "relative_to");
    ("model", "placement_frame");
    ("model", "canonical_link");
    ("custom_rpy", "parent_frame") ].

(** The body of the loop of [readAttributes] over the XML attributes. *)
Definition readAttribute `{ParserEnv} (_xml : XMLElement.t)
    (_config : ParserConfig.t) (_errorSourcePath : string)
    (attribute : XMLAttribute.t) (st : Element.t * Errors)
    : option (bool * (Element.t * Errors)) :=
  let '(_sdf, _errors) := st in
  let name := XMLAttribute.Name attribute in
  let value := XMLAttribute.Value attribute in
  if contains ":" name then
    (* a namespaced attribute *)
    let _sdf := Element.AddAttribute name "string" "" true _sdf in
    Some (true, (default _sdf (attributeSetFromString name value _sdf),
                 _errors))
  else
    let attributeXmlPath :=
      Element.XmlPath _sdf +:+ "[@" +:+ name +:+ "=" +:+ dq +:+ value
      +:+ dq +:+ "]" in
    (* Find the matching attribute in SDF *)
    match Element.GetAttribute name _sdf with
    | Some p =>
        let _errors :=
          if existsb (fun fr => String.eqb (fst fr) (Element.GetName _sdf)
                                && String.eqb (snd fr) name)
               frameReferenceAttributes
             && negb (isValidFrameReference value)
          then _errors ++
               [Error.SetXmlPath attributeXmlPath
                  (Error.makeAt ATTRIBUTE_INVALID
                     ("'" +:+ value +:+
                      "' is reserved; it cannot be used as a value of "
                      +:+ "attribute [" +:+ Param.GetKey p +:+ "]")
                     _errorSourcePath (XMLAttribute.GetLineNum attribute))]
          else _errors in
        (* Set the value of the SDF attribute *)
        match Param_SetFromString value p with
        | None =>
            Some (false,
                  (_sdf,
                   _errors ++
                   [Error.SetXmlPath attributeXmlPath
                      (Error.makeAt ATTRIBUTE_INVALID
                         ("Unable to read attribute[" +:+ Param.GetKey p
                          +:+ "]")
                         _errorSourcePath
                         (XMLAttribute.GetLineNum attribute))]))
        | Some p' =>
            Some (true,
                  (Element.setAttributes
                     (Element.storeParam p' (Element.attributes _sdf)) _sdf,
                   _errors))
        end
    | None =>
        Some (true,
              (_sdf,
               enforceConfigurablePolicyCondition
                 (ParserConfig.WarningsPolicy _config)
                 (Error.SetXmlPath attributeXmlPath
                    (Error.makeAt ATTRIBUTE_INCORRECT_TYPE
                       ("XML Attribute[" +:+ name +:+ "] in element[" +:+
                        XMLElement.Value _xml +:+ "] not defined in SDF."
                        +:+ nl)
                       _errorSourcePath (XMLElement.GetLineNum _xml)))
                 _errors))
    end.

(** [readAttributes] *)
Definition readAttributes `{ParserEnv} (_xml : XMLElement.t)
    (_sdf : Element.t) (_config : ParserConfig.t) (_errorSourcePath : string)
    (_errors : Errors) : bool * Element.t * Errors :=
  match forEach (readAttribute _xml _config _errorSourcePath)
          (XMLElement.attributes _xml) (_sdf, _errors) with
  | Some (true, (_sdf, _errors)) =>
      (* Check that all required attributes have been set *)
      match List.find (fun p => Param.GetRequired p && negb (Param.GetSet p))
              (Element.attributes _sdf) with
      | Some p =>
          (false, _sdf,
           _errors ++
           [Error.SetXmlPath (Element.XmlPath _sdf)
              (Error.makeAt ATTRIBUTE_MISSING
                 ("Required attribute[" +:+ Param.GetKey p +:+
                  "] in element[" +:+ XMLElement.Value _xml +:+
                  "] is not specified in SDF.")
                 _errorSourcePath (XMLElement.GetLineNum _xml))])
      | None => (true, _sdf, _errors)
      end
  | Some (false, (_sdf, _errors)) => (false, _sdf, _errors)
  | None => (false, _sdf, _errors)
  end.

(** [copyChildren] *)
Fixpoint copyChildren `{ParserEnv} (_sdf : Element.t) (_xml : XMLElement.t)
    (_onlyUnknown : bool) {struct _xml} : option Element.t :=
  (fix loop (l : list XMLElement.t) (_sdf : Element.t) : option Element.t :=
     match l with
     | [] => Some _sdf
     | elemXml :: l' =>
         let elemName := XMLElement.Value elemXml in
         _sdf ←
           (if Element.HasElementDescription elemName _sdf then
              if negb _onlyUnknown then
                '(element, _sdf) ← Element.AddElement elemName _sdf;
                (* FIXME: copy attributes *)
                element ←
                  foldl (fun (oe : option Element.t) attribute =>
                           element ← oe;
                           attributeSetFromString
                             (XMLAttribute.Name attribute)
                             (XMLAttribute.Value attribute) element)
                    (Some element) (XMLElement.attributes elemXml);
                (* copy value *)
                element ←
                  match XMLElement.GetText elemXml with
                  | Some value => valueSetFromString value element
                  | None => Some element
                  end;
                element ← copyChildren element elemXml _onlyUnknown;
                Some (Element.storeLastElement element _sdf)
              else Some _sdf
            else
              let element := Element.SetParent _sdf Element.empty in
              let element := Element.SetName elemName element in
              let element :=
                foldl (fun element attribute =>
                         let element :=
                           Element.AddAttribute (XMLAttribute.Name attribute)
                             "string" "" true element in
                         default element
                           (attributeSetFromString
                              (XMLAttribute.Name attribute)
                              (XMLAttribute.Value attribute) element))
                  element (XMLElement.attributes elemXml) in
              let element :=
                match XMLElement.GetText elemXml with
                | Some text => Element.AddValue "string" text true element
                | None => element
                end in
              element ← copyChildren element elemXml _onlyUnknown;
              Some (Element.InsertElement element _sdf));
         loop l' _sdf
     end) (XMLElement.children _xml) _sdf.

(** [resolveFileNameFromUri]: success, the resolved [_fileName] and the
    errors. *)
Definition resolveFileNameFromUri `{ParserEnv} (_includeXml : XMLElement.t)
    (_config : ParserConfig.t) (_includeXmlPath _errorSourcePath : string)
    (_errors : Errors) : option (bool * string * Errors) :=
  let uriXmlPath := _includeXmlPath +:+ "/uri" in
  match XMLElement.FirstChildElement "uri" _includeXml with
  | Some uriElement =>
      uri ← XMLElement.GetText uriElement;
      let modelPath := findFile uri true true _config in
      (* Test the model path *)
      if String.eqb modelPath "" then
        Some (false, "",
              _errors ++
              [Error.SetXmlPath uriXmlPath
                 (Error.makeAt URI_LOOKUP
                    ("Unable to find uri[" +:+ uri +:+ "]")
                    _errorSourcePath (XMLElement.GetLineNum uriElement))])
      else if filesystem_is_directory modelPath then
        (* Get the model.config filename *)
        let _fileName := getModelFilePath modelPath in
        if String.eqb _fileName "" then
          Some (false, _fileName,
                _errors ++
                [Error.SetXmlPath uriXmlPath
                   (Error.makeAt URI_LOOKUP
                      ("Unable to resolve uri[" +:+ uri +:+
                       "] to model path [" +:+ modelPath +:+
                       "] since it does not contain a model.config " +:+
                       "file.")
                      _errorSourcePath (XMLElement.GetLineNum uriElement))])
        else Some (true, _fileName, _errors)
      else Some (true, modelPath, _errors)
  | None =>
      Some (false, "",
            _errors ++
            [Error.SetXmlPath _includeXmlPath
               (Error.makeAt ATTRIBUTE_MISSING
                  "<include> element missing 'uri' attribute"
                  _errorSourcePath (XMLElement.GetLineNum _includeXml))])
  end.

(** What [getBestSupportedModelVersion] takes from its surroundings: the
    version of the parser, and from [ignition::math::SemanticVersion] the
    comparisons of two versions given by their texts. *)
Class SemanticVersion : Type := {
  (** the macro [SDF_VERSION] *)
  SDF_VERSION : string;
  (** [SemanticVersion(a) > SemanticVersion(b)] *)
  SemanticVersion_gt : string → string → bool;
  (** [SemanticVersion(a) <= SemanticVersion(b)] *)
  SemanticVersion_le : string → string → bool }.

(** [NextSiblingElement("sdf")] from [FirstChildElement("sdf")]: the
    [<sdf>] children of the [<model>] of a model.config, in document
    order. *)
Definition sdfSiblings (_modelXML : XMLElement.t) : list XMLElement.t :=
  List.filter (fun c => String.eqb (XMLElement.Value c) "sdf")
    (XMLElement.children _modelXML).

(** The body of the loop of [getBestSupportedModelVersion], for the
    [<sdf>] tag [sdfSearch]; the state is [sdfXML] and [bestVersionStr].
    The warning about a version newer than the parser reads
    [nameSearch->GetText()], a null dereference when the model has no
    [<name>]. *)
Definition betterSupportedVersion `{SemanticVersion}
    (nameSearch : option XMLElement.t) (sdfSearch : XMLElement.t)
    (st : option XMLElement.t * string)
    : option (option XMLElement.t * string) :=
  let '(sdfXML, bestVersionStr) := st in
  match XMLElement.Attribute "version" sdfSearch with
  | Some version =>
      if SemanticVersion_gt version bestVersionStr then
        (* this model is better than the previous one *)
        if SemanticVersion_le version SDF_VERSION then
          (* the parser can read it *)
          Some (Some sdfSearch, version)
        else _ ← nameSearch; Some st
      else Some st
  | None => Some st
  end.

(** [getBestSupportedModelVersion]: the version it returns and the
    [_modelFileName] it sets.  Its messages go to the console; they read
    [nameSearch->GetText()]. *)
Definition getBestSupportedModelVersion `{SemanticVersion}
    (_modelXML : XMLElement.t) : option (string * string) :=
  let sdfXML := head (sdfSiblings _modelXML) in
  let nameSearch := XMLElement.FirstChildElement "name" _modelXML in
  (* If a match is not found, use the latest version of the element that
     is not older than the SDF parser. *)
  '(sdfXML, bestVersionStr) ←
    foldl (fun st sdfSearch =>
             st ← st; betterSupportedVersion nameSearch sdfSearch st)
      (Some (sdfXML, "0.0")) (sdfSiblings _modelXML);
  match sdfXML with
  | None => _ ← nameSearch; Some ("", "")
  | Some sdfXML =>
      match XMLElement.GetText sdfXML with
      | None => _ ← nameSearch; Some ("", "")
      | Some text =>
          _ ← match XMLElement.Attribute "version" sdfXML with
              | Some _ => Some tt
              | None => _ ← nameSearch; Some tt
              end;
          Some (bestVersionStr, text)
      end
  end.

(** The choice of the top-level element of an included file in [readXml]:
    "this chooses the first element in the preference order:
    model->actor->light", with an error for every other kind that is
    present too.  The result is the pointer [topLevelElem], as the position
    and the state of that child of the root. *)
Definition findTopLevelElem (includeRoot : Element.t) (filename : string)
    (_errors : Errors) : option (nat * Element.t) * Errors :=
  foldl
    (fun (acc : option (nat * Element.t) * Errors) (elementType : string) =>
       let '(topLevelElem, _errors) := acc in
       if Element.HasElement elementType includeRoot then
         match topLevelElem with
         | None =>
             (Element.findChild elementType (Element.elements includeRoot),
              _errors)
         | Some (_, top) =>
             (topLevelElem,
              _errors ++
              [Error.SetXmlPath ("/sdf/" +:+ elementType)
                 (Error.makeIn ELEMENT_INCORRECT_TYPE
                    ("Found other top level element <" +:+ elementType +:+
                     "> in addition to <" +:+ Element.GetName top +:+
                     "> in include file.")
                    filename)])
         end
       else acc)
    (None, _errors) ["model"; "actor"; "light"].

(** Check for more than one of the discovered top-level element type. *)
Definition checkNextTopLevelElem (includeRoot : Element.t) (topIdx : nat)
    (topLevelElem : Element.t) (filename : string) (_errors : Errors)
    : Errors :=
  let topLevelElementType := Element.GetName topLevelElem in
  match Element.GetNextElement topLevelElementType topIdx includeRoot with
  | Some nextTopLevelElem =>
      _errors ++
      [Error.SetXmlPath ("/sdf/" +:+ topLevelElementType)
         (Error.makeIn ELEMENT_INCORRECT_TYPE
            ("Found more than one " +:+ Element.GetName topLevelElem +:+
             " for <include>.")
            filename)]
  | None => _errors
  end.

(** The overrides of an [<include>]: [<name>], [<pose>], [<static>] and
    [<placement_frame>], applied to the chosen top-level element.  The
    boolean is false where [readXml] returns false. *)
Definition applyIncludeOverrides `{ParserEnv} (elemXml : XMLElement.t)
    (includeXmlPath _source : string) (topLevelElem : Element.t)
    (_errors : Errors) : option (bool * Element.t * Errors) :=
  let topLevelElementType := Element.GetName topLevelElem in
  let isModel := String.eqb topLevelElementType "model" in
  topLevelElem ←
    match XMLElement.FirstChildElement "name" elemXml with
    | Some nameXml =>
        overrideName ← XMLElement.GetText nameXml;
        topLevelElem ←
          attributeSetFromString "name" overrideName topLevelElem;
        Some (Element.SetXmlPath
                ("/sdf/" +:+ topLevelElementType +:+ "[@name=" +:+ dq +:+
                 overrideName +:+ dq +:+ "]") topLevelElem)
    | None => Some topLevelElem
    end;
  topLevelElem ←
    match XMLElement.FirstChildElement "pose" elemXml with
    | Some poseElemXml =>
        '(poseElem, topLevelElem) ← Element.GetElement "pose" topLevelElem;
        let setAttribute := fun (_attribName : string) (poseElem : Element.t) =>
          match XMLElement.Attribute _attribName poseElemXml,
                Element.GetAttribute _attribName poseElem with
          | Some attrib, Some attribParam =>
              Element.setAttributes
                (Element.storeParam (setFromString attrib attribParam)
                   (Element.attributes poseElem)) poseElem
          | None, Some attribParam =>
              Element.setAttributes
                (Element.storeParam (Param.Reset attribParam)
                   (Element.attributes poseElem)) poseElem
          | _, None => poseElem
          end in
        let poseElem := setAttribute "relative_to" poseElem in
        let poseElem := setAttribute "degrees" poseElem in
        let poseElem := setAttribute "rotation_format" poseElem in
        poseElem ←
          match XMLElement.GetText poseElemXml with
          | Some text => valueSetFromString text poseElem
          | None =>
              p ← Element.GetValue poseElem;
              Some (Element.setValue (Some (Param.Reset p)) poseElem)
          end;
        Some (Element.storeElementImpl poseElem topLevelElem)
    | None => Some topLevelElem
    end;
  topLevelElem ←
    match XMLElement.FirstChildElement "static" elemXml with
    | Some staticXml =>
        if isModel then
          '(staticElem, topLevelElem) ←
            Element.GetElement "static" topLevelElem;
          text ← XMLElement.GetText staticXml;
          staticElem ← valueSetFromString text staticElem;
          Some (Element.storeElementImpl staticElem topLevelElem)
        else Some topLevelElem
    | None => Some topLevelElem
    end;
  match XMLElement.FirstChildElement "placement_frame" elemXml with
  | Some placementFrameElem =>
      if isModel then
        let placementFrameXmlPath := includeXmlPath +:+ "/placement_frame" in
        match XMLElement.FirstChildElement "pose" elemXml with
        | None =>
            Some (false, topLevelElem,
                  _errors ++
                  [Error.SetXmlPath placementFrameXmlPath
                     (Error.makeAt MODEL_PLACEMENT_FRAME_INVALID
                        ("<pose> is required when specifying the "
                         +:+ "placement_frame element")
                        _source (XMLElement.GetLineNum elemXml))])
        | Some _ =>
            placementFrameVal ← XMLElement.GetText placementFrameElem;
            let _errors :=
              if negb (isValidFrameReference placementFrameVal) then
                _errors ++
                [Error.SetXmlPath placementFrameXmlPath
                   (Error.makeAt RESERVED_NAME
                      ("'" +:+ placementFrameVal +:+
                       "' is reserved; it cannot be used as a value of "
                       +:+ "element [placement_frame]")
                      _source (XMLElement.GetLineNum placementFrameElem))]
              else _errors in
            topLevelElem ←
              attributeSetFromString "placement_frame" placementFrameVal
                topLevelElem;
            Some (true, topLevelElem, _errors)
        end
      else Some (true, topLevelElem, _errors)
  | None => Some (true, topLevelElem, _errors)
  end.

(** The first block of [readXml]: "Check if the element pointer is
    deprecated". *)
Definition readXml_deprecated (_sdf : Element.t) (_config : ParserConfig.t)
    (_errors : Errors) : Errors :=
  if String.eqb (Element.GetRequired _sdf) "-1" then
    enforceConfigurablePolicyCondition
      (ParserConfig.DeprecatedElementsPolicy _config)
      (Error.SetXmlPath (Element.XmlPath _sdf)
         (Error.make ELEMENT_DEPRECATED
            ("SDF Element[" +:+ Element.GetName _sdf +:+ "] is deprecated"
             +:+ nl)))
      _errors
  else _errors.

(** [readXml] at a null [_xml]. *)
Definition readXml_null (_sdf : Element.t) (_config : ParserConfig.t)
    (_source : string) (_errors : Errors) : bool * Element.t * Errors :=
  let _errors := readXml_deprecated _sdf _config _errors in
  if String.eqb (Element.GetRequired _sdf) "1"
     || String.eqb (Element.GetRequired _sdf) "+"
  then
    (false, _sdf,
     _errors ++
     [Error.SetXmlPath (Element.XmlPath _sdf)
        (Error.makeIn ELEMENT_MISSING
           ("SDF Element<" +:+ Element.GetName _sdf +:+ "> is missing")
           _source)])
  else (true, _sdf, _errors).

(** The block "check for nested sdf" of [readXml]: the element becomes a
    copy of the referenced schema and keeps its own location. *)
Definition readXml_reference `{ParserEnv} (_sdf : Element.t)
    (_config : ParserConfig.t) : Element.t :=
  let refSDFStr := Element.ReferenceSDF _sdf in
  if negb (String.eqb refSDFStr "") then
    let refSDF := snd (initFile (refSDFStr +:+ ".sdf") _config Element.empty) in
    let copy :=
      Element.SetXmlPath (Element.XmlPath _sdf)
        (Element.SetFilePath (Element.FilePath _sdf) refSDF) in
    match Element.LineNumber _sdf with
    | Some lineNumber => Element.SetLineNumber lineNumber copy
    | None => copy
    end
  else _sdf.

(** The block of [readXml] that reads the text of the element into its
    value; false where [readXml] returns false. *)
Definition readXml_value `{ParserEnv} (_xml : XMLElement.t)
    (_sdf : Element.t) : bool * Element.t :=
  match XMLElement.GetText _xml, Element.GetValue _sdf with
  | Some text, Some v =>
      match Param_SetFromString text v with
      | Some v' => (true, Element.setValue (Some v') _sdf)
      | None => (false, _sdf)
      end
  | None, Some v =>
      match Param_Reparse v with
      | None => (false, _sdf)
      | Some v1 =>
          match Param_SetFromString "" v1 with
          | Some v2 => (true, Element.setValue (Some v2) _sdf)
          | None => (false, Element.setValue (Some v1) _sdf)
          end
      end
  | _, None => (true, _sdf)
  end.

(** The body of the last loop of [readXml], for one child description. *)
Definition readXml_requiredElement (_xml : XMLElement.t) (_source : string)
    (elemDesc : Element.t) (st : Element.t * Errors)
    : option (bool * (Element.t * Errors)) :=
  let '(_sdf, _errors) := st in
  if String.eqb (Element.GetRequired elemDesc) "1"
     || String.eqb (Element.GetRequired elemDesc) "+"
  then
    if negb (Element.HasElement (Element.GetName elemDesc) _sdf) then
      let elemXmlPath :=
        Element.XmlPath _sdf +:+ "/" +:+ Element.GetName elemDesc in
      if String.eqb (Element.GetName _sdf) "joint"
         && negb (String.eqb (Element.Get1 (T:=string) "type" _sdf) "ball")
      then
        Some (false,
              (_sdf,
               _errors ++
               [Error.SetXmlPath elemXmlPath
                  (Error.makeAt ELEMENT_MISSING
                     ("XML Missing required element[" +:+
                      Element.GetName elemDesc +:+
                      "], child of element[" +:+ Element.GetName _sdf
                      +:+ "]")
                     _source (XMLElement.GetLineNum _xml))]))
      else
        (* Add default element *)
        '(defaultElement, _sdf) ←
          Element.AddElement (Element.GetName elemDesc) _sdf;
        Some (true,
              (Element.storeLastElement
                 (Element.SetExplicitlySetInFile false defaultElement) _sdf,
               _errors))
    else Some (true, st)
  else Some (true, st).

(** The last block of [readXml]: "Check that all required elements have
    been set".  Its boolean is the one [readXml] returns. *)
Definition readXml_requiredElements (_xml : XMLElement.t) (_source : string)
    (_sdf : Element.t) (_errors : Errors)
    : option (bool * (Element.t * Errors)) :=
  forEach (readXml_requiredElement _xml _source)
    (Element.elementDescriptions _sdf) (_sdf, _errors).

Section Reader.
Context {Math : IgnitionMath} {RL : RootLoader} {Env : ParserEnv}.

(** [new SDF] *)
Definition SDF_new : SDF.t := SDF.mk (Some Element.empty) "" "".

(** The end of the handling of an [<include>] in [readXml], after the
    overrides and the plugins: parameter passing, the record of the
    [<include>] on the included entity, and the insertion.  The result is
    the including element and the errors. *)
Definition readXml_insertInclude (elemXml : XMLElement.t)
    (includeXmlPath : string) (includeSDF : SDF.t) (includeRoot : Element.t)
    (_sdf : Element.t) (_config : ParserConfig.t) (_source : string)
    (_errors : Errors) : option (Element.t * Errors) :=
  let '(includeRoot, _errors) :=
    match XMLElement.FirstChildElement "experimental:params" elemXml with
    | Some params =>
        ParamPassing_updateParams _config _source params includeRoot _errors
    | None => (includeRoot, _errors)
    end in
  let includeSDFFirstElem := Element.GetFirstElement includeRoot in
  includeRoot ←
    match Element.GetElementDescription "include" _sdf with
    | Some includeDesc =>
        (* Store the contents of the <include> tag as the includeElement of
           the entity that was loaded from the included URI. *)
        includeInfo ← copyChildren includeDesc elemXml false;
        first ← includeSDFFirstElem;
        Some (Element.storeElementAt 0
                (Element.SetIncludeElement includeInfo first) includeRoot)
    | None => Some includeRoot
    end;
  let toMerge := BoolAttribute "merge" false elemXml in
  let sourceLoc :=
    SourceLocation.mk (Some includeXmlPath) (Some _source)
      (Some (XMLElement.GetLineNum elemXml)) in
  insertIncludedElement (SDF.SetRoot includeRoot includeSDF) sourceLoc
    toMerge _sdf _config _errors.

(** [readXml] at a non-null [_xml], up to its last block: the deprecation
    warning, the reference to another schema, the attributes, the value and
    the children.  [readXml_element] is [readXml] itself, for the children
    and the included files.  The result holds [Some ok] where [readXml] has
    returned [ok] by then, and [None] where it goes on to its last block,
    with the element and the errors at that point. *)
Definition readXml_children
    (readXml_element :
       XMLElement.t → Element.t → ParserConfig.t → string → Errors →
       option (bool * Element.t * Errors))
    (_xml : XMLElement.t) (_sdf : Element.t)
    (_config : ParserConfig.t) (_source : string) (_errors : Errors)
    : option (option bool * Element.t * Errors) :=
  let _errors := readXml_deprecated _sdf _config _errors in
  let _sdf := readXml_reference _sdf _config in
  let '(ok, _sdf, _errors) :=
    readAttributes _xml _sdf _config _source _errors in
  if negb ok then Some (Some false, _sdf, _errors) else
  let '(ok, _sdf) := readXml_value _xml _sdf in
  if negb ok then Some (Some false, _sdf, _errors) else
  if Element.GetCopyChildren _sdf then
    _sdf ← copyChildren _sdf _xml false;
    Some (Some true, _sdf, _errors)
  else
    (* Iterate over all the child elements *)
    let child := fun (elemXml : XMLElement.t) (st : Element.t * Errors * nat) =>
      let '(_sdf, _errors, includeElemIndex) := st in
      (* Find the matching element in SDF *)
      let matching := fun (_errors : Errors) (includeElemIndex : nat) =>
        let elemXmlPath :=
          Element.XmlPath _sdf +:+ "/" +:+ XMLElement.Value elemXml +:+
          match XMLElement.Attribute "name" elemXml with
          | Some name => "[@name=" +:+ dq +:+ name +:+ dq +:+ "]"
          | None => ""
          end in
        match Element.GetElementDescription (XMLElement.Value elemXml) _sdf
        with
        | Some elemDesc =>
            let element := Element.SetParent _sdf elemDesc in
            let element :=
              Element.SetLineNumber (XMLElement.GetLineNum elemXml) element in
            let element := Element.SetXmlPath elemXmlPath element in
            '(ok, element, _errors) ←
              readXml_element elemXml element _config _source _errors;
            if (ok : bool) then
              Some (true,
                    (Element.InsertElement element _sdf, _errors,
                     includeElemIndex))
            else
              Some (false,
                    (_sdf,
                     _errors ++
                     [Error.SetXmlPath elemXmlPath
                        (Error.makeAt ELEMENT_INVALID
                           ("Error reading element <" +:+
                            XMLElement.Value elemXml +:+ ">")
                           _source (XMLElement.GetLineNum elemXml))],
                     includeElemIndex))
        | None =>
            if negb (contains ":" (XMLElement.Value elemXml)) then
              Some (true,
                    (_sdf,
                     enforceConfigurablePolicyCondition
                       (ParserConfig.UnrecognizedElementsPolicy _config)
                       (Error.SetXmlPath elemXmlPath
                          (Error.makeAt ELEMENT_INCORRECT_TYPE
                             ("XML Element[" +:+ XMLElement.Value elemXml
                              +:+ "], child of element[" +:+
                              XMLElement.Value _xml +:+
                              "], not defined in SDF. Copying[" +:+
                              XMLElement.Value elemXml +:+ "] " +:+
                              "as children of [" +:+ XMLElement.Value _xml
                              +:+ "]." +:+ nl)
                             _source (XMLElement.GetLineNum elemXml)))
                       _errors,
                     includeElemIndex))
            else Some (true, (_sdf, _errors, includeElemIndex))
        end in
      if String.eqb "include" (XMLElement.Value elemXml) then
        (* validateIncludeElement *)
        _errors ←
          foldl
            (fun (oerrors : option Errors) (elemDesc : Element.t) =>
               _errors ← oerrors;
               if String.eqb (Element.GetName elemDesc)
                    (XMLElement.Value elemXml)
               then
                 '(ok, _, _errors) ←
                   readXml_element elemXml elemDesc _config _source _errors;
                 if (ok : bool) then Some _errors
                 else
                   Some (_errors ++
                         [Error.makeAt ELEMENT_INVALID
                            ("Error reading element <" +:+
                             XMLElement.Value elemXml +:+ ">")
                            _source (XMLElement.GetLineNum elemXml)])
               else Some _errors)
            (Some _errors) (Element.elementDescriptions _sdf);
        let uriElement := XMLElement.FirstChildElement "uri" elemXml in
        let includeXmlPath :=
          Element.XmlPath _sdf +:+ "/include[" +:+ pretty includeElemIndex
          +:+ "]" in
        let includeElemIndex := S includeElemIndex in
        let uriXmlPath := includeXmlPath +:+ "/uri" in
        '(resolved, filename, _errors) ←
          resolveFileNameFromUri elemXml _config includeXmlPath _source
            _errors;
        if negb resolved then Some (true, (_sdf, _errors, includeElemIndex))
        else if isSdfFile filename
                || bool_decide (ParserConfig.CustomModelParsers _config = [])
        then
          templateRoot ← SDF.Root (snd (init SDF_new _config));
          let includeSDF := SDF.SetRoot templateRoot SDF_new in
          let '(read, includeSDF, _errors) :=
            readFile filename _config includeSDF _errors in
          if negb read then
            uriElement ← uriElement;
            Some (false,
                  (_sdf,
                   _errors ++
                   [Error.SetXmlPath uriXmlPath
                      (Error.makeAt FILE_READ
                         ("Unable to read file[" +:+ filename +:+ "]")
                         _source (XMLElement.GetLineNum uriElement))],
                   includeElemIndex))
          else
            includeRoot ← SDF.Root includeSDF;
            match findTopLevelElem includeRoot filename _errors with
            | (None, _errors) =>
                uriElement ← uriElement;
                Some (true,
                      (_sdf,
                       _errors ++
                       [Error.SetXmlPath uriXmlPath
                          (Error.makeAt ELEMENT_MISSING
                             ("Failed to find top level <model> / <actor> / "
                              +:+ "<light> for <include>" +:+ nl)
                             _source (XMLElement.GetLineNum uriElement))],
                       includeElemIndex))
            | (Some (topIdx, topLevelElem), _errors) =>
                let topLevelElementType := Element.GetName topLevelElem in
                let _errors :=
                  checkNextTopLevelElem includeRoot topIdx topLevelElem
                    filename _errors in
                let isModel := String.eqb topLevelElementType "model" in
                let isActor := String.eqb topLevelElementType "actor" in
                '(ok, topLevelElem, _errors) ←
                  applyIncludeOverrides elemXml includeXmlPath _source
                    topLevelElem _errors;
                if negb ok then
                  Some (false, (_sdf, _errors, includeElemIndex))
                else
                  '(ok, (topLevelElem, _errors, _)) ←
                    (if isModel || isActor then
                       forEach
                         (fun (childElemXml : XMLElement.t)
                              (pst : Element.t * Errors * nat) =>
                            let '(topLevelElem, _errors, pluginIndex) := pst in
                            if String.eqb "plugin"
                                 (XMLElement.Value childElemXml)
                            then
                              let pluginXmlPath :=
                                includeXmlPath +:+ "/plugin[" +:+
                                pretty pluginIndex +:+ "]" in
                              '(pluginElem, topLevelElem) ←
                                Element.AddElement "plugin" topLevelElem;
                              let pluginElem :=
                                Element.SetLineNumber
                                  (XMLElement.GetLineNum childElemXml)
                                  pluginElem in
                              let pluginElem :=
                                Element.SetXmlPath pluginXmlPath pluginElem in
                              '(ok, pluginElem, _errors) ←
                                readXml_element childElemXml pluginElem
                                  _config _source _errors;
                              let topLevelElem :=
                                Element.storeLastElement pluginElem
                                  topLevelElem in
                              if (ok : bool) then
                                Some (true,
                                      (topLevelElem, _errors, S pluginIndex))
                              else
                                Some (false,
                                      (topLevelElem,
                                       _errors ++
                                       [Error.SetXmlPath pluginXmlPath
                                          (Error.makeAt ELEMENT_INVALID
                                             "Error reading plugin element"
                                             _source
                                             (XMLElement.GetLineNum
                                                childElemXml))],
                                       S pluginIndex))
                            else Some (true, pst))
                         (XMLElement.children elemXml)
                         (topLevelElem, _errors, 0)
                     else Some (true, (topLevelElem, _errors, 0)));
                  if negb ok then
                    Some (false, (_sdf, _errors, includeElemIndex))
                  else
                    let includeRoot :=
                      Element.storeElementAt topIdx topLevelElem
                        includeRoot in
                    '(_sdf, _errors) ←
                      readXml_insertInclude elemXml includeXmlPath includeSDF
                        includeRoot _sdf _config _source _errors;
                    Some (true, (_sdf, _errors, includeElemIndex))
            end
        else matching _errors includeElemIndex
      else matching _errors includeElemIndex in
    '(ok, (_sdf, _errors, _)) ←
      forEach child (XMLElement.children _xml) (_sdf, _errors, 0);
    if negb ok then Some (Some false, _sdf, _errors) else
    (* Copy unknown elements outside the loop so it only happens one time *)
    _sdf ← copyChildren _sdf _xml true;
    Some (None, _sdf, _errors).

(** [readXml] at a non-null [_xml]. *)
Fixpoint readXml_element (_xml : XMLElement.t) (_sdf : Element.t)
    (_config : ParserConfig.t) (_source : string) (_errors : Errors)
    {struct _xml} : option (bool * Element.t * Errors) :=
  '(returned, _sdf, _errors) ←
    readXml_children readXml_element _xml _sdf _config _source _errors;
  match returned with
  | Some ok => Some (ok, _sdf, _errors)
  | None =>
      (* Check that all required elements have been set *)
      '(ok, (_sdf, _errors)) ←
        readXml_requiredElements _xml _source _sdf _errors;
      Some (ok, _sdf, _errors)
  end.


(** [readXml] *)
Definition readXml (_xml : option XMLElement.t) (_sdf : Element.t)
    (_config : ParserConfig.t) (_source : string) (_errors : Errors)
    : option (bool * Element.t * Errors) :=
  match _xml with
  | None => Some (readXml_null _sdf _config _source _errors)
  | Some _xml => readXml_element _xml _sdf _config _source _errors
  end.
End Reader.

Section ReadDoc.
Context {Math : IgnitionMath} {RL : RootLoader} {Env : ParserEnv}.

(** The first steps of [readDoc] on the SDF object: its file path and its
    original version. *)
Definition readDoc_sdf (version _source : string) (sdf : SDF.t) : SDF.t :=
  let sdf :=
    if negb (String.eqb _source kSdfStringSource)
    then SDF.SetFilePath _source sdf else sdf in
  if String.eqb (SDF.OriginalVersion sdf) ""
  then SDF.SetOriginalVersion version sdf else sdf.

(** The next steps of [readDoc], on the root element: its original
    version, line number and XML path, each set when it is missing. *)
Definition readDoc_root (sdfNode : XMLElement.t) (version : string)
    (root : Element.t) : Element.t :=
  let root :=
    if String.eqb (Element.OriginalVersion root) ""
    then Element.SetOriginalVersion version root else root in
  let root :=
    match Element.LineNumber root with
    | None => Element.SetLineNumber (XMLElement.GetLineNum sdfNode) root
    | Some _ => root
    end in
  if String.eqb (Element.XmlPath root) ""
  then Element.SetXmlPath "/sdf" root else root.

(** The XML element that [readDoc] checks and reads: the child of the
    document named like the root element, after the conversion to the
    current version when that is asked for and needed. *)
Definition readDoc_elemXml (version : string) (xmlDoc : XMLDocument.t)
    (_convert : bool) (root : Element.t) : option XMLElement.t :=
  let xmlDoc :=
    if _convert && negb (String.eqb version SDF_Version)
    then Converter_Convert xmlDoc SDF_Version else xmlDoc in
  XMLDocument.FirstChildElement (Element.GetName root) xmlDoc.

(** [readDoc], the overload that fills an [SDFPtr].  A null [_xmlDoc] or
    [_sdf] is [None] as an argument; the result holds the boolean, the SDF
    object after the call and the errors. *)
Definition readDoc (_xmlDoc : option XMLDocument.t) (_sdf : option SDF.t)
    (_source : string) (_convert : bool) (_config : ParserConfig.t)
    (_errors : Errors) : option (bool * option SDF.t * Errors) :=
  match _xmlDoc with
  | None => Some (false, _sdf, _errors)
  | Some xmlDoc =>
  (* check sdf version *)
  match XMLDocument.FirstChildElement "sdf" xmlDoc with
  | None => Some (false, _sdf, _errors)
  | Some sdfNode =>
  match _sdf with
  | None => Some (false, _sdf, _errors)
  | Some sdf =>
  match SDF.Root sdf with
  | None => Some (false, _sdf, _errors)
  | Some _ =>
  match XMLElement.Attribute "version" sdfNode with
  | Some version =>
      let sdf := readDoc_sdf version _source sdf in
      root ← SDF.Root sdf;
      let root := readDoc_root sdfNode version root in
      let elemXml := readDoc_elemXml version xmlDoc _convert root in
      (* Perform all the pre-checks necessary for the XML elements before
         reading *)
      let '(checked, _errors) := checkXmlFromRoot elemXml _source _errors in
      if negb checked then
        Some (false, Some (SDF.SetRoot root sdf),
              _errors ++
              [Error.make ELEMENT_INVALID
                 ("Errors were found when checking the XML of element<"
                  +:+ Element.GetName root +:+ ">.")])
      else
        (* parse new sdf xml *)
        '(read, root, _errors) ←
          readXml elemXml root _config _source _errors;
        if negb read then
          Some (false, Some (SDF.SetRoot root sdf),
                _errors ++
                [Error.make ELEMENT_INVALID
                   ("Error reading element <" +:+ Element.GetName root
                    +:+ ">")])
        else
          (* delimiter '::' in element names not allowed in SDFormat >= 1.8 *)
          if SemanticVersion_ge (Element.OriginalVersion root) 1 8
             && negb (recursiveSiblingNoDoubleColonInNames root)
          then
            Some (false, Some (SDF.SetRoot root sdf),
                  _errors ++
                  [Error.make RESERVED_NAME
                     ("Delimiter '::' found in attribute names of element <"
                      +:+ Element.GetName root +:+
                      ">, which is not allowed in SDFormat >= 1.8")])
          else Some (true, Some (SDF.SetRoot root sdf), _errors)
  | None =>
      Some (false,
            Some (if negb (String.eqb _source kSdfStringSource)
                  then SDF.SetFilePath _source sdf else sdf),
            _errors)
  end
  end
  end
  end
  end.
End ReadDoc.

(** ** Utils.hh *)

(** Modelled from the spec: [loadName] (Utils.cc is not part of the sources
    at hand) reads the [name] attribute; false when there is none. *)
Definition loadName (_sdf : Element.t) : string * bool :=
  Element.Get (T:=string) "name" "" _sdf.

(** Modelled from the spec: [isReservedName]; "[world], [__model__], plus
    any string beginning with [__]". *)
Definition isReservedName (_name : string) : bool :=
  String.eqb _name "world" || String.prefix "__" _name.

(** Modelled from the spec: [loadPose] reads the raw pose and its
    [relative_to] frame from the element itself when it is a [<pose>], else
    from its [<pose>] child; the outputs are written only when a pose value
    was read. *)
Definition loadPose `{IgnitionMath} (_sdf : Element.t) (_pose : Pose3d)
    (_frame : string) : bool * Pose3d * string :=
  let sdf :=
    if negb (String.eqb (Element.GetName _sdf) "pose")
    then Element.GetElementImpl "pose" _sdf else Some _sdf in
  match sdf with
  | None => (false, _pose, _frame)
  | Some sdf =>
      let framePair := Element.Get (T:=string) "relative_to" "" sdf in
      let posePair := Element.Get "" Pose3d_Zero sdf in
      if snd posePair then (true, fst posePair, fst framePair)
      else (false, _pose, _frame)
  end.

(** A typed entity of the object model: "each typed entity exposes a
    [Load(Element)] that validates and extracts attributes, a set of
    accessors/mutators, and a [ToElement()]".  [Load] is that of a freshly
    constructed object. *)
Class Entity (T : Type) : Type := {
  Name : T → string;
  Load : Element.t → T * Errors;
  ToElement : T → Element.t }.

(** Modelled from the spec: [loadUniqueRepeated<T>] loads every child of the
    given element name, in document order, and keeps those whose name was
    not met before ("every name must be unique within a single scope"); the
    kept objects are appended to [_objs]. *)
Fixpoint loadUniqueRepeated_loop {T} `{Entity T} (_sdfName : string)
    (elems : list Element.t) (names : list string) (_objs : list T)
    (errors : Errors) : list T * Errors :=
  match elems with
  | [] => (_objs, errors)
  | elem :: rest =>
      let '(obj, loadErrors) := Load elem in
      let name := Name obj in
      if negb (existsb (String.eqb name) names) then
        loadUniqueRepeated_loop _sdfName rest (name :: names)
          (_objs ++ [obj]) (errors ++ loadErrors)
      else
        loadUniqueRepeated_loop _sdfName rest names _objs
          (errors ++
           [Error.make DUPLICATE_NAME
              ("Non-unique name[" +:+ name +:+ "] detected in " +:+
               _sdfName +:+ " elements.")])
  end.

Definition loadUniqueRepeated {T} `{Entity T} (_sdf : Element.t)
    (_sdfName : string) (_objs : list T) : list T * Errors :=
  loadUniqueRepeated_loop _sdfName
    (List.filter (fun c => String.eqb (Element.GetName c) _sdfName)
       (Element.elements _sdf))
    [] _objs [].

(** ** Link.cc *)

(** The entities a link owns and the handle of the pose graph of its
    scope; their classes are not part of the sources at hand. *)
Class LinkParts : Type := {
  Visual : Type;
  Collision : Type;
  Light : Type;
  Sensor : Type;
  ParticleEmitter : Type;
  Visual_Entity :: Entity Visual;
  Collision_Entity :: Entity Collision;
  Light_Entity :: Entity Light;
  Sensor_Entity :: Entity Sensor;
  ParticleEmitter_Entity :: Entity ParticleEmitter;
  ScopedGraph : Type;
  (** a default-constructed graph handle *)
  ScopedGraph_new : ScopedGraph }.

Module MassMatrix3d.
(** [MassMatrix3d(mass, xxyyzz, xyxzyz)] *)
Record t {Math : IgnitionMath} : Type := mk {
  Mass : double;
  Ixx : double;
  Iyy : double;
  Izz : double;
  Ixy : double;
  Ixz : double;
  Iyz : double }.

Definition IsValid {Math : IgnitionMath} (m : t) : bool :=
  MassMatrix3d_IsValid (Mass m) (Ixx m, Iyy m, Izz m) (Ixy m, Ixz m, Iyz m).
End MassMatrix3d.

Module Inertiald.
Record t {Math : IgnitionMath} : Type := mk {
  MassMatrix : MassMatrix3d.t;
  Pose : Pose3d }.

(** [SetMassMatrix] stores the matrix and reports whether it is valid. *)
Definition SetMassMatrix {Math : IgnitionMath} (m : MassMatrix3d.t) (i : t)
    : bool * t :=
  (MassMatrix3d.IsValid m, mk _ m (Pose i)).

Definition SetPose {Math : IgnitionMath} (p : Pose3d) (i : t) : t :=
  mk _ (MassMatrix i) p.
End Inertiald.

Module Link.
Section Link.
Context {Math : IgnitionMath} {Parts : LinkParts}.

(** [class sdf::Link::Implementation] *)
Record t : Type := mk {
  name : string;
  pose : Pose3d;
  poseRelativeTo : string;
  visuals : list Visual;
  lights : list Light;
  collisions : list Collision;
  sensors : list Sensor;
  emitters : list ParticleEmitter;
  inertial : Inertiald.t;
  sdf : option Element.t;
  enableWind : bool;
  poseRelativeToGraph : ScopedGraph }.

(** [Link::Link()] *)
Definition new : t :=
  mk "" Pose3d_Zero "" [] [] [] [] []
     (Inertiald.mk _
        (MassMatrix3d.mk _ double_1 double_1 double_1 double_1
           double_0 double_0 double_0)
        Pose3d_Zero)
     None false ScopedGraph_new.

Definition setVisuals (l : list Visual) (this : t) : t :=
  mk (name this) (pose this) (poseRelativeTo this) l (lights this)
     (collisions this) (sensors this) (emitters this) (inertial this)
     (sdf this) (enableWind this) (poseRelativeToGraph this).
Definition setLights (l : list Light) (this : t) : t :=
  mk (name this) (pose this) (poseRelativeTo this) (visuals this) l
     (collisions this) (sensors this) (emitters this) (inertial this)
     (sdf this) (enableWind this) (poseRelativeToGraph this).
Definition setCollisions (l : list Collision) (this : t) : t :=
  mk (name this) (pose this) (poseRelativeTo this) (visuals this)
     (lights this) l (sensors this) (emitters this) (inertial this)
     (sdf this) (enableWind this) (poseRelativeToGraph this).
Definition setSensors (l : list Sensor) (this : t) : t :=
  mk (name this) (pose this) (poseRelativeTo this) (visuals this)
     (lights this) (collisions this) l (emitters this) (inertial this)
     (sdf this) (enableWind this) (poseRelativeToGraph this).
Definition setEmitters (l : list ParticleEmitter) (this : t) : t :=
  mk (name this) (pose this) (poseRelativeTo this) (visuals this)
     (lights this) (collisions this) (sensors this) l (inertial this)
     (sdf this) (enableWind this) (poseRelativeToGraph this).

(** [Link::Load] *)
Definition Load (_sdf : Element.t) (this : t) : t * Errors :=
  let errors : Errors := [] in
  (* Check that the provided SDF element is a <link> *)
  if negb (String.eqb (Element.GetName _sdf) "link") then
    (mk (name this) (pose this) (poseRelativeTo this) (visuals this)
        (lights this) (collisions this) (sensors this) (emitters this)
        (inertial this) (Some _sdf) (enableWind this)
        (poseRelativeToGraph this),
     errors ++
     [Error.make ELEMENT_INCORRECT_TYPE
        ("Attempting to load a Link, but the provided SDF element is not a "
         +:+ "<link>.")])
  else
    (* Read the links's name *)
    let '(name, loaded) := loadName _sdf in
    let errors :=
      if negb loaded then
        errors ++
        [Error.make ATTRIBUTE_MISSING
           "A link name is required, but the name is not set."]
      else errors in
    (* Check that the link's name is valid *)
    let errors :=
      if isReservedName name then
        errors ++
        [Error.make RESERVED_NAME
           ("The supplied link name [" +:+ name +:+ "] is reserved.")]
      else errors in
    (* Load the pose. Ignore the return value since the pose is optional. *)
    let '(_, pose, poseRelativeTo) :=
      loadPose _sdf (pose this) (poseRelativeTo this) in
    (* Load all the visuals. *)
    let '(visuals, visLoadErrors) :=
      loadUniqueRepeated _sdf "visual" (visuals this) in
    let errors := errors ++ visLoadErrors in
    (* Load all the collisions. *)
    let '(collisions, collLoadErrors) :=
      loadUniqueRepeated _sdf "collision" (collisions this) in
    let errors := errors ++ collLoadErrors in
    (* Load all the lights. *)
    let '(lights, lightLoadErrors) :=
      loadUniqueRepeated _sdf "light" (lights this) in
    let errors := errors ++ lightLoadErrors in
    (* Load all the sensors. *)
    let '(sensors, sensorLoadErrors) :=
      loadUniqueRepeated _sdf "sensor" (sensors this) in
    let errors := errors ++ sensorLoadErrors in
    (* Load all the particle emitters. *)
    let '(emitters, emitterLoadErrors) :=
      loadUniqueRepeated _sdf "particle_emitter" (emitters this) in
    let errors := errors ++ emitterLoadErrors in
    let xxyyzz := (double_1, double_1, double_1) in
    let xyxzyz := (double_0, double_0, double_0) in
    let inertiaPose := Pose3d_Zero in
    let inertiaFrame := "" in
    let mass := double_1 in
    let '(mass, xxyyzz, xyxzyz, inertiaPose) :=
      match Element.GetElementImpl "inertial" _sdf with
      | Some inertialElem =>
          let '(_, inertiaPose, inertiaFrame) :=
            match Element.GetElementImpl "pose" inertialElem with
            | Some poseElem => loadPose poseElem inertiaPose inertiaFrame
            | None => (false, inertiaPose, inertiaFrame)
            end in
          (* Get the mass. *)
          let mass := fst (Element.Get "mass" double_1 inertialElem) in
          match Element.GetElementImpl "inertia" inertialElem with
          | Some inertiaElem =>
              (mass,
               (fst (Element.Get "ixx" double_1 inertiaElem),
                fst (Element.Get "iyy" double_1 inertiaElem),
                fst (Element.Get "izz" double_1 inertiaElem)),
               (fst (Element.Get "ixy" double_0 inertiaElem),
                fst (Element.Get "ixz" double_0 inertiaElem),
                fst (Element.Get "iyz" double_0 inertiaElem)),
               inertiaPose)
          | None => (mass, xxyyzz, xyxzyz, inertiaPose)
          end
      | None => (mass, xxyyzz, xyxzyz, inertiaPose)
      end in
    let '(valid, inertial) :=
      Inertiald.SetMassMatrix
        (MassMatrix3d.mk _ mass (xxyyzz.1.1) (xxyyzz.1.2) (xxyyzz.2)
           (xyxzyz.1.1) (xyxzyz.1.2) (xyxzyz.2))
        (inertial this) in
    let errors :=
      if negb valid then
        errors ++
        [Error.make LINK_INERTIA_INVALID
           ("A link named " +:+ name +:+ " has invalid inertia.")]
      else errors in
    (* todo: Handle inertia frame properly *)
    let inertial := Inertiald.SetPose inertiaPose inertial in
    let enableWind :=
      fst (Element.Get "enable_wind" (enableWind this) _sdf) in
    (mk name pose poseRelativeTo visuals lights collisions sensors emitters
        inertial (Some _sdf) enableWind (poseRelativeToGraph this),
     errors).
(** [Link::VisualNameExists] *)
Definition VisualNameExists (_name : string) (this : t) : bool :=
  existsb (fun v => String.eqb (Name v) _name) (visuals this).

(** [Link::CollisionNameExists] *)
Definition CollisionNameExists (_name : string) (this : t) : bool :=
  existsb (fun c => String.eqb (Name c) _name) (collisions this).

(** [Link::LightByName] *)
Definition LightByName (_name : string) (this : t) : option Light :=
  List.find (fun c => String.eqb (Name c) _name) (lights this).

(** [Link::LightNameExists] *)
Definition LightNameExists (_name : string) (this : t) : bool :=
  match LightByName _name this with
  | Some _ => true
  | None => false
  end.

(** [Link::SensorNameExists] *)
Definition SensorNameExists (_name : string) (this : t) : bool :=
  existsb (fun s => String.eqb (Name s) _name) (sensors this).

(** [Link::ParticleEmitterNameExists] *)
Definition ParticleEmitterNameExists (_name : string) (this : t) : bool :=
  existsb (fun e => String.eqb (Name e) _name) (emitters this).

(** [Link::AddCollision] *)
Definition AddCollision (_collision : Collision) (this : t) : bool * t :=
  if CollisionNameExists (Name _collision) this then (false, this)
  else (true, setCollisions (collisions this ++ [_collision]) this).

(** [Link::AddVisual] *)
Definition AddVisual (_visual : Visual) (this : t) : bool * t :=
  if VisualNameExists (Name _visual) this then (false, this)
  else (true, setVisuals (visuals this ++ [_visual]) this).

(** [Link::AddLight] *)
Definition AddLight (_light : Light) (this : t) : bool * t :=
  if LightNameExists (Name _light) this then (false, this)
  else (true, setLights (lights this ++ [_light]) this).

(** [Link::AddSensor] *)
Definition AddSensor (_sensor : Sensor) (this : t) : bool * t :=
  if SensorNameExists (Name _sensor) this then (false, this)
  else (true, setSensors (sensors this ++ [_sensor]) this).

(** [Link::AddParticleEmitter] *)
Definition AddParticleEmitter (_emitter : ParticleEmitter) (this : t)
    : bool * t :=
  if ParticleEmitterNameExists (Name _emitter) this then (false, this)
  else (true, setEmitters (emitters this ++ [_emitter]) this).

(** [Link::VisualCount], [Link::VisualByIndex], [Link::VisualByName] *)
Definition VisualCount (this : t) : nat := length (visuals this).

Definition VisualByIndex (_index : nat) (this : t) : option Visual :=
  if Nat.ltb _index (length (visuals this)) then visuals this !! _index
  else None.

Definition VisualByName (_name : string) (this : t) : option Visual :=
  List.find (fun v => String.eqb (Name v) _name) (visuals this).

(** [Link::CollisionCount], [Link::CollisionByIndex],
    [Link::CollisionByName] *)
Definition CollisionCount (this : t) : nat := length (collisions this).

Definition CollisionByIndex (_index : nat) (this : t) : option Collision :=
  if Nat.ltb _index (length (collisions this)) then collisions this !! _index
  else None.

Definition CollisionByName (_name : string) (this : t) : option Collision :=
  List.find (fun c => String.eqb (Name c) _name) (collisions this).

(** [Link::LightCount], [Link::LightByIndex] *)
Definition LightCount (this : t) : nat := length (lights this).

Definition LightByIndex (_index : nat) (this : t) : option Light :=
  if Nat.ltb _index (length (lights this)) then lights this !! _index
  else None.

(** [Link::SensorCount], [Link::SensorByIndex], [Link::SensorByName] *)
Definition SensorCount (this : t) : nat := length (sensors this).

Definition SensorByIndex (_index : nat) (this : t) : option Sensor :=
  if Nat.ltb _index (length (sensors this)) then sensors this !! _index
  else None.

Definition SensorByName (_name : string) (this : t) : option Sensor :=
  List.find (fun s => String.eqb (Name s) _name) (sensors this).

(** [Link::ParticleEmitterCount], [Link::ParticleEmitterByIndex],
    [Link::ParticleEmitterByName] *)
Definition ParticleEmitterCount (this : t) : nat := length (emitters this).

Definition ParticleEmitterByIndex (_index : nat) (this : t)
    : option ParticleEmitter :=
  if Nat.ltb _index (length (emitters this)) then emitters this !! _index
  else None.

Definition ParticleEmitterByName (_name : string) (this : t)
    : option ParticleEmitter :=
  List.find (fun e => String.eqb (Name e) _name) (emitters this).

(** [Link::ClearCollisions], [Link::ClearVisuals], [Link::ClearLights],
    [Link::ClearSensors], [Link::ClearParticleEmitters] *)
Definition ClearCollisions (this : t) : t := setCollisions [] this.
Definition ClearVisuals (this : t) : t := setVisuals [] this.
Definition ClearLights (this : t) : t := setLights [] this.
Definition ClearSensors (this : t) : t := setSensors [] this.
Definition ClearParticleEmitters (this : t) : t := setEmitters [] this.

(** [Link::SetInertial] *)
Definition SetInertial (_inertial : Inertiald.t) (this : t) : bool * t :=
  (MassMatrix3d.IsValid (Inertiald.MassMatrix _inertial),
   mk (name this) (pose this) (poseRelativeTo this) (visuals this)
      (lights this) (collisions this) (sensors this) (emitters this)
      _inertial (sdf this) (enableWind this) (poseRelativeToGraph this)).

(** A call of one of the five Add operations. *)
Inductive AddOp : Type :=
  | OpCollision (c : Collision)
  | OpVisual (v : Visual)
  | OpLight (l : Light)
  | OpSensor (s : Sensor)
  | OpParticleEmitter (e : ParticleEmitter).

Definition add (op : AddOp) (this : t) : bool * t :=
  match op with
  | OpCollision c => AddCollision c this
  | OpVisual v => AddVisual v this
  | OpLight l => AddLight l this
  | OpSensor s => AddSensor s this
  | OpParticleEmitter e => AddParticleEmitter e this
  end.

(** The link after a sequence of Add operations. *)
Definition addAll (ops : list AddOp) (this : t) : t :=
  foldl (fun l op => snd (add op l)) this ops.

(** The names within each collection are pairwise distinct. *)
Definition uniqueNames (this : t) : Prop :=
  NoDup (Name <$> visuals this) ∧ NoDup (Name <$> collisions this)
  ∧ NoDup (Name <$> lights this) ∧ NoDup (Name <$> sensors this)
  ∧ NoDup (Name <$> emitters this).

(** In the words of the specification: a child of that kind with the same
    name already exists. *)
Definition nameExists (op : AddOp) (this : t) : Prop :=
  match op with
  | OpCollision c => ∃ c', c' ∈ collisions this ∧ Name c' = Name c
  | OpVisual v => ∃ v', v' ∈ visuals this ∧ Name v' = Name v
  | OpLight l => ∃ l', l' ∈ lights this ∧ Name l' = Name l
  | OpSensor s => ∃ s', s' ∈ sensors this ∧ Name s' = Name s
  | OpParticleEmitter e => ∃ e', e' ∈ emitters this ∧ Name e' = Name e
  end.

(** In the words of the specification: the link with the child appended to
    the collection of its kind, and nothing else changed. *)
Definition appended (op : AddOp) (this : t) : t :=
  match op with
  | OpCollision c =>
      mk (name this) (pose this) (poseRelativeTo this) (visuals this)
         (lights this) (collisions this ++ [c]) (sensors this)
         (emitters this) (inertial this) (sdf this) (enableWind this)
         (poseRelativeToGraph this)
  | OpVisual v =>
      mk (name this) (pose this) (poseRelativeTo this) (visuals this ++ [v])
         (lights this) (collisions this) (sensors this) (emitters this)
         (inertial this) (sdf this) (enableWind this)
         (poseRelativeToGraph this)
  | OpLight l =>
      mk (name this) (pose this) (poseRelativeTo this) (visuals this)
         (lights this ++ [l]) (collisions this) (sensors this)
         (emitters this) (inertial this) (sdf this) (enableWind this)
         (poseRelativeToGraph this)
  | OpSensor s =>
      mk (name this) (pose this) (poseRelativeTo this) (visuals this)
         (lights this) (collisions this) (sensors this ++ [s])
         (emitters this) (inertial this) (sdf this) (enableWind this)
         (poseRelativeToGraph this)
  | OpParticleEmitter e =>
      mk (name this) (pose this) (poseRelativeTo this) (visuals this)
         (lights this) (collisions this) (sensors this)
         (emitters this ++ [e]) (inertial this) (sdf this) (enableWind this)
         (poseRelativeToGraph this)
  end.

(** [Link::ToElement], its first part: the name, the pose, the inertial
    and the wind mode; [None] where a pointer that the schema of [link.sdf]
    should have provided is null. *)
Definition ToElement_members {Env : ParserEnv} (this : t)
    : option Element.t :=
  let elem := snd (initFile "link.sdf" ParserConfig.GlobalConfig
                     Element.empty) in
  elem ← Element.setAttribute "name" (name this) elem;
  (* Set pose *)
  '(poseElem, elem) ← Element.GetElement "pose" elem;
  poseElem ←
    (if negb (String.eqb (poseRelativeTo this) "")
     then Element.setAttribute "relative_to" (poseRelativeTo this) poseElem
     else Some poseElem);
  let poseElem := Element.Set_ (toString (pose this)) poseElem in
  let elem := Element.storeElementImpl poseElem elem in
  (* inertial *)
  '(inertialElem, elem) ← Element.GetElement "inertial" elem;
  let setChild := fun (n v : string) (parent : Element.t) =>
    '(c, parent) ← Element.GetElement n parent;
    Some (Element.storeElementImpl (Element.Set_ v c) parent) in
  inertialElem ←
    setChild "pose" (toString (Inertiald.Pose (inertial this))) inertialElem;
  let massMatrix := Inertiald.MassMatrix (inertial this) in
  inertialElem ←
    setChild "mass" (toString (MassMatrix3d.Mass massMatrix)) inertialElem;
  '(inertiaElem, inertialElem) ← Element.GetElement "inertia" inertialElem;
  inertiaElem ←
    setChild "ixx" (toString (MassMatrix3d.Ixx massMatrix)) inertiaElem;
  inertiaElem ←
    setChild "ixy" (toString (MassMatrix3d.Ixy massMatrix)) inertiaElem;
  inertiaElem ←
    setChild "ixz" (toString (MassMatrix3d.Ixz massMatrix)) inertiaElem;
  inertiaElem ←
    setChild "iyy" (toString (MassMatrix3d.Iyy massMatrix)) inertiaElem;
  inertiaElem ←
    setChild "iyz" (toString (MassMatrix3d.Iyz massMatrix)) inertiaElem;
  inertiaElem ←
    setChild "izz" (toString (MassMatrix3d.Izz massMatrix)) inertiaElem;
  let inertialElem := Element.storeElementImpl inertiaElem inertialElem in
  let elem := Element.storeElementImpl inertialElem elem in
  (* wind mode *)
  setChild "enable_wind" (toString (enableWind this)) elem.

(** [Link::ToElement] *)
Definition ToElement {Env : ParserEnv} (this : t)
    : option Element.t :=
  elem ← ToElement_members this;
  (* Collisions, lights, particle emitters, sensors, visuals *)
  let elem :=
    foldl (fun elem collision =>
             Element.InsertElement (ToElement collision) elem)
      elem (collisions this) in
  let elem :=
    foldl (fun elem light =>
             Element.InsertElement (ToElement light) elem)
      elem (lights this) in
  let elem :=
    foldl (fun elem emitter =>
             Element.InsertElement (ToElement emitter) elem)
      elem (emitters this) in
  let elem :=
    foldl (fun elem sensor =>
             Element.InsertElement (ToElement sensor) elem)
      elem (sensors this) in
  let elem :=
    foldl (fun elem visual =>
             Element.InsertElement (ToElement visual) elem)
      elem (visuals this) in
  Some elem.

End Link.
End Link.

(** ** Pbr.hh *)

Inductive PbrWorkflowType : Type := PBR_NONE | METAL | SPECULAR.
Inductive NormalMapSpace : Type := TANGENT | OBJECT.

#[global] Instance PbrWorkflowType_eq_dec : EqDecision PbrWorkflowType.
Proof. solve_decision. Defined.

Module PbrWorkflow.
(** The accessors of sdf::PbrWorkflow that [Material::ToElement] reads. *)
Record t {Math : IgnitionMath} : Type := mk {
  Type_ : PbrWorkflowType;
  AlbedoMap : string;
  NormalMap : string;
  NormalMapType : NormalMapSpace;
  EnvironmentMap : string;
  AmbientOcclusionMap : string;
  RoughnessMap : string;
  MetalnessMap : string;
  EmissiveMap : string;
  LightMap : string;
  LightMapTexCoordSet : unsigned;
  Roughness : double;
  Metalness : double;
  SpecularMap : string;
  GlossinessMap : string;
  Glossiness : double }.
End PbrWorkflow.

(** sdf::Pbr, whose class is not part of the sources at hand: its loader
    and its look-up of the workflow of a given type. *)
Class PbrModel {Math : IgnitionMath} : Type := {
  Pbr : Type;
  Pbr_Load : Element.t → Pbr * Errors;
  Pbr_Workflow : PbrWorkflowType → Pbr → option PbrWorkflow.t }.

(** ** Material.cc *)

Inductive ShaderType : Type :=
  | PIXEL
  | VERTEX
  | NORMAL_MAP_OBJECTSPACE
  | NORMAL_MAP_TANGENTSPACE.

#[global] Instance ShaderType_eq_dec : EqDecision ShaderType.
Proof. solve_decision. Defined.

Module Material.
Section Material.
Context {Math : IgnitionMath} {PM : PbrModel}.

(** [class sdf::Material::Implementation] *)
Record t : Type := mk {
  scriptUri : string;
  scriptName : string;
  shader : ShaderType;
  normalMap : string;
  lighting : bool;
  doubleSided : bool;
  ambient : Color;
  diffuse : Color;
  specular : Color;
  emissive : Color;
  renderOrder : float;
  pbr : option Pbr;
  sdf : option Element.t;
  filePath : string }.

(** [Material::Material()] *)
Definition new : t :=
  mk "" "" PIXEL "" true false Color_0001 Color_0001 Color_0001 Color_0001
     float_0 None None "".

(** [Material::Load] *)
Definition Load (_sdf : Element.t) (this : t) : t * Errors :=
  let errors : Errors := [] in
  let filePath := Element.FilePath _sdf in
  (* Check that the provided SDF element is a <material> *)
  if negb (String.eqb (Element.GetName _sdf) "material") then
    (mk (scriptUri this) (scriptName this) (shader this) (normalMap this)
        (lighting this) (doubleSided this) (ambient this) (diffuse this)
        (specular this) (emissive this) (renderOrder this) (pbr this)
        (Some _sdf) filePath,
     errors ++
     [Error.make ELEMENT_INCORRECT_TYPE
        ("Attempting to load a Material, but the provided SDF element is "
         +:+ "not a <material>.")])
  else
    (* Load the script information *)
    let '(scriptUri, scriptName, errors) :=
      match Element.GetElementImpl "script" _sdf with
      | Some elem =>
          let uriPair := Element.Get (T:=string) "uri" "" elem in
          let uriPair :=
            if String.eqb (fst uriPair) "__default__"
            then ("", snd uriPair) else uriPair in
          let errors :=
            if negb (snd uriPair) || String.eqb (fst uriPair) "" then
              errors ++
              [Error.make ELEMENT_INVALID
                 ("A <script> element is missing a child <uri> element, or "
                  +:+ "the <uri> element is empty.")]
            else errors in
          let namePair := Element.Get (T:=string) "name" "" elem in
          let namePair :=
            if String.eqb (fst namePair) "__default__"
            then ("", snd namePair) else namePair in
          let errors :=
            if negb (snd namePair) || String.eqb (fst namePair) "" then
              errors ++
              [Error.make ELEMENT_MISSING
                 ("A <script> element is missing a child <name> element, or "
                  +:+ "the <name> element is empty.")]
            else errors in
          (fst uriPair, fst namePair, errors)
      | None => (scriptUri this, scriptName this, errors)
      end in
    (* Load the shader information *)
    let '(shader, normalMap, errors) :=
      match Element.GetElementImpl "shader" _sdf with
      | Some elem =>
          let typePair := Element.Get (T:=string) "type" "pixel" elem in
          let '(shader, errors) :=
            if String.eqb (fst typePair) "pixel" then (PIXEL, errors)
            else if String.eqb (fst typePair) "vertex" then (VERTEX, errors)
            else if String.eqb (fst typePair) "normal_map_objectspace"
            then (NORMAL_MAP_OBJECTSPACE, errors)
            else if String.eqb (fst typePair) "normal_map_object_space"
            then (NORMAL_MAP_OBJECTSPACE, errors)
            else if String.eqb (fst typePair) "normal_map_tangentspace"
            then (NORMAL_MAP_TANGENTSPACE, errors)
            else if String.eqb (fst typePair) "normal_map_tangent_space"
            then (NORMAL_MAP_TANGENTSPACE, errors)
            else
              (shader this,
               errors ++
               [Error.make ELEMENT_INVALID
                  ("The value[" +:+ fst typePair +:+
                   "] for a <shader><type> element is not supported")]) in
          let normalMap :=
            fst (Element.Get (T:=string) "normal_map" "" elem) in
          let normalMap :=
            if String.eqb normalMap "__default__" then "" else normalMap in
          let errors :=
            if (bool_decide (shader = NORMAL_MAP_OBJECTSPACE)
                || bool_decide (shader = NORMAL_MAP_TANGENTSPACE))
               && String.eqb normalMap ""
            then
              errors ++
              [Error.make ELEMENT_MISSING
                 ("A normal map shader type has been specified, but a "
                  +:+ "normal_map has not.")]
            else errors in
          (shader, normalMap, errors)
      | None => (shader this, normalMap this, errors)
      end in
    let renderOrder :=
      fst (Element.Get "render_order" (renderOrder this) _sdf) in
    let ambient := fst (Element.Get "ambient" (ambient this) _sdf) in
    let diffuse := fst (Element.Get "diffuse" (diffuse this) _sdf) in
    let specular := fst (Element.Get "specular" (specular this) _sdf) in
    let emissive := fst (Element.Get "emissive" (emissive this) _sdf) in
    let lighting := fst (Element.Get "lighting" (lighting this) _sdf) in
    let doubleSided :=
      fst (Element.Get "double_sided" (doubleSided this) _sdf) in
    (* load pbr param *)
    let '(pbr, errors) :=
      match Element.GetElementImpl "pbr" _sdf with
      | Some pbrElem =>
          let '(pbr, pbrErrors) := Pbr_Load pbrElem in
          (Some pbr, errors ++ pbrErrors)
      | None => (pbr this, errors)
      end in
    (mk scriptUri scriptName shader normalMap lighting doubleSided ambient
        diffuse specular emissive renderOrder pbr (Some _sdf) filePath,
     errors).
(** [parent->GetElement(n)->Set(v)] *)
Definition setChild (n v : string) (parent : Element.t) : option Element.t :=
  '(c, parent) ← Element.GetElement n parent;
  Some (Element.storeElementImpl (Element.Set_ v c) parent).

(** [parent->GetElement(n)]'s attribute [a] and value, as for the
    [<normal_map>] and [<light_map>] of a workflow. *)
Definition setChildWithAttribute (n a av v : string) (parent : Element.t)
    : option Element.t :=
  '(c, parent) ← Element.GetElement n parent;
  c ← Element.setAttribute a av c;
  Some (Element.storeElementImpl (Element.Set_ v c) parent).

(** The block of [Material::ToElement] that fills [<metal>]. *)
Definition metalToElement (workflow : PbrWorkflow.t) (pbrElem : Element.t)
    : option Element.t :=
  '(metalElem, pbrElem) ← Element.GetElement "metal" pbrElem;
  metalElem ← setChild "albedo_map" (PbrWorkflow.AlbedoMap workflow) metalElem;
  metalElem ←
    setChild "roughness_map" (PbrWorkflow.RoughnessMap workflow) metalElem;
  metalElem ←
    setChild "roughness" (toString (PbrWorkflow.Roughness workflow))
      metalElem;
  metalElem ←
    setChild "metalness_map" (PbrWorkflow.MetalnessMap workflow) metalElem;
  metalElem ←
    setChild "metalness" (toString (PbrWorkflow.Metalness workflow))
      metalElem;
  metalElem ←
    setChild "ambient_occlusion_map"
      (PbrWorkflow.AmbientOcclusionMap workflow) metalElem;
  metalElem ←
    setChildWithAttribute "normal_map" "type"
      (match PbrWorkflow.NormalMapType workflow with
       | TANGENT => "tangent"
       | OBJECT => "object"
       end)
      (PbrWorkflow.NormalMap workflow) metalElem;
  metalElem ←
    setChild "emissive_map" (PbrWorkflow.EmissiveMap workflow) metalElem;
  metalElem ←
    setChildWithAttribute "light_map" "uv_set"
      (toString (PbrWorkflow.LightMapTexCoordSet workflow))
      (PbrWorkflow.LightMap workflow) metalElem;
  Some (Element.storeElementImpl metalElem pbrElem).

(** The block of [Material::ToElement] that fills [<specular>]. *)
Definition specularToElement (workflow : PbrWorkflow.t)
    (pbrElem : Element.t) : option Element.t :=
  '(specularElem, pbrElem) ← Element.GetElement "specular" pbrElem;
  specularElem ←
    setChild "albedo_map" (PbrWorkflow.AlbedoMap workflow) specularElem;
  specularElem ←
    setChild "specular_map" (PbrWorkflow.SpecularMap workflow) specularElem;
  specularElem ←
    setChild "environment_map" (PbrWorkflow.EnvironmentMap workflow)
      specularElem;
  specularElem ←
    setChild "ambient_occlusion_map"
      (PbrWorkflow.AmbientOcclusionMap workflow) specularElem;
  specularElem ←
    setChild "emissive_map" (PbrWorkflow.EmissiveMap workflow) specularElem;
  specularElem ←
    setChild "glossiness_map" (PbrWorkflow.GlossinessMap workflow)
      specularElem;
  specularElem ←
    setChild "glossiness" (toString (PbrWorkflow.Glossiness workflow))
      specularElem;
  specularElem ←
    setChildWithAttribute "normal_map" "type"
      (match PbrWorkflow.NormalMapType workflow with
       | TANGENT => "tangent"
       | OBJECT => "object"
       end)
      (PbrWorkflow.NormalMap workflow) specularElem;
  specularElem ←
    setChildWithAttribute "light_map" "uv_set"
      (toString (PbrWorkflow.LightMapTexCoordSet workflow))
      (PbrWorkflow.LightMap workflow) specularElem;
  Some (Element.storeElementImpl specularElem pbrElem).

(** [Material::ToElement], its first part: the colours, the flags, the
    script and the shader; [None] where a pointer that the schema of
    [material.sdf] should have provided is null. *)
Definition ToElement_members {Env : ParserEnv} (this : t)
    : option Element.t :=
  let elem := snd (initFile "material.sdf" ParserConfig.GlobalConfig
                     Element.empty) in
  elem ← setChild "ambient" (toString (ambient this)) elem;
  elem ← setChild "diffuse" (toString (diffuse this)) elem;
  elem ← setChild "specular" (toString (specular this)) elem;
  elem ← setChild "emissive" (toString (emissive this)) elem;
  elem ← setChild "render_order" (toString (renderOrder this)) elem;
  elem ← setChild "lighting" (toString (lighting this)) elem;
  elem ← setChild "double_sided" (toString (doubleSided this)) elem;
  (* Script, if set *)
  elem ←
    (if negb (String.eqb (scriptName this) "")
        && negb (String.eqb (scriptUri this) "")
     then
       '(scriptElem, elem) ← Element.GetElement "script" elem;
       scriptElem ← setChild "uri" (scriptUri this) scriptElem;
       scriptElem ← setChild "name" (scriptName this) scriptElem;
       Some (Element.storeElementImpl scriptElem elem)
     else Some elem);
  (* Shader properties *)
  '(shaderElem, elem) ← Element.GetElement "shader" elem;
  shaderElem ←
    Element.setAttribute "type"
      (match shader this with
       | PIXEL => "pixel"
       | VERTEX => "vertex"
       | NORMAL_MAP_OBJECTSPACE => "normal_map_object_space"
       | NORMAL_MAP_TANGENTSPACE => "normal_map_tangent_space"
       end) shaderElem;
  shaderElem ←
    (if negb (String.eqb (normalMap this) "")
     then setChild "normal_map" (normalMap this) shaderElem
     else Some shaderElem);
  Some (Element.storeElementImpl shaderElem elem).

(** The blocks of [Material::ToElement] that fill [<pbr>] from the two
    workflows of the PBR material.  [pbrElem] is the pointer that
    [GetElement("pbr")] returned, null when the schema has no such
    description: it is dereferenced only by a block that runs. *)
Definition pbrToElement (pbr : Pbr) (pbrElem : option Element.t)
    : option (option Element.t) :=
  pbrElem ←
    match Pbr_Workflow METAL pbr with
    | Some workflow =>
        if bool_decide (PbrWorkflow.Type_ workflow = METAL)
        then pbrElem ← pbrElem; Some <$> metalToElement workflow pbrElem
        else Some pbrElem
    | None => Some pbrElem
    end;
  match Pbr_Workflow SPECULAR pbr with
  | Some workflow =>
      if bool_decide (PbrWorkflow.Type_ workflow = SPECULAR)
      then pbrElem ← pbrElem; Some <$> specularToElement workflow pbrElem
      else Some pbrElem
  | None => Some pbrElem
  end.

(** [Material::ToElement] *)
Definition ToElement {Env : ParserEnv} (this : t)
    : option Element.t :=
  elem ← ToElement_members this;
  (* PBR material *)
  match pbr this with
  | Some pbr =>
      match Element.GetElement "pbr" elem with
      | Some (pbrElem, elem) =>
          pbrElem ← pbrToElement pbr (Some pbrElem);
          Some (match pbrElem with
                | Some pbrElem => Element.storeElementImpl pbrElem elem
                | None => elem
                end)
      | None =>
          _ ← pbrToElement pbr None;
          Some elem
      end
  | None => Some elem
  end.

End Material.
End Material.

(** ** Reading an element tree, for the statements *)

(** The text of the attribute of that name, if the element has it. *)
Definition attributeValue (k : string) (e : Element.t) : option string :=
  Param.GetAsString <$> Element.GetAttribute k e.

(** The text of the element's own value, if it has one. *)
Definition valueText (e : Element.t) : option string :=
  Param.GetAsString <$> Element.GetValue e.

(** What [insertIncludedElement] needs from the schema of the parent to
    build the proxy frame: a [<frame>] description with the attributes
    [name] and [attached_to] and a [<pose>] description with a value and
    the attribute [relative_to]. *)
Definition hasFrameSchema (_parent : Element.t) : Prop :=
  ∃ frameDesc poseDesc : Element.t,
    Element.GetElementDescription "frame" _parent = Some frameDesc
    ∧ is_Some (Element.GetAttribute "name" frameDesc)
    ∧ is_Some (Element.GetAttribute "attached_to" frameDesc)
    ∧ Element.GetElementDescription "pose" frameDesc = Some poseDesc
    ∧ is_Some (Element.GetAttribute "relative_to" poseDesc)
    ∧ is_Some (Element.GetValue poseDesc).

(** The pose that the proxy frame of a merged model receives. *)
Definition mergedModelPose {Math : IgnitionMath} (model : Model.t)
    : Pose3d :=
  if String.eqb (Model.PlacementFrameName model) "" then Model.RawPose model
  else snd (Model.SemanticPose_Resolve model (Model.RawPose model)).

(** The errors of the resolution of that pose. *)
Definition mergedModelPoseErrors {Math : IgnitionMath} (model : Model.t)
    : Errors :=
  if String.eqb (Model.PlacementFrameName model) "" then []
  else fst (Model.SemanticPose_Resolve model (Model.RawPose model)).

(** The [relative_to] of the pose of the proxy frame: "what
    [<include>/<pose>/@relative_to] was (defaulting to [__model__])". *)
Definition mergedModelPoseRelativeTo {Math : IgnitionMath} (model : Model.t)
    : string :=
  if String.eqb (Model.PoseRelativeTo model) "" then "__model__"
  else Model.PoseRelativeTo model.

(** A child description is required when its cardinality is [1] or [+]. *)
Definition isRequired (elemDesc : Element.t) : Prop :=
  Element.GetRequired elemDesc = "1" ∨ Element.GetRequired elemDesc = "+".

(** A joint whose type is not [ball]. *)
Definition isNonBallJoint (_sdf : Element.t) : Prop :=
  Element.GetName _sdf = "joint"
  ∧ Element.Get1 (T:=string) "type" _sdf ≠ "ball".

(** A required child description of the element that has no child. *)
Definition missesRequired (_sdf elemDesc : Element.t) : Prop :=
  elemDesc ∈ Element.elementDescriptions _sdf
  ∧ isRequired elemDesc
  ∧ Element.HasElement (Element.GetName elemDesc) _sdf = false.

(** The default child that the schema of the element gives for a name:
    the instance of its description of that name, marked as not set in the
    file. *)
Definition isDefaultChild (_sdf c : Element.t) : Prop :=
  ∃ elemDesc,
    Element.GetElementDescription (Element.GetName c) _sdf = Some elemDesc
    ∧ c = Element.SetExplicitlySetInFile false
            (Element.instantiate elemDesc).

(** The element with more children appended. *)
Definition withAdded (added : list Element.t) (_sdf : Element.t)
    : Element.t :=
  Element.setElements (Element.elements _sdf ++ added) _sdf.

(** In the words of the specification: some element of the tree has a
    [name] attribute that contains [::]. *)
Fixpoint anyDoubleColonName (e : Element.t) : bool :=
  (Element.HasAttribute "name" e
   && contains "::" (Element.Get1 (T:=string) "name" e))
  || existsb anyDoubleColonName (Element.elements e).

(** Some element with a [name] attribute that contains [::] is reached
    from the root through elements that are validated: neither a
    [<plugin>] nor an element with a namespaced name. *)
Inductive ValidatedDoubleColonName : Element.t → Prop :=
  | validated_here (e : Element.t) :
      shouldValidateElement e = true →
      Element.HasAttribute "name" e = true →
      contains "::" (Element.Get1 (T:=string) "name" e) = true →
      ValidatedDoubleColonName e
  | validated_child (e c : Element.t) :
      shouldValidateElement e = true →
      c ∈ Element.elements e →
      ValidatedDoubleColonName c →
      ValidatedDoubleColonName e.

(** In the words of the specification: the root [<sdf>] of the document
    contains a top-level [<model>] whose [<pose>] carries a non-empty
    [relative_to] attribute. *)
Definition anyTopLevelModelPoseRelativeTo (xmlDoc : XMLDocument.t) : bool :=
  existsb
    (fun sdfNode =>
       String.eqb (XMLElement.Value sdfNode) "sdf"
       && existsb
            (fun model =>
               String.eqb (XMLElement.Value model) "model"
               && existsb
                    (fun pose =>
                       String.eqb (XMLElement.Value pose) "pose"
                       && match XMLElement.Attribute "relative_to" pose with
                          | Some r => negb (String.eqb r "")
                          | None => false
                          end)
                    (XMLElement.children model))
            (XMLElement.children sdfNode))
    (XMLDocument.children xmlDoc).

(** ** Reading back what [ToElement] wrote *)

(** The text of every value of the type parses back to the value. *)
Definition textRoundTrips (T : Type) `{ParamValue T} : Prop :=
  ∀ v : T, fromString (toString v) = Some v.

(** What it is for two entities of a class to be equal on every accessor
    but the back-reference to the element they were loaded from: a relation
    that comes with the class, and that tells entities of different names
    apart. *)
Class Comparable (T : Type) `{Entity T} : Type := {
  equivalent : T → T → Prop;
  equivalent_Name : ∀ x y : T, equivalent x y → Name x = Name y }.

(** The same for the five classes of the entities that a link owns. *)
Class ComparableParts {Parts : LinkParts} : Type := {
  Visual_Comparable :: Comparable Visual;
  Collision_Comparable :: Comparable Collision;
  Light_Comparable :: Comparable Light;
  Sensor_Comparable :: Comparable Sensor;
  ParticleEmitter_Comparable :: Comparable ParticleEmitter }.

(** Two links are equal on every accessor but the back-reference to their
    element: member by member, the five collections entity by entity. *)
Definition equivalentLink {Math : IgnitionMath} {Parts : LinkParts}
    {Cmp : ComparableParts} (a b : Link.t) : Prop :=
  Link.name a = Link.name b
  ∧ Link.pose a = Link.pose b
  ∧ Link.poseRelativeTo a = Link.poseRelativeTo b
  ∧ Forall2 equivalent (Link.visuals a) (Link.visuals b)
  ∧ Forall2 equivalent (Link.lights a) (Link.lights b)
  ∧ Forall2 equivalent (Link.collisions a) (Link.collisions b)
  ∧ Forall2 equivalent (Link.sensors a) (Link.sensors b)
  ∧ Forall2 equivalent (Link.emitters a) (Link.emitters b)
  ∧ Link.inertial a = Link.inertial b
  ∧ Link.enableWind a = Link.enableWind b
  ∧ Link.poseRelativeToGraph a = Link.poseRelativeToGraph b.

(** Two PBR materials are equal on their accessor: the workflow of every
    type. *)
Definition samePbr {Math : IgnitionMath} {PM : PbrModel} (a b : Pbr) : Prop :=
  ∀ type : PbrWorkflowType, Pbr_Workflow type a = Pbr_Workflow type b.

(** Two materials are equal on every accessor but the back-reference to
    their element and the file path. *)
Definition equivalentMaterial {Math : IgnitionMath} {PM : PbrModel}
    (a b : Material.t) : Prop :=
  Material.scriptUri a = Material.scriptUri b
  ∧ Material.scriptName a = Material.scriptName b
  ∧ Material.shader a = Material.shader b
  ∧ Material.normalMap a = Material.normalMap b
  ∧ Material.lighting a = Material.lighting b
  ∧ Material.doubleSided a = Material.doubleSided b
  ∧ Material.ambient a = Material.ambient b
  ∧ Material.diffuse a = Material.diffuse b
  ∧ Material.specular a = Material.specular b
  ∧ Material.emissive a = Material.emissive b
  ∧ Material.renderOrder a = Material.renderOrder b
  ∧ match Material.pbr a, Material.pbr b with
    | Some p, Some q => samePbr p q
    | None, None => True
    | _, _ => False
    end.

(** *** The schema that [ToElement] and [Load] go through *)

(** The element that [GetElement(n)] returns: the first child of that
    name, or the instance of the description of that name that it adds. *)
Definition child (n : string) (e : Element.t) : option Element.t :=
  fst <$> Element.GetElement n e.

(** The element once the child behind the pointer that [GetElement]
    returned has become [c]: [c] stands where the first child of its name
    stood, or is the last child when there was none. *)
Definition putChild (c e : Element.t) : Element.t :=
  if Element.HasElement (Element.GetName c) e
  then Element.storeElementImpl c e else Element.InsertElement c e.

(** [GetElement(n)->Set(v)] finds a child with a value to set. *)
Definition settable (n : string) (e : Element.t) : Prop :=
  ∃ c, child n e = Some c ∧ is_Some (Element.GetValue c).

(** The same, and [Get<T>(n)] reads that child: no attribute of the
    element bears the name. *)
Definition readable (n : string) (e : Element.t) : Prop :=
  Element.GetAttribute n e = None ∧ settable n e.

(** The same for a child that also has the attribute [a]. *)
Definition readableWith (n a : string) (e : Element.t) : Prop :=
  Element.GetAttribute n e = None
  ∧ ∃ c, child n e = Some c ∧ is_Some (Element.GetValue c)
         ∧ is_Some (Element.GetAttribute a c).

(** What [Link::ToElement] and [Link::Load] use of the element that
    [initFile] makes of [link.sdf]: it is a [<link>] without children,
    with a [name]; it describes [<enable_wind>], a [<pose>] with a value
    and a [relative_to] that is empty by default, and an [<inertial>] with
    a [<pose>], a [<mass>] and an [<inertia>] of six moments. *)
Definition linkSchema (elem : Element.t) : Prop :=
  Element.GetName elem = "link"
  ∧ Element.elements elem = []
  ∧ is_Some (Element.GetAttribute "name" elem)
  ∧ readable "enable_wind" elem
  ∧ (∃ pose, child "pose" elem = Some pose
             ∧ is_Some (Element.GetValue pose)
             ∧ attributeValue "relative_to" pose = Some "")
  ∧ ∃ inertial,
      child "inertial" elem = Some inertial
      ∧ settable "pose" inertial
      ∧ readable "mass" inertial
      ∧ ∃ inertia,
          child "inertia" inertial = Some inertia
          ∧ Forall (fun n => readable n inertia)
              ["ixx"; "ixy"; "ixz"; "iyy"; "iyz"; "izz"].

(** What the blocks of [Material::ToElement] for a workflow use of the
    instance of [<metal>] or of [<specular>]. *)
Definition workflowSchema (maps : list string) (elem : Element.t) : Prop :=
  Forall (fun n => readable n elem) maps
  ∧ readableWith "normal_map" "type" elem
  ∧ readableWith "light_map" "uv_set" elem.

Definition metalMaps : list string :=
  ["albedo_map"; "roughness_map"; "roughness"; "metalness_map"; "metalness";
   "ambient_occlusion_map"; "emissive_map"].

Definition specularMaps : list string :=
  ["albedo_map"; "specular_map"; "environment_map"; "ambient_occlusion_map";
   "emissive_map"; "glossiness_map"; "glossiness"].

(** What [Material::ToElement] and [Material::Load] use of the element
    that [initFile] makes of [material.sdf]: a [<material>] without
    children; the colours, the render order and the two flags; a
    [<script>] with [<uri>] and [<name>]; a [<shader>] with a [type] and a
    [<normal_map>] whose default is empty or the placeholder; a [<pbr>]
    without children that describes the two workflows. *)
Definition materialSchema (elem : Element.t) : Prop :=
  Element.GetName elem = "material"
  ∧ Element.elements elem = []
  ∧ Forall (fun n => readable n elem)
      ["ambient"; "diffuse"; "specular"; "emissive"; "render_order";
       "lighting"; "double_sided"]
  ∧ (∃ script, child "script" elem = Some script
               ∧ readable "uri" script ∧ readable "name" script)
  ∧ (∃ shader normalMap,
       child "shader" elem = Some shader
       ∧ is_Some (Element.GetAttribute "type" shader)
       ∧ Element.GetAttribute "normal_map" shader = None
       ∧ child "normal_map" shader = Some normalMap
       ∧ (valueText normalMap = Some ""
          ∨ valueText normalMap = Some "__default__"))
  ∧ ∃ pbr metal specular,
      child "pbr" elem = Some pbr
      ∧ Element.elements pbr = []
      ∧ child "metal" pbr = Some metal
      ∧ workflowSchema metalMaps metal
      ∧ child "specular" pbr = Some specular
      ∧ workflowSchema specularMaps specular.

(** *** What the parameters are taken to do *)

(** The entities of a class that [Load] yields go through [ToElement] and
    [Load] to an equivalent entity, and their elements bear the name of
    their kind: the round trip of a class that is not part of the sources
    at hand. *)
Definition loadedRoundTrip (T : Type) `{Comparable T} (kind : string)
    : Prop :=
  ∀ elem : Element.t,
    Element.GetName (ToElement (fst (Load elem))) = kind
    ∧ equivalent (fst (Load (ToElement (fst (Load elem)))))
        (fst (Load elem)).

(** The entities of a list go through [ToElement] and [Load] to an
    equivalent entity, their elements bear the name of their kind, and
    their names are pairwise distinct. *)
Definition roundTrips {T} `{Comparable T} (kind : string) (l : list T)
    : Prop :=
  Forall (fun x => Element.GetName (ToElement x) = kind
                   ∧ equivalent (fst (Load (ToElement x))) x) l
  ∧ NoDup (Name <$> l).

(** The same for the five collections of a link. *)
Definition childrenRoundTrip {Math : IgnitionMath} {Parts : LinkParts}
    {Cmp : ComparableParts} (link : Link.t) : Prop :=
  roundTrips "visual" (Link.visuals link)
  ∧ roundTrips "collision" (Link.collisions link)
  ∧ roundTrips "light" (Link.lights link)
  ∧ roundTrips "sensor" (Link.sensors link)
  ∧ roundTrips "particle_emitter" (Link.emitters link).

(** [Get<T>(n)] on the element reads the text: no attribute bears the
    name, and the first child of the name has the text as its value. *)
Definition holds (n text : string) (e : Element.t) : Prop :=
  Element.GetAttribute n e = None
  ∧ ∃ c, Element.GetElementImpl n e = Some c ∧ valueText c = Some text.

(** The same, and the attribute [a] of that child has the text [atext]. *)
Definition holdsWith (n a atext text : string) (e : Element.t) : Prop :=
  Element.GetAttribute n e = None
  ∧ ∃ c, Element.GetElementImpl n e = Some c ∧ valueText c = Some text
         ∧ attributeValue a c = Some atext.

Definition normalMapSpaceText (space : NormalMapSpace) : string :=
  match space with TANGENT => "tangent" | OBJECT => "object" end.

(** The element holds what every workflow has: among others the normal map
    with its space and the light map with its set of texture
    coordinates. *)
Definition holdsWorkflow {Math : IgnitionMath} (workflow : PbrWorkflow.t)
    (elem : Element.t) : Prop :=
  holds "albedo_map" (PbrWorkflow.AlbedoMap workflow) elem
  ∧ holds "ambient_occlusion_map" (PbrWorkflow.AmbientOcclusionMap workflow)
      elem
  ∧ holds "emissive_map" (PbrWorkflow.EmissiveMap workflow) elem
  ∧ holdsWith "normal_map" "type"
      (normalMapSpaceText (PbrWorkflow.NormalMapType workflow))
      (PbrWorkflow.NormalMap workflow) elem
  ∧ holdsWith "light_map" "uv_set"
      (toString (PbrWorkflow.LightMapTexCoordSet workflow))
      (PbrWorkflow.LightMap workflow) elem.

(** The element holds the metal workflow as [Material::ToElement] writes
    it. *)
Definition holdsMetal {Math : IgnitionMath} (workflow : PbrWorkflow.t)
    (elem : Element.t) : Prop :=
  holdsWorkflow workflow elem
  ∧ holds "roughness_map" (PbrWorkflow.RoughnessMap workflow) elem
  ∧ holds "roughness" (toString (PbrWorkflow.Roughness workflow)) elem
  ∧ holds "metalness_map" (PbrWorkflow.MetalnessMap workflow) elem
  ∧ holds "metalness" (toString (PbrWorkflow.Metalness workflow)) elem.

(** The element holds the specular workflow as [Material::ToElement]
    writes it. *)
Definition holdsSpecular {Math : IgnitionMath} (workflow : PbrWorkflow.t)
    (elem : Element.t) : Prop :=
  holdsWorkflow workflow elem
  ∧ holds "specular_map" (PbrWorkflow.SpecularMap workflow) elem
  ∧ holds "environment_map" (PbrWorkflow.EnvironmentMap workflow) elem
  ∧ holds "glossiness_map" (PbrWorkflow.GlossinessMap workflow) elem
  ∧ holds "glossiness" (toString (PbrWorkflow.Glossiness workflow)) elem.

(** The children of a [<pbr>] for the workflow of one type: one element of
    the name of the workflow that holds it when the PBR material has the
    workflow under its own type, none otherwise. *)
Definition holdsWorkflowOf {Math : IgnitionMath} {PM : PbrModel}
    (type : PbrWorkflowType) (name : string)
    (holdsIt : PbrWorkflow.t → Element.t → Prop) (pbr : Pbr)
    (elems : list Element.t) : Prop :=
  match Pbr_Workflow type pbr with
  | Some workflow =>
      if bool_decide (PbrWorkflow.Type_ workflow = type)
      then ∃ elem, elems = [elem] ∧ Element.GetName elem = name
                   ∧ holdsIt workflow elem
      else elems = []
  | None => elems = []
  end.

(** The [<pbr>] element holds the PBR material: its children are those of
    the metal workflow followed by those of the specular workflow. *)
Definition holdsPbr {Math : IgnitionMath} {PM : PbrModel} (pbr : Pbr)
    (pbrElem : Element.t) : Prop :=
  Element.GetName pbrElem = "pbr"
  ∧ ∃ metal specular : list Element.t,
      Element.elements pbrElem = metal ++ specular
      ∧ holdsWorkflowOf METAL "metal" holdsMetal pbr metal
      ∧ holdsWorkflowOf SPECULAR "specular" holdsSpecular pbr specular.

(** The loader of the PBR material, which is not part of the sources at
    hand, depends on nothing but what [holdsPbr] tells of the element: from
    an element that holds a PBR material that it has loaded, it loads a PBR
    material with the same workflows. *)
Definition pbrLoadReads {Math : IgnitionMath} {PM : PbrModel} : Prop :=
  ∀ loaded elem : Element.t,
    holdsPbr (fst (Pbr_Load loaded)) elem →
    samePbr (fst (Pbr_Load elem)) (fst (Pbr_Load loaded)).

(** ** Where errors come from, and what a copy is *)

(** The errors of [Material::Load] on a [<material>]: every one is an
    ELEMENT_INVALID or an ELEMENT_MISSING of the material itself, or comes
    from the loader of the [<pbr>] child. *)
Definition materialErrorOrigin {Math : IgnitionMath} {PM : PbrModel}
    (_sdf : Element.t) (err : Error.t) : Prop :=
  Error.Code err = ELEMENT_INVALID
  ∨ Error.Code err = ELEMENT_MISSING
  ∨ ∃ pbrElem, Element.GetElementImpl "pbr" _sdf = Some pbrElem
               ∧ err ∈ snd (Pbr_Load pbrElem).

(** The kinds of top-level entity, in the order of preference of an
    [<include>], that a root element holds. *)
Definition presentKinds (includeRoot : Element.t) : list string :=
  List.filter (fun kind => Element.HasElement kind includeRoot)
    ["model"; "actor"; "light"].

(** An element that mirrors an XML element: the same name, the text as the
    value, and children that mirror the XML children one by one. *)
Fixpoint mirrors (x : XMLElement.t) (e : Element.t) {struct x} : bool :=
  String.eqb (Element.GetName e) (XMLElement.Value x)
  && bool_decide (Param.GetAsString <$> Element.GetValue e
                  = XMLElement.GetText x)
  && (fix all2 (xs : list XMLElement.t) (es : list Element.t) : bool :=
        match xs, es with
        | [], [] => true
        | x' :: xs', e' :: es' => mirrors x' e' && all2 xs' es'
        | _, _ => false
        end) (XMLElement.children x) (Element.elements e).

(** * A small schema and environment, for concrete runs

    The embedded schemas and the collaborators of the reader are inputs of
    the development.  The definitions below give one instance of them: a
    reduced copy of the element descriptions of [root.sdf], [world.sdf],
    [model.sdf], [link.sdf], [joint.sdf], [frame.sdf], [material.sdf] and a
    filesystem of two files.  They serve to run the embedding on explicit
    documents. *)

Module Demo.

Definition attr (k ty def : string) (req : bool) : Param.t :=
  Param.create k ty def req.

(** An element description: name, required, attributes, value, child
    descriptions. *)
Definition desc (n r : string) (attrs : list Param.t) (v : option Param.t)
    (ds : list Element.t) : Element.t :=
  Element.mk n r false "" attrs v [] ds None "" "" None "" true.

Definition val (ty def : string) : option Param.t :=
  Some (Param.create "" ty def false).

(** A description without children, with a typed value. *)
Definition leaf (n r ty def : string) : Element.t :=
  desc n r [] (val ty def) [].

Definition poseD : Element.t :=
  desc "pose" "0"
    [attr "relative_to" "string" "" false;
     attr "degrees" "bool" "false" false;
     attr "rotation_format" "string" "euler_rpy" false]
    (val "pose" "0 0 0 0 0 0") [].

Definition pluginD : Element.t :=
  Element.SetCopyChildren true
    (desc "plugin" "*"
       [attr "name" "string" "" false; attr "filename" "string" "" true]
       None []).

Definition frameD : Element.t :=
  desc "frame" "*"
    [attr "name" "string" "" true; attr "attached_to" "string" "" false]
    None [poseD].

Definition inertiaD : Element.t :=
  desc "inertia" "0" [] None
    [leaf "ixx" "1" "double" "1.0"; leaf "ixy" "1" "double" "0.0";
     leaf "ixz" "1" "double" "0.0"; leaf "iyy" "1" "double" "1.0";
     leaf "iyz" "1" "double" "0.0"; leaf "izz" "1" "double" "1.0"].

Definition inertialD : Element.t :=
  desc "inertial" "0" [] None
    [leaf "mass" "0" "double" "1.0"; poseD; inertiaD].

Definition linkD : Element.t :=
  desc "link" "*" [attr "name" "string" "" true] None
    [leaf "enable_wind" "0" "bool" "false"; inertialD; poseD;
     desc "collision" "*" [attr "name" "string" "" true] None [];
     desc "visual" "*" [attr "name" "string" "" true] None [];
     desc "sensor" "*" [attr "name" "string" "" true] None [];
     desc "light" "*" [attr "name" "string" "" true] None [];
     desc "particle_emitter" "*" [attr "name" "string" "" true] None []].

Definition xyzD : Element.t :=
  desc "xyz" "1" [attr "expressed_in" "string" "" false]
    (val "vector3" "0 0 1") [].

Definition jointD : Element.t :=
  desc "joint" "*"
    [attr "name" "string" "" true; attr "type" "string" "" true] None
    [leaf "parent" "1" "string" ""; leaf "child" "1" "string" ""; poseD;
     desc "axis" "0" [] None [xyzD]; desc "axis2" "0" [] None [xyzD]].

Definition includeD : Element.t :=
  desc "include" "*" [attr "merge" "bool" "false" false] None
    [leaf "uri" "1" "string" "__default__"; leaf "name" "0" "string" "";
     leaf "static" "0" "bool" "false";
     leaf "placement_frame" "0" "string" ""; poseD; pluginD].

Definition modelD : Element.t :=
  desc "model" "*"
    [attr "name" "string" "" true;
     attr "canonical_link" "string" "" false;
     attr "placement_frame" "string" "" false]
    None
    [leaf "static" "0" "bool" "false"; poseD; includeD; linkD; frameD;
     jointD; pluginD].

Definition actorD : Element.t :=
  desc "actor" "*" [attr "name" "string" "" true] None [poseD; pluginD].

Definition lightD : Element.t :=
  desc "light" "*"
    [attr "name" "string" "" true; attr "type" "string" "point" true]
    None [poseD].

Definition worldD : Element.t :=
  desc "world" "*" [attr "name" "string" "" true] None
    [includeD; modelD; actorD; lightD; frameD; pluginD].

(** [root.sdf] *)
Definition rootD : Element.t :=
  desc "sdf" "1" [attr "version" "string" "1.9" true] None
    [worldD; modelD; actorD; lightD].

Definition workflowMaps : list Element.t :=
  [leaf "albedo_map" "0" "string" ""; leaf "roughness_map" "0" "string" "";
   leaf "roughness" "0" "double" "0.5";
   leaf "metalness_map" "0" "string" "";
   leaf "metalness" "0" "double" "0.5";
   leaf "specular_map" "0" "string" "";
   leaf "glossiness_map" "0" "string" "";
   leaf "glossiness" "0" "double" "0";
   leaf "environment_map" "0" "string" "";
   leaf "ambient_occlusion_map" "0" "string" "";
   desc "normal_map" "0" [attr "type" "string" "tangent" false]
     (val "string" "") [];
   leaf "emissive_map" "0" "string" "";
   desc "light_map" "0" [attr "uv_set" "unsigned int" "0" false]
     (val "string" "") []].

(** [material.sdf] *)
Definition materialD : Element.t :=
  desc "material" "0" [] None
    [desc "script" "0" [] None
       [leaf "uri" "+" "string" "__default__";
        leaf "name" "1" "string" "__default__"];
     desc "shader" "0" [attr "type" "string" "pixel" true] None
       [leaf "normal_map" "0" "string" "__default__"];
     leaf "render_order" "0" "float" "0.0";
     leaf "lighting" "0" "bool" "true";
     leaf "ambient" "0" "color" "0 0 0 1";
     leaf "diffuse" "0" "color" "0 0 0 1";
     leaf "specular" "0" "color" "0 0 0 1";
     leaf "emissive" "0" "color" "0 0 0 1";
     leaf "double_sided" "0" "bool" "false";
     desc "pbr" "0" [] None
       [desc "metal" "0" [] None workflowMaps;
        desc "specular" "0" [] None workflowMaps]].
(** Numbers carried by their text: every text parses to itself. *)
Definition textValue (c : string) : ParamValue string :=
  {| toString := fun s : string => s;
     fromString := fun s : string => Some s;
     construct := c |}.

Definition textMath : IgnitionMath :=
  {| double := string; float := string; Pose3d := string; Color := string;
     unsigned := string;
     double_ParamValue := textValue "0";
     unsigned_ParamValue := textValue "0";
     float_ParamValue := textValue "0";
     Pose3d_ParamValue := textValue "0 0 0 0 0 0";
     Color_ParamValue := textValue "0 0 0 1";
     double_0 := "0"; double_1 := "1"; float_0 := "0";
     Pose3d_Zero := "0 0 0 0 0 0"; Color_0001 := "0 0 0 1";
     (* a mass matrix is taken as valid when its mass is not "0" *)
     MassMatrix3d_IsValid := fun mass _ _ => negb (String.eqb mass "0") |}.

(** Versions of the form [major.minor]. *)
Definition digit (c : ascii) : option nat :=
  let n := nat_of_ascii c in
  if Nat.leb 48 n && Nat.leb n 57 then Some (n - 48) else None.

Fixpoint readNat (s : string) (acc : nat) : nat * string :=
  match s with
  | EmptyString => (acc, s)
  | String c r =>
      match digit c with
      | Some d => readNat r (10 * acc + d)
      | None => (acc, s)
      end
  end.

Definition versionGe (v : string) (major minor : nat) : bool :=
  let '(a, r) := readNat v 0 in
  let b := match r with
           | String _ r' => fst (readNat r' 0)
           | EmptyString => 0
           end in
  Nat.ltb major a || (Nat.eqb a major && Nat.leb minor b).

Definition named (n : string) (e : Element.t) : Element.t :=
  default e (Element.setAttribute "name" n e).

Definition withElements (l : list Element.t) (e : Element.t) : Element.t :=
  Element.setElements l e.

Definition inst := Element.instantiate.

(** The files of the demo filesystem, as the element trees that reading
    them yields: [two.sdf] holds an actor followed by a model; [m.sdf]
    holds the model [M] with a link, a frame and a static flag. *)
Definition actorA : Element.t := named "a" (inst actorD).
Definition linkL : Element.t := named "L" (inst linkD).
Definition frameF : Element.t := named "F" (inst frameD).
Definition modelM : Element.t :=
  withElements [inst (leaf "static" "0" "bool" "false"); linkL; frameF]
    (named "M" (inst modelD)).

Definition files (filename : string) : option (list Element.t) :=
  if String.eqb filename "two.sdf" then Some [actorA; modelM]
  else if String.eqb filename "m.sdf" then Some [modelM]
  else if String.eqb filename "a.sdf" then Some [actorA]
  else None.

Definition env : ParserEnv :=
  {| kSdfStringSource := "data-string";
     kUrdfStringSource := "urdf-string";
     SDF_Version := "1.9";
     Converter_Convert := fun d _ => d;
     SemanticVersion_ge := versionGe;
     Param_SetFromString := fun v p => Some (Param.Set_ v p);
     Param_Reparse := fun p => Some p;
     isValidFrameReference := fun n => negb (String.eqb n "__root__");
     XMLUtil_ToBool := fun s : string => fromString s;
     findFile := fun f _ _ _ =>
       match files f with Some _ => f | None => "" end;
     filesystem_is_directory := fun _ => false;
     getModelFilePath := fun d => d;
     initFile := fun f _ e =>
       if String.eqb f "link.sdf" then (true, linkD)
       else if String.eqb f "material.sdf" then (true, materialD)
       else (false, e);
     init := fun sdf _ => (true, SDF.SetRoot rootD sdf);
     readFile := fun f _ sdf errs =>
       match files f, SDF.Root sdf with
       | Some l, Some root =>
           (true, SDF.SetFilePath f (SDF.SetRoot (withElements l root) sdf),
            errs)
       | _, _ => (false, sdf, errs)
       end;
     ParamPassing_updateParams := fun _ _ _ root errs => (root, errs) |}.

(** A loader of the top-level model of a document, with a semantic pose
    that resolves to the raw pose. *)
Definition loadModel (sdf : SDF.t) : option (@Model.t textMath) :=
  root ← SDF.Root sdf;
  m ← Element.GetElementImpl "model" root;
  let pose := Element.GetElementImpl "pose" m in
  Some (Model.mk textMath
          (Element.Get1 (T:=string) "name" m)
          (default "0 0 0 0 0 0"
             ((fun p => fst (Element.getValue (T:=string) "" p)) <$> pose))
          (default ""
             ((fun p => Element.Get1 (T:=string) "relative_to" p) <$> pose))
          (Element.Get1 (T:=string) "placement_frame" m)
          (default ""
             (Element.Get1 (T:=string) "name"
                <$> Element.GetElementImpl "link" m))
          (fun p => ([], p))).

Definition loader : @RootLoader textMath :=
  {| Root_Load := fun sdf _ => ([], loadModel sdf) |}.

(** XML elements, written as in a document. *)
Definition xattr (n v : string) : XMLAttribute.t := XMLAttribute.mk n v 1.

Definition xml (n : string) (attrs : list XMLAttribute.t)
    (children : list XMLElement.t) : XMLElement.t :=
  XMLElement.mk n attrs None children 1.

Definition xtext (n text : string) : XMLElement.t :=
  XMLElement.mk n [] (Some text) [] 1.

Definition document (version : string) (children : list XMLElement.t)
    : XMLDocument.t :=
  XMLDocument.mk [xml "sdf" [xattr "version" version] children].

(** [readDoc] of a document given as a string, into a freshly initialised
    SDF object. *)
Definition read (doc : XMLDocument.t)
    : option (bool * option SDF.t * Errors) :=
  readDoc (Math:=textMath) (RL:=loader) (Env:=env) (Some doc)
    (Some (snd (init (ParserEnv:=env) SDF_new ParserConfig.GlobalConfig)))
    "data-string" true ParserConfig.GlobalConfig [].
(** Link parts that are just their names. *)
Definition namedEntity (kind : string) : Entity string :=
  {| Name := fun s : string => s;
     Load := fun e => (Element.Get1 (T:=string) "name" e, []);
     ToElement := fun s : string =>
       named s (desc kind "*" [attr "name" "string" "" true] None []) |}.

Definition parts : LinkParts :=
  {| Visual := string; Collision := string; Light := string;
     Sensor := string; ParticleEmitter := string;
     Visual_Entity := namedEntity "visual";
     Collision_Entity := namedEntity "collision";
     Light_Entity := namedEntity "light";
     Sensor_Entity := namedEntity "sensor";
     ParticleEmitter_Entity := namedEntity "particle_emitter";
     ScopedGraph := unit; ScopedGraph_new := tt |}.

Definition visual (n : string) : @Visual parts := n.
Definition collision (n : string) : @Collision parts := n.

(** A link whose mass is "0" (an invalid mass matrix in [textMath]), with
    a visual and the wind enabled. *)
Definition massless : Element.t :=
  withElements
    [withElements [Element.Set_ "0" (inst (leaf "mass" "0" "double" "1.0"))]
       (inst inertialD);
     Element.Set_ "true" (inst (leaf "enable_wind" "0" "bool" "false"));
     named "v" (inst (desc "visual" "*" [attr "name" "string" "" true]
                        None []))]
    (named "L" (inst linkD)).

(** The documents read from [m.sdf] and [two.sdf], a parent model [P] and
    the location of an [<include>]. *)
Definition sdfM : SDF.t :=
  SDF.mk (Some (withElements [modelM] rootD)) "m.sdf" "1.9".
Definition sdfTwo : SDF.t :=
  SDF.mk (Some (withElements [actorA; modelM] rootD)) "two.sdf" "1.9".
Definition parentP : Element.t := named "P" (inst modelD).
Definition here : SourceLocation.t :=
  SourceLocation.mk (Some "/sdf/model/include[0]") (Some "p.sdf") (Some 3%Z).

(** The model that [loader] yields for [m.sdf]. *)
Definition modelOfM : @Model.t textMath :=
  Model.mk textMath "M" "0 0 0 0 0 0" "" "" "L" (fun p => ([], p)).

(** The parent after the merge-include of [m.sdf]. *)
Definition mergedP : Element.t :=
  default parentP
    (fst <$> insertIncludedElement (Math:=textMath) (RL:=loader) sdfM here
               true parentP ParserConfig.GlobalConfig []).

(** An [<inertia>] and a revolute [<joint>] as read from a document that
    gives them no children. *)
Definition bareInertia : Element.t := inertiaD.
Definition bareJoint : Element.t :=
  default jointD (Element.setAttribute "type" "revolute" (named "J" jointD)).
Definition somewhere : XMLElement.t := xml "joint" [] [].

(** A world that includes [two.sdf] under a new name, without merge. *)
Definition docTwo : XMLDocument.t :=
  document "1.9"
    [xml "world" [xattr "name" "w"]
       [xml "include" [] [xtext "uri" "two.sdf"; xtext "name" "renamed"]]].

(** The kinds and names of the children of the first child of the root of
    a document that was read. *)
Definition firstEntityChildren (r : option (bool * option SDF.t * Errors))
    : list (string * option string) :=
  match r with
  | Some (_, Some sdf, _) =>
      match SDF.Root sdf ≫= Element.GetFirstElement with
      | Some entity =>
          (fun c => (Element.GetName c, attributeValue "name" c))
            <$> Element.elements entity
      | None => []
      end
  | _ => []
  end.

(** The result and the error codes of a read. *)
Definition outcome (r : option (bool * option SDF.t * Errors))
    : option (bool * list ErrorCode) :=
  match r with
  | Some (ok, _, errs) => Some (ok, Error.Code <$> errs)
  | None => None
  end.

(** The root element of a document that was read. *)
Definition rootOf (r : option (bool * option SDF.t * Errors))
    : option Element.t :=
  match r with
  | Some (_, Some sdf, _) => SDF.Root sdf
  | _ => None
  end.

(** A world with a plugin, and a world with a model, named with [::]. *)
Definition docPlugin : XMLDocument.t :=
  document "1.9"
    [xml "world" [xattr "name" "w"]
       [xml "plugin" [xattr "name" "a::b"; xattr "filename" "f"] []]].
Definition docModelColon : XMLDocument.t :=
  document "1.9"
    [xml "world" [xattr "name" "w"] [xml "model" [xattr "name" "a::b"] []]].

(** Two top-level models, the second with a pose relative to [x]; one
    top-level model with such a pose; and the same under an [<sdf>] without
    a version. *)
Definition docSecondModel : XMLDocument.t :=
  document "1.9"
    [xml "model" [xattr "name" "a"] [];
     xml "model" [xattr "name" "b"]
       [xml "pose" [xattr "relative_to" "x"] []]].
Definition docRelativeTo : XMLDocument.t :=
  document "1.9"
    [xml "model" [xattr "name" "b"]
       [xml "pose" [xattr "relative_to" "x"] []]].
Definition docNoVersion : XMLDocument.t :=
  XMLDocument.mk
    [xml "sdf" []
       [xml "model" [xattr "name" "b"]
          [xml "pose" [xattr "relative_to" "x"] []]]].

(** The SDF object that [read] fills. *)
Definition freshSDF : SDF.t :=
  snd (init (ParserEnv:=env) SDF_new ParserConfig.GlobalConfig).

(** The [<sdf>] element of a document, the root element of [freshSDF] as
    [readDoc] stamps it, and the root element once [docModelColon] is
    read. *)
Definition sdfNodeOf (doc : XMLDocument.t) : XMLElement.t :=
  default (xml "sdf" [] []) (XMLDocument.FirstChildElement "sdf" doc).
Definition stampedRoot : Element.t :=
  default Element.empty
    (SDF.Root (readDoc_sdf (Env:=env) "1.9" "data-string" freshSDF)).
Definition rootModelColon : Element.t :=
  default Element.empty (rootOf (read docModelColon)).
(** A PBR material kept as the [<pbr>] element it was loaded from, with no
    workflow. *)
Definition pbrModel : @PbrModel textMath :=
  {| Pbr := Element.t;
     Pbr_Load := fun e => (e, []);
     Pbr_Workflow := fun _ _ => None |}.

(** A [<material>] element of the file [m.sdf], with a script. *)
Definition materialOfM : Element.t :=
  Element.SetFilePath "m.sdf"
    (withElements
       [withElements
          [Element.Set_ "file://media/materials/scripts"
             (inst (leaf "uri" "+" "string" "__default__"));
           Element.Set_ "Gazebo/Grey"
             (inst (leaf "name" "1" "string" "__default__"))]
          (desc "script" "0" [] None
             [leaf "uri" "+" "string" "__default__";
              leaf "name" "1" "string" "__default__"])]
       materialD).

(** Versions compared by [1000 * major + minor]. *)
Definition versionRank (v : string) : nat :=
  let '(a, r) := readNat v 0 in
  let b := match r with
           | String _ r' => fst (readNat r' 0)
           | EmptyString => 0
           end in
  1000 * a + b.

Definition semanticVersion : SemanticVersion :=
  {| SDF_VERSION := "1.9";
     SemanticVersion_gt := fun a b => Nat.ltb (versionRank b) (versionRank a);
     SemanticVersion_le := fun a b => Nat.leb (versionRank a) (versionRank b)
  |}.

(** The [<model>] of a model.config that offers the model in three
    versions of the format, one of them newer than the parser, and one
    that offers it in a newer version only. *)
Definition modelConfig : XMLElement.t :=
  xml "model" []
    [xtext "name" "M";
     XMLElement.mk "sdf" [xattr "version" "1.6"] (Some "model-1_6.sdf") [] 1;
     XMLElement.mk "sdf" [xattr "version" "2.0"] (Some "model-2_0.sdf") [] 1;
     XMLElement.mk "sdf" [xattr "version" "1.8"] (Some "model-1_8.sdf") []
       1].

Definition modelConfigTooNew : XMLElement.t :=
  xml "model" []
    [xtext "name" "M";
     XMLElement.mk "sdf" [xattr "version" "2.0"] (Some "model-2_0.sdf") []
       1].

(** A description that copies its children verbatim and yet requires a
    child, an [<inertia>] that gives one of its six moments, and a
    revolute [<joint>] that names its parent only. *)
Definition customD : Element.t :=
  Element.SetCopyChildren true
    (Demo.desc "custom" "0" [] None [Demo.leaf "size" "1" "double" "1.0"]).
Definition custom : XMLElement.t := Demo.xml "custom" [] [].
Definition inertiaIxx : XMLElement.t :=
  Demo.xml "inertia" [] [Demo.xtext "ixx" "2"].
Definition jointParent : XMLElement.t :=
  Demo.xml "joint" [Demo.xattr "name" "J"; Demo.xattr "type" "revolute"]
    [Demo.xtext "parent" "a"].

(** Link parts that are just their names are compared by equality. *)
Definition namedComparable (kind : string)
    : @Comparable string (namedEntity kind) :=
  {| equivalent := eq;
     equivalent_Name := fun (x y : string) (H : x = y) =>
       f_equal (@Name string (namedEntity kind)) H |}.

Definition comparableParts : @ComparableParts parts :=
  @Build_ComparableParts parts
    (namedComparable "visual") (namedComparable "collision")
    (namedComparable "light") (namedComparable "sensor")
    (namedComparable "particle_emitter").

(** The text of the first child of a name, and of one of its attributes;
    empty when there is none. *)
Definition textOf (n : string) (e : Element.t) : string :=
  default "" (Element.GetElementImpl n e ≫= valueText).
Definition attributeOf (n a : string) (e : Element.t) : string :=
  default "" (Element.GetElementImpl n e ≫= attributeValue a).

(** A workflow read from a [<metal>] or a [<specular>]: the maps of its
    type, and the defaults for those of the other type. *)
Definition readWorkflow (type : PbrWorkflowType) (e : Element.t)
    : @PbrWorkflow.t textMath :=
  let metal := bool_decide (type = METAL) in
  PbrWorkflow.mk textMath type
    (textOf "albedo_map" e)
    (textOf "normal_map" e)
    (if String.eqb (attributeOf "normal_map" "type" e) "object"
     then OBJECT else TANGENT)
    (if metal then "" else textOf "environment_map" e)
    (textOf "ambient_occlusion_map" e)
    (if metal then textOf "roughness_map" e else "")
    (if metal then textOf "metalness_map" e else "")
    (textOf "emissive_map" e)
    (textOf "light_map" e)
    (attributeOf "light_map" "uv_set" e)
    (if metal then textOf "roughness" e else "0.5")
    (if metal then textOf "metalness" e else "0.5")
    (if metal then "" else textOf "specular_map" e)
    (if metal then "" else textOf "glossiness_map" e)
    (if metal then "0" else textOf "glossiness" e).

(** A PBR material as its two workflows, read from the first [<metal>] and
    the first [<specular>] of a [<pbr>]. *)
Definition pbrReader : @PbrModel textMath :=
  {| Pbr := option (@PbrWorkflow.t textMath)
            * option (@PbrWorkflow.t textMath);
     Pbr_Load := fun e =>
       ((readWorkflow METAL <$> Element.GetElementImpl "metal" e,
         readWorkflow SPECULAR <$> Element.GetElementImpl "specular" e), []);
     Pbr_Workflow := fun type pbr =>
       match type with
       | METAL => fst pbr
       | SPECULAR => snd pbr
       | PBR_NONE => None
       end |}.

(** The instance of the child description of a name, and an element with
    one of its attributes set. *)
Definition described (n : string) (d : Element.t) : Element.t :=
  inst (default Element.empty (Element.GetElementDescription n d)).
Definition attributed (k v : string) (e : Element.t) : Element.t :=
  default e (Element.setAttribute k v e).

(** A [<link>] with a pose relative to the frame [F], a mass, the wind
    enabled, two visuals of the same name and a collision. *)
Definition linkOfFile : Element.t :=
  withElements
    [Element.Set_ "1 2 3 0 0 0"
       (attributed "relative_to" "F" (described "pose" linkD));
     withElements
       [Element.Set_ "2" (described "mass" inertialD)]
       (described "inertial" linkD);
     Element.Set_ "true" (described "enable_wind" linkD);
     named "v" (described "visual" linkD);
     named "v" (described "visual" linkD);
     named "c" (described "collision" linkD)]
    (named "L" (inst linkD)).

(** A [<material>] with a script, a normal map shader and a PBR material
    with a metal workflow. *)
Definition metalOfFile : Element.t :=
  let metalD := described "metal" (described "pbr" materialD) in
  withElements
    [Element.Set_ "a.png" (described "albedo_map" metalD);
     Element.Set_ "0.3" (described "roughness" metalD);
     Element.Set_ "n.png"
       (attributed "type" "object" (described "normal_map" metalD))]
    metalD.

Definition materialOfFile : Element.t :=
  let scriptD := described "script" materialD in
  let shaderD := described "shader" materialD in
  withElements
    [withElements
       [Element.Set_ "file://media/materials/scripts"
          (described "uri" scriptD);
        Element.Set_ "Gazebo/Grey" (described "name" scriptD)]
       scriptD;
     withElements
       [Element.Set_ "n.png" (described "normal_map" shaderD)]
       (attributed "type" "normal_map_object_space" shaderD);
     Element.Set_ "0.5 0.5 0.5 1" (described "ambient" materialD);
     withElements [metalOfFile] (described "pbr" materialD)]
    materialD.
End Demo.

(** * Properties *)

(** ** Lists and strings *)

Lemma existsb_eqb_name {A} (f : A → string) (n : string) (l : list A) :
  existsb (fun x => String.eqb (f x) n) l = true ↔ ∃ x, x ∈ l ∧ f x = n.
Proof.
  rewrite existsb_exists. split.
  - intros (x & Hin & Heq). exists x. split.
    + by apply list_elem_of_In.
    + by apply String.eqb_eq.
  - intros (x & Hin & Heq). exists x. split.
    + by apply list_elem_of_In.
    + by apply String.eqb_eq.
Qed.

Lemma find_eqb_name {A} (f : A → string) (n : string) (l : list A) :
  is_Some (List.find (fun x => String.eqb (f x) n) l)
  ↔ ∃ x, x ∈ l ∧ f x = n.
Proof.
  induction l as [|a l IH]; simpl.
  - split; [intros [? ?]; discriminate | intros (x & Hin & _)].
    by apply elem_of_nil in Hin.
  - destruct (String.eqb (f a) n) eqn:E.
    + apply String.eqb_eq in E. split; [|by eauto].
      intros _. exists a. split; [left | done].
    + rewrite IH. apply String.eqb_neq in E. split.
      * intros (x & Hin & Hx). exists x. split; [by right | done].
      * intros (x & Hin & Hx). apply elem_of_cons in Hin as [->|Hin];
          [done | eauto].
Qed.

Lemma NoDup_fmap_snoc {A} (f : A → string) (l : list A) (a : A) :
  NoDup (f <$> l) → (¬ ∃ x, x ∈ l ∧ f x = f a) → NoDup (f <$> (l ++ [a])).
Proof.
  intros Hnd Hfresh. rewrite fmap_app. apply NoDup_app. split; [done|].
  split; [|apply NoDup_singleton].
  intros y Hy Hy'. apply list_elem_of_singleton in Hy'. subst y.
  apply list_elem_of_fmap in Hy as (x & Hfx & Hin). apply Hfresh. eauto.
Qed.

(** ** Link: the Add operations *)

Section LinkAdd.
Context {Math : IgnitionMath} {Parts : LinkParts}.

Lemma LightNameExists_spec (n : string) (l : Link.t) :
  Link.LightNameExists n l = true ↔ ∃ x, x ∈ Link.lights l ∧ Name x = n.
Proof.
  unfold Link.LightNameExists, Link.LightByName.
  rewrite <- find_eqb_name.
  destruct (List.find _ _); split; eauto; try discriminate.
  intros [? ?]; discriminate.
Qed.

Lemma add_nameExists (op : Link.AddOp) (l : Link.t) :
  Link.nameExists op l → Link.add op l = (false, l).
Proof.
  destruct op as [c|v|li|s|e]; simpl; intros Hex.
  - unfold Link.AddCollision, Link.CollisionNameExists.
    by apply existsb_eqb_name in Hex as ->.
  - unfold Link.AddVisual, Link.VisualNameExists.
    by apply existsb_eqb_name in Hex as ->.
  - unfold Link.AddLight. by apply LightNameExists_spec in Hex as ->.
  - unfold Link.AddSensor, Link.SensorNameExists.
    by apply existsb_eqb_name in Hex as ->.
  - unfold Link.AddParticleEmitter, Link.ParticleEmitterNameExists.
    by apply existsb_eqb_name in Hex as ->.
Qed.

Lemma add_fresh (op : Link.AddOp) (l : Link.t) :
  ¬ Link.nameExists op l → Link.add op l = (true, Link.appended op l).
Proof.
  destruct op as [c|v|li|s|e]; simpl; intros Hex.
  - unfold Link.AddCollision, Link.CollisionNameExists.
    rewrite <- existsb_eqb_name in Hex. by destruct (existsb _ _).
  - unfold Link.AddVisual, Link.VisualNameExists.
    rewrite <- existsb_eqb_name in Hex. by destruct (existsb _ _).
  - unfold Link.AddLight.
    rewrite <- LightNameExists_spec in Hex.
    by destruct (Link.LightNameExists _ _).
  - unfold Link.AddSensor, Link.SensorNameExists.
    rewrite <- existsb_eqb_name in Hex. by destruct (existsb _ _).
  - unfold Link.AddParticleEmitter, Link.ParticleEmitterNameExists.
    rewrite <- existsb_eqb_name in Hex. by destruct (existsb _ _).
Qed.

Lemma appended_uniqueNames (op : Link.AddOp) (l : Link.t) :
  ¬ Link.nameExists op l → Link.uniqueNames l →
  Link.uniqueNames (Link.appended op l).
Proof.
  intros Hfresh (Hv & Hc & Hl & Hs & He).
  destruct op; simpl in *; repeat split; simpl;
    try done; by apply NoDup_fmap_snoc.
Qed.

Lemma add_uniqueNames (op : Link.AddOp) (l : Link.t) :
  Link.uniqueNames l → Link.uniqueNames (snd (Link.add op l)).
Proof.
  intros Hu.
  destruct (Link.add op l) as [b l'] eqn:E. simpl.
  pose proof (add_nameExists op l) as H1.
  pose proof (add_fresh op l) as H2.
  destruct b.
  - assert (¬ Link.nameExists op l) as Hn.
    { intros Hex. rewrite (H1 Hex) in E. discriminate. }
    rewrite (H2 Hn) in E. injection E as <-.
    by apply appended_uniqueNames.
  - assert (l' = l) as ->; [|done].
    destruct op; simpl in E;
      unfold Link.AddCollision, Link.AddVisual, Link.AddLight,
        Link.AddSensor, Link.AddParticleEmitter in E;
      repeat case_match; congruence.
Qed.

Lemma addAll_uniqueNames (ops : list Link.AddOp) (l : Link.t) :
  Link.uniqueNames l → Link.uniqueNames (Link.addAll ops l).
Proof.
  revert l. induction ops as [|op ops IH]; intros l Hu; [done|].
  simpl. apply IH. by apply add_uniqueNames.
Qed.

(** C10.  For every link and every child kind (visual, collision, light,
    sensor, particle emitter), the Add operation returns false and leaves
    the link as it is when a child of that kind with the same name exists,
    and otherwise appends the child to the collection of its kind and
    returns true; hence the names within each collection stay pairwise
    distinct under any sequence of Add operations. *)
Theorem Link_Add_names_stay_distinct (op : Link.AddOp) (l : Link.t) :
  (Link.nameExists op l → Link.add op l = (false, l))
  ∧ (¬ Link.nameExists op l → Link.add op l = (true, Link.appended op l))
  ∧ (∀ ops : list Link.AddOp,
       Link.uniqueNames l → Link.uniqueNames (Link.addAll ops l)).
Proof.
  split; [apply add_nameExists|].
  split; [apply add_fresh|].
  intros ops. apply addAll_uniqueNames.
Qed.
End LinkAdd.

Lemma Link_Add_names_stay_distinct_witness :
  let l0 := Link.new (Math:=Demo.textMath) (Parts:=Demo.parts) in
  let l1 := snd (Link.AddVisual (Demo.visual "v") l0) in
  Link.add (Link.OpVisual (Demo.visual "v")) l1 = (false, l1)
  ∧ Link.add (Link.OpVisual (Demo.visual "w")) l1
    = (true, Link.appended (Link.OpVisual (Demo.visual "w")) l1)
  ∧ Link.uniqueNames
      (Link.addAll
         [Link.OpVisual (Demo.visual "w"); Link.OpVisual (Demo.visual "v");
          Link.OpCollision (Demo.collision "v")] l1).
Proof.
  intros l0 l1.
  assert (Link.uniqueNames l1) as Hu.
  { repeat split; vm_compute;
      first [apply NoDup_nil_2 | apply NoDup_singleton]. }
  split.
  - apply (Link_Add_names_stay_distinct (Link.OpVisual (Demo.visual "v")) l1).
    exists (Demo.visual "v"). split; [vm_compute; left | reflexivity].
  - split.
    + apply (Link_Add_names_stay_distinct
               (Link.OpVisual (Demo.visual "w")) l1).
      intros (x & Hin & Hx). vm_compute in Hin, Hx.
      apply list_elem_of_singleton in Hin. congruence.
    + by apply (Link_Add_names_stay_distinct
                  (Link.OpVisual (Demo.visual "w")) l1).
Defined.

(** ** Link: loading with an invalid inertia *)

Section LinkLoad.
Context {Math : IgnitionMath} {Parts : LinkParts}.

(** C9.  For every [<link>] element whose inertial data yields an invalid
    mass matrix, [Link::Load] appends a LINK_INERTIA_INVALID error to the
    errors accumulated so far (those of the name and of the child
    collections) and still loads the name, the pose, the enable-wind flag
    and the five child collections; the accumulated errors are returned. *)
Theorem Link_Load_invalid_inertia (_sdf : Element.t) (this l : Link.t)
    (errors : Errors) :
  Element.GetName _sdf = "link" →
  Link.Load _sdf this = (l, errors) →
  MassMatrix3d.IsValid (Inertiald.MassMatrix (Link.inertial l)) = false →
  (∃ nameErrors : Errors,
     errors =
       (nameErrors
        ++ snd (loadUniqueRepeated _sdf "visual" (Link.visuals this))
        ++ snd (loadUniqueRepeated _sdf "collision" (Link.collisions this))
        ++ snd (loadUniqueRepeated _sdf "light" (Link.lights this))
        ++ snd (loadUniqueRepeated _sdf "sensor" (Link.sensors this))
        ++ snd (loadUniqueRepeated _sdf "particle_emitter"
                  (Link.emitters this)))
       ++ [Error.make LINK_INERTIA_INVALID
             ("A link named " +:+ Link.name l +:+ " has invalid inertia.")])
  ∧ Link.name l = fst (loadName _sdf)
  ∧ (Link.pose l, Link.poseRelativeTo l)
    = (let r := loadPose _sdf (Link.pose this) (Link.poseRelativeTo this) in
       (snd (fst r), snd r))
  ∧ Link.enableWind l
    = fst (Element.Get "enable_wind" (Link.enableWind this) _sdf)
  ∧ Link.visuals l
    = fst (loadUniqueRepeated _sdf "visual" (Link.visuals this))
  ∧ Link.collisions l
    = fst (loadUniqueRepeated _sdf "collision" (Link.collisions this))
  ∧ Link.lights l = fst (loadUniqueRepeated _sdf "light" (Link.lights this))
  ∧ Link.sensors l
    = fst (loadUniqueRepeated _sdf "sensor" (Link.sensors this))
  ∧ Link.emitters l
    = fst (loadUniqueRepeated _sdf "particle_emitter" (Link.emitters this)).
Proof.
  intros Hname. unfold Link.Load. rewrite Hname. simpl negb. cbv iota.
  destruct (loadName _sdf) as [name loaded].
  destruct (loadPose _sdf _ _) as [[b pose] rel].
  destruct (loadUniqueRepeated _sdf "visual" _) as [vs ve].
  destruct (loadUniqueRepeated _sdf "collision" _) as [cs ce].
  destruct (loadUniqueRepeated _sdf "light" _) as [ls le].
  destruct (loadUniqueRepeated _sdf "sensor" _) as [ss se].
  destruct (loadUniqueRepeated _sdf "particle_emitter" _) as [es ee].
  unfold Inertiald.SetMassMatrix. cbv beta iota zeta.
  match goal with
  | |- context [match ?x with pair _ _ => _ end] =>
      destruct x as [[[mass xxyyzz] xyxzyz] inertiaPose]
  end.
  destruct (MassMatrix3d.IsValid _) eqn:Hvalid; simpl;
    intros Heq; injection Heq as <- <-; simpl; intros Hinvalid.
  - congruence.
  - split; [eexists; rewrite !app_assoc; reflexivity | done].
Qed.
End LinkLoad.

Lemma Link_Load_invalid_inertia_witness :
  let r := Link.Load (Math:=Demo.textMath) (Parts:=Demo.parts)
             Demo.massless Link.new in
  hasCode LINK_INERTIA_INVALID (snd r) = true
  ∧ Link.name (fst r) = "L"
  ∧ Link.enableWind (fst r) = true
  ∧ Link.visuals (fst r) = [Demo.visual "v"].
Proof.
  intros r.
  assert (Element.GetName Demo.massless = "link") as Hname
    by reflexivity.
  assert (Link.Load Demo.massless Link.new = (fst r, snd r)) as Hload
    by apply surjective_pairing.
  assert (MassMatrix3d.IsValid
            (Inertiald.MassMatrix (Link.inertial (fst r))) = false)
    as Hinvalid by (vm_compute; reflexivity).
  destruct (Link_Load_invalid_inertia (Math:=Demo.textMath)
              (Parts:=Demo.parts) Demo.massless Link.new (fst r) (snd r)
              Hname Hload Hinvalid)
    as ((nameErrors & Herr) & Hn & _ & Hw & Hv & _).
  split; [|split; [|split]].
  - rewrite Herr. unfold hasCode. rewrite existsb_app. simpl.
    by rewrite orb_true_r.
  - rewrite Hn. vm_compute. reflexivity.
  - rewrite Hw. vm_compute. reflexivity.
  - rewrite Hv. vm_compute. reflexivity.
Defined.

(** ** Elements *)

Lemma find_storeParam (p : Param.t) (l : list Param.t) :
  is_Some (List.find (fun q => String.eqb (Param.GetKey q) (Param.GetKey p)) l)
  → List.find (fun q => String.eqb (Param.GetKey q) (Param.GetKey p))
      (Element.storeParam p l) = Some p.
Proof.
  induction l as [|q l IH]; simpl; [intros [? ?]; discriminate|].
  destruct (String.eqb (Param.GetKey q) (Param.GetKey p)) eqn:E; simpl.
  - by rewrite String.eqb_refl.
  - rewrite E. exact IH.
Qed.

Lemma find_storeParam_ne (k : string) (p : Param.t) (l : list Param.t) :
  k ≠ Param.GetKey p →
  List.find (fun q => String.eqb (Param.GetKey q) k) (Element.storeParam p l)
  = List.find (fun q => String.eqb (Param.GetKey q) k) l.
Proof.
  intros Hne. induction l as [|q l IH]; simpl; [done|].
  destruct (String.eqb (Param.GetKey q) (Param.GetKey p)) eqn:E; simpl.
  - apply String.eqb_eq in E. rewrite E.
    assert (String.eqb (Param.GetKey p) k = false) as ->; [|done].
    apply String.eqb_neq. congruence.
  - by rewrite IH.
Qed.

Lemma find_key (k : string) (l : list Param.t) (p : Param.t) :
  List.find (fun q => String.eqb (Param.GetKey q) k) l = Some p →
  Param.GetKey p = k.
Proof.
  intros H. apply find_some in H as [_ H]. by apply String.eqb_eq.
Qed.

(** [GetAttribute(k)->Set(v)] succeeds exactly on an element that has the
    attribute, and only that attribute changes. *)
Lemma setAttribute_Some (k v : string) (e e' : Element.t) :
  Element.setAttribute k v e = Some e' →
  ∃ p, Element.GetAttribute k e = Some p
       ∧ e' = Element.setAttributes
                (Element.storeParam (Param.Set_ v p) (Element.attributes e)) e.
Proof.
  unfold Element.setAttribute. intros H.
  destruct (Element.GetAttribute k e) as [p|] eqn:E; simpl in H; [|done].
  exists p. split; [done|]. congruence.
Qed.

Lemma setAttribute_is_Some (k v : string) (e : Element.t) :
  is_Some (Element.GetAttribute k e) → is_Some (Element.setAttribute k v e).
Proof. unfold Element.setAttribute. intros [p ->]. simpl. eauto. Qed.

Lemma attributeValue_setAttribute (k v : string) (e e' : Element.t) :
  Element.setAttribute k v e = Some e' → attributeValue k e' = Some v.
Proof.
  intros (p & Hp & ->)%setAttribute_Some.
  unfold attributeValue, Element.GetAttribute in *. simpl.
  pose proof (find_key _ _ _ Hp) as Hk. subst k.
  pose proof (find_storeParam (Param.Set_ v p) (Element.attributes e)) as H.
  simpl in H. rewrite H; [done|]. eauto.
Qed.

Lemma attributeValue_setAttribute_ne (k k' v : string) (e e' : Element.t) :
  k' ≠ k → Element.setAttribute k v e = Some e' →
  attributeValue k' e' = attributeValue k' e.
Proof.
  intros Hne (p & Hp & ->)%setAttribute_Some.
  unfold attributeValue, Element.GetAttribute in *. simpl.
  rewrite find_storeParam_ne; [done|]. simpl.
  by rewrite (find_key _ _ _ Hp).
Qed.

Lemma setAttribute_fields (k v : string) (e e' : Element.t) :
  Element.setAttribute k v e = Some e' →
  Element.GetName e' = Element.GetName e
  ∧ Element.elements e' = Element.elements e
  ∧ Element.GetValue e' = Element.GetValue e
  ∧ Element.elementDescriptions e' = Element.elementDescriptions e.
Proof. by intros (p & Hp & ->)%setAttribute_Some. Qed.

Lemma instantiate_fields (d : Element.t) :
  Element.GetName (Element.instantiate d) = Element.GetName d
  ∧ Element.attributes (Element.instantiate d) = Element.attributes d
  ∧ Element.GetValue (Element.instantiate d) = Element.GetValue d
  ∧ Element.elementDescriptions (Element.instantiate d)
    = Element.elementDescriptions d.
Proof. by destruct d. Qed.

Lemma find_storeChild (c : Element.t) (l : list Element.t) :
  is_Some (List.find (fun d => String.eqb (Element.GetName d)
                                 (Element.GetName c)) l)
  → List.find (fun d => String.eqb (Element.GetName d) (Element.GetName c))
      (Element.storeChild c l) = Some c.
Proof.
  induction l as [|d l IH]; simpl; [intros [? ?]; discriminate|].
  destruct (String.eqb (Element.GetName d) (Element.GetName c)) eqn:E; simpl.
  - by rewrite String.eqb_refl.
  - rewrite E. exact IH.
Qed.

Lemma find_name (n : string) (l : list Element.t) (c : Element.t) :
  List.find (fun d => String.eqb (Element.GetName d) n) l = Some c →
  Element.GetName c = n ∧ c ∈ l.
Proof.
  intros H. apply find_some in H as [Hin H]. split.
  - by apply String.eqb_eq.
  - by apply list_elem_of_In.
Qed.

Lemma elem_of_removelast_snoc {A} (l : list A) (x y : A) :
  x ∈ removelast (l ++ [y]) ++ [x].
Proof. apply elem_of_app. right. left. Qed.

Lemma SetSourceLocationOnError_Code (loc : SourceLocation.t) (e : Error.t) :
  Error.Code (SourceLocation.SetSourceLocationOnError loc e) = Error.Code e.
Proof. by destruct loc as [[?|] [?|] [?|]]. Qed.

(** ** The include resolver *)

(** The lambda of [insertIncludedElement] rewrites the attribute to the
    proxy frame name when it holds [__model__], or is empty and
    [updateIfEmpty] is set, and leaves the rest of the element alone; it
    needs the attribute to exist. *)
Lemma setAttributeToProxyFrame_Some (proxy k : string) (e e' : Element.t)
    (updateIfEmpty : bool) :
  setAttributeToProxyFrame proxy k e updateIfEmpty = Some e' →
  ∃ a, attributeValue k e = Some a
       ∧ attributeValue k e'
         = Some (if String.eqb a "__model__"
                    || (updateIfEmpty && String.eqb a "")
                 then proxy else a)
       ∧ Element.GetName e' = Element.GetName e
       ∧ Element.elements e' = Element.elements e.
Proof.
  unfold setAttributeToProxyFrame. intros H.
  destruct (Element.GetAttribute k e) as [p|] eqn:Hp; simpl in H; [|done].
  exists (Param.GetAsString p). unfold attributeValue at 1. rewrite Hp.
  split; [done|].
  destruct (_ || _).
  - rewrite (attributeValue_setAttribute _ _ _ _ H).
    by destruct (setAttribute_fields _ _ _ _ H) as (-> & -> & _).
  - injection H as <-. unfold attributeValue. by rewrite Hp.
Qed.

Lemma setAttributeToProxyFrame_is_Some (proxy k : string) (e : Element.t)
    (updateIfEmpty : bool) :
  is_Some (Element.GetAttribute k e) →
  is_Some (setAttributeToProxyFrame proxy k e updateIfEmpty).
Proof.
  intros Hp. unfold setAttributeToProxyFrame.
  destruct Hp as [p Hp]. rewrite Hp. simpl.
  destruct (_ || _); [|by eauto].
  apply setAttribute_is_Some. by rewrite Hp.
Qed.

(** A hoisted frame: [attached_to] is rewritten from [__model__] or empty,
    the [relative_to] of its first [<pose>] only from [__model__]. *)
Lemma rewriteMergedChild_frame (proxy : string) (elem elem' : Element.t) :
  Element.GetName elem = "frame" →
  rewriteMergedChild proxy elem = Some elem' →
  Element.GetName elem' = "frame"
  ∧ (∃ a, attributeValue "attached_to" elem = Some a
          ∧ attributeValue "attached_to" elem'
            = Some (if String.eqb a "__model__" || String.eqb a ""
                    then proxy else a))
  ∧ match Element.GetElementImpl "pose" elem with
    | None => Element.GetElementImpl "pose" elem' = None
    | Some pose =>
        ∃ pose' r,
          Element.GetElementImpl "pose" elem' = Some pose'
          ∧ attributeValue "relative_to" pose = Some r
          ∧ attributeValue "relative_to" pose'
            = Some (if String.eqb r "__model__" then proxy else r)
    end.
Proof.
  intros Hname. unfold rewriteMergedChild. rewrite Hname. simpl.
  destruct (setAttributeToProxyFrame proxy "attached_to" elem true)
    as [elem1|] eqn:E1; simpl; [|done].
  apply setAttributeToProxyFrame_Some in E1 as (a & Ha & Ha' & Hn1 & Hel1).
  unfold withElementImpl, Element.GetElementImpl. rewrite Hel1.
  destruct (List.find _ (Element.elements elem)) as [pose|] eqn:Ep.
  - destruct (setAttributeToProxyFrame proxy "relative_to" pose false)
      as [pose'|] eqn:E2; simpl; [|done].
    intros [= <-].
    apply setAttributeToProxyFrame_Some in E2 as (r & Hr & Hr' & Hn2 & _).
    destruct (find_name _ _ _ Ep) as [Hpn _].
    split; [by rewrite <- Hname, <- Hn1|].
    split.
    + exists a. split; [done|]. simpl in Ha'. exact Ha'.
    + exists pose', r. split; [|split; [done|]].
      * unfold Element.storeElementImpl. simpl. rewrite Hel1.
        rewrite <- Hpn, <- Hn2. apply find_storeChild.
        rewrite Hn2, Hpn, Ep. eauto.
      * rewrite Hr'. by rewrite orb_false_r.
  - intros [= <-]. rewrite Hel1, Ep.
    split; [by rewrite <- Hname, <- Hn1|].
    split; [|done]. exists a. split; [done|]. simpl in Ha'. exact Ha'.
Qed.

Lemma isHoisted_frame (e : Element.t) :
  Element.GetName e = "frame" → isHoisted e = true.
Proof. intros H. unfold isHoisted. by rewrite H. Qed.

(** The loop over the children of the merged model only appends to the
    parent: every child is rewritten, and the rewritten child is in the
    parent when it is of a hoisted kind. *)
Lemma mergeChildren_Some (proxy : string) (elems : list Element.t)
    (p p' : Element.t) :
  mergeChildren proxy elems p = Some p' →
  (∀ x, x ∈ Element.elements p → x ∈ Element.elements p')
  ∧ ∀ elem, elem ∈ elems →
      ∃ elem', rewriteMergedChild proxy elem = Some elem'
               ∧ (isHoisted elem' = true → elem' ∈ Element.elements p').
Proof.
  revert p. induction elems as [|e elems IH]; intros p; simpl.
  - intros [= <-]. split; [done|]. intros elem Hin.
    by apply elem_of_nil in Hin.
  - destruct (rewriteMergedChild proxy e) as [e'|] eqn:E; simpl; [|done].
    intros H. apply IH in H as [Hkeep Hall]. split.
    + intros x Hx. apply Hkeep. destruct (isHoisted e'); [|done].
      simpl. apply elem_of_app. by left.
    + intros elem [->|Hin]%elem_of_cons; [|by apply Hall].
      exists e'. split; [done|]. intros Hh. apply Hkeep. rewrite Hh.
      simpl. apply elem_of_app. right. left.
Qed.

Lemma mergeChildren_is_Some (proxy : string) (elems : list Element.t)
    (p : Element.t) :
  Forall (fun c => is_Some (rewriteMergedChild proxy c)) elems →
  is_Some (mergeChildren proxy elems p).
Proof.
  intros H. revert p. induction H as [|e elems [e' He] _ IH]; intros p; simpl.
  - eauto.
  - rewrite He. simpl. apply IH.
Qed.

Section IncludeProperties.
Context {Math : IgnitionMath} {RL : RootLoader}.

(** The merge path of [insertIncludedElement], once its guards are
    passed. *)
Lemma insertIncludedElement_merge (_includeSDF : SDF.t)
    (_sourceLoc : SourceLocation.t) (_parent : Element.t)
    (_config : ParserConfig.t) (_errors domErrors : Errors)
    (rootElem firstElem : Element.t) (model : Model.t) :
  SDF.Root _includeSDF = Some rootElem →
  Element.GetFirstElement rootElem = Some firstElem →
  Element.GetName firstElem = "model" →
  Element.GetName _parent = "model" →
  Root_Load _includeSDF _config = (domErrors, Some model) →
  insertIncludedElement _includeSDF _sourceLoc true _parent _config _errors
  = ('(frame0, parent1) ← Element.AddElement "frame" _parent;
     let proxy := computeMergedModelProxyFrameName (Model.Name model) in
     frame1 ← Element.setAttribute "name" proxy frame0;
     frame2 ← Element.setAttribute "attached_to"
                 (Model.CanonicalLinkRelativeName model) frame1;
     '(pose0, frame3) ← Element.AddElement "pose" frame2;
     pose1 ← Element.setAttribute "relative_to"
                (mergedModelPoseRelativeTo model)
                (Element.Set_ (toString (mergedModelPose model)) pose0);
     parent' ← mergeChildren proxy (Element.elements firstElem)
                  (Element.storeLastElement
                     (Element.storeLastElement pose1 frame3) parent1);
     Some (parent',
           (_errors ++ domErrors) ++ mergedModelPoseErrors model)).
Proof.
  intros Hroot Hfirst Hn1 Hn2 Hload.
  unfold insertIncludedElement. rewrite Hroot, Hfirst, Hn1, Hn2, Hload.
  simpl negb. cbv iota.
  destruct (Element.AddElement "frame" _parent) as [[frame0 parent1]|];
    simpl; [|done].
  destruct (Element.setAttribute "name" _ frame0) as [frame1|];
    simpl; [|done].
  destruct (Element.setAttribute "attached_to" _ frame1) as [frame2|];
    simpl; [|done].
  unfold mergedModelPose, mergedModelPoseErrors, mergedModelPoseRelativeTo.
  destruct (String.eqb (Model.PlacementFrameName model) "") eqn:Hpf; simpl.
  - destruct (Element.AddElement "pose" frame2) as [[pose0 frame3]|];
      simpl; [|done].
    destruct (Element.setAttribute "relative_to" _ _) as [pose1|];
      simpl; [|done].
    destruct (mergeChildren _ _ _) as [parent'|]; simpl; [|done].
    by rewrite app_nil_r.
  - destruct (Model.SemanticPose_Resolve model (Model.RawPose model))
      as [resolveErrors X_RM]. simpl.
    destruct (Element.AddElement "pose" frame2) as [[pose0 frame3]|];
      simpl; [|done].
    destruct (Element.setAttribute "relative_to" _ _) as [pose1|];
      simpl; [|done].
    by destruct (mergeChildren _ _ _) as [parent'|].
Qed.

(** C2.  For every [<include>] processed with merge set, if the first
    top-level element of the included file is not a [<model>], or the
    element that holds the [<include>] is not a [<model>], a
    MERGE_INCLUDE_UNSUPPORTED error is recorded and the parent element is
    left as it was. *)
Theorem merge_include_unsupported (_includeSDF : SDF.t)
    (_sourceLoc : SourceLocation.t) (_parent : Element.t)
    (_config : ParserConfig.t) (_errors : Errors)
    (rootElem firstElem : Element.t) :
  SDF.Root _includeSDF = Some rootElem →
  Element.GetFirstElement rootElem = Some firstElem →
  Element.GetName firstElem ≠ "model" ∨ Element.GetName _parent ≠ "model" →
  ∃ unsupportedError : Error.t,
    insertIncludedElement _includeSDF _sourceLoc true _parent _config _errors
    = Some (_parent, _errors ++ [unsupportedError])
    ∧ Error.Code unsupportedError = MERGE_INCLUDE_UNSUPPORTED.
Proof.
  intros Hroot Hfirst Hnames.
  unfold insertIncludedElement. rewrite Hroot, Hfirst. simpl negb. cbv iota.
  destruct (String.eqb (Element.GetName firstElem) "model") eqn:E1; simpl.
  - destruct (String.eqb (Element.GetName _parent) "model") eqn:E2; simpl.
    + apply String.eqb_eq in E1, E2. by destruct Hnames.
    + eexists. split; [reflexivity|].
      by rewrite SetSourceLocationOnError_Code.
  - eexists. split; [reflexivity|].
    by rewrite SetSourceLocationOnError_Code.
Qed.
End IncludeProperties.

Lemma AddElement_Some (n : string) (e c e' : Element.t) :
  Element.AddElement n e = Some (c, e') →
  ∃ d, Element.GetElementDescription n e = Some d
       ∧ c = Element.instantiate d ∧ e' = Element.InsertElement c e.
Proof.
  unfold Element.AddElement. intros H.
  destruct (Element.GetElementDescription n e) as [d|]; simpl in H; [|done].
  exists d. by injection H as <- <-.
Qed.

Lemma is_Some_attributeValue (k : string) (e : Element.t) :
  is_Some (attributeValue k e) ↔ is_Some (Element.GetAttribute k e).
Proof. unfold attributeValue. apply fmap_is_Some. Qed.

Section MergeProperties.
Context {Math : IgnitionMath} {RL : RootLoader}.

(** C3.  For every frame element hoisted into the parent by merge-include,
    its [attached_to] attribute is rewritten to the synthetic frame name
    exactly when it was [__model__] or empty, and the [relative_to] of its
    pose exactly when it was [__model__]: an empty [relative_to] is left
    as it is. *)
Theorem merge_include_rewrites_frames (_includeSDF : SDF.t)
    (_sourceLoc : SourceLocation.t) (_parent : Element.t)
    (_config : ParserConfig.t) (_errors domErrors : Errors)
    (rootElem firstElem : Element.t) (model : Model.t)
    (parent' : Element.t) (errors' : Errors) (elem : Element.t) :
  SDF.Root _includeSDF = Some rootElem →
  Element.GetFirstElement rootElem = Some firstElem →
  Element.GetName firstElem = "model" →
  Element.GetName _parent = "model" →
  Root_Load _includeSDF _config = (domErrors, Some model) →
  insertIncludedElement _includeSDF _sourceLoc true _parent _config _errors
  = Some (parent', errors') →
  elem ∈ Element.elements firstElem →
  Element.GetName elem = "frame" →
  let proxy := computeMergedModelProxyFrameName (Model.Name model) in
  ∃ elem' : Element.t,
    rewriteMergedChild proxy elem = Some elem'
    ∧ elem' ∈ Element.elements parent'
    ∧ Element.GetName elem' = "frame"
    ∧ (∃ a : string,
         attributeValue "attached_to" elem = Some a
         ∧ (a = "__model__" ∨ a = "" →
            attributeValue "attached_to" elem' = Some proxy)
         ∧ (a ≠ "__model__" → a ≠ "" →
            attributeValue "attached_to" elem' = Some a))
    ∧ (∀ pose : Element.t,
         Element.GetElementImpl "pose" elem = Some pose →
         ∃ (pose' : Element.t) (r : string),
           Element.GetElementImpl "pose" elem' = Some pose'
           ∧ attributeValue "relative_to" pose = Some r
           ∧ (r = "__model__" →
              attributeValue "relative_to" pose' = Some proxy)
           ∧ (r ≠ "__model__" →
              attributeValue "relative_to" pose' = Some r))
    ∧ (Element.GetElementImpl "pose" elem = None →
       Element.GetElementImpl "pose" elem' = None).
Proof.
  intros Hroot Hfirst Hn1 Hn2 Hload Hins Hin Hname proxy.
  rewrite (insertIncludedElement_merge _ _ _ _ _ _ _ _ _
             Hroot Hfirst Hn1 Hn2 Hload) in Hins.
  destruct (Element.AddElement "frame" _parent) as [[frame0 parent1]|];
    simpl in Hins; [|done].
  destruct (Element.setAttribute "name" _ frame0) as [frame1|];
    simpl in Hins; [|done].
  destruct (Element.setAttribute "attached_to" _ frame1) as [frame2|];
    simpl in Hins; [|done].
  destruct (Element.AddElement "pose" frame2) as [[pose0 frame3]|];
    simpl in Hins; [|done].
  destruct (Element.setAttribute "relative_to" _ _) as [pose1|];
    simpl in Hins; [|done].
  destruct (mergeChildren _ _ _) as [p'|] eqn:Hmerge; simpl in Hins; [|done].
  injection Hins as -> _.
  apply mergeChildren_Some in Hmerge as [_ Hall].
  destruct (Hall elem Hin) as (elem' & Hrew & Hhoist).
  destruct (rewriteMergedChild_frame _ _ _ Hname Hrew)
    as (Hname' & (a & Ha & Ha') & Hpose).
  exists elem'. split; [done|].
  split; [by apply Hhoist, isHoisted_frame|].
  split; [done|]. split; [|split].
  - exists a. split; [done|]. rewrite Ha'. split.
    + intros [-> | ->]; done.
    + intros H1%String.eqb_neq H2%String.eqb_neq. by rewrite H1, H2.
  - intros pose Hp. rewrite Hp in Hpose.
    destruct Hpose as (pose' & r & Hp' & Hr & Hr').
    exists pose', r. split; [done|]. split; [done|]. rewrite Hr'. split.
    + by intros ->.
    + intros H1%String.eqb_neq. by rewrite H1.
  - intros Hp. by rewrite Hp in Hpose.
Qed.

(** C1.  For every successful merge-include of a model M into a parent
    model, a synthetic [<frame>] named [_merged__<M's name>__model__] is
    inserted into the parent; its [attached_to] is the name of M's
    canonical link, the value of its [<pose>] is M's raw pose when M has
    no placement frame and otherwise the pose that M's semantic pose
    resolves to, and the [relative_to] of that pose is M's pose
    relative-to frame, or [__model__] when that is empty. *)
Theorem merge_include_inserts_proxy_frame (_includeSDF : SDF.t)
    (_sourceLoc : SourceLocation.t) (_parent : Element.t)
    (_config : ParserConfig.t) (_errors domErrors : Errors)
    (rootElem firstElem : Element.t) (model : Model.t) :
  SDF.Root _includeSDF = Some rootElem →
  Element.GetFirstElement rootElem = Some firstElem →
  Element.GetName firstElem = "model" →
  Element.GetName _parent = "model" →
  Root_Load _includeSDF _config = (domErrors, Some model) →
  hasFrameSchema _parent →
  let proxy := computeMergedModelProxyFrameName (Model.Name model) in
  Forall (fun c => is_Some (rewriteMergedChild proxy c))
    (Element.elements firstElem) →
  ∃ parent' frame pose : Element.t,
    insertIncludedElement _includeSDF _sourceLoc true _parent _config _errors
    = Some (parent', (_errors ++ domErrors) ++ mergedModelPoseErrors model)
    ∧ frame ∈ Element.elements parent'
    ∧ Element.GetName frame = "frame"
    ∧ attributeValue "name" frame = Some ("_merged__" +:+ Model.Name model
                                           +:+ "__model__")
    ∧ attributeValue "attached_to" frame
      = Some (Model.CanonicalLinkRelativeName model)
    ∧ pose ∈ Element.elements frame
    ∧ Element.GetName pose = "pose"
    ∧ valueText pose
      = Some (toString (if String.eqb (Model.PlacementFrameName model) ""
                        then Model.RawPose model
                        else snd (Model.SemanticPose_Resolve model
                                    (Model.RawPose model))))
    ∧ attributeValue "relative_to" pose
      = Some (if String.eqb (Model.PoseRelativeTo model) "" then "__model__"
              else Model.PoseRelativeTo model).
Proof.
  intros Hroot Hfirst Hn1 Hn2 Hload
    (frameDesc & poseDesc & Hfd & Hname & Hatt & Hpd & Hrel & Hval)
    proxy Hchildren.
  rewrite (insertIncludedElement_merge _ _ _ _ _ _ _ _ _
             Hroot Hfirst Hn1 Hn2 Hload).
  fold proxy.
  destruct (instantiate_fields frameDesc) as (Hfn & Hfa & _ & Hfds).
  destruct (instantiate_fields poseDesc) as (Hpn & Hpa & Hpv & _).
  destruct (find_name _ _ _ Hfd) as [Hfdn _].
  destruct (find_name _ _ _ Hpd) as [Hpdn _].
  unfold Element.AddElement. rewrite Hfd. simpl.
  (* the name *)
  destruct (setAttribute_is_Some "name" proxy (Element.instantiate frameDesc))
    as [frame1 H1].
  { unfold Element.GetAttribute. by rewrite Hfa. }
  rewrite H1. simpl.
  destruct (setAttribute_fields _ _ _ _ H1) as (Hn1' & Hel1 & _ & Hds1).
  (* the canonical link *)
  destruct (setAttribute_is_Some "attached_to"
              (Model.CanonicalLinkRelativeName model) frame1) as [frame2 H2].
  { apply is_Some_attributeValue.
    rewrite (attributeValue_setAttribute_ne "name" "attached_to" _ _ _
               ltac:(done) H1).
    apply is_Some_attributeValue. unfold Element.GetAttribute.
    by rewrite Hfa. }
  rewrite H2. simpl.
  destruct (setAttribute_fields _ _ _ _ H2) as (Hn2' & Hel2 & _ & Hds2).
  (* the pose *)
  unfold Element.GetElementDescription.
  rewrite Hds2, Hds1, Hfds. unfold Element.GetElementDescription in Hpd.
  rewrite Hpd. simpl.
  destruct Hval as [v Hv].
  set (pose0 := Element.Set_ _ (Element.instantiate poseDesc)).
  destruct (setAttribute_is_Some "relative_to"
              (mergedModelPoseRelativeTo model) pose0) as [pose1 H3].
  { unfold Element.GetAttribute, pose0, Element.Set_. rewrite Hpv, Hv.
    simpl. by rewrite Hpa. }
  rewrite H3. simpl.
  destruct (setAttribute_fields _ _ _ _ H3) as (Hn3 & _ & Hv3 & _).
  (* the children of the merged model *)
  set (frame := Element.storeLastElement pose1 _).
  set (parent2 := Element.storeLastElement frame _).
  destruct (mergeChildren_is_Some proxy (Element.elements firstElem) parent2
              Hchildren) as [parent' Hmerge].
  rewrite Hmerge. simpl.
  apply mergeChildren_Some in Hmerge as [Hkeep _].
  exists parent', frame, pose1. split; [done|].
  split; [apply Hkeep; simpl; apply elem_of_removelast_snoc|].
  split; [simpl; congruence|].
  split.
  { change (attributeValue "name" frame2 = Some proxy).
    rewrite (attributeValue_setAttribute_ne "attached_to" "name" _ _ _
               ltac:(done) H2).
    by apply attributeValue_setAttribute in H1. }
  split.
  { change (attributeValue "attached_to" frame2
            = Some (Model.CanonicalLinkRelativeName model)).
    by apply attributeValue_setAttribute in H2. }
  split; [simpl; apply elem_of_removelast_snoc|].
  split; [rewrite Hn3; unfold pose0, Element.Set_;
          rewrite Hpv, Hv; simpl; congruence|].
  split.
  - unfold valueText. rewrite Hv3. unfold pose0, Element.Set_.
    rewrite Hpv, Hv. done.
  - by apply attributeValue_setAttribute in H3.
Qed.
End MergeProperties.

Lemma merge_include_inserts_proxy_frame_witness :
  ∃ parent' frame pose : Element.t,
    insertIncludedElement (Math:=Demo.textMath) (RL:=Demo.loader) Demo.sdfM
      Demo.here true Demo.parentP ParserConfig.GlobalConfig []
    = Some (parent', [])
    ∧ frame ∈ Element.elements parent'
    ∧ Element.GetName frame = "frame"
    ∧ attributeValue "name" frame = Some "_merged__M__model__"
    ∧ attributeValue "attached_to" frame = Some "L"
    ∧ pose ∈ Element.elements frame
    ∧ Element.GetName pose = "pose"
    ∧ valueText pose = Some "0 0 0 0 0 0"
    ∧ attributeValue "relative_to" pose = Some "__model__".
Proof.
  refine (merge_include_inserts_proxy_frame (Math:=Demo.textMath)
            (RL:=Demo.loader) Demo.sdfM Demo.here Demo.parentP
            ParserConfig.GlobalConfig [] []
            (Demo.withElements [Demo.modelM] Demo.rootD) Demo.modelM
            Demo.modelOfM eq_refl eq_refl eq_refl eq_refl eq_refl _ _).
  - exists Demo.frameD, Demo.poseD. vm_compute. repeat split; eauto.
  - vm_compute. repeat constructor; eauto.
Defined.

Lemma merge_include_unsupported_witness :
  ∃ unsupportedError : Error.t,
    insertIncludedElement (Math:=Demo.textMath) (RL:=Demo.loader) Demo.sdfTwo
      Demo.here true Demo.parentP ParserConfig.GlobalConfig []
    = Some (Demo.parentP, [unsupportedError])
    ∧ Error.Code unsupportedError = MERGE_INCLUDE_UNSUPPORTED.
Proof.
  refine (merge_include_unsupported (Math:=Demo.textMath) (RL:=Demo.loader)
            Demo.sdfTwo Demo.here Demo.parentP ParserConfig.GlobalConfig []
            (Demo.withElements [Demo.actorA; Demo.modelM] Demo.rootD)
            Demo.actorA eq_refl eq_refl _).
  left. vm_compute. discriminate.
Defined.

Lemma merge_include_rewrites_frames_witness :
  ∃ elem' : Element.t,
    elem' ∈ Element.elements Demo.mergedP
    ∧ Element.GetName elem' = "frame"
    ∧ attributeValue "name" elem' = Some "F"
    ∧ attributeValue "attached_to" Demo.frameF = Some ""
    ∧ attributeValue "attached_to" elem' = Some "_merged__M__model__".
Proof.
  destruct (merge_include_rewrites_frames (Math:=Demo.textMath)
              (RL:=Demo.loader) Demo.sdfM Demo.here Demo.parentP
              ParserConfig.GlobalConfig [] []
              (Demo.withElements [Demo.modelM] Demo.rootD) Demo.modelM
              Demo.modelOfM Demo.mergedP [] Demo.frameF
              eq_refl eq_refl eq_refl eq_refl eq_refl)
    as (elem' & Hrew & Hin & Hname & (a & Ha & Hset & _) & _).
  - vm_compute. reflexivity.
  - vm_compute. right. right. left.
  - reflexivity.
  - exists elem'. split; [done|]. split; [done|].
    vm_compute in Hrew. injection Hrew as <-.
    split; [reflexivity|]. split; [reflexivity|]. reflexivity.
Defined.

(** ** The reader: required children *)

Lemma storeLastElement_InsertElement (c c' e : Element.t) :
  Element.storeLastElement c' (Element.InsertElement c e) = withAdded [c'] e.
Proof.
  unfold Element.storeLastElement, Element.InsertElement, withAdded. simpl.
  by rewrite removelast_last.
Qed.

Lemma withAdded_withAdded (l1 l2 : list Element.t) (e : Element.t) :
  withAdded l2 (withAdded l1 e) = withAdded (l1 ++ l2) e.
Proof. unfold withAdded. simpl. by rewrite app_assoc. Qed.

Lemma withAdded_nil (e : Element.t) : withAdded [] e = e.
Proof. unfold withAdded. rewrite app_nil_r. by destruct e. Qed.

Lemma HasElement_withAdded (n : string) (added : list Element.t)
    (e : Element.t) :
  Element.HasElement n (withAdded added e)
  = Element.HasElement n e
    || existsb (fun c => String.eqb (Element.GetName c) n) added.
Proof. unfold Element.HasElement, withAdded. simpl. apply existsb_app. Qed.

Lemma find_app_name (n : string) (l1 l2 : list Element.t) :
  List.find (fun c => String.eqb (Element.GetName c) n) (l1 ++ l2)
  = match List.find (fun c => String.eqb (Element.GetName c) n) l1 with
    | Some c => Some c
    | None => List.find (fun c => String.eqb (Element.GetName c) n) l2
    end.
Proof.
  induction l1 as [|c l1 IH]; simpl; [done|].
  by destruct (String.eqb (Element.GetName c) n).
Qed.

Lemma HasElement_false_find (n : string) (e : Element.t) :
  Element.HasElement n e = false → Element.GetElementImpl n e = None.
Proof.
  unfold Element.HasElement, Element.GetElementImpl.
  induction (Element.elements e) as [|c l IH]; simpl; [done|].
  destruct (String.eqb (Element.GetName c) n); simpl; [done | exact IH].
Qed.

(** A default child does not change what a typed [Get] reads: the value
    of the new child is the default of its description. *)
Lemma Get_withAdded_default {T} `{ParamValue T} (key : string) (dflt : T)
    (e d : Element.t) :
  Element.GetElementDescription (Element.GetName d) e = Some d →
  Element.HasElement (Element.GetName d) e = false →
  Element.Get key dflt
    (withAdded
       [Element.SetExplicitlySetInFile false (Element.instantiate d)] e)
  = Element.Get key dflt e.
Proof.
  intros Hd Hmissing. unfold Element.Get.
  destruct (String.eqb key "") eqn:Hkey; [done|].
  change (Element.GetAttribute key (withAdded _ e))
    with (Element.GetAttribute key e).
  destruct (Element.GetAttribute key e); [done|].
  change (Element.GetElementDescription key (withAdded _ e))
    with (Element.GetElementDescription key e).
  unfold Element.GetElementImpl at 1. unfold withAdded at 1. simpl.
  rewrite find_app_name. fold (Element.GetElementImpl key e).
  destruct (Element.GetElementImpl key e) as [c|] eqn:Hc; [done|].
  simpl. destruct (instantiate_fields d) as (Hn & _ & Hv & _).
  rewrite Hn.
  destruct (String.eqb (Element.GetName d) key) eqn:E; [|done].
  apply String.eqb_eq in E. subst key. rewrite Hd.
  unfold Element.getValue. simpl. by rewrite Hv.
Qed.

Lemma GetElementDescription_elem_of (d e : Element.t) :
  d ∈ Element.elementDescriptions e →
  ∃ d', Element.GetElementDescription (Element.GetName d) e = Some d'
        ∧ Element.GetName d' = Element.GetName d.
Proof.
  intros Hin.
  assert (is_Some (Element.GetElementDescription (Element.GetName d) e))
    as [d' Hd'].
  { apply find_eqb_name. eauto. }
  exists d'. split; [done|]. by apply find_name in Hd' as [? _].
Qed.

(** The guard of the last loop of [readXml], as it is computed. *)
Lemma isNonBallJoint_guard (e : Element.t) :
  String.eqb (Element.GetName e) "joint"
  && negb (String.eqb (Element.Get1 (T:=string) "type" e) "ball") = true
  ↔ isNonBallJoint e.
Proof.
  unfold isNonBallJoint. rewrite andb_true_iff, negb_true_iff.
  by rewrite String.eqb_eq, String.eqb_neq.
Qed.

Lemma isRequired_guard (d : Element.t) :
  String.eqb (Element.GetRequired d) "1"
  || String.eqb (Element.GetRequired d) "+" = true ↔ isRequired d.
Proof.
  unfold isRequired. by rewrite orb_true_iff, !String.eqb_eq.
Qed.

Lemma readXml_requiredElement_present (_xml : XMLElement.t) (_source : string)
    (d e : Element.t) (errs : Errors) :
  ¬ isRequired d ∨ Element.HasElement (Element.GetName d) e = true →
  readXml_requiredElement _xml _source d (e, errs) = Some (true, (e, errs)).
Proof.
  intros Hcase. unfold readXml_requiredElement.
  destruct (_ || _) eqn:Hreq; [|done].
  apply isRequired_guard in Hreq.
  destruct Hcase as [Hn | ->]; [done|]. done.
Qed.

Lemma readXml_requiredElement_default (_xml : XMLElement.t) (_source : string)
    (d e : Element.t) (errs : Errors) :
  d ∈ Element.elementDescriptions e → isRequired d →
  Element.HasElement (Element.GetName d) e = false →
  ¬ isNonBallJoint e →
  ∃ d',
    Element.GetElementDescription (Element.GetName d') e = Some d'
    ∧ Element.GetName d' = Element.GetName d
    ∧ readXml_requiredElement _xml _source d (e, errs)
      = Some (true,
              (withAdded
                 [Element.SetExplicitlySetInFile false
                    (Element.instantiate d')] e, errs)).
Proof.
  intros Hin Hreq Hmissing Hguard.
  destruct (GetElementDescription_elem_of d e Hin) as (d' & Hd' & Hn).
  exists d'. split; [by rewrite Hn|]. split; [done|].
  unfold readXml_requiredElement.
  apply isRequired_guard in Hreq. rewrite Hreq, Hmissing. simpl negb.
  cbv iota.
  rewrite <- isNonBallJoint_guard in Hguard.
  apply not_true_is_false in Hguard. rewrite Hguard.
  unfold Element.AddElement. rewrite Hd'. simpl.
  by rewrite storeLastElement_InsertElement.
Qed.

Lemma isNonBallJoint_withAdded_default (e d : Element.t) :
  Element.GetElementDescription (Element.GetName d) e = Some d →
  Element.HasElement (Element.GetName d) e = false →
  isNonBallJoint
    (withAdded
       [Element.SetExplicitlySetInFile false (Element.instantiate d)] e)
  ↔ isNonBallJoint e.
Proof.
  intros Hd Hmissing. unfold isNonBallJoint, Element.Get1.
  by rewrite (Get_withAdded_default "type" construct e d Hd Hmissing).
Qed.

(** On an element that is not a non-ball joint, the loop adds a default
    child for every required description without one. *)
Lemma readXml_requiredElements_defaults (_xml : XMLElement.t)
    (_source : string) (ds : list Element.t) (e : Element.t)
    (errs : Errors) :
  ¬ isNonBallJoint e →
  (∀ d, d ∈ ds → d ∈ Element.elementDescriptions e) →
  ∃ added : list Element.t,
    forEach (readXml_requiredElement _xml _source) ds (e, errs)
    = Some (true, (withAdded added e, errs))
    ∧ (∀ d, d ∈ ds → isRequired d →
       Element.HasElement (Element.GetName d) (withAdded added e) = true)
    ∧ Forall (fun c => isDefaultChild e c
                       ∧ Element.HasElement (Element.GetName c) e = false)
        added.
Proof.
  revert e. induction ds as [|d ds IH]; intros e Hguard Hsub.
  - exists []. rewrite withAdded_nil. split; [done|]. split; [|done].
    intros d Hin. by apply elem_of_nil in Hin.
  - cbn [forEach].
    destruct (decide (isRequired d)) as [Hreq|Hreq];
      [destruct (Element.HasElement (Element.GetName d) e) eqn:Hhas|].
    + (* required and present *)
      rewrite readXml_requiredElement_present by (by right).
      destruct (IH e Hguard) as (added & Hrun & Hall & Hdef).
      { intros d' Hd'. apply Hsub. by right. }
      exists added. split; [done|]. split; [|done].
      intros d' [->|Hd']%elem_of_cons Hr; [|by apply Hall].
      rewrite HasElement_withAdded. by rewrite Hhas.
    + (* required and missing: a default is added *)
      destruct (readXml_requiredElement_default _xml _source d e errs)
        as (d' & Hd' & Hn & ->); [apply Hsub; left|done..|].
      set (c := Element.SetExplicitlySetInFile false _).
      assert (Element.HasElement (Element.GetName d') e = false) as Hm'
        by (by rewrite Hn).
      destruct (IH (withAdded [c] e)) as (added & Hrun & Hall & Hdef).
      { intros Hj. apply Hguard.
        by apply (isNonBallJoint_withAdded_default e d' Hd' Hm'). }
      { intros d0 Hd0. apply Hsub. by right. }
      rewrite withAdded_withAdded in Hrun, Hall.
      assert (Element.GetName c = Element.GetName d) as Hcn.
      { unfold c. simpl.
        by destruct (instantiate_fields d') as (-> & _). }
      exists (c :: added). split; [done|]. split.
      * intros d0 [->|Hd0]%elem_of_cons Hr; [|by apply Hall].
        rewrite HasElement_withAdded. cbn [existsb].
        by rewrite Hcn, String.eqb_refl, orb_true_r.
      * constructor.
        -- split; [|by rewrite Hcn].
           exists d'. split; [|done]. by rewrite Hcn, <- Hn.
        -- eapply Forall_impl; [exact Hdef|].
           intros c0 [(d0 & Hd0 & ->) Hm0]. split; [by exists d0|].
           rewrite HasElement_withAdded in Hm0.
           by apply orb_false_iff in Hm0 as [? _].
    + (* not required *)
      rewrite readXml_requiredElement_present by (by left).
      destruct (IH e Hguard) as (added & Hrun & Hall & Hdef).
      { intros d' Hd'. apply Hsub. by right. }
      exists added. split; [done|]. split; [|done].
      intros d' [->|Hd']%elem_of_cons Hr; [done | by apply Hall].
Qed.

(** On a joint that is not a ball joint, the loop stops at the first
    required description without a child. *)
Lemma readXml_requiredElements_joint (_xml : XMLElement.t)
    (_source : string) (ds : list Element.t) (e : Element.t)
    (errs : Errors) :
  isNonBallJoint e →
  ((∃ d, d ∈ ds ∧ isRequired d
         ∧ Element.HasElement (Element.GetName d) e = false) →
   ∃ err : Error.t,
     forEach (readXml_requiredElement _xml _source) ds (e, errs)
     = Some (false, (e, errs ++ [err]))
     ∧ Error.Code err = ELEMENT_MISSING)
  ∧ ((¬ ∃ d, d ∈ ds ∧ isRequired d
             ∧ Element.HasElement (Element.GetName d) e = false) →
     forEach (readXml_requiredElement _xml _source) ds (e, errs)
     = Some (true, (e, errs))).
Proof.
  intros Hguard. induction ds as [|d ds [IH1 IH2]].
  - split; [|done]. intros (d & Hin & _). by apply elem_of_nil in Hin.
  - cbn [forEach].
    destruct (decide (isRequired d
                      ∧ Element.HasElement (Element.GetName d) e = false))
      as [[Hreq Hmissing]|Hok].
    + split.
      * intros _. unfold readXml_requiredElement.
        apply isRequired_guard in Hreq. rewrite Hreq, Hmissing. simpl negb.
        cbv iota. apply isNonBallJoint_guard in Hguard. rewrite Hguard.
        eexists. split; [reflexivity | done].
      * intros Hnone. exfalso. apply Hnone. exists d.
        split; [left | done].
    + rewrite readXml_requiredElement_present.
      2:{ destruct (decide (isRequired d)); [|by left]. right.
          apply not_false_is_true. intros Hf. by apply Hok. }
      split.
      * intros (d0 & [->|Hin]%elem_of_cons & Hr & Hm); [by destruct Hok|].
        apply IH1. eauto.
      * intros Hnone. apply IH2. intros (d0 & Hin & Hr & Hm).
        apply Hnone. exists d0. split; [by right | done].
Qed.

Section ReadXmlRequired.
Context {Math : IgnitionMath} {RL : RootLoader} {Env : ParserEnv}.

(** [readXml] at a non-null [_xml] is what its first blocks return, or
    else the outcome of its last block on what they leave. *)
Lemma readXml_element_unfold (_xml : XMLElement.t) (_sdf : Element.t)
    (_config : ParserConfig.t) (_source : string) (_errors : Errors) :
  readXml_element _xml _sdf _config _source _errors
  = ('(returned, _sdf, _errors) ←
       readXml_children readXml_element _xml _sdf _config _source _errors;
     match returned with
     | Some ok => Some (ok, _sdf, _errors)
     | None =>
         '(ok, (_sdf, _errors)) ←
           readXml_requiredElements _xml _source _sdf _errors;
         Some (ok, _sdf, _errors)
     end).
Proof. by destruct _xml. Qed.

(** C5.  When [readXml] has processed the attributes, the value and the
    children of an element and goes on to its last block, it returns that
    element with, added with its schema defaults, every required child
    description (cardinality [1] or [+]) that has no child; except on a
    [<joint>] whose type is not [ball], where a missing required child
    produces an ELEMENT_MISSING error and [readXml] returns false. *)
Theorem readXml_adds_required_children (_xml : XMLElement.t)
    (_sdf : Element.t) (_config : ParserConfig.t) (_source : string)
    (_errors : Errors) (processed : Element.t) (errors1 : Errors) :
  readXml_children readXml_element _xml _sdf _config _source _errors
  = Some (None, processed, errors1) →
  (¬ isNonBallJoint processed →
   ∃ added : list Element.t,
     readXml (Some _xml) _sdf _config _source _errors
     = Some (true, withAdded added processed, errors1)
     ∧ (∀ elemDesc, elemDesc ∈ Element.elementDescriptions processed →
        isRequired elemDesc →
        Element.HasElement (Element.GetName elemDesc)
          (withAdded added processed) = true)
     ∧ Forall (fun c => isDefaultChild processed c
                        ∧ Element.HasElement (Element.GetName c) processed
                          = false) added)
  ∧ (isNonBallJoint processed →
     (∃ elemDesc, missesRequired processed elemDesc) →
     ∃ err : Error.t,
       readXml (Some _xml) _sdf _config _source _errors
       = Some (false, processed, errors1 ++ [err])
       ∧ Error.Code err = ELEMENT_MISSING)
  ∧ (isNonBallJoint processed →
     (¬ ∃ elemDesc, missesRequired processed elemDesc) →
     readXml (Some _xml) _sdf _config _source _errors
     = Some (true, processed, errors1)).
Proof.
  intros Hchildren. unfold readXml. rewrite readXml_element_unfold, Hchildren.
  cbn [mbind option_bind]. unfold readXml_requiredElements, missesRequired.
  split; [|split].
  - intros Hguard.
    destruct (readXml_requiredElements_defaults _xml _source
                (Element.elementDescriptions processed) processed errors1
                Hguard) as (added & Hrun & Hall & Hadded); [done|].
    exists added. by rewrite Hrun.
  - intros Hguard Hmissing.
    destruct (proj1 (readXml_requiredElements_joint _xml _source
                       (Element.elementDescriptions processed) processed
                       errors1 Hguard) Hmissing) as (err & Hrun & Hcode).
    exists err. by rewrite Hrun.
  - intros Hguard Hnone.
    by rewrite (proj2 (readXml_requiredElements_joint _xml _source
                         (Element.elementDescriptions processed) processed
                         errors1 Hguard) Hnone).
Qed.
End ReadXmlRequired.

(** C5 as stated fails on an element whose description copies its children
    verbatim: [readXml] returns true on it before its last block, and the
    required child is not added. *)
Lemma readXml_copy_data_adds_no_required_child :
  Element.GetCopyChildren Demo.customD = true
  ∧ (∃ elemDesc, missesRequired Demo.customD elemDesc)
  ∧ ¬ isNonBallJoint Demo.customD
  ∧ readXml (Math:=Demo.textMath) (RL:=Demo.loader) (Env:=Demo.env)
      (Some Demo.custom) Demo.customD ParserConfig.GlobalConfig "p.sdf" []
    = Some (true, Demo.customD, []).
Proof.
  split; [reflexivity|]. split; [|split].
  - exists (Demo.leaf "size" "1" "double" "1.0").
    split; [by left|]. split; [by left | reflexivity].
  - intros [Hname _]. vm_compute in Hname. discriminate.
  - vm_compute. reflexivity.
Qed.

Lemma readXml_adds_required_children_witness :
  (∃ (processed : Element.t) (added : list Element.t),
     readXml (Math:=Demo.textMath) (RL:=Demo.loader) (Env:=Demo.env)
       (Some Demo.inertiaIxx) Demo.inertiaD ParserConfig.GlobalConfig
       "p.sdf" []
     = Some (true, withAdded added processed, [])
     ∧ Element.GetName <$> Element.elements processed = ["ixx"]
     ∧ Element.GetName <$> added = ["ixy"; "ixz"; "iyy"; "iyz"; "izz"])
  ∧ ∃ (processed : Element.t) (err : Error.t),
      readXml (Math:=Demo.textMath) (RL:=Demo.loader) (Env:=Demo.env)
        (Some Demo.jointParent) Demo.jointD ParserConfig.GlobalConfig
        "p.sdf" []
      = Some (false, processed, [err])
      ∧ Element.GetName <$> Element.elements processed = ["parent"]
      ∧ Error.Code err = ELEMENT_MISSING.
Proof.
  split.
  - pose (processed :=
            default Demo.inertiaD
              ((fun r => r.1.2)
                 <$> readXml_children (Math:=Demo.textMath)
                       (RL:=Demo.loader) (Env:=Demo.env)
                       (readXml_element (Math:=Demo.textMath)
                          (RL:=Demo.loader) (Env:=Demo.env))
                       Demo.inertiaIxx Demo.inertiaD
                       ParserConfig.GlobalConfig "p.sdf" [])).
    assert (Hchildren :
              readXml_children (Math:=Demo.textMath) (RL:=Demo.loader)
                (Env:=Demo.env)
                (readXml_element (Math:=Demo.textMath) (RL:=Demo.loader)
                   (Env:=Demo.env))
                Demo.inertiaIxx Demo.inertiaD ParserConfig.GlobalConfig
                "p.sdf" []
              = Some (None, processed, []))
      by (vm_compute; reflexivity).
    destruct (proj1 (readXml_adds_required_children (Math:=Demo.textMath)
                       (RL:=Demo.loader) (Env:=Demo.env) Demo.inertiaIxx
                       Demo.inertiaD ParserConfig.GlobalConfig "p.sdf" []
                       processed [] Hchildren))
      as (added & Hrun & _ & _).
    + intros [Hname _]. vm_compute in Hname. discriminate.
    + assert (Hprocessed :
                Element.GetName <$> Element.elements processed = ["ixx"])
        by (vm_compute; reflexivity).
      assert (Hnames :
                match readXml (Math:=Demo.textMath) (RL:=Demo.loader)
                        (Env:=Demo.env) (Some Demo.inertiaIxx)
                        Demo.inertiaD ParserConfig.GlobalConfig "p.sdf" []
                with
                | Some (_, e, _) => Element.GetName <$> Element.elements e
                | None => []
                end = ["ixx"; "ixy"; "ixz"; "iyy"; "iyz"; "izz"])
        by (vm_compute; reflexivity).
      rewrite Hrun in Hnames. unfold withAdded in Hnames.
      cbn [Element.elements Element.setElements] in Hnames.
      rewrite fmap_app, Hprocessed in Hnames.
      exists processed, added. split; [exact Hrun|].
      split; [exact Hprocessed|]. by injection Hnames.
  - pose (processed :=
            default Demo.jointD
              ((fun r => r.1.2)
                 <$> readXml_children (Math:=Demo.textMath)
                       (RL:=Demo.loader) (Env:=Demo.env)
                       (readXml_element (Math:=Demo.textMath)
                          (RL:=Demo.loader) (Env:=Demo.env))
                       Demo.jointParent Demo.jointD
                       ParserConfig.GlobalConfig "p.sdf" [])).
    assert (Hchildren :
              readXml_children (Math:=Demo.textMath) (RL:=Demo.loader)
                (Env:=Demo.env)
                (readXml_element (Math:=Demo.textMath) (RL:=Demo.loader)
                   (Env:=Demo.env))
                Demo.jointParent Demo.jointD ParserConfig.GlobalConfig
                "p.sdf" []
              = Some (None, processed, []))
      by (vm_compute; reflexivity).
    destruct (proj1 (proj2 (readXml_adds_required_children
                              (Math:=Demo.textMath) (RL:=Demo.loader)
                              (Env:=Demo.env) Demo.jointParent Demo.jointD
                              ParserConfig.GlobalConfig "p.sdf" []
                              processed [] Hchildren)))
      as (err & Hrun & Hcode).
    + split; [reflexivity|]. vm_compute. discriminate.
    + exists (Demo.leaf "child" "1" "string" "").
      split; [vm_compute; right; left|].
      split; [by left | vm_compute; reflexivity].
    + exists processed, err. split; [exact Hrun|].
      split; [vm_compute; reflexivity | exact Hcode].
Defined.

(** ** The reader: the entity that a plain include inserts *)

(** C6, at the failing input.  The included file [two.sdf] holds an
    [<actor>] followed by a [<model>].  The reader chooses the model by
    the preference order (and applies the [<name>] override to it),
    records ELEMENT_INCORRECT_TYPE for the actor, and then inserts the
    first element of the file, the actor, into the including world. *)
Theorem include_inserts_first_entity_not_the_preferred :
  (snd <$> fst (findTopLevelElem
                  (Demo.withElements [Demo.actorA; Demo.modelM] Demo.rootD)
                  "two.sdf" []))
  = Some Demo.modelM
  ∧ Demo.outcome (Demo.read Demo.docTwo)
    = Some (true, [ELEMENT_INCORRECT_TYPE])
  ∧ Demo.firstEntityChildren (Demo.read Demo.docTwo)
    = [("actor", Some "a")].
Proof. vm_compute. done. Qed.

(** ** The reader: names with the delimiter [::] *)

Lemma Element_children_ind (P : Element.t → Prop) :
  (∀ e, Forall P (Element.elements e) → P e) → ∀ e, P e.
Proof.
  intros H. fix IH 1. intros e. apply H.
  destruct e as [? ? ? ? ? ? els ? ? ? ? ? ? ?]. simpl.
  induction els as [|c els IHels]; constructor; [apply IH | exact IHels].
Qed.

Lemma andChildren_forallb (f : Element.t → bool) (l : list Element.t)
    (result : bool) :
  andChildren f l result = result && forallb f l.
Proof.
  revert result. induction l as [|c l IH]; intros result; simpl.
  - by rewrite andb_true_r.
  - rewrite IH. by destruct (f c), result.
Qed.

Lemma forallb_false {A} (f : A → bool) (l : list A) :
  forallb f l = false ↔ ∃ x, x ∈ l ∧ f x = false.
Proof.
  induction l as [|a l IH]; simpl.
  - split; [done|]. intros (x & Hin & _). by apply elem_of_nil in Hin.
  - rewrite andb_false_iff, IH. split.
    + intros [Ha | (x & Hin & Hx)]; [exists a | exists x];
        (split; [|done]); [left | by right].
    + intros (x & [->|Hin]%elem_of_cons & Hx); [by left | right; eauto].
Qed.

Lemma recursiveSiblingNoDoubleColonInNames_unfold (e : Element.t) :
  recursiveSiblingNoDoubleColonInNames e
  = if negb (shouldValidateElement e) then true
    else
      negb (Element.HasAttribute "name" e
            && contains "::" (Element.Get1 (T:=string) "name" e))
      && forallb recursiveSiblingNoDoubleColonInNames (Element.elements e).
Proof.
  destruct e. cbn [recursiveSiblingNoDoubleColonInNames].
  destruct (negb _); [done|]. rewrite andChildren_forallb.
  by destruct (_ && _).
Qed.

(** The check fails exactly when a name with [::] is reached through
    validated elements. *)
Lemma recursiveSiblingNoDoubleColonInNames_false (e : Element.t) :
  recursiveSiblingNoDoubleColonInNames e = false
  ↔ ValidatedDoubleColonName e.
Proof.
  induction e as [e IH] using Element_children_ind.
  rewrite recursiveSiblingNoDoubleColonInNames_unfold.
  rewrite Forall_forall in IH. split.
  - destruct (shouldValidateElement e) eqn:Hv; simpl; [|done].
    intros [Hname | Hchild]%andb_false_iff.
    + apply negb_false_iff, andb_true_iff in Hname as [? ?].
      by apply validated_here.
    + apply forallb_false in Hchild as (c & Hin & Hc).
      apply (validated_child e c); [done..|]. by apply IH.
  - intros Hval. inversion Hval as [e' Hv Hattr Hdc | e' c Hv Hin Hc]; subst.
    + rewrite Hv, Hattr, Hdc. done.
    + rewrite Hv. simpl. apply andb_false_iff. right.
      apply forallb_false. exists c. split; [done|]. by apply IH.
Qed.

Section ReadDocProperties.
Context {Math : IgnitionMath} {RL : RootLoader} {Env : ParserEnv}.

Lemma readDoc_sdf_Root (version _source : string) (sdf : SDF.t)
    (root0 : Element.t) :
  SDF.Root (readDoc_sdf version _source sdf) = Some root0 →
  is_Some (SDF.Root sdf).
Proof.
  destruct sdf as [[r|] path original]; simpl; [by eauto|].
  unfold readDoc_sdf, SDF.SetOriginalVersion, SDF.SetFilePath. simpl.
  by repeat (case_match; simpl).
Qed.

Lemma readDoc_root_elements (sdfNode : XMLElement.t) (version : string)
    (root : Element.t) :
  Element.elements (readDoc_root sdfNode version root)
  = Element.elements root.
Proof. unfold readDoc_root. by repeat (case_match; simpl). Qed.

(** C7, amended.  When the tree was checked and read and the original
    version of its root is at least 1.8, [readDoc] reports RESERVED_NAME
    and returns false if a [name] attribute that contains [::] is reached
    from the root through validated elements, that is, outside of
    [<plugin>] elements and of elements with a namespaced name. *)
Theorem readDoc_rejects_double_colon (xmlDoc : XMLDocument.t) (sdf : SDF.t)
    (_source : string) (_convert : bool) (_config : ParserConfig.t)
    (_errors errors1 errors2 : Errors) (sdfNode : XMLElement.t)
    (version : string) (root0 root' : Element.t) :
  XMLDocument.FirstChildElement "sdf" xmlDoc = Some sdfNode →
  XMLElement.Attribute "version" sdfNode = Some version →
  SDF.Root (readDoc_sdf version _source sdf) = Some root0 →
  let root := readDoc_root sdfNode version root0 in
  let elemXml := readDoc_elemXml version xmlDoc _convert root in
  checkXmlFromRoot elemXml _source _errors = (true, errors1) →
  readXml elemXml root _config _source errors1
  = Some (true, root', errors2) →
  SemanticVersion_ge (Element.OriginalVersion root') 1 8 = true →
  ValidatedDoubleColonName root' →
  ∃ err : Error.t,
    readDoc (Some xmlDoc) (Some sdf) _source _convert _config _errors
    = Some (false,
            Some (SDF.SetRoot root' (readDoc_sdf version _source sdf)),
            errors2 ++ [err])
    ∧ Error.Code err = RESERVED_NAME.
Proof.
  intros Hnode Hversion Hroot root elemXml Hcheck Hread Hge Hval.
  destruct (readDoc_sdf_Root _ _ _ _ Hroot) as [r0 Hr0].
  unfold readDoc. rewrite Hnode, Hr0, Hversion, Hroot. simpl.
  fold root. fold elemXml. rewrite Hcheck. simpl. rewrite Hread. simpl.
  apply recursiveSiblingNoDoubleColonInNames_false in Hval.
  rewrite Hge, Hval. simpl. eexists. split; reflexivity.
Qed.

(** C8, amended.  When the [<sdf>] element has a version and the first
    [<pose>] child of its first [<model>] child carries a non-empty
    [relative_to], the pre-check records ATTRIBUTE_INVALID and [readDoc]
    returns false, with ELEMENT_INVALID, before the element tree is read:
    the root element keeps its children. *)
Theorem readDoc_rejects_top_level_relative_to (xmlDoc : XMLDocument.t)
    (sdf : SDF.t) (_source : string) (_convert : bool)
    (_config : ParserConfig.t) (_errors : Errors)
    (sdfNode xmlRoot topLevelElem topLevelPose : XMLElement.t)
    (version relativeTo : string) (root0 : Element.t) :
  XMLDocument.FirstChildElement "sdf" xmlDoc = Some sdfNode →
  XMLElement.Attribute "version" sdfNode = Some version →
  SDF.Root (readDoc_sdf version _source sdf) = Some root0 →
  let root := readDoc_root sdfNode version root0 in
  readDoc_elemXml version xmlDoc _convert root = Some xmlRoot →
  XMLElement.FirstChildElement "model" xmlRoot = Some topLevelElem →
  XMLElement.FirstChildElement "pose" topLevelElem = Some topLevelPose →
  XMLElement.Attribute "relative_to" topLevelPose = Some relativeTo →
  relativeTo ≠ "" →
  ∃ invalidAttribute invalidElement : Error.t,
    readDoc (Some xmlDoc) (Some sdf) _source _convert _config _errors
    = Some (false,
            Some (SDF.SetRoot root (readDoc_sdf version _source sdf)),
            _errors ++ [invalidAttribute; invalidElement])
    ∧ Error.Code invalidAttribute = ATTRIBUTE_INVALID
    ∧ Error.Code invalidElement = ELEMENT_INVALID
    ∧ Element.elements root = Element.elements root0.
Proof.
  intros Hnode Hversion Hroot root Hxml Hmodel Hpose Hrel Hne.
  destruct (readDoc_sdf_Root _ _ _ _ Hroot) as [r0 Hr0].
  unfold readDoc. rewrite Hnode, Hr0, Hversion, Hroot. simpl.
  fold root. rewrite Hxml. unfold checkXmlFromRoot.
  rewrite Hmodel, Hpose, Hrel.
  apply String.eqb_neq in Hne. rewrite Hne. simpl.
  eexists _, _. split; [by rewrite <- app_assoc|].
  split; [done|]. split; [done|]. apply readDoc_root_elements.
Qed.
End ReadDocProperties.

(** C7 as stated fails: a [<plugin>] of a version 1.9 document is named
    [a::b], and the document loads without an error. *)
Lemma readDoc_accepts_double_colon_in_plugin :
  (anyDoubleColonName <$> Demo.rootOf (Demo.read Demo.docPlugin)) = Some true
  ∧ (Element.OriginalVersion <$> Demo.rootOf (Demo.read Demo.docPlugin))
    = Some "1.9"
  ∧ Demo.outcome (Demo.read Demo.docPlugin) = Some (true, []).
Proof. vm_compute. done. Qed.

(** C8 as stated fails twice: the second top-level [<model>] of a document
    has a pose with [relative_to="x"] and the document loads without an
    error; and under an [<sdf>] without a version the load fails before
    the pre-check, without ATTRIBUTE_INVALID. *)
Lemma readDoc_misses_top_level_relative_to :
  (anyTopLevelModelPoseRelativeTo Demo.docSecondModel = true
   ∧ Demo.outcome (Demo.read Demo.docSecondModel) = Some (true, []))
  ∧ (anyTopLevelModelPoseRelativeTo Demo.docNoVersion = true
     ∧ Demo.outcome (Demo.read Demo.docNoVersion) = Some (false, [])).
Proof. vm_compute. done. Qed.

Lemma readDoc_rejects_double_colon_witness :
  ∃ (sdf : SDF.t) (err : Error.t),
    Demo.read Demo.docModelColon = Some (false, Some sdf, [err])
    ∧ SDF.Root sdf = Some Demo.rootModelColon
    ∧ Error.Code err = RESERVED_NAME.
Proof.
  destruct (readDoc_rejects_double_colon (Math:=Demo.textMath)
              (RL:=Demo.loader) (Env:=Demo.env) Demo.docModelColon
              Demo.freshSDF "data-string" true ParserConfig.GlobalConfig
              [] [] [] (Demo.sdfNodeOf Demo.docModelColon) "1.9"
              Demo.stampedRoot Demo.rootModelColon)
    as (err & Hread & Hcode).
  - reflexivity.
  - reflexivity.
  - vm_compute. reflexivity.
  - vm_compute. reflexivity.
  - vm_compute. reflexivity.
  - vm_compute. reflexivity.
  - apply recursiveSiblingNoDoubleColonInNames_false. vm_compute.
    reflexivity.
  - eexists _, err. split; [exact Hread|]. split; [reflexivity | exact Hcode].
Defined.

Lemma readDoc_rejects_top_level_relative_to_witness :
  ∃ (sdf : SDF.t) (invalidAttribute invalidElement : Error.t),
    Demo.read Demo.docRelativeTo
    = Some (false, Some sdf, [invalidAttribute; invalidElement])
    ∧ (Element.elements <$> SDF.Root sdf) = Some []
    ∧ Error.Code invalidAttribute = ATTRIBUTE_INVALID
    ∧ Error.Code invalidElement = ELEMENT_INVALID.
Proof.
  destruct (readDoc_rejects_top_level_relative_to (Math:=Demo.textMath)
              (RL:=Demo.loader) (Env:=Demo.env) Demo.docRelativeTo
              Demo.freshSDF "data-string" true ParserConfig.GlobalConfig []
              (Demo.sdfNodeOf Demo.docRelativeTo)
              (Demo.sdfNodeOf Demo.docRelativeTo)
              (Demo.xml "model" [Demo.xattr "name" "b"]
                 [Demo.xml "pose" [Demo.xattr "relative_to" "x"] []])
              (Demo.xml "pose" [Demo.xattr "relative_to" "x"] [])
              "1.9" "x" Demo.stampedRoot)
    as (e1 & e2 & Hread & Hcode1 & Hcode2 & Helements).
  - reflexivity.
  - reflexivity.
  - vm_compute. reflexivity.
  - vm_compute. reflexivity.
  - reflexivity.
  - reflexivity.
  - reflexivity.
  - discriminate.
  - eexists _, e1, e2. split; [exact Hread|].
    split; [|split; [exact Hcode1 | exact Hcode2]].
    clear. vm_compute. reflexivity.
Defined.

(** ** The object model: what [Load] reads back from [ToElement] *)

Lemma foldl_InsertElement {T} (f : T → Element.t) (l : list T)
    (e : Element.t) :
  foldl (fun elem x => Element.InsertElement (f x) elem) e l
  = Element.setElements (Element.elements e ++ (f <$> l)) e.
Proof.
  revert e. induction l as [|x l IH]; intros e; simpl.
  - rewrite app_nil_r. by destruct e.
  - rewrite IH. destruct e. unfold Element.setElements. simpl.
    by rewrite <- app_assoc.
Qed.

Lemma foldl_InsertElement5 {A B C D E : Type}
    (fa : A → Element.t) (fb : B → Element.t) (fc : C → Element.t)
    (fd : D → Element.t) (fe : E → Element.t)
    (a : list A) (b : list B) (c : list C) (d : list D) (e : list E)
    (elem : Element.t) :
  foldl (fun elem x => Element.InsertElement (fe x) elem)
    (foldl (fun elem x => Element.InsertElement (fd x) elem)
       (foldl (fun elem x => Element.InsertElement (fc x) elem)
          (foldl (fun elem x => Element.InsertElement (fb x) elem)
             (foldl (fun elem x => Element.InsertElement (fa x) elem)
                elem a) b) c) d) e
  = Element.setElements
      (Element.elements elem
       ++ ((((fa <$> a) ++ (fb <$> b)) ++ (fc <$> c)) ++ (fd <$> d))
       ++ (fe <$> e)) elem.
Proof.
  rewrite !foldl_InsertElement. destruct elem. unfold Element.setElements.
  simpl. by rewrite <- !app_assoc.
Qed.

Lemma filter_kind_all {T} (f : T → Element.t) (kind : string) (l : list T) :
  Forall (fun x => Element.GetName (f x) = kind) l →
  List.filter (fun c => String.eqb (Element.GetName c) kind) (f <$> l)
  = f <$> l.
Proof.
  induction 1 as [|x l Hx _ IH]; [done|].
  cbn [fmap list_fmap List.filter].
  rewrite Hx, String.eqb_refl. f_equal. exact IH.
Qed.

Lemma filter_kind_none {T} (f : T → Element.t) (kind kind' : string)
    (l : list T) :
  kind' ≠ kind →
  Forall (fun x => Element.GetName (f x) = kind') l →
  List.filter (fun c => String.eqb (Element.GetName c) kind) (f <$> l) = [].
Proof.
  intros Hne. induction 1 as [|x l Hx _ IH]; [done|].
  cbn [fmap list_fmap List.filter].
  rewrite Hx. apply String.eqb_neq in Hne. rewrite Hne. exact IH.
Qed.

Lemma filter_children {A B C D E : Type} (kind : string)
    (fa : A → Element.t) (fb : B → Element.t) (fc : C → Element.t)
    (fd : D → Element.t) (fe : E → Element.t)
    (a : list A) (b : list B) (c : list C) (d : list D) (e : list E)
    (ka kb kc kd ke : string) :
  Forall (fun x => Element.GetName (fa x) = ka) a →
  Forall (fun x => Element.GetName (fb x) = kb) b →
  Forall (fun x => Element.GetName (fc x) = kc) c →
  Forall (fun x => Element.GetName (fd x) = kd) d →
  Forall (fun x => Element.GetName (fe x) = ke) e →
  List.filter (fun x => String.eqb (Element.GetName x) kind)
    (((((fa <$> a) ++ (fb <$> b)) ++ (fc <$> c)) ++ (fd <$> d)) ++ (fe <$> e))
  = (if String.eqb ka kind then fa <$> a else [])
    ++ (if String.eqb kb kind then fb <$> b else [])
    ++ (if String.eqb kc kind then fc <$> c else [])
    ++ (if String.eqb kd kind then fd <$> d else [])
    ++ (if String.eqb ke kind then fe <$> e else []).
Proof.
  intros Ha Hb Hc Hd He. rewrite !List.filter_app, <- !app_assoc.
  repeat f_equal.
  all: match goal with
       | |- _ = if String.eqb ?k ?k' then _ else _ =>
           destruct (String.eqb_spec k k') as [<-|];
             [by apply filter_kind_all | by eapply filter_kind_none]
       end.
Qed.

Lemma existsb_eqb_false (name : string) (names : list string) :
  existsb (String.eqb name) names = false ↔ name ∉ names.
Proof.
  induction names as [|n names IH]; simpl.
  - split; [|done]. intros _ H. inversion H.
  - rewrite orb_false_iff, IH, not_elem_of_cons, String.eqb_neq. tauto.
Qed.

(** An element with more children appended: what the readers find in the
    first children is still found. *)
Lemma find_app_Some {A} (f : A → bool) (l1 l2 : list A) (x : A) :
  List.find f l1 = Some x → List.find f (l1 ++ l2) = Some x.
Proof.
  induction l1 as [|y l1 IH]; [done|]. simpl. destruct (f y); [done|].
  exact IH.
Qed.

Lemma GetElementImpl_setElements_app (n : string) (e c : Element.t)
    (l : list Element.t) :
  Element.GetElementImpl n e = Some c →
  Element.GetElementImpl n (Element.setElements (Element.elements e ++ l) e)
  = Some c.
Proof. apply find_app_Some. Qed.

Lemma Get_setElements_app {T} `{ParamValue T} (k : string) (d : T)
    (e : Element.t) (l : list Element.t) :
  is_Some (Element.GetAttribute k e) ∨ is_Some (Element.GetElementImpl k e) →
  Element.Get k d (Element.setElements (Element.elements e ++ l) e)
  = Element.Get k d e.
Proof.
  intros Hk. unfold Element.Get.
  destruct (String.eqb k ""); [done|].
  change (Element.GetAttribute k
            (Element.setElements (Element.elements e ++ l) e))
    with (Element.GetAttribute k e).
  destruct (Element.GetAttribute k e) as [p|]; [done|].
  destruct Hk as [[? [=]] | [c Hc]].
  by rewrite (GetElementImpl_setElements_app _ _ _ _ Hc), Hc.
Qed.

Lemma loadPose_setElements_app `{IgnitionMath} (e : Element.t)
    (l : list Element.t) (p : Pose3d) (f : string) :
  String.eqb (Element.GetName e) "pose" = false →
  is_Some (Element.GetElementImpl "pose" e) →
  loadPose (Element.setElements (Element.elements e ++ l) e) p f
  = loadPose e p f.
Proof.
  intros Hn [c Hc]. unfold loadPose.
  change (Element.GetName (Element.setElements (Element.elements e ++ l) e))
    with (Element.GetName e).
  rewrite Hn. cbn [negb].
  by rewrite (GetElementImpl_setElements_app _ _ _ _ Hc), Hc.
Qed.

Lemma filter_setElements_app (f : Element.t → bool) (e : Element.t)
    (l : list Element.t) :
  List.filter f (Element.elements e) = [] →
  List.filter f (Element.elements
                   (Element.setElements (Element.elements e ++ l) e))
  = List.filter f l.
Proof. intros Hf. simpl. by rewrite List.filter_app, Hf. Qed.

(** The typed readers, from what they find. *)
Lemma Get_child {T} `{ParamValue T} (k : string) (d v : T)
    (e c : Element.t) (p : Param.t) :
  String.eqb k "" = false →
  Element.GetAttribute k e = None →
  Element.GetElementImpl k e = Some c →
  Element.GetValue c = Some p →
  fromString (Param.GetAsString p) = Some v →
  Element.Get k d e = (v, true).
Proof.
  intros Hk Ha Hc Hp Hv.
  unfold Element.Get, Element.getValue, Element.getParam.
  by rewrite Hk, Ha, Hc, Hp, Hv.
Qed.

Lemma loadPose_child `{IgnitionMath} (e c : Element.t) (pr p : Param.t)
    (v d : Pose3d) (f rel : string) :
  String.eqb (Element.GetName e) "pose" = false →
  Element.GetElementImpl "pose" e = Some c →
  Element.GetAttribute "relative_to" c = Some pr →
  Param.GetAsString pr = rel →
  Element.GetValue c = Some p →
  fromString (Param.GetAsString p) = Some v →
  loadPose e d f = (true, v, rel).
Proof.
  intros Hn Hc Hr <- Hp Hv.
  unfold loadPose, Element.Get, Element.getValue, Element.getParam.
  rewrite Hn. cbn [negb String.eqb]. by rewrite Hc, Hr, Hp, Hv.
Qed.

Lemma storeChild_snoc (c c0 : Element.t) (l : list Element.t) :
  Element.GetName c = Element.GetName c0 →
  List.find (fun d => String.eqb (Element.GetName d) (Element.GetName c0)) l
  = None →
  Element.storeChild c (l ++ [c0]) = l ++ [c].
Proof.
  intros Hc. induction l as [|d l IH]; simpl.
  - by rewrite Hc, String.eqb_refl.
  - rewrite Hc. destruct (String.eqb (Element.GetName d) (Element.GetName c0));
      [done|]. intros Hl. f_equal. by apply IH.
Qed.

Lemma GetElementImpl_setElements_new (n : string) (b c : Element.t) :
  Element.GetElementImpl n b = None →
  Element.GetElementImpl n (Element.setElements (Element.elements b ++ [c]) b)
  = if String.eqb (Element.GetName c) n then Some c else None.
Proof.
  intros Hb. unfold Element.GetElementImpl in *.
  cbn [Element.elements Element.setElements].
  rewrite find_app_name, Hb. done.
Qed.

(** ** Elements: the child behind a pointer *)

Lemma find_existsb {A} (f : A → bool) (l : list A) :
  existsb f l = bool_decide (is_Some (List.find f l)).
Proof.
  induction l as [|x l IH]; simpl; [done|].
  destruct (f x); simpl; done.
Qed.

Lemma HasElement_GetElementImpl (n : string) (e : Element.t) :
  Element.HasElement n e = bool_decide (is_Some (Element.GetElementImpl n e)).
Proof. apply find_existsb. Qed.

Lemma GetElementImpl_name (n : string) (e c : Element.t) :
  Element.GetElementImpl n e = Some c → Element.GetName c = n.
Proof.
  unfold Element.GetElementImpl. intros H. apply find_some in H as [_ H].
  by apply String.eqb_eq.
Qed.

Lemma GetElementDescription_name (n : string) (e d : Element.t) :
  Element.GetElementDescription n e = Some d → Element.GetName d = n.
Proof.
  unfold Element.GetElementDescription. intros H.
  apply find_some in H as [_ H]. by apply String.eqb_eq.
Qed.

Lemma instantiate_name (d : Element.t) :
  Element.GetName (Element.instantiate d) = Element.GetName d.
Proof. by destruct d. Qed.

Lemma instantiate_value (d : Element.t) :
  Element.GetValue (Element.instantiate d) = Element.GetValue d.
Proof. by destruct d. Qed.

(** [child]: the pointer that [GetElement] returns. *)
Lemma child_name (n : string) (e c : Element.t) :
  child n e = Some c → Element.GetName c = n.
Proof.
  unfold child, Element.GetElement, Element.AddElement.
  destruct (Element.GetElementImpl n e) as [c0|] eqn:Hc; simpl.
  - intros [= <-]. by eapply GetElementImpl_name.
  - destruct (Element.GetElementDescription n e) as [d|] eqn:Hd; simpl;
      [|done].
    intros [= <-]. rewrite instantiate_name.
    by eapply GetElementDescription_name.
Qed.

(** The element after [GetElement(n)] and the changes made to the child
    through the pointer. *)
Lemma GetElement_putChild (n : string) (e c0 e1 c : Element.t) :
  Element.GetElement n e = Some (c0, e1) →
  Element.GetName c = n →
  Element.storeElementImpl c e1 = putChild c e.
Proof.
  unfold Element.GetElement, Element.AddElement, putChild.
  rewrite HasElement_GetElementImpl. intros H <-.
  destruct (Element.GetElementImpl (Element.GetName c) e) as [c1|] eqn:Hc.
  - injection H as <- <-. rewrite bool_decide_eq_true_2 by eauto. done.
  - rewrite bool_decide_eq_false_2 by (by intros [? [=]]).
    destruct (Element.GetElementDescription (Element.GetName c) e)
      as [d|] eqn:Hd; simpl in H; [|done].
    injection H as <- <-.
    unfold Element.storeElementImpl, Element.InsertElement.
    cbn [Element.elements Element.setElements].
    rewrite storeChild_snoc.
    + by destruct e.
    + rewrite instantiate_name. symmetry.
      by eapply GetElementDescription_name.
    + rewrite instantiate_name.
      by rewrite (GetElementDescription_name _ _ _ Hd).
Qed.

Lemma GetElement_child (n : string) (e c : Element.t) :
  child n e = Some c → ∃ e1, Element.GetElement n e = Some (c, e1).
Proof.
  unfold child. destruct (Element.GetElement n e) as [[c0 e1]|]; [|done].
  intros [= <-]. by exists e1.
Qed.

(** What [putChild] leaves alone. *)
Lemma putChild_fields (c e : Element.t) :
  Element.GetName (putChild c e) = Element.GetName e
  ∧ Element.attributes (putChild c e) = Element.attributes e
  ∧ Element.GetValue (putChild c e) = Element.GetValue e
  ∧ Element.elementDescriptions (putChild c e)
    = Element.elementDescriptions e
  ∧ Element.FilePath (putChild c e) = Element.FilePath e.
Proof. unfold putChild. by destruct (Element.HasElement _ e), e. Qed.

Lemma putChild_name (c e : Element.t) :
  Element.GetName (putChild c e) = Element.GetName e.
Proof. apply putChild_fields. Qed.

Lemma putChild_GetAttribute (k : string) (c e : Element.t) :
  Element.GetAttribute k (putChild c e) = Element.GetAttribute k e.
Proof.
  unfold Element.GetAttribute.
  by rewrite (proj1 (proj2 (putChild_fields c e))).
Qed.

Lemma putChild_GetElementDescription (k : string) (c e : Element.t) :
  Element.GetElementDescription k (putChild c e)
  = Element.GetElementDescription k e.
Proof.
  unfold Element.GetElementDescription.
  by rewrite (proj1 (proj2 (proj2 (proj2 (putChild_fields c e))))).
Qed.

Lemma find_storeChild_eq (c : Element.t) (l : list Element.t) :
  is_Some (List.find (fun d => String.eqb (Element.GetName d)
                                 (Element.GetName c)) l) →
  List.find (fun d => String.eqb (Element.GetName d) (Element.GetName c))
    (Element.storeChild c l) = Some c.
Proof.
  induction l as [|d l IH]; simpl; [by intros [? [=]]|].
  destruct (String.eqb (Element.GetName d) (Element.GetName c)) eqn:E.
  - intros _. simpl. by rewrite String.eqb_refl.
  - intros H. simpl. rewrite E. by apply IH.
Qed.

Lemma find_storeChild_other (k : string) (c : Element.t)
    (l : list Element.t) :
  Element.GetName c ≠ k →
  List.find (fun d => String.eqb (Element.GetName d) k)
    (Element.storeChild c l)
  = List.find (fun d => String.eqb (Element.GetName d) k) l.
Proof.
  intros Hk. induction l as [|d l IH]; simpl; [done|].
  destruct (String.eqb (Element.GetName d) (Element.GetName c)) eqn:E; simpl.
  - apply String.eqb_eq in E.
    rewrite (proj2 (String.eqb_neq (Element.GetName c) k)) by done.
    rewrite (proj2 (String.eqb_neq (Element.GetName d) k)) by congruence.
    done.
  - destruct (String.eqb (Element.GetName d) k); [done | exact IH].
Qed.

Lemma filter_storeChild_other (k : string) (c : Element.t)
    (l : list Element.t) :
  Element.GetName c ≠ k →
  List.filter (fun d => String.eqb (Element.GetName d) k)
    (Element.storeChild c l)
  = List.filter (fun d => String.eqb (Element.GetName d) k) l.
Proof.
  intros Hk. induction l as [|d l IH]; simpl; [done|].
  destruct (String.eqb (Element.GetName d) (Element.GetName c)) eqn:E; simpl.
  - apply String.eqb_eq in E.
    rewrite (proj2 (String.eqb_neq (Element.GetName c) k)) by done.
    rewrite (proj2 (String.eqb_neq (Element.GetName d) k)) by congruence.
    done.
  - destruct (String.eqb (Element.GetName d) k); [by f_equal | exact IH].
Qed.

Lemma putChild_GetElementImpl (c e : Element.t) :
  Element.GetElementImpl (Element.GetName c) (putChild c e) = Some c.
Proof.
  unfold putChild. rewrite HasElement_GetElementImpl.
  destruct (Element.GetElementImpl (Element.GetName c) e) as [c1|] eqn:Hc.
  - rewrite bool_decide_eq_true_2 by eauto.
    unfold Element.GetElementImpl. cbn [Element.storeElementImpl
      Element.elements Element.setElements].
    apply find_storeChild_eq. unfold Element.GetElementImpl in Hc.
    rewrite Hc. eauto.
  - rewrite bool_decide_eq_false_2 by (by intros [? [=]]).
    unfold Element.InsertElement.
    rewrite GetElementImpl_setElements_new by done.
    by rewrite String.eqb_refl.
Qed.

Lemma putChild_GetElementImpl_other (k : string) (c e : Element.t) :
  Element.GetName c ≠ k →
  Element.GetElementImpl k (putChild c e) = Element.GetElementImpl k e.
Proof.
  intros Hk. unfold putChild.
  destruct (Element.HasElement (Element.GetName c) e).
  - unfold Element.GetElementImpl. cbn [Element.storeElementImpl
      Element.elements Element.setElements].
    by apply find_storeChild_other.
  - unfold Element.GetElementImpl, Element.InsertElement.
    cbn [Element.elements Element.setElements].
    rewrite find_app_name.
    destruct (List.find _ (Element.elements e)); [done|]. simpl.
    by rewrite (proj2 (String.eqb_neq (Element.GetName c) k)).
Qed.

Lemma putChild_filter_other (k : string) (c e : Element.t) :
  Element.GetName c ≠ k →
  List.filter (fun d => String.eqb (Element.GetName d) k)
    (Element.elements (putChild c e))
  = List.filter (fun d => String.eqb (Element.GetName d) k)
      (Element.elements e).
Proof.
  intros Hk. unfold putChild.
  destruct (Element.HasElement (Element.GetName c) e).
  - cbn [Element.storeElementImpl Element.elements Element.setElements].
    by apply filter_storeChild_other.
  - unfold Element.InsertElement.
    cbn [Element.elements Element.setElements].
    rewrite List.filter_app. simpl.
    rewrite (proj2 (String.eqb_neq (Element.GetName c) k)) by done.
    by rewrite app_nil_r.
Qed.

Lemma putChild_child_other (k : string) (c e : Element.t) :
  Element.GetName c ≠ k → child k (putChild c e) = child k e.
Proof.
  intros Hk. unfold child, Element.GetElement, Element.AddElement.
  rewrite putChild_GetElementImpl_other by done.
  destruct (Element.GetElementImpl k e); [done|].
  rewrite putChild_GetElementDescription.
  by destruct (Element.GetElementDescription k e).
Qed.

Lemma putChild_settable_other (k : string) (c e : Element.t) :
  Element.GetName c ≠ k → settable k e → settable k (putChild c e).
Proof.
  intros Hk (c0 & Hc0 & Hv). exists c0.
  by rewrite putChild_child_other.
Qed.

Lemma putChild_readable_other (k : string) (c e : Element.t) :
  Element.GetName c ≠ k → readable k e → readable k (putChild c e).
Proof.
  intros Hk [Ha Hs]. split; [by rewrite putChild_GetAttribute|].
  by apply putChild_settable_other.
Qed.

(** [Set] on an element with a value. *)
Lemma Set__fields (v : string) (c : Element.t) :
  Element.GetName (Element.Set_ v c) = Element.GetName c
  ∧ Element.attributes (Element.Set_ v c) = Element.attributes c
  ∧ Element.elements (Element.Set_ v c) = Element.elements c
  ∧ Element.elementDescriptions (Element.Set_ v c)
    = Element.elementDescriptions c.
Proof. unfold Element.Set_. by destruct (Element.GetValue c), c. Qed.

Lemma Set__name (v : string) (c : Element.t) :
  Element.GetName (Element.Set_ v c) = Element.GetName c.
Proof. apply Set__fields. Qed.

Lemma Set__valueText (v : string) (c : Element.t) :
  is_Some (Element.GetValue c) → valueText (Element.Set_ v c) = Some v.
Proof.
  intros [p Hp]. unfold valueText, Element.Set_. rewrite Hp. by destruct c.
Qed.

Lemma Set__attributeValue (k v : string) (c : Element.t) :
  attributeValue k (Element.Set_ v c) = attributeValue k c.
Proof.
  unfold attributeValue, Element.GetAttribute.
  by rewrite (proj1 (proj2 (Set__fields v c))).
Qed.

(** [GetElement(n)->Set(v)] *)
Lemma setChild_putChild (n v : string) (e c : Element.t) :
  child n e = Some c →
  Material.setChild n v e = Some (putChild (Element.Set_ v c) e).
Proof.
  intros Hc. pose proof (child_name _ _ _ Hc) as Hn.
  apply GetElement_child in Hc as [e1 He1].
  unfold Material.setChild. rewrite He1. simpl.
  by rewrite (GetElement_putChild n e c e1) by (by rewrite ?Set__name).
Qed.

(** The typed read of a child that was set. *)
Lemma Get_text {T} `{ParamValue T} (k : string) (d v : T) (e c : Element.t) :
  k ≠ "" →
  Element.GetAttribute k e = None →
  Element.GetElementImpl k e = Some c →
  valueText c = Some (toString v) →
  fromString (toString v) = Some v →
  Element.Get k d e = (v, true).
Proof.
  intros Hk Ha Hc Hv Hrt. unfold valueText in Hv.
  destruct (Element.GetValue c) as [p|] eqn:Hp; [|done].
  injection Hv as Hv.
  eapply Get_child; [by apply String.eqb_neq | done | done | done |].
  by rewrite Hv.
Qed.

(** ** What [Load] yields, and what it reads *)

Section LoadedEntities.
Context {T : Type} `{Comparable T}.

(** The entities that [loadUniqueRepeated] keeps were loaded from an
    element each, and their names are pairwise distinct. *)
Lemma loadUniqueRepeated_loop_loaded (kind : string)
    (elems : list Element.t) (names : list string) (objs : list T)
    (errors : Errors) :
  Forall (fun x => ∃ elem, x = fst (Load elem)) objs →
  NoDup (Name <$> objs) →
  (∀ x, x ∈ objs → Name x ∈ names) →
  Forall (fun x => ∃ elem, x = fst (Load elem))
    (fst (loadUniqueRepeated_loop kind elems names objs errors))
  ∧ NoDup (Name <$> fst (loadUniqueRepeated_loop kind elems names objs
                           errors)).
Proof.
  revert names objs errors.
  induction elems as [|elem elems IH]; intros names objs errors Hl Hnd Hin;
    [done|].
  cbn [loadUniqueRepeated_loop].
  destruct (Load elem) as [obj loadErrors] eqn:Hobj.
  destruct (existsb (String.eqb (Name obj)) names) eqn:Hseen; cbn [negb].
  - by apply IH.
  - apply existsb_eqb_false in Hseen. apply IH.
    + apply Forall_app. split; [done|]. apply Forall_singleton.
      exists elem. by rewrite Hobj.
    + rewrite fmap_app. apply NoDup_app. split; [done|]. split.
      * intros n Hn Hn'. apply list_elem_of_fmap in Hn as (x & -> & Hx).
        simpl in Hn'. apply list_elem_of_singleton in Hn'.
        apply Hseen. rewrite <- Hn'. by apply Hin.
      * simpl. apply NoDup_singleton.
    + intros x Hx. apply elem_of_app in Hx as [Hx|Hx].
      * right. by apply Hin.
      * apply list_elem_of_singleton in Hx. subst x. left.
Qed.

Lemma loadUniqueRepeated_loaded (kind : string) (_sdf : Element.t) :
  loadedRoundTrip T kind →
  roundTrips kind (fst (loadUniqueRepeated _sdf kind [])).
Proof.
  intros Hrt. unfold loadUniqueRepeated.
  destruct (loadUniqueRepeated_loop_loaded kind
              (List.filter (fun c => String.eqb (Element.GetName c) kind)
                 (Element.elements _sdf)) [] [] []) as [Hl Hnd].
  - constructor.
  - constructor.
  - intros x Hx. inversion Hx.
  - split; [|done]. eapply Forall_impl; [exact Hl|].
    intros x [elem ->]. apply Hrt.
Qed.

(** Loading the elements of entities whose names are distinct drops none
    of them. *)
Lemma loadUniqueRepeated_loop_equivalent (kind : string) (l : list T)
    (names : list string) (objs : list T) (errors : Errors) :
  Forall (fun x => equivalent (fst (Load (ToElement x))) x) l →
  NoDup (Name <$> l) →
  (∀ x, x ∈ l → Name x ∉ names) →
  ∃ l', fst (loadUniqueRepeated_loop kind (ToElement <$> l) names objs
               errors) = objs ++ l'
        ∧ Forall2 equivalent l' l.
Proof.
  intros Hload. revert names objs errors.
  induction Hload as [|x l Hx _ IH]; intros names objs errors Hnd Hfresh.
  - exists []. simpl. by rewrite app_nil_r.
  - cbn [fmap list_fmap loadUniqueRepeated_loop].
    destruct (Load (ToElement x)) as [obj loadErrors] eqn:Hobj.
    simpl in Hx. pose proof (equivalent_Name _ _ Hx) as Hname.
    rewrite Hname.
    rewrite (proj2 (existsb_eqb_false (Name x) names)) by (apply Hfresh; left).
    cbn [negb]. simpl in Hnd. apply NoDup_cons in Hnd as [Hx' Hnd].
    fold (@fmap list _ _ _ ToElement l).
    destruct (IH (Name x :: names) (objs ++ [obj])
                (errors ++ loadErrors)) as (l' & Hl' & Heq); [done| |].
    + intros y Hy. apply not_elem_of_cons. split.
      * intros Heq. apply Hx'. rewrite <- Heq. by apply list_elem_of_fmap_2.
      * apply Hfresh. by right.
    + exists (obj :: l'). rewrite Hl', <- app_assoc. split; [done|].
      by constructor.
Qed.

Lemma roundTrips_load (kind : string) (l : list T) :
  roundTrips kind l →
  Forall2 equivalent
    (fst (loadUniqueRepeated_loop kind (ToElement <$> l) [] [] [])) l.
Proof.
  intros [H1 H2].
  destruct (loadUniqueRepeated_loop_equivalent kind l [] [] [])
    as (l' & -> & Hl'); [|done| |done].
  - eapply Forall_impl; [exact H1|]. by intros x [_ ?].
  - intros x _ Hx. inversion Hx.
Qed.

Lemma roundTrips_names (kind : string) (l : list T) :
  roundTrips kind l →
  Forall (fun x => Element.GetName (ToElement x) = kind) l.
Proof. intros [H1 _]. eapply Forall_impl; [exact H1|]. by intros x [? _]. Qed.
End LoadedEntities.

Section LinkRoundTrip.
Context {Math : IgnitionMath} {Parts : LinkParts} {Cmp : ComparableParts}.

(** The collections of a link that [Link::Load] has filled. *)
Lemma Link_Load_children (x : Element.t) :
  loadedRoundTrip Visual "visual" →
  loadedRoundTrip Collision "collision" →
  loadedRoundTrip Light "light" →
  loadedRoundTrip Sensor "sensor" →
  loadedRoundTrip ParticleEmitter "particle_emitter" →
  childrenRoundTrip (fst (Link.Load x Link.new))
  ∧ Link.poseRelativeToGraph (fst (Link.Load x Link.new)) = ScopedGraph_new.
Proof.
  intros Hv Hc Hl Hs He.
  pose proof (loadUniqueRepeated_loaded "visual" x Hv) as Hvs.
  pose proof (loadUniqueRepeated_loaded "collision" x Hc) as Hcs.
  pose proof (loadUniqueRepeated_loaded "light" x Hl) as Hls.
  pose proof (loadUniqueRepeated_loaded "sensor" x Hs) as Hss.
  pose proof (loadUniqueRepeated_loaded "particle_emitter" x He) as Hes.
  unfold Link.Load.
  destruct (negb (String.eqb (Element.GetName x) "link")).
  - split; [|done]. unfold childrenRoundTrip, roundTrips. simpl.
    repeat split; constructor.
  - destruct (loadName x) as [name loaded].
    cbn [Link.pose Link.poseRelativeTo Link.new Link.visuals Link.collisions
         Link.lights Link.sensors Link.emitters].
    destruct (loadPose x Pose3d_Zero "") as [[? pose] rel].
    destruct (loadUniqueRepeated x "visual" []) as [vs ?].
    destruct (loadUniqueRepeated x "collision" []) as [cs ?].
    destruct (loadUniqueRepeated x "light" []) as [ls ?].
    destruct (loadUniqueRepeated x "sensor" []) as [ss ?].
    destruct (loadUniqueRepeated x "particle_emitter" []) as [es ?].
    destruct (match Element.GetElementImpl "inertial" x with
              | Some _ => _
              | None => _
              end) as [[[mass xxyyzz] xyxzyz] inertiaPose].
    cbn [Inertiald.SetMassMatrix]. split; [|done].
    unfold childrenRoundTrip. simpl in *. done.
Qed.

(** [Link::Load] of a fresh link, from what the readers find in the
    element. *)
Lemma Link_Load_reads (e ie ipe ine : Element.t) (m : Link.t)
    (b1 b2 b3 b4 b5 b6 b7 b8 b9 b10 b11 : bool) (f : string) :
  Element.GetName e = "link" →
  loadName e = (Link.name m, b1) →
  loadPose e Pose3d_Zero "" = (b2, Link.pose m, Link.poseRelativeTo m) →
  List.filter (fun c => String.eqb (Element.GetName c) "visual")
    (Element.elements e) = ToElement <$> Link.visuals m →
  List.filter (fun c => String.eqb (Element.GetName c) "collision")
    (Element.elements e) = ToElement <$> Link.collisions m →
  List.filter (fun c => String.eqb (Element.GetName c) "light")
    (Element.elements e) = ToElement <$> Link.lights m →
  List.filter (fun c => String.eqb (Element.GetName c) "sensor")
    (Element.elements e) = ToElement <$> Link.sensors m →
  List.filter (fun c => String.eqb (Element.GetName c) "particle_emitter")
    (Element.elements e) = ToElement <$> Link.emitters m →
  childrenRoundTrip m →
  Link.poseRelativeToGraph m = ScopedGraph_new →
  Element.GetElementImpl "inertial" e = Some ie →
  Element.GetElementImpl "pose" ie = Some ipe →
  loadPose ipe Pose3d_Zero "" = (b3, Inertiald.Pose (Link.inertial m), f) →
  Element.Get "mass" double_1 ie
  = (MassMatrix3d.Mass (Inertiald.MassMatrix (Link.inertial m)), b4) →
  Element.GetElementImpl "inertia" ie = Some ine →
  Element.Get "ixx" double_1 ine
  = (MassMatrix3d.Ixx (Inertiald.MassMatrix (Link.inertial m)), b5) →
  Element.Get "iyy" double_1 ine
  = (MassMatrix3d.Iyy (Inertiald.MassMatrix (Link.inertial m)), b6) →
  Element.Get "izz" double_1 ine
  = (MassMatrix3d.Izz (Inertiald.MassMatrix (Link.inertial m)), b7) →
  Element.Get "ixy" double_0 ine
  = (MassMatrix3d.Ixy (Inertiald.MassMatrix (Link.inertial m)), b8) →
  Element.Get "ixz" double_0 ine
  = (MassMatrix3d.Ixz (Inertiald.MassMatrix (Link.inertial m)), b9) →
  Element.Get "iyz" double_0 ine
  = (MassMatrix3d.Iyz (Inertiald.MassMatrix (Link.inertial m)), b10) →
  Element.Get "enable_wind" false e = (Link.enableWind m, b11) →
  equivalentLink (fst (Link.Load e Link.new)) m
  ∧ Link.sdf (fst (Link.Load e Link.new)) = Some e.
Proof.
  intros Hname HloadName Hpose Fv Fc Fl Fs Fe (Hvs & Hcs & Hls & Hss & Hes)
    Hgraph Hie Hipe Hipose Hmass Hine Hixx Hiyy Hizz Hixy Hixz Hiyz Hwind.
  apply roundTrips_load in Hvs, Hcs, Hls, Hss, Hes.
  unfold Link.Load, loadUniqueRepeated.
  rewrite Hname, HloadName.
  cbn [String.eqb Ascii.eqb Bool.eqb negb Link.pose Link.poseRelativeTo
       Link.new].
  rewrite Hpose, Fv, Fc, Fl, Fs, Fe, Hie, Hipe, Hipose, Hmass, Hine, Hixx,
    Hiyy, Hizz, Hixy, Hixz, Hiyz.
  cbn [Link.enableWind Link.new]. rewrite Hwind.
  cbn [Link.visuals Link.collisions Link.lights Link.sensors Link.emitters
       Link.new].
  destruct (loadUniqueRepeated_loop "visual" _ [] [] []) as [vs ?].
  destruct (loadUniqueRepeated_loop "collision" _ [] [] []) as [cs ?].
  destruct (loadUniqueRepeated_loop "light" _ [] [] []) as [ls ?].
  destruct (loadUniqueRepeated_loop "sensor" _ [] [] []) as [ss ?].
  destruct (loadUniqueRepeated_loop "particle_emitter" _ [] [] [])
    as [es ?].
  destruct m as [name pose rel vs' ls' cs' ss' es'
                   [[mass ixx iyy izz ixy ixz iyz] ipose] sdf wind graph].
  simpl in *. split; [|done]. unfold equivalentLink. simpl.
  by repeat split.
Qed.
End LinkRoundTrip.

Section MaterialRoundTrip.
Context {Math : IgnitionMath} {PM : PbrModel}.

(** [Material::Load] of a fresh material, from what the readers find in
    the element. *)
Lemma Material_Load_reads (e she : Element.t) (m : Material.t)
    (script pbrElem : option Element.t) (normalMap : string)
    (b1 b2 b3 b4 b5 b6 b7 b8 b9 : bool) :
  Element.GetName e = "material" →
  Element.GetElementImpl "script" e = script →
  match script with
  | Some se =>
      ∃ b b' : bool,
        Element.Get "uri" "" se = (Material.scriptUri m, b)
        ∧ Element.Get "name" "" se = (Material.scriptName m, b')
        ∧ String.eqb (Material.scriptUri m) "__default__" = false
        ∧ String.eqb (Material.scriptName m) "__default__" = false
  | None => Material.scriptUri m = "" ∧ Material.scriptName m = ""
  end →
  Element.GetElementImpl "shader" e = Some she →
  Element.Get "type" "pixel" she
  = (match Material.shader m with
     | PIXEL => "pixel"
     | VERTEX => "vertex"
     | NORMAL_MAP_OBJECTSPACE => "normal_map_object_space"
     | NORMAL_MAP_TANGENTSPACE => "normal_map_tangent_space"
     end, b1) →
  Element.Get "normal_map" "" she = (normalMap, b2) →
  (if String.eqb normalMap "__default__" then "" else normalMap)
  = Material.normalMap m →
  Element.Get "render_order" float_0 e = (Material.renderOrder m, b3) →
  Element.Get "ambient" Color_0001 e = (Material.ambient m, b4) →
  Element.Get "diffuse" Color_0001 e = (Material.diffuse m, b5) →
  Element.Get "specular" Color_0001 e = (Material.specular m, b6) →
  Element.Get "emissive" Color_0001 e = (Material.emissive m, b7) →
  Element.Get "lighting" true e = (Material.lighting m, b8) →
  Element.Get "double_sided" false e = (Material.doubleSided m, b9) →
  Element.GetElementImpl "pbr" e = pbrElem →
  match pbrElem with
  | Some pe => ∃ p, Material.pbr m = Some p ∧ samePbr (fst (Pbr_Load pe)) p
  | None => Material.pbr m = None
  end →
  equivalentMaterial (fst (Material.Load e Material.new)) m
  ∧ Material.sdf (fst (Material.Load e Material.new)) = Some e
  ∧ Material.filePath (fst (Material.Load e Material.new))
    = Element.FilePath e.
Proof.
  intros Hname Hscript Hse Hshader Htype Hnm HnormalMap Hro Ham Hdi Hsp
    Hem Hli Hds Hpbr Hpe.
  destruct m as [uri name shader nm li ds am di sp em ro pbr sdf fp].
  unfold equivalentMaterial.
  cbn [Material.scriptUri Material.scriptName Material.shader
       Material.normalMap Material.lighting Material.doubleSided
       Material.ambient Material.diffuse Material.specular Material.emissive
       Material.renderOrder Material.pbr] in *.
  subst nm.
  destruct script as [se|], pbrElem as [pe|].
  all: repeat match goal with
         | H : ∃ _, _ |- _ => destruct H as [? H]
         | H : _ ∧ _ |- _ => destruct H as [? ?]
         end; subst.
  all: unfold Material.Load.
  all: rewrite Hname, Hscript, Hshader, Htype, Hnm.
  all: cbn [String.eqb Ascii.eqb Bool.eqb negb Material.renderOrder
            Material.ambient Material.diffuse Material.specular
            Material.emissive Material.lighting Material.doubleSided
            Material.new Material.shader Material.pbr Material.scriptUri
            Material.scriptName].
  all: rewrite Hro, Ham, Hdi, Hsp, Hem, Hli, Hds, Hpbr.
  all: repeat match goal with
         | H : Element.Get _ _ _ = _ |- _ => rewrite H; clear H
         end.
  all: cbn [fst snd].
  all: repeat match goal with
         | H : String.eqb _ "__default__" = false |- _ => rewrite H; clear H
         end.
  all: destruct shader; cbn [String.eqb Ascii.eqb Bool.eqb fst snd].
  all: try match goal with
         | |- context [Pbr_Load ?x] =>
             destruct (Pbr_Load x) as [loaded loadErrors]
         end.
  all: cbn [fst Material.scriptUri Material.scriptName Material.shader
            Material.normalMap Material.lighting Material.doubleSided
            Material.ambient Material.diffuse Material.specular
            Material.emissive Material.renderOrder Material.pbr Material.sdf
            Material.filePath].
  all: by repeat split.
Qed.

(** A material that [Material::Load] has loaded without errors: it comes
    from a [<material>], its script is set with a name and a URI or not at
    all, neither its script nor its normal map is the placeholder of the
    schema, and its PBR material was loaded from an element. *)
Lemma Material_Load_valid (x : Element.t) (m : Material.t) :
  Material.Load x Material.new = (m, []) →
  ((Material.scriptName m = "" ∧ Material.scriptUri m = "")
   ∨ (Material.scriptName m ≠ "" ∧ Material.scriptUri m ≠ ""
      ∧ Material.scriptName m ≠ "__default__"
      ∧ Material.scriptUri m ≠ "__default__"))
  ∧ Material.normalMap m ≠ "__default__"
  ∧ match Material.pbr m with
    | Some pbr => ∃ pbrElem, pbr = fst (Pbr_Load pbrElem)
    | None => True
    end.
Proof.
  unfold Material.Load.
  destruct (negb (String.eqb (Element.GetName x) "material"));
    [by intros [=]|].
  destruct (match Element.GetElementImpl "script" x with
            | Some _ => _
            | None => _
            end) as [[uri name] errors1] eqn:Hscript.
  destruct (match Element.GetElementImpl "shader" x with
            | Some _ => _
            | None => _
            end) as [[shader nm] errors2] eqn:Hshader.
  destruct (match Element.GetElementImpl "pbr" x with
            | Some _ => _
            | None => _
            end) as [pbr errors3] eqn:Hpbr.
  intros [= <- ->]. cbn [Material.scriptName Material.scriptUri
    Material.normalMap Material.pbr].
  assert (errors2 = [] ∧ match pbr with
                         | Some pbr => ∃ pbrElem, pbr = fst (Pbr_Load pbrElem)
                         | None => True
                         end) as [-> Hp].
  { destruct (Element.GetElementImpl "pbr" x) as [pe|].
    - destruct (Pbr_Load pe) as [p pe'] eqn:Hpe. injection Hpbr as <- Herr.
      apply app_eq_nil in Herr as [-> _]. split; [done|].
      exists pe. by rewrite Hpe.
    - by injection Hpbr as <- ->. }
  assert (errors1 = [] ∧ nm ≠ "__default__") as [-> Hnm].
  { destruct (Element.GetElementImpl "shader" x) as [she|].
    - destruct (if String.eqb (fst (Element.Get (T:=string) "type" "pixel"
                                      she)) "pixel"
                then _ else _) as [sh errs] eqn:Hsh.
      injection Hshader as _ <- Herr. split.
      + assert (∃ l, errs = errors1 ++ l) as [l ->].
        { revert Hsh.
          repeat (destruct (String.eqb
                              (fst (Element.Get (T:=string) "type" "pixel"
                                      she)) _);
                  [intros [= <- <-]; exists []; by rewrite app_nil_r|]).
          intros [= <- <-]. by eexists. }
        destruct (_ && _) in Herr.
        * apply app_eq_nil in Herr as [Herr _].
          by apply app_eq_nil in Herr as [-> _].
        * by apply app_eq_nil in Herr as [-> _].
      + destruct (String.eqb_spec
                    (fst (Element.Get (T:=string) "normal_map" "" she))
                    "__default__"); done.
    - by injection Hshader as _ <- <-. }
  split; [|done].
  destruct (Element.GetElementImpl "script" x) as [se|].
  - destruct (Element.Get (T:=string) "uri" "" se) as [u bu].
    destruct (Element.Get (T:=string) "name" "" se) as [n bn].
    cbn [fst snd] in Hscript. right.
    destruct (String.eqb_spec u "__default__") as [->|Hu];
      destruct (String.eqb_spec n "__default__") as [->|Hn];
      cbn [fst snd String.eqb orb] in Hscript;
      rewrite ?orb_true_r in Hscript; cbn [app] in Hscript.
    all: repeat match type of Hscript with
                | context [if ?b then _ else _] => destruct b eqn:?
                end; simplify_eq.
    repeat match goal with
           | H : _ || _ = false |- _ => apply orb_false_iff in H as [_ H]
           | H : String.eqb _ _ = false |- _ => apply String.eqb_neq in H
           end.
    done.
  - simplify_eq. by left.
Qed.
End MaterialRoundTrip.

(** ** Attributes and values that were set *)

Lemma storeParam_find_same (k : string) (p q : Param.t) (l : list Param.t) :
  Param.GetKey q = Param.GetKey p →
  List.find (fun a => String.eqb (Param.GetKey a) k) l = Some p →
  List.find (fun a => String.eqb (Param.GetKey a) k)
    (Element.storeParam q l) = Some q.
Proof.
  intros Hq. induction l as [|a l IH]; simpl; [done|].
  destruct (String.eqb (Param.GetKey a) k) eqn:Ha.
  - intros [= ->]. rewrite Hq, String.eqb_refl. simpl.
    by rewrite Hq, Ha.
  - intros Hl. pose proof (find_some _ _ Hl) as [_ Hp].
    apply String.eqb_eq in Hp.
    destruct (String.eqb (Param.GetKey a) (Param.GetKey q)) eqn:Ha'.
    + apply String.eqb_eq in Ha'. apply String.eqb_neq in Ha. congruence.
    + simpl. rewrite Ha. by apply IH.
Qed.

Lemma storeParam_find_other (k : string) (q : Param.t) (l : list Param.t) :
  Param.GetKey q ≠ k →
  List.find (fun a => String.eqb (Param.GetKey a) k)
    (Element.storeParam q l)
  = List.find (fun a => String.eqb (Param.GetKey a) k) l.
Proof.
  intros Hq. induction l as [|a l IH]; simpl; [done|].
  destruct (String.eqb (Param.GetKey a) (Param.GetKey q)) eqn:Ha; simpl.
  - apply String.eqb_eq in Ha.
    rewrite (proj2 (String.eqb_neq (Param.GetKey q) k)) by done.
    rewrite (proj2 (String.eqb_neq (Param.GetKey a) k)) by congruence.
    done.
  - destruct (String.eqb (Param.GetKey a) k); [done | exact IH].
Qed.

Lemma GetAttribute_key (k : string) (e : Element.t) (p : Param.t) :
  Element.GetAttribute k e = Some p → Param.GetKey p = k.
Proof.
  unfold Element.GetAttribute. intros H. apply find_some in H as [_ H].
  by apply String.eqb_eq.
Qed.

(** [GetAttribute(k)->Set(v)], where the attribute exists. *)
Lemma setAttribute_default (k v : string) (e : Element.t) :
  is_Some (Element.GetAttribute k e) →
  Element.setAttribute k v e = Some (default e (Element.setAttribute k v e)).
Proof. intros [p Hp]. unfold Element.setAttribute. by rewrite Hp. Qed.

Lemma withAttribute_fields (k v : string) (e : Element.t) :
  Element.GetName (default e (Element.setAttribute k v e)) = Element.GetName e
  ∧ Element.GetValue (default e (Element.setAttribute k v e))
    = Element.GetValue e
  ∧ Element.elements (default e (Element.setAttribute k v e))
    = Element.elements e
  ∧ Element.elementDescriptions (default e (Element.setAttribute k v e))
    = Element.elementDescriptions e
  ∧ Element.FilePath (default e (Element.setAttribute k v e))
    = Element.FilePath e.
Proof.
  unfold Element.setAttribute.
  by destruct (Element.GetAttribute k e), e.
Qed.

Lemma withAttribute_name (k v : string) (e : Element.t) :
  Element.GetName (default e (Element.setAttribute k v e)) = Element.GetName e.
Proof. apply withAttribute_fields. Qed.

Lemma withAttribute_GetValue (k v : string) (e : Element.t) :
  Element.GetValue (default e (Element.setAttribute k v e))
  = Element.GetValue e.
Proof. apply withAttribute_fields. Qed.

Lemma withAttribute_valueText (k v : string) (e : Element.t) :
  valueText (default e (Element.setAttribute k v e)) = valueText e.
Proof. unfold valueText. by rewrite withAttribute_GetValue. Qed.

Lemma withAttribute_elements (k v : string) (e : Element.t) :
  Element.elements (default e (Element.setAttribute k v e))
  = Element.elements e.
Proof. apply withAttribute_fields. Qed.

Lemma withAttribute_FilePath (k v : string) (e : Element.t) :
  Element.FilePath (default e (Element.setAttribute k v e))
  = Element.FilePath e.
Proof. apply withAttribute_fields. Qed.

Lemma child_ext (n : string) (e e' : Element.t) :
  Element.elements e' = Element.elements e →
  Element.elementDescriptions e' = Element.elementDescriptions e →
  child n e' = child n e.
Proof.
  intros He Hd.
  unfold child, Element.GetElement, Element.AddElement,
    Element.GetElementImpl, Element.GetElementDescription.
  rewrite He, Hd.
  destruct (List.find _ (Element.elements e)); [done|].
  by destruct (List.find _ (Element.elementDescriptions e)).
Qed.

Lemma withAttribute_child (k v n : string) (e : Element.t) :
  child n (default e (Element.setAttribute k v e)) = child n e.
Proof. apply child_ext; apply withAttribute_fields. Qed.

Lemma withAttribute_GetElementImpl (k v n : string) (e : Element.t) :
  Element.GetElementImpl n (default e (Element.setAttribute k v e))
  = Element.GetElementImpl n e.
Proof. unfold Element.GetElementImpl. by rewrite withAttribute_elements. Qed.

Lemma withAttribute_attributeValue (k v : string) (e : Element.t) :
  is_Some (Element.GetAttribute k e) →
  attributeValue k (default e (Element.setAttribute k v e)) = Some v.
Proof.
  intros [p Hp]. unfold attributeValue, Element.setAttribute. rewrite Hp.
  simpl. unfold Element.GetAttribute in *.
  cbn [Element.attributes Element.setAttributes].
  by rewrite (storeParam_find_same k p (Param.Set_ v p)).
Qed.

Lemma withAttribute_GetAttribute_other (k k' v : string) (e : Element.t) :
  k' ≠ k →
  Element.GetAttribute k' (default e (Element.setAttribute k v e))
  = Element.GetAttribute k' e.
Proof.
  intros Hk. unfold Element.setAttribute.
  destruct (Element.GetAttribute k e) as [p|] eqn:Hp; [|done]. simpl.
  unfold Element.GetAttribute. cbn [Element.attributes Element.setAttributes].
  apply storeParam_find_other. simpl.
  rewrite (GetAttribute_key _ _ _ Hp). congruence.
Qed.

(** The readers, from the texts that they find. *)
Lemma Get_attribute {T} `{ParamValue T} (k : string) (d v : T)
    (e : Element.t) (text : string) :
  k ≠ "" →
  attributeValue k e = Some text →
  fromString text = Some v →
  Element.Get k d e = (v, true).
Proof.
  intros Hk Ha Hv. unfold attributeValue in Ha.
  destruct (Element.GetAttribute k e) as [p|] eqn:Hp; [|done].
  injection Ha as <-.
  unfold Element.Get, Element.getParam.
  by rewrite (proj2 (String.eqb_neq k "")), Hp, Hv.
Qed.

Lemma Get_holds {T} `{ParamValue T} (k : string) (d v : T) (e : Element.t) :
  k ≠ "" →
  holds k (toString v) e →
  fromString (toString v) = Some v →
  Element.Get k d e = (v, true).
Proof. intros Hk (Ha & c & Hc & Hv) Hrt. by eapply Get_text. Qed.

Lemma loadPose_reads `{IgnitionMath} (e c : Element.t) (v d : Pose3d)
    (f rel : string) :
  Element.GetName e ≠ "pose" →
  Element.GetElementImpl "pose" e = Some c →
  attributeValue "relative_to" c = Some rel →
  valueText c = Some (toString v) →
  fromString (toString v) = Some v →
  loadPose e d f = (true, v, rel).
Proof.
  intros Hn Hc Hr Hv Hrt. unfold attributeValue in Hr. unfold valueText in Hv.
  destruct (Element.GetAttribute "relative_to" c) as [pr|] eqn:Hpr; [|done].
  destruct (Element.GetValue c) as [p|] eqn:Hp; [|done].
  injection Hr as Hr. injection Hv as Hv.
  eapply loadPose_child; try done.
  - by apply String.eqb_neq.
  - by rewrite Hv.
Qed.

Lemma loadPose_pose `{IgnitionMath} (c : Element.t) (v d : Pose3d)
    (f : string) :
  Element.GetName c = "pose" →
  valueText c = Some (toString v) →
  fromString (toString v) = Some v →
  ∃ rel, loadPose c d f = (true, v, rel).
Proof.
  intros Hn Hv Hrt. unfold valueText in Hv.
  destruct (Element.GetValue c) as [p|] eqn:Hp; [|done].
  injection Hv as Hv.
  assert (Element.Get "" Pose3d_Zero c = (v, true)) as Hget.
  { unfold Element.Get, Element.getValue, Element.getParam.
    cbn [String.eqb]. by rewrite Hp, Hv, Hrt. }
  unfold loadPose. rewrite Hn. cbn [negb String.eqb Ascii.eqb Bool.eqb].
  rewrite Hget. cbn [fst snd]. by eexists.
Qed.

(** One child set: what the element holds afterwards. *)
Lemma putChild_holds (n v : string) (c e : Element.t) :
  Element.GetName c = n →
  Element.GetAttribute n e = None →
  valueText c = Some v →
  holds n v (putChild c e).
Proof.
  intros Hn Ha Hv. split; [by rewrite putChild_GetAttribute|].
  exists c. by rewrite <- Hn, putChild_GetElementImpl.
Qed.

Lemma putChild_holds_other (n v : string) (c e : Element.t) :
  Element.GetName c ≠ n →
  holds n v e → holds n v (putChild c e).
Proof.
  intros Hn (Ha & c' & Hc' & Hv). split; [by rewrite putChild_GetAttribute|].
  exists c'. by rewrite putChild_GetElementImpl_other.
Qed.

Lemma putChild_holdsWith_other (n a av v : string) (c e : Element.t) :
  Element.GetName c ≠ n →
  holdsWith n a av v e → holdsWith n a av v (putChild c e).
Proof.
  intros Hn (Ha & c' & Hc' & Hv). split; [by rewrite putChild_GetAttribute|].
  exists c'. by rewrite putChild_GetElementImpl_other.
Qed.

(** [GetElement(n)->Set(v)] on a child that can be read. *)
Lemma setChild_readable (n v : string) (e : Element.t) :
  readable n e →
  ∃ c, Element.GetName c = n
       ∧ Material.setChild n v e = Some (putChild c e)
       ∧ holds n v (putChild c e).
Proof.
  intros (Ha & c & Hc & Hv). exists (Element.Set_ v c).
  pose proof (child_name _ _ _ Hc) as Hn.
  split; [by rewrite Set__name|]. split; [by apply setChild_putChild|].
  apply putChild_holds; [by rewrite Set__name | done |].
  by apply Set__valueText.
Qed.

Lemma setChild_settable (n v : string) (e : Element.t) :
  settable n e →
  ∃ c, Element.GetName c = n
       ∧ Material.setChild n v e = Some (putChild c e)
       ∧ valueText c = Some v.
Proof.
  intros (c & Hc & Hv). exists (Element.Set_ v c).
  pose proof (child_name _ _ _ Hc) as Hn.
  split; [by rewrite Set__name|]. split; [by apply setChild_putChild|].
  by apply Set__valueText.
Qed.

(** [GetElement(n)]'s attribute [a] and value set. *)
Lemma setChildWithAttribute_readable (n a av v : string) (e : Element.t) :
  readableWith n a e →
  ∃ c, Element.GetName c = n
       ∧ Material.setChildWithAttribute n a av v e = Some (putChild c e)
       ∧ holdsWith n a av v (putChild c e).
Proof.
  intros (Ha & c & Hc & Hv & Hattr).
  exists (Element.Set_ v (default c (Element.setAttribute a av c))).
  pose proof (child_name _ _ _ Hc) as Hn.
  assert (Element.GetName
            (Element.Set_ v (default c (Element.setAttribute a av c))) = n)
    as Hn' by (by rewrite Set__name, withAttribute_name).
  split; [done|]. split.
  - unfold Material.setChildWithAttribute.
    apply GetElement_child in Hc as [e1 He1]. rewrite He1. simpl.
    rewrite (setAttribute_default a av c Hattr). simpl.
    by rewrite (GetElement_putChild n e c e1).
  - split; [by rewrite putChild_GetAttribute|].
    eexists. rewrite <- Hn' at 1. rewrite putChild_GetElementImpl.
    split; [done|]. split.
    + apply Set__valueText. by rewrite withAttribute_GetValue.
    + rewrite Set__attributeValue. by apply withAttribute_attributeValue.
Qed.

(** ** What [putChild] carries over *)

Lemma putChild_attributeValue (k : string) (c e : Element.t) :
  attributeValue k (putChild c e) = attributeValue k e.
Proof. unfold attributeValue. by rewrite putChild_GetAttribute. Qed.

Lemma putChild_FilePath (c e : Element.t) :
  Element.FilePath (putChild c e) = Element.FilePath e.
Proof. apply putChild_fields. Qed.

Lemma putChild_readableWith_other (k a : string) (c e : Element.t) :
  Element.GetName c ≠ k → readableWith k a e → readableWith k a (putChild c e).
Proof.
  intros Hk (Ha & c0 & Hc0 & Hv). split; [by rewrite putChild_GetAttribute|].
  exists c0. by rewrite putChild_child_other.
Qed.

Lemma putChild_GetElementImpl_named (n : string) (c e : Element.t) :
  Element.GetName c = n →
  Element.GetElementImpl n (putChild c e) = Some c.
Proof. intros <-. apply putChild_GetElementImpl. Qed.

Lemma elements_nil_GetElementImpl (k : string) (e : Element.t) :
  Element.elements e = [] → Element.GetElementImpl k e = None.
Proof. unfold Element.GetElementImpl. by intros ->. Qed.

Lemma elements_nil_filter (f : Element.t → bool) (e : Element.t) :
  Element.elements e = [] → List.filter f (Element.elements e) = [].
Proof. by intros ->. Qed.

(** [GetElement(n)], and the pointer written back. *)
Lemma GetElement_spec (n : string) (e c : Element.t) :
  child n e = Some c →
  ∃ e1, Element.GetElement n e = Some (c, e1)
        ∧ ∀ c', Element.GetName c' = n →
                Element.storeElementImpl c' e1 = putChild c' e.
Proof.
  intros Hc. destruct (GetElement_child _ _ _ Hc) as [e1 He1].
  exists e1. split; [done|]. intros c' Hc'.
  by apply (GetElement_putChild n e c e1).
Qed.

(** The facts about an element [e], carried over to [putChild c e], which
    then takes the place of [e]. *)
Ltac other_name Hcn := rewrite Hcn; discriminate.

Ltac carry_hyp c e Hcn H :=
  lazymatch type of H with
  | readable _ e =>
      apply (putChild_readable_other _ c e) in H; [|other_name Hcn]
  | settable _ e =>
      apply (putChild_settable_other _ c e) in H; [|other_name Hcn]
  | readableWith _ _ e =>
      apply (putChild_readableWith_other _ _ c e) in H; [|other_name Hcn]
  | holds _ _ e =>
      apply (putChild_holds_other _ _ c e) in H; [|other_name Hcn]
  | holdsWith _ _ _ _ e =>
      apply (putChild_holdsWith_other _ _ _ _ c e) in H; [|other_name Hcn]
  | Element.GetName e = _ => rewrite <- (putChild_name c e) in H
  | Element.FilePath e = _ => rewrite <- (putChild_FilePath c e) in H
  | Element.FilePath e ≠ _ => rewrite <- (putChild_FilePath c e) in H
  | _ = Element.FilePath e => rewrite <- (putChild_FilePath c e) in H
  | Element.GetAttribute ?k e = _ =>
      rewrite <- (putChild_GetAttribute k c e) in H
  | attributeValue ?k e = _ =>
      rewrite <- (putChild_attributeValue k c e) in H
  | child ?k e = _ =>
      rewrite <- (putChild_child_other k c e) in H by other_name Hcn
  | Element.GetElementImpl ?k e = _ =>
      rewrite <- (putChild_GetElementImpl_other k c e) in H
        by other_name Hcn
  | List.filter _ (Element.elements e) = _ =>
      rewrite <- (putChild_filter_other _ c e) in H by other_name Hcn
  end.

Ltac carry c e Hcn :=
  let e' := fresh e in
  let He' := fresh "He" in
  remember (putChild c e) as e' eqn:He' in *;
  repeat match goal with
         | H : context [e] |- _ =>
             lazymatch H with
             | He' => fail
             | _ => first [carry_hyp c e Hcn H; rewrite <- He' in H
                          | clear H]
             end
         end;
  clear He'; try clear e.

Lemma withAttribute_settable (k v n : string) (e : Element.t) :
  settable n e → settable n (default e (Element.setAttribute k v e)).
Proof. intros (c & Hc & Hv). exists c. by rewrite withAttribute_child. Qed.

Lemma withAttribute_readable_other (k v n : string) (e : Element.t) :
  n ≠ k → readable n e → readable n (default e (Element.setAttribute k v e)).
Proof.
  intros Hn [Ha Hs]. split.
  - by rewrite withAttribute_GetAttribute_other.
  - by apply withAttribute_settable.
Qed.

Lemma withAttribute_filter (k v : string) (f : Element.t → bool)
    (e : Element.t) :
  List.filter f (Element.elements (default e (Element.setAttribute k v e)))
  = List.filter f (Element.elements e).
Proof. by rewrite withAttribute_elements. Qed.

(** The facts about an element [e], carried over to [e] with the attribute
    [k] set to [v], which then takes the place of [e]. *)
Ltac carry_attr_hyp k v e H :=
  lazymatch type of H with
  | readable _ e =>
      apply (withAttribute_readable_other k v _ e) in H; [|discriminate]
  | settable _ e => apply (withAttribute_settable k v _ e) in H
  | Element.GetName e = _ => rewrite <- (withAttribute_name k v e) in H
  | Element.FilePath e = _ => rewrite <- (withAttribute_FilePath k v e) in H
  | valueText e = _ => rewrite <- (withAttribute_valueText k v e) in H
  | is_Some (Element.GetValue e) =>
      rewrite <- (withAttribute_GetValue k v e) in H
  | Element.GetAttribute ?k' e = _ =>
      rewrite <- (withAttribute_GetAttribute_other k k' v e) in H
        by discriminate
  | child ?n e = _ => rewrite <- (withAttribute_child k v n e) in H
  | Element.GetElementImpl ?n e = _ =>
      rewrite <- (withAttribute_GetElementImpl k v n e) in H
  | List.filter ?f (Element.elements e) = _ =>
      rewrite <- (withAttribute_filter k v f e) in H
  end.

Ltac carry_attr k v e :=
  let e' := fresh e in
  let He' := fresh "He" in
  remember (default e (Element.setAttribute k v e)) as e' eqn:He' in *;
  repeat match goal with
         | H : context [e] |- _ =>
             lazymatch H with
             | He' => fail
             | _ => first [carry_attr_hyp k v e H; rewrite <- He' in H
                          | clear H]
             end
         end;
  clear He'; try clear e.

(** [GetAttribute(k)->Set(v)] on an attribute that exists. *)
Ltac write_attribute k :=
  lazymatch goal with
  | Ha : is_Some (Element.GetAttribute k ?e)
    |- context [Element.setAttribute k ?v ?e] =>
      let Hv := fresh "Hattr" in
      pose proof (withAttribute_attributeValue k v e Ha) as Hv;
      rewrite (setAttribute_default k v e Ha); clear Ha;
      cbn [mbind option_bind];
      carry_attr k v e
  end.

(** One [GetElement(n)->Set(v)] on a child that [Get<T>(n)] reads. *)
Ltac write_child n :=
  lazymatch goal with
  | Hr : readable n ?e |- _ =>
      let c := fresh "c" in
      let Hcn := fresh "Hcn" in
      let Hset := fresh "Hset" in
      let Hh := fresh "Hh" in
      let v := fresh "v" in
      evar (v : string);
      destruct (setChild_readable n v e Hr) as (c & Hcn & Hset & Hh);
      unfold Material.setChild in Hset; subst v;
      rewrite Hset; clear Hset Hr; cbn [mbind option_bind];
      carry c e Hcn
  end.

(** The same on a child that is only written. *)
Ltac write_settable n :=
  lazymatch goal with
  | Hr : settable n ?e |- _ =>
      let c := fresh "c" in
      let Hcn := fresh "Hcn" in
      let Hset := fresh "Hset" in
      let Hh := fresh "Hvalue" in
      let Hf := fresh "Hfound" in
      let v := fresh "v" in
      evar (v : string);
      destruct (setChild_settable n v e Hr) as (c & Hcn & Hset & Hh);
      unfold Material.setChild in Hset; subst v;
      rewrite Hset; clear Hset Hr; cbn [mbind option_bind];
      pose proof (putChild_GetElementImpl_named n c e Hcn) as Hf;
      carry c e Hcn
  end.

(** [GetElement(n)]: the child, and what writing it back gives. *)
Ltac get_child n Hput :=
  lazymatch goal with
  | Hc : child n ?e = Some ?c |- _ =>
      let e1 := fresh "parent" in
      let Hget := fresh "Hget" in
      let Hn := fresh "Hname" in
      pose proof (child_name n e c Hc) as Hn;
      destruct (GetElement_spec n e c Hc) as (e1 & Hget & Hput);
      rewrite Hget; clear Hget; cbn [mbind option_bind]
  end.

(** The child written back. *)
Ltac put_child n Hput :=
  lazymatch type of Hput with
  | ∀ c', _ → Element.storeElementImpl c' ?e1 = putChild c' ?e =>
      lazymatch goal with
      | |- context [Element.storeElementImpl ?c e1] =>
          let Hcn := fresh "Hcn" in
          let Hf := fresh "Hfound" in
          assert (Element.GetName c = n) as Hcn
            by (rewrite ?Set__name; assumption);
          rewrite (Hput c Hcn); clear Hput;
          pose proof (putChild_GetElementImpl_named n c e Hcn) as Hf;
          carry c e Hcn
      end
  end.

Section LinkToElement.
Context {Math : IgnitionMath} {Parts : LinkParts} {Env : ParserEnv}.

Lemma Link_ToElement_members_reads (m : Link.t) :
  linkSchema (snd (initFile "link.sdf" ParserConfig.GlobalConfig
                     Element.empty)) →
  ∃ e ie ipe ine pe,
    Link.ToElement_members m = Some e
    ∧ Element.GetName e = "link"
    ∧ attributeValue "name" e = Some (Link.name m)
    ∧ Element.GetElementImpl "pose" e = Some pe
    ∧ attributeValue "relative_to" pe = Some (Link.poseRelativeTo m)
    ∧ valueText pe = Some (toString (Link.pose m))
    ∧ Forall (fun kind =>
                List.filter (fun c => String.eqb (Element.GetName c) kind)
                  (Element.elements e) = [])
        ["visual"; "collision"; "light"; "sensor"; "particle_emitter"]
    ∧ Element.GetElementImpl "inertial" e = Some ie
    ∧ Element.GetElementImpl "pose" ie = Some ipe
    ∧ Element.GetName ipe = "pose"
    ∧ valueText ipe = Some (toString (Inertiald.Pose (Link.inertial m)))
    ∧ holds "mass"
        (toString (MassMatrix3d.Mass (Inertiald.MassMatrix (Link.inertial m))))
        ie
    ∧ Element.GetElementImpl "inertia" ie = Some ine
    ∧ holds "ixx"
        (toString (MassMatrix3d.Ixx (Inertiald.MassMatrix (Link.inertial m))))
        ine
    ∧ holds "ixy"
        (toString (MassMatrix3d.Ixy (Inertiald.MassMatrix (Link.inertial m))))
        ine
    ∧ holds "ixz"
        (toString (MassMatrix3d.Ixz (Inertiald.MassMatrix (Link.inertial m))))
        ine
    ∧ holds "iyy"
        (toString (MassMatrix3d.Iyy (Inertiald.MassMatrix (Link.inertial m))))
        ine
    ∧ holds "iyz"
        (toString (MassMatrix3d.Iyz (Inertiald.MassMatrix (Link.inertial m))))
        ine
    ∧ holds "izz"
        (toString (MassMatrix3d.Izz (Inertiald.MassMatrix (Link.inertial m))))
        ine
    ∧ holds "enable_wind" (toString (Link.enableWind m)) e.
Proof.
  intros Hschema.
  unfold Link.ToElement_members. cbv zeta.
  remember (snd (initFile "link.sdf" ParserConfig.GlobalConfig Element.empty))
    as elem eqn:Helem. clear Helem.
  destruct Hschema as (Hname & Hels & Hattr & Hwind
                       & (pose & Hpose & Hposev & Hrel)
                       & inertial & Hinertial & Hipose & Himass
                       & inertia & Hinertia & Hmoments).
  repeat match type of Hmoments with
         | Forall _ (_ :: _) =>
             apply Forall_cons in Hmoments as [? Hmoments]
         end.
  clear Hmoments.
  pose proof (elements_nil_filter
                (fun c => String.eqb (Element.GetName c) "visual") _ Hels).
  pose proof (elements_nil_filter
                (fun c => String.eqb (Element.GetName c) "collision") _ Hels).
  pose proof (elements_nil_filter
                (fun c => String.eqb (Element.GetName c) "light") _ Hels).
  pose proof (elements_nil_filter
                (fun c => String.eqb (Element.GetName c) "sensor") _ Hels).
  pose proof (elements_nil_filter
                (fun c => String.eqb (Element.GetName c) "particle_emitter")
                _ Hels).
  clear Hels.
  (* the name *)
  write_attribute "name".
  (* the pose *)
  get_child "pose" Hput.
  assert (∃ pose1,
            (if negb (String.eqb (Link.poseRelativeTo m) "")
             then Element.setAttribute "relative_to" (Link.poseRelativeTo m)
                    pose
             else Some pose) = Some pose1
            ∧ Element.GetName pose1 = "pose"
            ∧ attributeValue "relative_to" pose1
              = Some (Link.poseRelativeTo m)
            ∧ is_Some (Element.GetValue pose1))
    as (pose1 & -> & Hpose1n & Hpose1r & Hpose1v).
  { destruct (String.eqb_spec (Link.poseRelativeTo m) "") as [->|Hne];
      cbn [negb].
    - by exists pose.
    - assert (is_Some (Element.GetAttribute "relative_to" pose)) as Hsome.
      { unfold attributeValue in Hrel.
        by destruct (Element.GetAttribute "relative_to" pose). }
      rewrite (setAttribute_default _ _ _ Hsome). eexists. split; [done|].
      split; [by rewrite withAttribute_name|].
      split; [by apply withAttribute_attributeValue|].
      by rewrite withAttribute_GetValue. }
  cbn [mbind option_bind].
  pose proof (Set__valueText (toString (Link.pose m)) pose1 Hpose1v)
    as Hposetext.
  pose proof (Set__attributeValue "relative_to" (toString (Link.pose m))
                pose1) as Hposerel.
  rewrite Hpose1r in Hposerel.
  rewrite <- (Set__name (toString (Link.pose m))) in Hpose1n.
  clear Hpose1r Hpose1v.
  remember (Element.Set_ (toString (Link.pose m)) pose1) as pe eqn:Hpe.
  clear Hpe pose1.
  put_child "pose" Hput.
  (* the inertial *)
  get_child "inertial" Hput.
  write_settable "pose".
  write_child "mass".
  get_child "inertia" Hput'.
  write_child "ixx". write_child "ixy". write_child "ixz".
  write_child "iyy". write_child "iyz". write_child "izz".
  put_child "inertia" Hput'.
  put_child "inertial" Hput.
  (* the wind mode *)
  write_child "enable_wind".
  eexists _, _, _, _, _. split; [reflexivity|].
  repeat match goal with |- _ ∧ _ => split end; try eassumption.
  repeat constructor; assumption.
Qed.

Lemma bool_text (b : bool) : fromString (toString b) = Some b.
Proof. by destruct b. Qed.

(** C4 for a link whose collections round-trip. *)
Lemma Link_ToElement_Load {Cmp : ComparableParts} (m : Link.t) :
  linkSchema (snd (initFile "link.sdf" ParserConfig.GlobalConfig
                     Element.empty)) →
  textRoundTrips Pose3d →
  textRoundTrips double →
  childrenRoundTrip m →
  Link.poseRelativeToGraph m = ScopedGraph_new →
  ∃ e, Link.ToElement m = Some e
       ∧ equivalentLink (fst (Link.Load e Link.new)) m
       ∧ Link.sdf (fst (Link.Load e Link.new)) = Some e.
Proof.
  intros Hschema pose_rt double_rt Hchildren Hgraph.
  pose proof Hchildren as (Hvs & Hcs & Hls & Hss & Hes).
  pose proof (roundTrips_names _ _ Hvs) as Nvs.
  pose proof (roundTrips_names _ _ Hcs) as Ncs.
  pose proof (roundTrips_names _ _ Hls) as Nls.
  pose proof (roundTrips_names _ _ Hss) as Nss.
  pose proof (roundTrips_names _ _ Hes) as Nes.
  clear Hvs Hcs Hls Hss Hes.
  destruct (Link_ToElement_members_reads m Hschema)
    as (e0 & ie & ipe & ine & pe & Hbase & Hname & Hattr & Hpe & Hrel
        & Hptext & Hkinds & Hie & Hipe & Hipen & Hiptext & Hmass & Hine
        & Hxx & Hxy & Hxz & Hyy & Hyz & Hzz & Hwind).
  repeat match type of Hkinds with
         | Forall _ (_ :: _) => apply Forall_cons in Hkinds as [? Hkinds]
         end.
  destruct (loadPose_pose ipe (Inertiald.Pose (Link.inertial m)) Pose3d_Zero
              "" Hipen Hiptext (pose_rt _)) as [f Hip].
  unfold Link.ToElement. rewrite Hbase. cbn [mbind option_bind].
  eexists. split; [reflexivity|].
  rewrite foldl_InsertElement5.
  eapply Link_Load_reads; try exact Hchildren; try exact Hgraph;
    try exact Hipe; try exact Hine; try exact Hip.
  all: lazymatch goal with
       | |- Element.GetName _ = _ => exact Hname
       | |- loadName _ = _ =>
           unfold loadName;
           rewrite Get_setElements_app
             by (left; unfold attributeValue in Hattr;
                 by destruct (Element.GetAttribute "name" e0));
           by eapply Get_attribute
       | |- List.filter _ _ = _ =>
           rewrite filter_setElements_app by assumption;
           rewrite (filter_children _ _ _ _ _ _ _ _ _ _ _ _ _ _ _ _
                      Ncs Nls Nes Nss Nvs);
           cbn [String.eqb Ascii.eqb Bool.eqb app]; by rewrite ?app_nil_r
       | |- Element.GetElementImpl "inertial" _ = _ =>
           apply GetElementImpl_setElements_app; exact Hie
       | |- Element.Get "enable_wind" _ _ = _ =>
           rewrite Get_setElements_app
             by (right; destruct Hwind as (_ & c & -> & _); by eexists);
           eapply Get_holds; [done | exact Hwind | apply bool_text]
       | |- Element.Get _ _ _ = _ =>
           eapply Get_holds; [done | eassumption | apply double_rt]
       | |- loadPose (Element.setElements _ _) _ _ = _ =>
           rewrite loadPose_setElements_app
             by (by rewrite ?Hname || by eexists);
           eapply loadPose_reads; [by rewrite Hname | done..]
       end.
Qed.

(** C4 for the link that [Link::Load] makes of an element. *)
Lemma Link_Load_ToElement_Load {Cmp : ComparableParts} (x : Element.t) :
  linkSchema (snd (initFile "link.sdf" ParserConfig.GlobalConfig
                     Element.empty)) →
  textRoundTrips Pose3d →
  textRoundTrips double →
  loadedRoundTrip Visual "visual" →
  loadedRoundTrip Collision "collision" →
  loadedRoundTrip Light "light" →
  loadedRoundTrip Sensor "sensor" →
  loadedRoundTrip ParticleEmitter "particle_emitter" →
  ∃ e, Link.ToElement (fst (Link.Load x Link.new)) = Some e
       ∧ equivalentLink (fst (Link.Load e Link.new))
           (fst (Link.Load x Link.new))
       ∧ Link.sdf (fst (Link.Load e Link.new)) = Some e.
Proof.
  intros Hschema pose_rt double_rt Hv Hc Hl Hs He.
  destruct (Link_Load_children x Hv Hc Hl Hs He) as [Hchildren Hgraph].
  by apply Link_ToElement_Load.
Qed.
End LinkToElement.

(** ** Material: the blocks of the workflows *)

Lemma putChild_elements_new (c e : Element.t) :
  Element.HasElement (Element.GetName c) e = false →
  Element.elements (putChild c e) = Element.elements e ++ [c].
Proof. intros H. unfold putChild. by rewrite H. Qed.

Lemma HasElement_names (n : string) (e : Element.t) :
  Forall (fun c => Element.GetName c ≠ n) (Element.elements e) →
  Element.HasElement n e = false.
Proof.
  unfold Element.HasElement. induction 1 as [|c l Hc _ IH]; [done|].
  simpl. by rewrite (proj2 (String.eqb_neq _ _) Hc).
Qed.

(** [GetElement(n)]'s attribute [a] and value set. *)
Ltac write_child_with n :=
  lazymatch goal with
  | Hr : readableWith n ?a ?e |- _ =>
      let c := fresh "c" in
      let Hcn := fresh "Hcn" in
      let Hset := fresh "Hset" in
      let Hh := fresh "Hh" in
      let av := fresh "av" in
      let v := fresh "v" in
      evar (av : string); evar (v : string);
      destruct (setChildWithAttribute_readable n a av v e Hr)
        as (c & Hcn & Hset & Hh);
      unfold Material.setChildWithAttribute in Hset; subst av v;
      rewrite Hset; clear Hset Hr; cbn [mbind option_bind];
      carry c e Hcn
  end.

Ltac split_Forall H :=
  repeat match type of H with
         | Forall _ (_ :: _) => apply Forall_cons in H as [? H]
         end;
  clear H.

Section MaterialToElement.
Context {Math : IgnitionMath} {PM : PbrModel} {Env : ParserEnv}.

Lemma metalToElement_holds (workflow : PbrWorkflow.t)
    (pbrElem metal0 : Element.t) :
  child "metal" pbrElem = Some metal0 →
  workflowSchema metalMaps metal0 →
  ∃ metal,
    Material.metalToElement workflow pbrElem = Some (putChild metal pbrElem)
    ∧ Element.GetName metal = "metal"
    ∧ holdsMetal workflow metal.
Proof.
  intros Hmetal (Hmaps & Hnormal & Hlight).
  unfold metalMaps in Hmaps. split_Forall Hmaps.
  unfold Material.metalToElement, Material.setChild,
    Material.setChildWithAttribute.
  get_child "metal" Hput.
  write_child "albedo_map". write_child "roughness_map".
  write_child "roughness". write_child "metalness_map".
  write_child "metalness". write_child "ambient_occlusion_map".
  write_child_with "normal_map". write_child "emissive_map".
  write_child_with "light_map".
  match goal with
  | Hn : Element.GetName ?c = _
    |- context [Element.storeElementImpl ?c _] => rewrite (Hput c Hn)
  end.
  eexists. split; [reflexivity|]. split; [assumption|].
  unfold holdsMetal, holdsWorkflow.
  repeat match goal with |- _ ∧ _ => split end; assumption.
Qed.

Lemma specularToElement_holds (workflow : PbrWorkflow.t)
    (pbrElem specular0 : Element.t) :
  child "specular" pbrElem = Some specular0 →
  workflowSchema specularMaps specular0 →
  ∃ specular,
    Material.specularToElement workflow pbrElem
    = Some (putChild specular pbrElem)
    ∧ Element.GetName specular = "specular"
    ∧ holdsSpecular workflow specular.
Proof.
  intros Hspecular (Hmaps & Hnormal & Hlight).
  unfold specularMaps in Hmaps. split_Forall Hmaps.
  unfold Material.specularToElement, Material.setChild,
    Material.setChildWithAttribute.
  get_child "specular" Hput.
  write_child "albedo_map". write_child "specular_map".
  write_child "environment_map". write_child "ambient_occlusion_map".
  write_child "emissive_map". write_child "glossiness_map".
  write_child "glossiness".
  write_child_with "normal_map". write_child_with "light_map".
  match goal with
  | Hn : Element.GetName ?c = _
    |- context [Element.storeElementImpl ?c _] => rewrite (Hput c Hn)
  end.
  eexists. split; [reflexivity|]. split; [assumption|].
  unfold holdsSpecular, holdsWorkflow.
  repeat match goal with |- _ ∧ _ => split end; assumption.
Qed.

(** The blocks of the two workflows, on the instance of [<pbr>]. *)
Lemma pbrToElement_holds (pbr : Pbr) (pbrElem metal0 specular0 : Element.t) :
  Element.GetName pbrElem = "pbr" →
  Element.elements pbrElem = [] →
  child "metal" pbrElem = Some metal0 →
  workflowSchema metalMaps metal0 →
  child "specular" pbrElem = Some specular0 →
  workflowSchema specularMaps specular0 →
  ∃ written,
    Material.pbrToElement pbr (Some pbrElem) = Some (Some written)
    ∧ holdsPbr pbr written.
Proof.
  intros Hname Hels Hmetal Hmetals Hspecular Hspeculars.
  unfold Material.pbrToElement.
  assert (∃ pbrElem1 metal,
            match Pbr_Workflow METAL pbr with
            | Some workflow =>
                if bool_decide (PbrWorkflow.Type_ workflow = METAL)
                then pbrElem ← Some pbrElem;
                     Some <$> Material.metalToElement workflow pbrElem
                else Some (Some pbrElem)
            | None => Some (Some pbrElem)
            end = Some (Some pbrElem1)
            ∧ Element.GetName pbrElem1 = "pbr"
            ∧ Element.elements pbrElem1 = metal
            ∧ Forall (fun c => Element.GetName c ≠ "specular") metal
            ∧ holdsWorkflowOf METAL "metal" holdsMetal pbr metal
            ∧ child "specular" pbrElem1 = Some specular0)
    as (pbrElem1 & metal & -> & Hname1 & Hels1 & Hnames1 & Hholds1
        & Hspecular1).
  { unfold holdsWorkflowOf.
    destruct (Pbr_Workflow METAL pbr) as [workflow|];
      [destruct (bool_decide (PbrWorkflow.Type_ workflow = METAL))|].
    - destruct (metalToElement_holds workflow pbrElem metal0 Hmetal Hmetals)
        as (written & Hwritten & Hn & Hh).
      cbn [mbind option_bind]. rewrite Hwritten. cbn [fmap option_fmap
        option_map]. exists (putChild written pbrElem), [written].
      split; [done|]. split; [by rewrite putChild_name|]. split.
      { rewrite putChild_elements_new, Hels; [done|].
        apply HasElement_names. rewrite Hels. constructor. }
      split; [constructor; [by rewrite Hn | constructor]|].
      split; [by exists written|].
      by rewrite putChild_child_other by (by rewrite Hn).
    - exists pbrElem, []. by rewrite Hels.
    - exists pbrElem, []. by rewrite Hels. }
  cbn [mbind option_bind].
  unfold holdsPbr, holdsWorkflowOf in *.
  destruct (Pbr_Workflow SPECULAR pbr) as [workflow|];
    [destruct (bool_decide (PbrWorkflow.Type_ workflow = SPECULAR))|].
  - destruct (specularToElement_holds workflow pbrElem1 specular0 Hspecular1
                Hspeculars) as (written & Hwritten & Hn & Hh).
    cbn [mbind option_bind]. rewrite Hwritten. cbn [fmap option_fmap
      option_map]. eexists. split; [done|].
    split; [by rewrite putChild_name|].
    exists metal, [written]. split; [|split; [done | by exists written]].
    rewrite putChild_elements_new, Hels1; [done|].
    apply HasElement_names. by rewrite Hn, Hels1.
  - eexists. split; [done|]. split; [done|].
    exists metal, []. by rewrite app_nil_r.
  - eexists. split; [done|]. split; [done|].
    exists metal, []. by rewrite app_nil_r.
Qed.

(** The typed read of a child that is not written: the default of the
    schema. *)
Lemma Get_child_default (n text d : string) (e c : Element.t) :
  n ≠ "" →
  Element.GetAttribute n e = None →
  child n e = Some c →
  valueText c = Some text →
  Element.Get n d e = (text, true).
Proof.
  intros Hn Ha Hc Hv. unfold Element.Get.
  rewrite (proj2 (String.eqb_neq n "")), Ha by done.
  unfold child, Element.GetElement, Element.AddElement in Hc.
  unfold valueText in Hv.
  destruct (Element.GetElementImpl n e) as [c'|].
  - injection Hc as ->. unfold Element.getValue, Element.getParam.
    destruct (Element.GetValue c) as [p|]; [|done]. by injection Hv as ->.
  - destruct (Element.GetElementDescription n e) as [desc|]; [|done].
    injection Hc as <-. rewrite instantiate_value in Hv.
    unfold Element.getValue, Element.getParam.
    destruct (Element.GetValue desc) as [p|]; [|done]. by injection Hv as ->.
Qed.

(** [Material::ToElement], its first part, on the schema of
    [material.sdf]. *)
Lemma Material_ToElement_members_reads (m : Material.t) :
  materialSchema (snd (initFile "material.sdf" ParserConfig.GlobalConfig
                         Element.empty)) →
  ((Material.scriptName m = "" ∧ Material.scriptUri m = "")
   ∨ (Material.scriptName m ≠ "" ∧ Material.scriptUri m ≠ ""
      ∧ Material.scriptName m ≠ "__default__"
      ∧ Material.scriptUri m ≠ "__default__")) →
  Material.normalMap m ≠ "__default__" →
  ∃ e she script normalMap,
    Material.ToElement_members m = Some e
    ∧ Element.GetName e = "material"
    ∧ Element.FilePath e
      = Element.FilePath (snd (initFile "material.sdf"
                                 ParserConfig.GlobalConfig Element.empty))
    ∧ child "pbr" e
      = child "pbr" (snd (initFile "material.sdf" ParserConfig.GlobalConfig
                            Element.empty))
    ∧ Element.GetElementImpl "pbr" e = None
    ∧ Element.GetElementImpl "script" e = script
    ∧ match script with
      | Some se =>
          holds "uri" (Material.scriptUri m) se
          ∧ holds "name" (Material.scriptName m) se
          ∧ Material.scriptUri m ≠ "__default__"
          ∧ Material.scriptName m ≠ "__default__"
      | None => Material.scriptUri m = "" ∧ Material.scriptName m = ""
      end
    ∧ Element.GetElementImpl "shader" e = Some she
    ∧ attributeValue "type" she
      = Some (match Material.shader m with
              | PIXEL => "pixel"
              | VERTEX => "vertex"
              | NORMAL_MAP_OBJECTSPACE => "normal_map_object_space"
              | NORMAL_MAP_TANGENTSPACE => "normal_map_tangent_space"
              end)
    ∧ Element.Get "normal_map" "" she = (normalMap, true)
    ∧ (if String.eqb normalMap "__default__" then "" else normalMap)
      = Material.normalMap m
    ∧ holds "ambient" (toString (Material.ambient m)) e
    ∧ holds "diffuse" (toString (Material.diffuse m)) e
    ∧ holds "specular" (toString (Material.specular m)) e
    ∧ holds "emissive" (toString (Material.emissive m)) e
    ∧ holds "render_order" (toString (Material.renderOrder m)) e
    ∧ holds "lighting" (toString (Material.lighting m)) e
    ∧ holds "double_sided" (toString (Material.doubleSided m)) e.
Proof.
  intros Hschema Hscript HnormalMap.
  unfold Material.ToElement_members, Material.setChild. cbv zeta.
  remember (snd (initFile "material.sdf" ParserConfig.GlobalConfig
                   Element.empty)) as elem eqn:Helem.
  clear Helem.
  destruct Hschema as (Hname & Hels & Hvalues
                       & (script & Hscriptc & Huri & Hsname)
                       & (shader & normalMap0 & Hshader & Htype & Hnoattr
                          & HnormalMap0 & Hdefault)
                       & pbr & _ & _ & Hpbr & _).
  split_Forall Hvalues.
  pose proof (elements_nil_GetElementImpl "pbr" _ Hels) as Hnopbr.
  pose proof (elements_nil_GetElementImpl "script" _ Hels) as Hnoscript.
  remember (Element.FilePath elem) as path eqn:Hpath in |- *.
  remember (child "pbr" elem) as pbrChild eqn:Hpbr' in |- *.
  symmetry in Hpath, Hpbr'. clear Hels Hpbr.
  write_child "ambient". write_child "diffuse". write_child "specular".
  write_child "emissive". write_child "render_order".
  write_child "lighting". write_child "double_sided".
  (* the script *)
  destruct Hscript as [[Hsn Hsu] | (Hsn & Hsu & Hsnd & Hsud)].
  - rewrite Hsn, Hsu. cbn [String.eqb negb andb mbind option_bind].
    clear Hscriptc.
    (* the shader *)
    get_child "shader" Hput.
    write_attribute "type".
    destruct (String.eqb_spec (Material.normalMap m) "") as [Hnm|Hnm];
      cbn [negb mbind option_bind].
    + assert (∃ text, Element.Get "normal_map" "" shader0 = (text, true)
                      ∧ (if String.eqb text "__default__" then "" else text)
                        = Material.normalMap m) as (text & Hget & Htext).
      { destruct Hdefault as [Hd|Hd]; eexists;
          (split; [by eapply Get_child_default | by rewrite Hnm]). }
      put_child "shader" Hput.
      eexists _, _, _, _. split; [reflexivity|].
      repeat match goal with |- _ ∧ _ => split end; try eassumption.
      done.
    + assert (readable "normal_map" shader0) as Hreadable.
      { split; [done|]. exists normalMap0. split; [done|].
        unfold valueText in Hdefault.
        destruct (Element.GetValue normalMap0); [done|].
        by destruct Hdefault. }
      write_child "normal_map".
      put_child "shader" Hput.
      eexists _, _, _, _. split; [reflexivity|].
      repeat match goal with |- _ ∧ _ => split end; try eassumption.
      * done.
      * by apply (Get_holds (T:=string) "normal_map" ""
                    (Material.normalMap m)).
      * by rewrite (proj2 (String.eqb_neq _ _) HnormalMap).
  - rewrite (proj2 (String.eqb_neq _ _) Hsn),
      (proj2 (String.eqb_neq _ _) Hsu).
    cbn [negb andb].
    get_child "script" Hput.
    write_child "uri". write_child "name".
    put_child "script" Hput.
    (* the shader *)
    get_child "shader" Hput.
    write_attribute "type".
    destruct (String.eqb_spec (Material.normalMap m) "") as [Hnm|Hnm];
      cbn [negb mbind option_bind].
    + assert (∃ text, Element.Get "normal_map" "" shader0 = (text, true)
                      ∧ (if String.eqb text "__default__" then "" else text)
                        = Material.normalMap m) as (text & Hget & Htext).
      { destruct Hdefault as [Hd|Hd]; eexists;
          (split; [by eapply Get_child_default | by rewrite Hnm]). }
      put_child "shader" Hput.
      eexists _, _, _, _. split; [reflexivity|].
      repeat match goal with |- _ ∧ _ => split end; try eassumption.
      cbn beta iota.
      repeat match goal with |- _ ∧ _ => split end; assumption.
    + assert (readable "normal_map" shader0) as Hreadable.
      { split; [done|]. exists normalMap0. split; [done|].
        unfold valueText in Hdefault.
        destruct (Element.GetValue normalMap0); [done|].
        by destruct Hdefault. }
      write_child "normal_map".
      put_child "shader" Hput.
      eexists _, _, _, _. split; [reflexivity|].
      repeat match goal with |- _ ∧ _ => split end; try eassumption.
      * cbn beta iota.
        repeat match goal with |- _ ∧ _ => split end; assumption.
      * by apply (Get_holds (T:=string) "normal_map" ""
                    (Material.normalMap m)).
      * by rewrite (proj2 (String.eqb_neq _ _) HnormalMap).
Qed.

(** C4 for a material whose script is whole and whose PBR material was
    loaded. *)
Lemma Material_ToElement_Load (m : Material.t) :
  materialSchema (snd (initFile "material.sdf" ParserConfig.GlobalConfig
                         Element.empty)) →
  textRoundTrips Color →
  textRoundTrips float →
  pbrLoadReads →
  ((Material.scriptName m = "" ∧ Material.scriptUri m = "")
   ∨ (Material.scriptName m ≠ "" ∧ Material.scriptUri m ≠ ""
      ∧ Material.scriptName m ≠ "__default__"
      ∧ Material.scriptUri m ≠ "__default__")) →
  Material.normalMap m ≠ "__default__" →
  match Material.pbr m with
  | Some pbr => ∃ pbrElem, pbr = fst (Pbr_Load pbrElem)
  | None => True
  end →
  ∃ e, Material.ToElement m = Some e
       ∧ equivalentMaterial (fst (Material.Load e Material.new)) m
       ∧ Material.sdf (fst (Material.Load e Material.new)) = Some e
       ∧ Material.filePath (fst (Material.Load e Material.new))
         = Element.FilePath
             (snd (initFile "material.sdf" ParserConfig.GlobalConfig
                     Element.empty)).
Proof.
  intros Hschema color_rt float_rt Hreads Hscript HnormalMap Hloaded.
  destruct (Material_ToElement_members_reads m Hschema Hscript HnormalMap)
    as (e & she & script & normalMap & Hbase & Hname & Hpath & Hpbrc
        & Hnopbr & Hscripte & Hscriptm & Hshader & Htype & Hnm & Hnm'
        & Ham & Hdi & Hsp & Hem & Hro & Hli & Hds).
  destruct Hschema as (_ & _ & _ & _ & _ & pbr0 & metal0 & specular0
                       & Hpbr0 & Hels0 & Hmetal0 & Hmetals & Hspecular0
                       & Hspeculars).
  rewrite Hpbr0 in Hpbrc. rewrite <- Hpath.
  unfold Material.ToElement. rewrite Hbase. cbn [mbind option_bind].
  clear Hbase Hpath Hpbr0.
  assert (∃ e' pbrElem,
            match Material.pbr m with
            | Some pbr =>
                match Element.GetElement "pbr" e with
                | Some (pbrElem, elem) =>
                    pbrElem ← Material.pbrToElement pbr (Some pbrElem);
                    Some (match pbrElem with
                          | Some pbrElem =>
                              Element.storeElementImpl pbrElem elem
                          | None => elem
                          end)
                | None => _ ← Material.pbrToElement pbr None; Some e
                end
            | None => Some e
            end = Some e'
            ∧ Element.FilePath e' = Element.FilePath e
            ∧ Element.GetName e' = "material"
            ∧ Element.GetElementImpl "script" e' = script
            ∧ Element.GetElementImpl "shader" e' = Some she
            ∧ holds "ambient" (toString (Material.ambient m)) e'
            ∧ holds "diffuse" (toString (Material.diffuse m)) e'
            ∧ holds "specular" (toString (Material.specular m)) e'
            ∧ holds "emissive" (toString (Material.emissive m)) e'
            ∧ holds "render_order" (toString (Material.renderOrder m)) e'
            ∧ holds "lighting" (toString (Material.lighting m)) e'
            ∧ holds "double_sided" (toString (Material.doubleSided m)) e'
            ∧ Element.GetElementImpl "pbr" e' = pbrElem
            ∧ match pbrElem with
              | Some pe => ∃ p, Material.pbr m = Some p
                                ∧ samePbr (fst (Pbr_Load pe)) p
              | None => Material.pbr m = None
              end)
    as (e' & pbrElem & -> & <- & Hname' & Hscript' & Hshader' & Ham' & Hdi'
        & Hsp' & Hem' & Hro' & Hli' & Hds' & Hpbr' & Hpbrm).
  { destruct (Material.pbr m) as [pbr|].
    - destruct Hloaded as [loaded ->].
      pose proof (child_name _ _ _ Hpbrc) as Hpbrn.
      destruct (pbrToElement_holds (fst (Pbr_Load loaded)) pbr0 metal0
                  specular0 Hpbrn Hels0 Hmetal0 Hmetals Hspecular0
                  Hspeculars) as (written & Hwritten & Hholds).
      pose proof Hholds as [Hwrittenn _].
      pose proof (eq_refl (Element.FilePath e)) as Hpath.
      revert Hpath. generalize (Element.FilePath e) at 1 3. intros path Hpath.
      symmetry in Hpath.
      get_child "pbr" Hput. rewrite Hwritten. cbn [mbind option_bind].
      rewrite (Hput written Hwrittenn).
      pose proof (putChild_GetElementImpl_named "pbr" written e Hwrittenn)
        as Hfound.
      carry written e Hwrittenn.
      eexists _, _. split; [reflexivity|].
      repeat match goal with |- _ ∧ _ => split end; try eassumption.
      eexists. split; [done|]. by apply Hreads.
    - eexists _, _. split; [reflexivity|].
      repeat match goal with |- _ ∧ _ => split end; try eassumption; done. }
  eexists. split; [reflexivity|].
  eapply (Material_Load_reads e' she m script pbrElem normalMap);
    try eassumption.
  - destruct script as [se|]; [|done].
    destruct Hscriptm as (Huri & Hsname & Hud & Hnd).
    exists true, true.
    split; [by apply (Get_holds (T:=string) "uri" "" (Material.scriptUri m))|].
    split; [by apply (Get_holds (T:=string) "name" ""
                        (Material.scriptName m))|].
    split; by apply String.eqb_neq.
  - by eapply (Get_attribute (T:=string)).
  - by eapply Get_holds.
  - by eapply Get_holds.
  - by eapply Get_holds.
  - by eapply Get_holds.
  - by eapply Get_holds.
  - eapply Get_holds; [done | eassumption | apply bool_text].
  - eapply Get_holds; [done | eassumption | apply bool_text].
Qed.

(** C4 for the material that [Material::Load] makes of an element without
    errors. *)
Lemma Material_Load_ToElement_Load (x : Element.t) (m : Material.t) :
  materialSchema (snd (initFile "material.sdf" ParserConfig.GlobalConfig
                         Element.empty)) →
  textRoundTrips Color →
  textRoundTrips float →
  pbrLoadReads →
  Material.Load x Material.new = (m, []) →
  ∃ e, Material.ToElement m = Some e
       ∧ equivalentMaterial (fst (Material.Load e Material.new)) m
       ∧ Material.sdf (fst (Material.Load e Material.new)) = Some e
       ∧ Material.filePath (fst (Material.Load e Material.new))
         = Element.FilePath
             (snd (initFile "material.sdf" ParserConfig.GlobalConfig
                     Element.empty)).
Proof.
  intros Hschema color_rt float_rt Hreads Hload.
  destruct (Material_Load_valid x m Hload) as (Hscript & HnormalMap & Hpbr).
  by apply Material_ToElement_Load.
Qed.
End MaterialToElement.

(** ** The round trip *)

(** The instance of the development: its schemas have what [ToElement]
    goes through, its link parts round-trip, and its loader of PBR
    materials reads what [Material::ToElement] writes. *)
Lemma linkD_schema : linkSchema Demo.linkD.
Proof.
  unfold linkSchema, readable, settable.
  repeat first [split | eexists | reflexivity | constructor].
Qed.

Lemma materialD_schema : materialSchema Demo.materialD.
Proof.
  unfold materialSchema, workflowSchema, metalMaps, specularMaps, readable,
    readableWith, settable.
  split; [reflexivity|]. split; [reflexivity|].
  split; [repeat first [split | eexists | reflexivity | constructor]|].
  split; [repeat first [split | eexists | reflexivity | constructor]|].
  split.
  { eexists _, _. split; [reflexivity|]. split; [by eexists|].
    split; [reflexivity|]. split; [reflexivity|]. by right. }
  eexists _, _, _.
  repeat first [split | eexists | reflexivity | constructor].
Qed.

Lemma namedEntity_round_trip (kind : string) :
  loadedRoundTrip (H:=Demo.namedEntity kind) (H0:=Demo.namedComparable kind)
    string kind.
Proof. intros elem. split; reflexivity. Qed.

Lemma textOf_holds (n text : string) (e : Element.t) :
  holds n text e → Demo.textOf n e = text.
Proof. intros (_ & c & Hc & Hv). unfold Demo.textOf. by rewrite Hc; simpl; rewrite Hv. Qed.

Lemma textOf_holdsWith (n a atext text : string) (e : Element.t) :
  holdsWith n a atext text e →
  Demo.textOf n e = text ∧ Demo.attributeOf n a e = atext.
Proof.
  intros (_ & c & Hc & Hv & Ha). unfold Demo.textOf, Demo.attributeOf.
  rewrite Hc. simpl. by rewrite Hv, Ha.
Qed.

Lemma readWorkflow_metal (loaded elem : Element.t) :
  holdsMetal (Demo.readWorkflow METAL loaded) elem →
  Demo.readWorkflow METAL elem = Demo.readWorkflow METAL loaded.
Proof.
  intros ((Halbedo & Hocclusion & Hemissive & Hnormal & Hlight)
          & Hroughnessmap & Hroughness & Hmetalnessmap & Hmetalness).
  apply textOf_holds in Halbedo, Hocclusion, Hemissive, Hroughnessmap,
    Hroughness, Hmetalnessmap, Hmetalness.
  apply textOf_holdsWith in Hnormal as [Hnormal Hspace],
    Hlight as [Hlight Hset].
  simpl in *. unfold Demo.readWorkflow. simpl.
  rewrite Halbedo, Hocclusion, Hemissive, Hroughnessmap, Hroughness,
    Hmetalnessmap, Hmetalness, Hnormal, Hlight, Hset, Hspace.
  f_equal.
  by destruct (String.eqb (Demo.attributeOf "normal_map" "type" loaded)
                 "object").
Qed.

Lemma readWorkflow_specular (loaded elem : Element.t) :
  holdsSpecular (Demo.readWorkflow SPECULAR loaded) elem →
  Demo.readWorkflow SPECULAR elem = Demo.readWorkflow SPECULAR loaded.
Proof.
  intros ((Halbedo & Hocclusion & Hemissive & Hnormal & Hlight)
          & Hspecularmap & Henvironment & Hglossinessmap & Hglossiness).
  apply textOf_holds in Halbedo, Hocclusion, Hemissive, Hspecularmap,
    Henvironment, Hglossinessmap, Hglossiness.
  apply textOf_holdsWith in Hnormal as [Hnormal Hspace],
    Hlight as [Hlight Hset].
  simpl in *. unfold Demo.readWorkflow. simpl.
  rewrite Halbedo, Hocclusion, Hemissive, Hspecularmap, Henvironment,
    Hglossinessmap, Hglossiness, Hnormal, Hlight, Hset, Hspace.
  f_equal.
  by destruct (String.eqb (Demo.attributeOf "normal_map" "type" loaded)
                 "object").
Qed.

Lemma pbrReader_reads : pbrLoadReads (PM:=Demo.pbrReader).
Proof.
  intros loaded elem (Hname & metal & specular & Hels & Hmetal & Hspecular).
  unfold holdsWorkflowOf in Hmetal, Hspecular. simpl in Hmetal, Hspecular.
  assert (Demo.readWorkflow METAL <$> Element.GetElementImpl "metal" elem
          = Demo.readWorkflow METAL <$> Element.GetElementImpl "metal" loaded
          ∧ Demo.readWorkflow SPECULAR
              <$> Element.GetElementImpl "specular" elem
            = Demo.readWorkflow SPECULAR
                <$> Element.GetElementImpl "specular" loaded) as [Hm Hs].
  { unfold Element.GetElementImpl at 1 3. rewrite Hels.
    destruct (Element.GetElementImpl "metal" loaded) as [lm|];
      destruct (Element.GetElementImpl "specular" loaded) as [ls|];
      simpl in Hmetal, Hspecular.
    - destruct Hmetal as (m & -> & Hmn & Hmh).
      destruct Hspecular as (s & -> & Hsn & Hsh).
      simpl. rewrite Hmn, Hsn. simpl.
      by rewrite (readWorkflow_metal _ _ Hmh),
        (readWorkflow_specular _ _ Hsh).
    - destruct Hmetal as (m & -> & Hmn & Hmh). subst specular.
      simpl. rewrite Hmn. simpl.
      by rewrite (readWorkflow_metal _ _ Hmh).
    - destruct Hspecular as (s & -> & Hsn & Hsh). subst metal.
      simpl. rewrite Hsn. simpl.
      by rewrite (readWorkflow_specular _ _ Hsh).
    - by subst. }
  intros type. destruct type; simpl; by rewrite ?Hm, ?Hs.
Qed.

Section RoundTrip.
Context {Math : IgnitionMath} {Parts : LinkParts} {Cmp : ComparableParts}
  {PM : PbrModel} {Env : ParserEnv}.

End RoundTrip.



(** * Further properties of the code *)

(** ** Link.cc: the look-ups *)

Lemma find_eqb_name_Some {A} (f : A → string) (n : string) (l : list A)
    (x : A) :
  List.find (fun y => String.eqb (f y) n) l = Some x → f x = n ∧ x ∈ l.
Proof.
  intros H. apply find_some in H as [Hin H]. split.
  - by apply String.eqb_eq.
  - by apply list_elem_of_In.
Qed.

Lemma existsb_is_Some_find {A} (p : A → bool) (l : list A) :
  existsb p l = true ↔ is_Some (List.find p l).
Proof.
  induction l as [|x l IH]; simpl.
  - split; [done | by intros [? ?]].
  - destruct (p x); simpl; [|exact IH]. split; [by eexists | done].
Qed.

Lemma lookup_lt_None {A} (l : list A) (i : nat) :
  (if Nat.ltb i (length l) then l !! i else None) = None ↔ length l ≤ i.
Proof.
  destruct (Nat.ltb_spec i (length l)) as [Hlt | Hge].
  - rewrite lookup_ge_None. lia.
  - split; [done | done].
Qed.

Lemma find_snoc_fresh {A} (f : A → string) (l : list A) (x : A) :
  existsb (fun y => String.eqb (f y) (f x)) l = false →
  List.find (fun y => String.eqb (f y) (f x)) (l ++ [x]) = Some x.
Proof.
  induction l as [|y l IH]; simpl.
  - by rewrite String.eqb_refl.
  - destruct (String.eqb (f y) (f x)); [done|]. exact IH.
Qed.

Lemma lookup_snoc_length {A} (l : list A) (x : A) :
  (if Nat.ltb (length l) (length (l ++ [x])) then (l ++ [x]) !! length l
   else None) = Some x.
Proof.
  rewrite length_app. simpl.
  destruct (Nat.ltb_spec (length l) (length l + 1)) as [_|?]; [|lia].
  by rewrite list_lookup_middle.
Qed.

Section LinkLookup.
Context {Math : IgnitionMath} {Parts : LinkParts}.

Lemma Link_LightNameExists_false (this : Link.t) (n : string) :
  Link.LightNameExists n this = false →
  existsb (fun l => String.eqb (Name l) n) (Link.lights this) = false.
Proof.
  unfold Link.LightNameExists, Link.LightByName. intros H.
  apply not_true_is_false. intros He. apply existsb_is_Some_find in He.
  destruct He as [x Hx]. by rewrite Hx in H.
Qed.

(** X1.  [Link::VisualByIndex] and its four siblings return null exactly
    when the index is not below the count of the collection, and else the
    child at that position. *)
Theorem Link_ByIndex_bounds (this : Link.t) (i : nat) :
  (Link.VisualByIndex i this = None ↔ Link.VisualCount this ≤ i)
  ∧ (Link.CollisionByIndex i this = None ↔ Link.CollisionCount this ≤ i)
  ∧ (Link.LightByIndex i this = None ↔ Link.LightCount this ≤ i)
  ∧ (Link.SensorByIndex i this = None ↔ Link.SensorCount this ≤ i)
  ∧ (Link.ParticleEmitterByIndex i this = None
     ↔ Link.ParticleEmitterCount this ≤ i)
  ∧ (∀ v, Link.VisualByIndex i this = Some v → Link.visuals this !! i = Some v)
  ∧ (∀ c, Link.CollisionByIndex i this = Some c
          → Link.collisions this !! i = Some c)
  ∧ (∀ l, Link.LightByIndex i this = Some l → Link.lights this !! i = Some l)
  ∧ (∀ s, Link.SensorByIndex i this = Some s
          → Link.sensors this !! i = Some s)
  ∧ (∀ e, Link.ParticleEmitterByIndex i this = Some e
          → Link.emitters this !! i = Some e).
Proof.
  unfold Link.VisualByIndex, Link.CollisionByIndex, Link.LightByIndex,
    Link.SensorByIndex, Link.ParticleEmitterByIndex, Link.VisualCount,
    Link.CollisionCount, Link.LightCount, Link.SensorCount,
    Link.ParticleEmitterCount.
  repeat split; try apply lookup_lt_None.
  all: intros x; by case_match.
Qed.

(** X2.  The look-ups by name agree with the [NameExists] tests: a name
    exists in a collection exactly when the look-up by that name returns a
    child, and the child returned bears the name and belongs to the
    collection. *)
Theorem Link_ByName_agrees_with_NameExists (this : Link.t) (n : string) :
  (Link.VisualNameExists n this = true ↔ is_Some (Link.VisualByName n this))
  ∧ (Link.CollisionNameExists n this = true
     ↔ is_Some (Link.CollisionByName n this))
  ∧ (Link.LightNameExists n this = true ↔ is_Some (Link.LightByName n this))
  ∧ (Link.SensorNameExists n this = true
     ↔ is_Some (Link.SensorByName n this))
  ∧ (Link.ParticleEmitterNameExists n this = true
     ↔ is_Some (Link.ParticleEmitterByName n this))
  ∧ (∀ v, Link.VisualByName n this = Some v
          → Name v = n ∧ v ∈ Link.visuals this)
  ∧ (∀ c, Link.CollisionByName n this = Some c
          → Name c = n ∧ c ∈ Link.collisions this)
  ∧ (∀ l, Link.LightByName n this = Some l
          → Name l = n ∧ l ∈ Link.lights this)
  ∧ (∀ s, Link.SensorByName n this = Some s
          → Name s = n ∧ s ∈ Link.sensors this)
  ∧ (∀ e, Link.ParticleEmitterByName n this = Some e
          → Name e = n ∧ e ∈ Link.emitters this).
Proof.
  split; [apply existsb_is_Some_find|].
  split; [apply existsb_is_Some_find|].
  split.
  { unfold Link.LightNameExists. destruct (Link.LightByName n this).
    - split; [by eexists | done].
    - split; [done | by intros [? ?]]. }
  split; [apply existsb_is_Some_find|].
  split; [apply existsb_is_Some_find|].
  repeat (split; [intros x Hx; by apply (find_eqb_name_Some Name) in Hx|]).
  intros x Hx. by apply (find_eqb_name_Some Name) in Hx.
Qed.

(** X3.  A child that [Add] accepted is the one that the look-up by its
    name returns, it sits at the index that was the count before, and the
    count has grown by one. *)
Theorem Link_Add_then_lookup (this this' : Link.t) :
  (∀ v, Link.AddVisual v this = (true, this') →
        Link.VisualByName (Name v) this' = Some v
        ∧ Link.VisualByIndex (Link.VisualCount this) this' = Some v
        ∧ Link.VisualCount this' = S (Link.VisualCount this))
  ∧ (∀ c, Link.AddCollision c this = (true, this') →
          Link.CollisionByName (Name c) this' = Some c
          ∧ Link.CollisionByIndex (Link.CollisionCount this) this' = Some c
          ∧ Link.CollisionCount this' = S (Link.CollisionCount this))
  ∧ (∀ l, Link.AddLight l this = (true, this') →
          Link.LightByName (Name l) this' = Some l
          ∧ Link.LightByIndex (Link.LightCount this) this' = Some l
          ∧ Link.LightCount this' = S (Link.LightCount this))
  ∧ (∀ s, Link.AddSensor s this = (true, this') →
          Link.SensorByName (Name s) this' = Some s
          ∧ Link.SensorByIndex (Link.SensorCount this) this' = Some s
          ∧ Link.SensorCount this' = S (Link.SensorCount this))
  ∧ (∀ e, Link.AddParticleEmitter e this = (true, this') →
          Link.ParticleEmitterByName (Name e) this' = Some e
          ∧ Link.ParticleEmitterByIndex (Link.ParticleEmitterCount this)
              this' = Some e
          ∧ Link.ParticleEmitterCount this'
            = S (Link.ParticleEmitterCount this)).
Proof.
  unfold Link.AddVisual, Link.AddCollision, Link.AddLight, Link.AddSensor,
    Link.AddParticleEmitter.
  pose proof (Link_LightNameExists_false this) as Hlight.
  repeat split.
  all: match goal with
       | H : (if ?b then _ else _) = _ |- _ =>
           destruct b eqn:Hexists; [done|]; injection H as <-
       end.
  all: try (by apply find_snoc_fresh).
  all: try apply lookup_snoc_length.
  all: try (unfold Link.VisualCount, Link.CollisionCount, Link.LightCount,
              Link.SensorCount, Link.ParticleEmitterCount; simpl;
            rewrite length_app; simpl; lia).
  apply find_snoc_fresh. by apply Hlight.
Qed.
End LinkLookup.

Lemma Link_Add_then_lookup_witness :
  Link.VisualByName (Math:=Demo.textMath) "v"
    (snd (Link.AddVisual (Demo.visual "v") Link.new))
  = Some (Demo.visual "v")
  ∧ Link.VisualCount (Math:=Demo.textMath)
      (snd (Link.AddVisual (Demo.visual "v") Link.new)) = 1.
Proof.
  destruct (Link_Add_then_lookup (Math:=Demo.textMath) (Parts:=Demo.parts)
              Link.new (snd (Link.AddVisual (Demo.visual "v") Link.new)))
    as [Hvisual _].
  destruct (Hvisual (Demo.visual "v") eq_refl) as (Hname & _ & Hcount).
  split; [exact Hname | exact Hcount].
Defined.

(** ** Link.cc and Material.cc: [Load] on the wrong element *)

Section WrongElement.
Context {Math : IgnitionMath} {Parts : LinkParts} {PM : PbrModel}.

(** X4.  [Link::Load] on an element that is not a [<link>] reports one
    ELEMENT_INCORRECT_TYPE error and reads nothing: the link keeps every
    member but the element it points to, which is the one given. *)
Theorem Link_Load_wrong_element (_sdf : Element.t) (this : Link.t) :
  Element.GetName _sdf ≠ "link" →
  ∃ err : Error.t,
    Link.Load _sdf this
    = (Link.mk (Link.name this) (Link.pose this) (Link.poseRelativeTo this)
         (Link.visuals this) (Link.lights this) (Link.collisions this)
         (Link.sensors this) (Link.emitters this) (Link.inertial this)
         (Some _sdf) (Link.enableWind this) (Link.poseRelativeToGraph this),
       [err])
    ∧ Error.Code err = ELEMENT_INCORRECT_TYPE.
Proof.
  intros Hname. apply String.eqb_neq in Hname. unfold Link.Load.
  rewrite Hname. simpl. eexists. split; reflexivity.
Qed.

(** X5.  [Material::Load] on an element that is not a [<material>]
    reports one ELEMENT_INCORRECT_TYPE error; it has already taken the
    element and its file path, and keeps every other member. *)
Theorem Material_Load_wrong_element (_sdf : Element.t) (this : Material.t) :
  Element.GetName _sdf ≠ "material" →
  ∃ err : Error.t,
    Material.Load _sdf this
    = (Material.mk (Material.scriptUri this) (Material.scriptName this)
         (Material.shader this) (Material.normalMap this)
         (Material.lighting this) (Material.doubleSided this)
         (Material.ambient this) (Material.diffuse this)
         (Material.specular this) (Material.emissive this)
         (Material.renderOrder this) (Material.pbr this) (Some _sdf)
         (Element.FilePath _sdf),
       [err])
    ∧ Error.Code err = ELEMENT_INCORRECT_TYPE.
Proof.
  intros Hname. apply String.eqb_neq in Hname. unfold Material.Load.
  rewrite Hname. simpl. eexists. split; reflexivity.
Qed.

(** X6.  On a [<material>], every error that [Material::Load] reports is
    an ELEMENT_INVALID or an ELEMENT_MISSING of the material itself, or
    comes from the loader of its [<pbr>] child. *)
Theorem Material_Load_error_codes (_sdf : Element.t) (this : Material.t) :
  Element.GetName _sdf = "material" →
  Forall (materialErrorOrigin _sdf) (snd (Material.Load _sdf this)).
Proof.
  intros Hname. unfold Material.Load. rewrite Hname.
  change (negb (String.eqb "material" "material")) with false. cbv iota.
  assert (Hinvalid : ∀ m, materialErrorOrigin _sdf
                            (Error.make ELEMENT_INVALID m)) by (by left).
  assert (Hmissing : ∀ m, materialErrorOrigin _sdf
                            (Error.make ELEMENT_MISSING m))
    by (right; by left).
  assert (Hif : ∀ (b : bool) (l l' : Errors),
            Forall (materialErrorOrigin _sdf) l →
            Forall (materialErrorOrigin _sdf) l' →
            Forall (materialErrorOrigin _sdf) (if b then l else l'))
    by (by intros []).
  match goal with
  | |- Forall _ (snd (match ?x with pair _ _ => _ end)) =>
      destruct x as [[scriptUri scriptName] errors1] eqn:Hscript
  end.
  assert (H1 : Forall (materialErrorOrigin _sdf) errors1).
  { destruct (Element.GetElementImpl "script" _sdf) as [scriptElem|].
    - cbv zeta in Hscript. injection Hscript as _ _ <-.
      repeat first [ apply Hif | apply Forall_app_2 | apply Forall_nil_2
                   | apply Forall_cons_2 | apply Hinvalid | apply Hmissing ].
    - injection Hscript as _ _ <-. apply Forall_nil_2. }
  clear Hscript.
  match goal with
  | |- Forall _ (snd (match ?x with pair _ _ => _ end)) =>
      destruct x as [[shader normalMap] errors2] eqn:Hshader
  end.
  assert (H2 : Forall (materialErrorOrigin _sdf) errors2).
  { destruct (Element.GetElementImpl "shader" _sdf) as [shaderElem|].
    - cbv zeta in Hshader.
      match type of Hshader with
      | (match ?p with pair _ _ => _ end) = _ =>
          destruct p as [shader' errors'] eqn:Htype
      end.
      injection Hshader as _ _ <-.
      assert (Forall (materialErrorOrigin _sdf) errors').
      { repeat match type of Htype with
               | (if ?b then _ else _) = _ => destruct b
               end; injection Htype as _ <-; try done.
        apply Forall_app_2; [done|]. by apply Forall_singleton. }
      repeat first [ apply Hif | apply Forall_app_2 | assumption
                   | apply Forall_nil_2 | apply Forall_cons_2
                   | apply Hinvalid | apply Hmissing ].
    - by injection Hshader as _ _ <-. }
  clear Hshader. cbv zeta.
  match goal with
  | |- Forall _ (snd (match ?x with pair _ _ => _ end)) =>
      destruct x as [pbr errors3] eqn:Hpbr
  end.
  cbn [snd].
  destruct (Element.GetElementImpl "pbr" _sdf) as [pbrElem|] eqn:HpbrElem.
  - destruct (Pbr_Load pbrElem) as [loaded pbrErrors] eqn:Hload.
    injection Hpbr as _ <-. apply Forall_app_2; [done|].
    apply Forall_forall. intros err Herr. right. right. exists pbrElem.
    split; [done|]. by rewrite Hload.
  - by injection Hpbr as _ <-.
Qed.
End WrongElement.

(** ** parser.cc: file names, the pre-check and [readDoc] *)

Lemma extension_app (p s ext : string) :
  extension s = Some ext → extension (p +:+ s) = Some ext.
Proof.
  intros Hs. induction p as [|c p IH]; [done|]. simpl. by rewrite IH.
Qed.

Lemma extension_suffix (f ext : string) :
  extension f = Some ext → ∃ p, f = p +:+ ext.
Proof.
  revert ext. induction f as [|c f IH]; intros ext; simpl; [done|].
  destruct (extension f) as [ext'|].
  - intros [= <-]. destruct (IH ext' eq_refl) as [p ->].
    by exists (String c p).
  - destruct (Ascii.eqb c "."); [|done]. intros [= <-]. by exists "".
Qed.

(** X7.  [isSdfFile] holds exactly for the file names that end in [.sdf]
    or in [.world], in lower case. *)
Theorem isSdfFile_suffix (_fileName : string) :
  isSdfFile _fileName = true
  ↔ ∃ p, _fileName = p +:+ ".sdf" ∨ _fileName = p +:+ ".world".
Proof.
  unfold isSdfFile. split.
  - destruct (extension _fileName) as [ext|] eqn:Hext; [|done].
    destruct (extension_suffix _ _ Hext) as [p ->].
    intros [->%String.eqb_eq | ->%String.eqb_eq]%orb_true_iff;
      exists p; [by left | by right].
  - intros [p [-> | ->]].
    + by rewrite (extension_app p ".sdf" ".sdf").
    + by rewrite (extension_app p ".world" ".world").
Qed.

Section PreCheck.
Context {Env : ParserEnv}.

(** A pre-check that passes leaves the errors as they are. *)
Lemma checkXmlFromRoot_true (_xmlRoot : option XMLElement.t)
    (_source : string) (_errors : Errors) :
  fst (checkXmlFromRoot _xmlRoot _source _errors) = true →
  snd (checkXmlFromRoot _xmlRoot _source _errors) = _errors.
Proof.
  unfold checkXmlFromRoot. repeat case_match; simpl; done.
Qed.

(** X8.  [checkXmlFromRoot] fails exactly when the first [<pose>] of the
    first [<model>] under the root has a non-empty [relative_to]; it then
    appends one ATTRIBUTE_INVALID error, and otherwise leaves the errors as
    they are. *)
Theorem checkXmlFromRoot_outcome (_xmlRoot : option XMLElement.t)
    (_source : string) (_errors : Errors) :
  (fst (checkXmlFromRoot _xmlRoot _source _errors) = false
   ↔ ∃ root model pose relativeTo,
       _xmlRoot = Some root
       ∧ XMLElement.FirstChildElement "model" root = Some model
       ∧ XMLElement.FirstChildElement "pose" model = Some pose
       ∧ XMLElement.Attribute "relative_to" pose = Some relativeTo
       ∧ relativeTo ≠ "")
  ∧ (fst (checkXmlFromRoot _xmlRoot _source _errors) = true
     → snd (checkXmlFromRoot _xmlRoot _source _errors) = _errors)
  ∧ (fst (checkXmlFromRoot _xmlRoot _source _errors) = false
     → ∃ err, snd (checkXmlFromRoot _xmlRoot _source _errors)
              = _errors ++ [err]
              ∧ Error.Code err = ATTRIBUTE_INVALID).
Proof.
  unfold checkXmlFromRoot.
  assert (Hpass : ∀ P : Prop, ¬ P →
            ((true = false ↔ P) ∧ (true = true → _errors = _errors)
             ∧ (true = false →
                ∃ err, _errors = _errors ++ [err]
                       ∧ Error.Code err = ATTRIBUTE_INVALID))).
  { intros P HP. split; [split; [done | by intros ?%HP] | by split]. }
  destruct _xmlRoot as [root|];
    [|apply Hpass; by intros (? & ? & ? & ? & ? & _)].
  destruct (XMLElement.FirstChildElement "model" root) as [model|] eqn:Hm;
    [|apply Hpass; intros (? & ? & ? & ? & ? & ? & _); by simplify_eq].
  destruct (XMLElement.FirstChildElement "pose" model) as [pose|] eqn:Hp;
    [|apply Hpass; intros (? & ? & ? & ? & ? & ? & ? & _); by simplify_eq].
  destruct (XMLElement.Attribute "relative_to" pose) as [rel|] eqn:Hr;
    [|apply Hpass; intros (? & ? & ? & ? & ? & ? & ? & ? & _);
      by simplify_eq].
  destruct (String.eqb_spec rel "") as [-> | Hrel]; cbn [negb fst snd].
  - apply Hpass. intros (? & ? & ? & ? & ? & ? & ? & ? & ?).
    by simplify_eq.
  - split; [split; [intros _; by eexists _, _, _, _ | done]|].
    split; [done|]. intros _. eexists. split; reflexivity.
Qed.
End PreCheck.

Section ReadDocOutcomes.
Context {Math : IgnitionMath} {RL : RootLoader} {Env : ParserEnv}.

(** X9.  A document without an [<sdf>] element that has a [version]
    attribute is refused without a word: [readDoc] returns false and
    records no error. *)
Theorem readDoc_fails_silently (_xmlDoc : option XMLDocument.t)
    (_sdf : option SDF.t) (_source : string) (_convert : bool)
    (_config : ParserConfig.t) (_errors : Errors) :
  (xmlDoc ← _xmlDoc;
   sdfNode ← XMLDocument.FirstChildElement "sdf" xmlDoc;
   XMLElement.Attribute "version" sdfNode) = None →
  ∃ sdf', readDoc _xmlDoc _sdf _source _convert _config _errors
          = Some (false, sdf', _errors).
Proof.
  unfold readDoc. destruct _xmlDoc as [doc|]; simpl; [|by eexists].
  destruct (XMLDocument.FirstChildElement "sdf" doc) as [node|]; simpl;
    [|by eexists].
  intros ->. destruct _sdf as [sdf|]; [|by eexists].
  destruct (SDF.Root sdf); by eexists.
Qed.

(** X10.  What [readDoc] accepts: when it returns true, the pre-check
    passed on the element that was read, and the root element holds no
    name with [::] on a validated element if its original version is 1.8
    or later. *)
Theorem readDoc_success_conditions (xmlDoc : XMLDocument.t) (sdf sdf' : SDF.t)
    (_source : string) (_convert : bool) (_config : ParserConfig.t)
    (_errors errors' : Errors) :
  readDoc (Some xmlDoc) (Some sdf) _source _convert _config _errors
  = Some (true, Some sdf', errors') →
  ∃ (sdfNode : XMLElement.t) (version : string) (root0 root' : Element.t),
    XMLDocument.FirstChildElement "sdf" xmlDoc = Some sdfNode
    ∧ XMLElement.Attribute "version" sdfNode = Some version
    ∧ SDF.Root (readDoc_sdf version _source sdf) = Some root0
    ∧ SDF.Root sdf' = Some root'
    ∧ fst (checkXmlFromRoot
             (readDoc_elemXml version xmlDoc _convert
                (readDoc_root sdfNode version root0))
             _source _errors) = true
    ∧ readXml
        (readDoc_elemXml version xmlDoc _convert
           (readDoc_root sdfNode version root0))
        (readDoc_root sdfNode version root0) _config _source _errors
      = Some (true, root', errors')
    ∧ (SemanticVersion_ge (Element.OriginalVersion root') 1 8 = true
       → ¬ ValidatedDoubleColonName root').
Proof.
  unfold readDoc.
  destruct (XMLDocument.FirstChildElement "sdf" xmlDoc) as [sdfNode|]
    eqn:Hnode; [|done].
  destruct (SDF.Root sdf) as [r0|]; [|done].
  destruct (XMLElement.Attribute "version" sdfNode) as [version|]
    eqn:Hversion; [|done].
  destruct (SDF.Root (readDoc_sdf version _source sdf)) as [root0|] eqn:Hroot;
    [|done].
  cbn [mbind option_bind].
  pose proof (checkXmlFromRoot_true
                (readDoc_elemXml version xmlDoc _convert
                   (readDoc_root sdfNode version root0)) _source _errors)
    as Hsame.
  destruct (checkXmlFromRoot _ _source _errors) as [[] errors1] eqn:Hcheck;
    cbn [negb]; [|done].
  simpl in Hsame. rewrite (Hsame eq_refl).
  destruct (readXml _ _ _config _source _errors) as [[[[] root'] errors2]|]
    eqn:Hread; cbn [mbind option_bind negb]; [|done|done].
  destruct (SemanticVersion_ge (Element.OriginalVersion root') 1 8 &&
            negb (recursiveSiblingNoDoubleColonInNames root')) eqn:Hcolon;
    [done|].
  intros Heq. simplify_eq. exists sdfNode, version, root0, root'.
  rewrite Hcheck.
  repeat split; try done.
  intros Hge Hval. apply recursiveSiblingNoDoubleColonInNames_false in Hval.
  by rewrite Hge, Hval in Hcolon.
Qed.
End ReadDocOutcomes.

(** ** parser.cc: the check of the delimiter [::] *)

Lemma ValidatedDoubleColonName_any (e : Element.t) :
  ValidatedDoubleColonName e → anyDoubleColonName e = true.
Proof.
  induction 1 as [e _ Hattr Hname | e c _ Hin _ IH];
    destruct e; cbn [anyDoubleColonName] in *.
  - by rewrite Hattr, Hname.
  - apply orb_true_iff. right. apply existsb_exists. exists c.
    split; [by apply list_elem_of_In | done].
Qed.

(** X11.  [recursiveSiblingNoDoubleColonInNames] raises no false alarm: it
    fails only on a tree that holds a name with [::]; and it does not look
    into a [<plugin>] or an element with a namespaced name. *)
Theorem double_colon_check_sound (e : Element.t) :
  (recursiveSiblingNoDoubleColonInNames e = false
   → anyDoubleColonName e = true)
  ∧ (shouldValidateElement e = false
     → recursiveSiblingNoDoubleColonInNames e = true).
Proof.
  split.
  - intros H. apply ValidatedDoubleColonName_any.
    by apply recursiveSiblingNoDoubleColonInNames_false.
  - intros H. rewrite recursiveSiblingNoDoubleColonInNames_unfold.
    by rewrite H.
Qed.

(** ** parser.cc: the attributes of an element *)

Lemma forEach_outcome {A S : Type} (P : S → Prop)
    (body : A → S → option (bool * S)) (l : list A) (s : S) :
  P s →
  (∀ a s0 s1, P s0 → body a s0 = Some (true, s1) → P s1) →
  match forEach body l s with
  | Some (true, s') => P s'
  | Some (false, s') => ∃ a s0, a ∈ l ∧ P s0 ∧ body a s0 = Some (false, s')
  | None => ∃ a s0, a ∈ l ∧ P s0 ∧ body a s0 = None
  end.
Proof.
  intros Hs Hstep. revert s Hs.
  induction l as [|a l IH]; intros s Hs; simpl; [done|].
  destruct (body a s) as [[[] s1]|] eqn:Hbody.
  - specialize (IH s1 (Hstep _ _ _ Hs Hbody)).
    destruct (forEach body l s1) as [[[] s']|]; [done| |].
    + destruct IH as (a' & s0 & Hin & H0 & Hb). exists a', s0.
      split; [by right | done].
    + destruct IH as (a' & s0 & Hin & H0 & Hb). exists a', s0.
      split; [by right | done].
  - exists a, s. split; [by left | done].
  - exists a, s. split; [by left | done].
Qed.

Section ReadAttributes.
Context {Env : ParserEnv}.

Lemma readAttribute_step (_xml : XMLElement.t) (_config : ParserConfig.t)
    (_errorSourcePath : string) (attribute : XMLAttribute.t)
    (_sdf : Element.t) (_errors : Errors) :
  ∃ (ok : bool) (sdf' : Element.t) (new : Errors),
    readAttribute _xml _config _errorSourcePath attribute (_sdf, _errors)
    = Some (ok, (sdf', _errors ++ new))
    ∧ (ok = false
       → ∃ err, last (_errors ++ new) = Some err
                ∧ Error.Code err = ATTRIBUTE_INVALID).
Proof.
  unfold readAttribute.
  destruct (contains ":" (XMLAttribute.Name attribute)).
  { eexists true, _, []. by rewrite app_nil_r. }
  destruct (Element.GetAttribute (XMLAttribute.Name attribute) _sdf)
    as [p|].
  - destruct (existsb _ frameReferenceAttributes
              && negb (isValidFrameReference
                         (XMLAttribute.Value attribute)));
      destruct (Param_SetFromString (XMLAttribute.Value attribute) p).
    + eexists true, _, [_]. by split.
    + rewrite <- (assoc_L (++) _errors [_] [_]).
      eexists false, _, [_; _]. split; [done|].
      intros _. eexists. by rewrite last_app.
    + eexists true, _, []. by rewrite app_nil_r.
    + eexists false, _, [_]. split; [done|].
      intros _. eexists. by rewrite last_snoc.
  - destruct (ParserConfig.WarningsPolicy _config); simpl.
    + eexists true, _, [_]. by split.
    + eexists true, _, []. by rewrite app_nil_r.
    + eexists true, _, []. by rewrite app_nil_r.
Qed.

(** X12.  [readAttributes] keeps the errors it was given and only adds to
    them; when it returns true every required attribute of the element is
    set, and when it returns false the last error is an ATTRIBUTE_INVALID
    or an ATTRIBUTE_MISSING. *)
Theorem readAttributes_outcome (_xml : XMLElement.t) (_sdf : Element.t)
    (_config : ParserConfig.t) (_errorSourcePath : string)
    (_errors : Errors) :
  ∃ (ok : bool) (sdf' : Element.t) (new : Errors),
    readAttributes _xml _sdf _config _errorSourcePath _errors
    = (ok, sdf', _errors ++ new)
    ∧ (ok = true
       → ∀ p, p ∈ Element.attributes sdf' → Param.GetRequired p = true
              → Param.GetSet p = true)
    ∧ (ok = false
       → ∃ err, last (_errors ++ new) = Some err
                ∧ (Error.Code err = ATTRIBUTE_INVALID
                   ∨ Error.Code err = ATTRIBUTE_MISSING)).
Proof.
  unfold readAttributes.
  pose proof (forEach_outcome
                (fun st : Element.t * Errors =>
                   ∃ new, snd st = _errors ++ new)
                (readAttribute _xml _config _errorSourcePath)
                (XMLElement.attributes _xml) (_sdf, _errors)) as Hloop.
  assert (Hkeep : ∀ a (s0 s1 : Element.t * Errors),
            (∃ new, s0.2 = _errors ++ new) →
            readAttribute _xml _config _errorSourcePath a s0
            = Some (true, s1) →
            ∃ new, s1.2 = _errors ++ new).
  { intros a [s0 e0] [s1 e1] [new0 H0] Hstep. simpl in H0. subst e0.
    destruct (readAttribute_step _xml _config _errorSourcePath a s0
                (_errors ++ new0)) as (ok & s' & new1 & Heq & _).
    rewrite Heq in Hstep. injection Hstep as _ _ <-.
    exists (new0 ++ new1). simpl. by rewrite app_assoc. }
  destruct (forEach _ _ _) as [[[] [sdf1 errors1]]|].
  - destruct Hloop as [new Hnew].
    { exists []. by rewrite app_nil_r. }
    { exact Hkeep. }
    simpl in Hnew. subst errors1.
    destruct (List.find _ (Element.attributes sdf1)) as [p|] eqn:Hfind.
    + eexists false, sdf1, (new ++ [_]). rewrite app_assoc.
      split; [done|]. split; [done|]. intros _. eexists.
      by rewrite last_snoc; split; [|right].
    + exists true, sdf1, new. split; [done|]. split; [|done].
      intros _ p Hp Hreq. apply list_elem_of_In in Hp.
      pose proof (find_none _ _ Hfind p Hp) as Hnone.
      simpl in Hnone. rewrite Hreq in Hnone. simpl in Hnone.
      by apply negb_false_iff.
  - destruct Hloop as (a & [s0 e0] & _ & [new0 H0] & Hstep).
    { exists []. by rewrite app_nil_r. }
    { exact Hkeep. }
    simpl in H0. subst e0.
    destruct (readAttribute_step _xml _config _errorSourcePath a s0
                (_errors ++ new0)) as (ok & s' & new1 & Heq & Hlast).
    rewrite Heq in Hstep. injection Hstep as -> <- <-.
    exists false, s', (new0 ++ new1). rewrite app_assoc.
    split; [done|]. split; [done|]. intros _.
    destruct (Hlast eq_refl) as (err & Herr & Hcode).
    exists err. split; [done | by left].
  - destruct Hloop as (a & [s0 e0] & _ & _ & Hstep).
    { exists []. by rewrite app_nil_r. }
    { exact Hkeep. }
    destruct (readAttribute_step _xml _config _errorSourcePath a s0 e0)
      as (ok & s' & new1 & Heq & _).
    by rewrite Heq in Hstep.
Qed.
End ReadAttributes.

(** ** parser.cc: the top-level element of an included file *)

Lemma findChild_Some (n : string) (l : list Element.t) :
  existsb (fun c => String.eqb (Element.GetName c) n) l = true →
  ∃ i top, Element.findChild n l = Some (i, top)
           ∧ l !! i = Some top ∧ Element.GetName top = n
           ∧ ∀ j c, j < i → l !! j = Some c → Element.GetName c ≠ n.
Proof.
  induction l as [|c l IH]; simpl; [done|].
  destruct (String.eqb (Element.GetName c) n) eqn:E; simpl.
  - intros _. exists 0, c. apply String.eqb_eq in E.
    repeat split; [done|]. intros j c' Hj. lia.
  - intros H. destruct (IH H) as (i & top & -> & Hi & Hn & Hbefore).
    exists (S i), top. simpl. repeat split; [done..|].
    intros [|j] c' Hj; simpl.
    + intros [= <-]. by apply String.eqb_neq.
    + apply Hbefore. lia.
Qed.

(** X13.  Of the entities at the top level of an included file,
    [findTopLevelElem] picks the first child of the most preferred kind
    that is present (model, then actor, then light), and records one
    ELEMENT_INCORRECT_TYPE error for every other kind that is present too;
    with none of the three it yields no element and no error. *)
Theorem findTopLevelElem_preference (includeRoot : Element.t)
    (filename : string) (_errors : Errors) :
  match presentKinds includeRoot with
  | [] => findTopLevelElem includeRoot filename _errors = (None, _errors)
  | kind :: others =>
      ∃ i top errs,
        findTopLevelElem includeRoot filename _errors
        = (Some (i, top), _errors ++ errs)
        ∧ Element.elements includeRoot !! i = Some top
        ∧ Element.GetName top = kind
        ∧ (∀ j c, j < i → Element.elements includeRoot !! j = Some c
                  → Element.GetName c ≠ kind)
        ∧ length errs = length others
        ∧ Forall (fun err => Error.Code err = ELEMENT_INCORRECT_TYPE) errs
  end.
Proof.
  unfold presentKinds, findTopLevelElem, Element.HasElement. simpl.
  pose proof (findChild_Some "model" (Element.elements includeRoot)) as Hm.
  pose proof (findChild_Some "actor" (Element.elements includeRoot)) as Ha.
  pose proof (findChild_Some "light" (Element.elements includeRoot)) as Hl.
  destruct (existsb (λ c, (Element.GetName c =? "model")%string) _);
    [destruct (Hm eq_refl) as (im & tm & Hfm & Him & Hnm & Hbm);
     rewrite ?Hfm|];
    (destruct (existsb (λ c, (Element.GetName c =? "actor")%string) _);
     [destruct (Ha eq_refl) as (ia & ta & Hfa & Hia & Hna & Hba);
      rewrite ?Hfa|]);
    (destruct (existsb (λ c, (Element.GetName c =? "light")%string) _);
     [destruct (Hl eq_refl) as (il & tl & Hfl & Hil & Hnl & Hbl);
      rewrite ?Hfl|]);
    simpl; try done.
  all: try (eexists _, _, []; rewrite app_nil_r; by repeat split).
  all: try (eexists _, _, [_]; by repeat split; [..| repeat constructor]).
  all: try (rewrite <- (assoc_L (++) _errors [_] [_]);
            eexists _, _, [_; _]; by repeat split; [..| repeat constructor]).
Qed.

(** ** parser.cc: the children that the schema does not describe *)

Lemma XMLElement_children_ind (P : XMLElement.t → Prop) :
  (∀ x, Forall P (XMLElement.children x) → P x) → ∀ x, P x.
Proof.
  intros H. fix IH 1. intros [v a t c l]. apply H. simpl.
  induction c as [|x c IHc]; constructor; [apply IH | exact IHc].
Qed.

Lemma filter_all {A} (f : A → bool) (l : list A) :
  (∀ x, f x = true) → List.filter f l = l.
Proof.
  intros Hf. induction l as [|a l IH]; simpl; [done|].
  by rewrite Hf, IH.
Qed.

Section CopyChildren.
Context {Env : ParserEnv}.

(** The attributes given to a copied element leave the rest of it alone. *)
Lemma copied_attributes_fields (attrs : list XMLAttribute.t)
    (element : Element.t) :
  let element' :=
    foldl (fun element attribute =>
             let element :=
               Element.AddAttribute (XMLAttribute.Name attribute)
                 "string" "" true element in
             default element
               (attributeSetFromString (XMLAttribute.Name attribute)
                  (XMLAttribute.Value attribute) element))
      element attrs in
  Element.GetName element' = Element.GetName element
  ∧ Element.GetValue element' = Element.GetValue element
  ∧ Element.elements element' = Element.elements element
  ∧ Element.elementDescriptions element'
    = Element.elementDescriptions element.
Proof.
  revert element. induction attrs as [|a attrs IH]; intros element; simpl;
    [done|].
  match goal with |- context [foldl _ ?e attrs] => specialize (IH e) end.
  simpl in IH. destruct IH as (-> & -> & -> & ->).
  unfold attributeSetFromString.
  by destruct (Element.GetAttribute _ _).
Qed.

Lemma mirrors_unfold (x : XMLElement.t) (e : Element.t) :
  mirrors x e = true ↔
  Element.GetName e = XMLElement.Value x
  ∧ Param.GetAsString <$> Element.GetValue e = XMLElement.GetText x
  ∧ Forall2 (fun x' e' => mirrors x' e' = true)
      (XMLElement.children x) (Element.elements e).
Proof.
  destruct x as [v a t c l]. simpl.
  rewrite !andb_true_iff, String.eqb_eq, bool_decide_eq_true.
  assert (∀ es,
    (fix all2 (xs : list XMLElement.t) (es : list Element.t) : bool :=
       match xs, es with
       | [], [] => true
       | x' :: xs', e' :: es' => mirrors x' e' && all2 xs' es'
       | _, _ => false
       end) c es = true
    ↔ Forall2 (fun x' e' => mirrors x' e' = true) c es) as Hall.
  { induction c as [|x c IHc]; intros [|e' es].
    - split; [constructor | done].
    - split; [done | inversion 1].
    - split; [done | inversion 1].
    - rewrite andb_true_iff, IHc. split.
      + intros [? ?]. by constructor.
      + inversion 1; by subst. }
  rewrite Hall. tauto.
Qed.

Lemma copyChildren_unfold (_sdf : Element.t) (_xml : XMLElement.t)
    (_onlyUnknown : bool) :
  copyChildren _sdf _xml _onlyUnknown
  = (fix loop (l : list XMLElement.t) (_sdf : Element.t)
       : option Element.t :=
     match l with
     | [] => Some _sdf
     | elemXml :: l' =>
         let elemName := XMLElement.Value elemXml in
         _sdf ←
           (if Element.HasElementDescription elemName _sdf then
              if negb _onlyUnknown then
                '(element, _sdf) ← Element.AddElement elemName _sdf;
                element ←
                  foldl (fun (oe : option Element.t) attribute =>
                           element ← oe;
                           attributeSetFromString
                             (XMLAttribute.Name attribute)
                             (XMLAttribute.Value attribute) element)
                    (Some element) (XMLElement.attributes elemXml);
                element ←
                  match XMLElement.GetText elemXml with
                  | Some value => valueSetFromString value element
                  | None => Some element
                  end;
                element ← copyChildren element elemXml _onlyUnknown;
                Some (Element.storeLastElement element _sdf)
              else Some _sdf
            else
              let element := Element.SetParent _sdf Element.empty in
              let element := Element.SetName elemName element in
              let element :=
                foldl (fun element attribute =>
                         let element :=
                           Element.AddAttribute (XMLAttribute.Name attribute)
                             "string" "" true element in
                         default element
                           (attributeSetFromString
                              (XMLAttribute.Name attribute)
                              (XMLAttribute.Value attribute) element))
                  element (XMLElement.attributes elemXml) in
              let element :=
                match XMLElement.GetText elemXml with
                | Some text => Element.AddValue "string" text true element
                | None => element
                end in
              element ← copyChildren element elemXml _onlyUnknown;
              Some (Element.InsertElement element _sdf));
         loop l' _sdf
     end) (XMLElement.children _xml) _sdf.
Proof. by destruct _xml. Qed.

(** X14.  With [_onlyUnknown] set, [copyChildren] always returns; it leaves
    the children that the schema of the element describes to the reader and
    appends, after the children the element already has, one copy of every
    other XML child, in document order.  A copy mirrors its XML element:
    the same name, the text as its value, and the whole subtree below. *)
Theorem copyChildren_onlyUnknown (_xml : XMLElement.t) (_sdf : Element.t) :
  ∃ new : list Element.t,
    copyChildren _sdf _xml true
    = Some (Element.setElements (Element.elements _sdf ++ new) _sdf)
    ∧ Forall2 (fun x e => mirrors x e = true)
        (List.filter
           (fun x => negb (Element.HasElementDescription
                             (XMLElement.Value x) _sdf))
           (XMLElement.children _xml))
        new.
Proof.
  revert _sdf. induction _xml as [x IH] using XMLElement_children_ind.
  intros _sdf. rewrite copyChildren_unfold.
  unfold Element.HasElementDescription at 2.
  remember (Element.elementDescriptions _sdf) as ds eqn:Hds.
  revert _sdf Hds.
  induction IH as [|elemXml l Hx _ IHl]; intros _sdf Hds.
  - exists []. split; [|constructor]. rewrite app_nil_r. by destruct _sdf.
  - cbn [List.filter]. cbn beta iota fix zeta delta [mbind option_bind].
    destruct (Element.HasElementDescription (XMLElement.Value elemXml) _sdf)
      eqn:Hknown;
      unfold Element.HasElementDescription in Hknown;
      rewrite <- Hds in Hknown; rewrite Hknown; cbn [negb].
    + destruct (IHl _sdf Hds) as (new & Hloop & Hnew).
      exists new. split; [exact Hloop | exact Hnew].
    + set (element0 :=
             Element.SetName (XMLElement.Value elemXml)
               (Element.SetParent _sdf Element.empty)).
      pose proof (copied_attributes_fields (XMLElement.attributes elemXml)
                    element0) as Hfields.
      cbv zeta in Hfields.
      set (element1 := foldl _ element0 _) in *.
      destruct Hfields as (Hname & Hvalue & Helements & Hdescs).
      set (element2 :=
             match XMLElement.GetText elemXml with
             | Some text => Element.AddValue "string" text true element1
             | None => element1
             end).
      assert (Hname2 : Element.GetName element2 = XMLElement.Value elemXml).
      { subst element2. by destruct (XMLElement.GetText elemXml). }
      assert (Hvalue2 : Param.GetAsString <$> Element.GetValue element2
                        = XMLElement.GetText elemXml).
      { subst element2. destruct (XMLElement.GetText elemXml); [done|].
        rewrite Hvalue. subst element0. unfold Element.SetParent. simpl.
        by repeat case_match. }
      assert (Helements2 : Element.elements element2 = []).
      { subst element2.
        destruct (XMLElement.GetText elemXml); simpl; rewrite Helements;
          subst element0; unfold Element.SetParent; simpl;
          by repeat case_match. }
      assert (Hdescs2 : Element.elementDescriptions element2 = []).
      { subst element2.
        destruct (XMLElement.GetText elemXml); simpl; rewrite Hdescs;
          subst element0; unfold Element.SetParent; simpl;
          by repeat case_match. }
      destruct (Hx element2) as (sub & Hcopy & Hsub).
      rewrite Hcopy. cbn [mbind option_bind].
      set (element3 :=
             Element.setElements (Element.elements element2 ++ sub)
               element2) in *.
      destruct (IHl (Element.InsertElement element3 _sdf)) as
        (new & Hloop & Hnew); [done|].
      exists (element3 :: new). split.
      * etrans; [exact Hloop|]. f_equal. unfold Element.InsertElement.
        simpl. by rewrite <- app_assoc.
      * constructor; [|exact Hnew].
        apply mirrors_unfold. subst element3. simpl.
        split; [done|]. split; [done|].
        rewrite Helements2. simpl.
        rewrite filter_all in Hsub; [exact Hsub|].
        intros x'. unfold Element.HasElementDescription.
        by rewrite Hdescs2.
Qed.
End CopyChildren.

(** ** parser.cc: what an include leaves of its parent *)

Lemma setElements_app_app (l1 l2 : list Element.t) (p : Element.t) :
  Element.setElements
    (Element.elements (Element.setElements (Element.elements p ++ l1) p)
     ++ l2)
    (Element.setElements (Element.elements p ++ l1) p)
  = Element.setElements (Element.elements p ++ l1 ++ l2) p.
Proof. simpl. by rewrite <- app_assoc. Qed.

Lemma mergeChildren_appends (proxy : string) (elems : list Element.t)
    (p p' : Element.t) :
  mergeChildren proxy elems p = Some p' →
  ∃ added, p' = Element.setElements (Element.elements p ++ added) p.
Proof.
  revert p. induction elems as [|e elems IH]; intros p; simpl.
  - intros [= <-]. exists []. rewrite app_nil_r. by destruct p.
  - destruct (rewriteMergedChild proxy e) as [e'|]; simpl; [|done].
    intros H. apply IH in H as [added ->].
    destruct (isHoisted e').
    + exists (e' :: added). unfold Element.InsertElement.
      rewrite setElements_app_app. done.
    + by exists added.
Qed.

Section IncludeKeepsParent.
Context {Math : IgnitionMath} {RL : RootLoader}.

(** X15.  Whatever [insertIncludedElement] does, plain or merging, it only
    appends: the parent keeps its name, attributes and value, the children
    it had stay first and in their order, and the errors already recorded
    stay in front of the new ones. *)
Theorem insertIncludedElement_keeps_parent (_includeSDF : SDF.t)
    (_sourceLoc : SourceLocation.t) (_merge : bool) (_parent : Element.t)
    (_config : ParserConfig.t) (_errors : Errors)
    (parent' : Element.t) (errors' : Errors) :
  insertIncludedElement _includeSDF _sourceLoc _merge _parent _config _errors
  = Some (parent', errors') →
  ∃ (added : list Element.t) (new : Errors),
    parent'
    = Element.setElements (Element.elements _parent ++ added) _parent
    ∧ errors' = _errors ++ new.
Proof.
  assert (Hsame : _parent
                  = Element.setElements (Element.elements _parent ++ [])
                      _parent).
  { rewrite app_nil_r. by destruct _parent. }
  unfold insertIncludedElement.
  destruct (SDF.Root _includeSDF) as [rootElem|];
    [|intros [= <- <-]; by eexists [], [_]].
  destruct (Element.GetFirstElement rootElem) as [firstElem|];
    [|intros [= <- <-]; by eexists [], [_]].
  destruct _merge; simpl negb; cbv iota;
    [|intros [= <- <-]; exists [firstElem], []; by rewrite app_nil_r].
  destruct (negb (String.eqb (Element.GetName firstElem) "model"));
    [intros [= <- <-]; by eexists [], [_]|].
  destruct (negb (String.eqb (Element.GetName _parent) "model"));
    [intros [= <- <-]; by eexists [], [_]|].
  destruct (Root_Load _includeSDF _config) as [includeDOMerrors [model|]];
    [|intros [= <- <-]; eexists [], (includeDOMerrors ++ [_]);
      by rewrite (assoc_L (++))].
  destruct (Element.AddElement "frame" _parent) as [[frame0 parent1]|]
    eqn:Hadd; simpl; [|done].
  unfold Element.AddElement in Hadd.
  destruct (Element.GetElementDescription "frame" _parent) as [d|];
    simpl in Hadd; [|done].
  injection Hadd as <- <-.
  destruct (Element.setAttribute "name" _ _) as [frame1|]; simpl; [|done].
  destruct (Element.setAttribute "attached_to" _ frame1) as [frame2|];
    simpl; [|done].
  match goal with
  | |- (let '(_, _) := ?x in _) = _ → _ =>
      destruct x as [errors1 modelPose] eqn:Hpose
  end.
  assert (Herrors1 : ∃ new, errors1 = _errors ++ new).
  { destruct (negb (String.eqb (Model.PlacementFrameName model) "")).
    - destruct (Model.SemanticPose_Resolve model (Model.RawPose model))
        as [resolveErrors X_RM].
      injection Hpose as <- _. exists (includeDOMerrors ++ resolveErrors).
      by rewrite !(assoc_L (++)).
    - injection Hpose as <- _. by exists includeDOMerrors. }
  destruct Herrors1 as [new ->].
  destruct (Element.AddElement "pose" frame2) as [[pose0 frame3]|];
    simpl; [|done].
  destruct (Element.setAttribute "relative_to" _ _) as [pose1|];
    simpl; [|done].
  destruct (mergeChildren _ _ _) as [merged|] eqn:Hmerge; simpl; [|done].
  intros [= <- <-].
  apply mergeChildren_appends in Hmerge as [added ->].
  unfold Element.storeLastElement at 1 2, Element.InsertElement. simpl.
  rewrite removelast_last, <- app_assoc.
  by eexists _, new.
Qed.
End IncludeKeepsParent.

Lemma insertIncludedElement_keeps_parent_witness :
  ∃ (added : list Element.t) (new : Errors),
    Demo.mergedP
    = Element.setElements (Element.elements Demo.parentP ++ added)
        Demo.parentP
    ∧ [] = [] ++ new.
Proof.
  apply (insertIncludedElement_keeps_parent (Math:=Demo.textMath)
           (RL:=Demo.loader) Demo.sdfM Demo.here true Demo.parentP
           ParserConfig.GlobalConfig [] Demo.mergedP []).
  vm_compute. reflexivity.
Defined.

(** ** parser.cc: the file that an include names *)

Section ResolveUri.
Context {Env : ParserEnv}.

(** X16.  When [resolveFileNameFromUri] succeeds, the file name it yields is
    not empty and no error is added: it is what [findFile] found for the
    text of [<uri>], or the model file of that directory.  When it fails,
    exactly one error is added, a URI_LOOKUP when there is a [<uri>] and an
    ATTRIBUTE_MISSING when there is none. *)
Theorem resolveFileNameFromUri_outcome (_includeXml : XMLElement.t)
    (_config : ParserConfig.t) (_includeXmlPath _errorSourcePath : string)
    (_errors : Errors) (ok : bool) (_fileName : string) (errors' : Errors) :
  resolveFileNameFromUri _includeXml _config _includeXmlPath
    _errorSourcePath _errors
  = Some (ok, _fileName, errors') →
  if ok then
    _fileName ≠ "" ∧ errors' = _errors
    ∧ ∃ uriElement uri,
        XMLElement.FirstChildElement "uri" _includeXml = Some uriElement
        ∧ XMLElement.GetText uriElement = Some uri
        ∧ _fileName
          = (if filesystem_is_directory (findFile uri true true _config)
             then getModelFilePath (findFile uri true true _config)
             else findFile uri true true _config)
  else
    ∃ err, errors' = _errors ++ [err]
           ∧ Error.Code err
             = match XMLElement.FirstChildElement "uri" _includeXml with
               | Some _ => URI_LOOKUP
               | None => ATTRIBUTE_MISSING
               end.
Proof.
  unfold resolveFileNameFromUri.
  destruct (XMLElement.FirstChildElement "uri" _includeXml)
    as [uriElement|]; [|intros [= <- <- <-]; by eexists].
  destruct (XMLElement.GetText uriElement) as [uri|] eqn:Htext; simpl;
    [|done].
  destruct (String.eqb (findFile uri true true _config) "") eqn:Hfound;
    [intros [= <- <- <-]; by eexists|].
  apply String.eqb_neq in Hfound.
  destruct (filesystem_is_directory _) eqn:Hdir.
  - destruct (String.eqb (getModelFilePath _) "") eqn:Hmodel;
      [intros [= <- <- <-]; by eexists|].
    apply String.eqb_neq in Hmodel.
    intros [= <- <- <-]. split; [done|]. split; [done|].
    exists uriElement, uri. by rewrite Hdir.
  - intros [= <- <- <-]. split; [done|]. split; [done|].
    exists uriElement, uri. by rewrite Hdir.
Qed.
End ResolveUri.

Lemma resolveFileNameFromUri_outcome_witness :
  "m.sdf" ≠ "" ∧ @nil Error.t = []
  ∧ ∃ uriElement uri,
      XMLElement.FirstChildElement "uri"
        (Demo.xml "include" [] [Demo.xtext "uri" "m.sdf"])
      = Some uriElement
      ∧ XMLElement.GetText uriElement = Some uri
      ∧ "m.sdf"
        = (if filesystem_is_directory (ParserEnv:=Demo.env)
                (findFile (ParserEnv:=Demo.env) uri true true
                   ParserConfig.GlobalConfig)
           then getModelFilePath (ParserEnv:=Demo.env)
                  (findFile (ParserEnv:=Demo.env) uri true true
                     ParserConfig.GlobalConfig)
           else findFile (ParserEnv:=Demo.env) uri true true
                  ParserConfig.GlobalConfig).
Proof.
  apply (resolveFileNameFromUri_outcome (Env:=Demo.env)
           (Demo.xml "include" [] [Demo.xtext "uri" "m.sdf"])
           ParserConfig.GlobalConfig "/sdf/include" "p.sdf" [] true "m.sdf"
           []).
  vm_compute. reflexivity.
Defined.

(** ** parser.cc: the version of a model that the parser can read *)

Lemma foldl_option_None {A S} (body : A → S → option S) (l : list A) :
  foldl (fun st a => st ← st; body a st) None l = None.
Proof. by induction l. Qed.

(** An invariant of a loop that may stop on a null pointer: it holds of
    the items seen so far and the state. *)
Lemma foldl_option_invariant {A S} (P : list A → S → Prop)
    (body : A → S → option S) (l : list A) (s0 s' : S) :
  P [] s0 →
  (∀ seen a s s1, P seen s → body a s = Some s1 → P (seen ++ [a]) s1) →
  foldl (fun st a => st ← st; body a st) (Some s0) l = Some s' →
  P l s'.
Proof.
  intros H0 Hstep.
  assert (Hgen : ∀ seen s,
            P seen s →
            foldl (fun st a => st ← st; body a st) (Some s) l = Some s' →
            P (seen ++ l) s').
  { induction l as [|a l IH]; intros seen s Hs; simpl.
    - intros [= <-]. by rewrite app_nil_r.
    - destruct (body a s) as [s1|] eqn:Hbody;
        [|by rewrite foldl_option_None].
      intros Hfold. rewrite cons_middle, (assoc_L (++) seen [a] l).
      apply (IH _ s1); [by eapply Hstep | done]. }
  apply (Hgen [] s0 H0).
Qed.

Section BestVersion.
Context {SV : SemanticVersion}.

(** The tag and the version that the loop holds are the first tag and
    "0.0", or a tag seen with a version that the parser can read. *)
Lemma betterSupportedVersion_chosen (_modelXML : XMLElement.t)
    (sdfXML : option XMLElement.t) (bestVersionStr : string) :
  foldl (fun st sdfSearch =>
           st ← st;
           betterSupportedVersion
             (XMLElement.FirstChildElement "name" _modelXML) sdfSearch st)
    (Some (head (sdfSiblings _modelXML), "0.0")) (sdfSiblings _modelXML)
  = Some (sdfXML, bestVersionStr) →
  (sdfXML = head (sdfSiblings _modelXML) ∧ bestVersionStr = "0.0")
  ∨ ∃ x, x ∈ sdfSiblings _modelXML ∧ sdfXML = Some x
         ∧ XMLElement.Attribute "version" x = Some bestVersionStr
         ∧ SemanticVersion_le bestVersionStr SDF_VERSION = true.
Proof.
  intros Hfold.
  apply (foldl_option_invariant
           (fun seen st =>
              (st.1 = head (sdfSiblings _modelXML) ∧ st.2 = "0.0")
              ∨ ∃ x, x ∈ seen ∧ st.1 = Some x
                     ∧ XMLElement.Attribute "version" x = Some st.2
                     ∧ SemanticVersion_le st.2 SDF_VERSION = true))
    in Hfold; [exact Hfold | by left |].
  clear. intros seen a [sdfXML best] s1 Hinv Hbody.
  assert (Hkeep : (s1 = (sdfXML, best)) → 
            (s1.1 = head (sdfSiblings _modelXML) ∧ s1.2 = "0.0")
            ∨ ∃ x, x ∈ seen ++ [a] ∧ s1.1 = Some x
                   ∧ XMLElement.Attribute "version" x = Some s1.2
                   ∧ SemanticVersion_le s1.2 SDF_VERSION = true).
  { intros ->. destruct Hinv as [?|(x & Hx & ?)]; [by left|].
    right. exists x. split; [|done]. apply elem_of_app. by left. }
  unfold betterSupportedVersion in Hbody.
  destruct (XMLElement.Attribute "version" a) as [version|] eqn:Hversion;
    [|injection Hbody as <-; by apply Hkeep].
  destruct (SemanticVersion_gt version best);
    [|injection Hbody as <-; by apply Hkeep].
  destruct (SemanticVersion_le version SDF_VERSION) eqn:Hle.
  - injection Hbody as <-. right. exists a. simpl.
    split; [|done]. apply elem_of_app. right. by left.
  - destruct (XMLElement.FirstChildElement "name" _modelXML);
      simpl in Hbody; [|done].
    injection Hbody as <-. by apply Hkeep.
Qed.

(** X17.  The file that [getBestSupportedModelVersion] picks is the text
    of one of the [<sdf>] tags of the model.  The version it returns is
    the version of that tag, which is then not newer than the parser, or
    it is "0.0" and the tag is the first one.  When it fails both results
    are empty. *)
Theorem getBestSupportedModelVersion_supported (_modelXML : XMLElement.t)
    (version _modelFileName : string) :
  getBestSupportedModelVersion _modelXML = Some (version, _modelFileName) →
  (version = "" ∧ _modelFileName = "")
  ∨ ∃ sdfXML, sdfXML ∈ sdfSiblings _modelXML
      ∧ XMLElement.GetText sdfXML = Some _modelFileName
      ∧ ((XMLElement.Attribute "version" sdfXML = Some version
          ∧ SemanticVersion_le version SDF_VERSION = true)
         ∨ (version = "0.0" ∧ head (sdfSiblings _modelXML) = Some sdfXML)).
Proof.
  unfold getBestSupportedModelVersion.
  destruct (foldl _ _ _) as [[sdfXML best]|] eqn:Hfold; simpl; [|done].
  apply betterSupportedVersion_chosen in Hfold.
  destruct sdfXML as [x|];
    [|destruct (XMLElement.FirstChildElement "name" _modelXML); simpl;
      [intros [= <- <-]; by left | done]].
  destruct (XMLElement.GetText x) as [text|] eqn:Htext;
    [|destruct (XMLElement.FirstChildElement "name" _modelXML); simpl;
      [intros [= <- <-]; by left | done]].
  intros Hresult.
  assert (version = best ∧ _modelFileName = text) as [-> ->].
  { destruct (XMLElement.Attribute "version" x);
      [|destruct (XMLElement.FirstChildElement "name" _modelXML)];
      simpl in Hresult; by simplify_eq. }
  clear Hresult. right. exists x.
  destruct Hfold as [[Hhead ->]|(x' & Hx' & [= <-] & Hversion & Hle)].
  - split; [by apply head_Some_elem_of|]. split; [done|]. by right.
  - split; [done|]. split; [done|]. by left.
Qed.

(** X18.  When the order of the versions is strict and a version that is
    not above the one held stays so when a higher one replaces it, the
    version that [getBestSupportedModelVersion] returns is the newest the
    parser can read: no [<sdf>] tag of the model has a readable version
    above it. *)
Theorem getBestSupportedModelVersion_newest (_modelXML : XMLElement.t)
    (version _modelFileName : string) :
  (∀ a, SemanticVersion_gt a a = false) →
  (∀ a b c, SemanticVersion_gt a b = true → SemanticVersion_gt c b = false
            → SemanticVersion_gt c a = false) →
  getBestSupportedModelVersion _modelXML = Some (version, _modelFileName) →
  (version = "" ∧ _modelFileName = "")
  ∨ ∀ sdfXML other,
      sdfXML ∈ sdfSiblings _modelXML →
      XMLElement.Attribute "version" sdfXML = Some other →
      SemanticVersion_le other SDF_VERSION = true →
      SemanticVersion_gt other version = false.
Proof.
  intros Hirrefl Hbelow. unfold getBestSupportedModelVersion.
  destruct (foldl _ _ _) as [[sdfXML best]|] eqn:Hfold; simpl; [|done].
  assert (Hmax : ∀ x other, x ∈ sdfSiblings _modelXML →
            XMLElement.Attribute "version" x = Some other →
            SemanticVersion_le other SDF_VERSION = true →
            SemanticVersion_gt other best = false);
    [refine (foldl_option_invariant
               (fun seen st =>
                  ∀ x other, x ∈ seen →
                    XMLElement.Attribute "version" x = Some other →
                    SemanticVersion_le other SDF_VERSION = true →
                    SemanticVersion_gt other st.2 = false)
               _ _ _ _ _ _ Hfold)|].
  3: { clear Hfold.
    destruct sdfXML as [x|];
      [|destruct (XMLElement.FirstChildElement "name" _modelXML); simpl;
        [intros [= <- <-]; by left | done]].
    destruct (XMLElement.GetText x) as [text|];
      [|destruct (XMLElement.FirstChildElement "name" _modelXML); simpl;
        [intros [= <- <-]; by left | done]].
    intros Hresult. right.
    assert (version = best) as ->; [|exact Hmax].
    destruct (XMLElement.Attribute "version" x);
      [|destruct (XMLElement.FirstChildElement "name" _modelXML)];
      simpl in Hresult; by simplify_eq. }
  - intros x other Hx. by apply elem_of_nil in Hx.
  - clear Hfold. intros seen a [held best0] s1 Hinv Hbody. simpl in Hinv.
    unfold betterSupportedVersion in Hbody.
    intros x other [Hx|Hx%list_elem_of_singleton]%elem_of_app Hother Hle.
    + destruct (XMLElement.Attribute "version" a) as [v|];
        [|injection Hbody as <-; by eapply Hinv].
      destruct (SemanticVersion_gt v best0) eqn:Hgt;
        [|injection Hbody as <-; by eapply Hinv].
      destruct (SemanticVersion_le v SDF_VERSION).
      * injection Hbody as <-. simpl. eapply Hbelow; [exact Hgt|].
        by eapply Hinv.
      * destruct (XMLElement.FirstChildElement "name" _modelXML);
          simpl in Hbody; [|done].
        injection Hbody as <-. by eapply Hinv.
    + subst x. rewrite Hother in Hbody.
      destruct (SemanticVersion_gt other best0) eqn:Hgt;
        [|by injection Hbody as <-].
      rewrite Hle in Hbody. injection Hbody as <-. simpl. apply Hirrefl.
Qed.

(** X19.  A model that names its files only in versions that the parser
    cannot read is not refused: the file of its first [<sdf>] tag is
    picked, under the version "0.0". *)
Theorem getBestSupportedModelVersion_all_too_new (_modelXML : XMLElement.t)
    (first : XMLElement.t) (_modelFileName : string) :
  is_Some (XMLElement.FirstChildElement "name" _modelXML) →
  head (sdfSiblings _modelXML) = Some first →
  XMLElement.GetText first = Some _modelFileName →
  (∀ sdfXML version,
     sdfXML ∈ sdfSiblings _modelXML →
     XMLElement.Attribute "version" sdfXML = Some version →
     SemanticVersion_le version SDF_VERSION = false) →
  getBestSupportedModelVersion _modelXML = Some ("0.0", _modelFileName).
Proof.
  intros [name Hname] Hfirst Htext Hnew. unfold getBestSupportedModelVersion.
  rewrite Hname, Hfirst.
  assert (Hloop : ∀ l,
            (∀ x, x ∈ l → x ∈ sdfSiblings _modelXML) →
            foldl (fun st sdfSearch =>
                     st ← st;
                     betterSupportedVersion (Some name) sdfSearch st)
              (Some (Some first, "0.0")) l
            = Some (Some first, "0.0")).
  { induction l as [|a l IH]; intros Hl; [done|].
    cbn [foldl mbind option_bind].
    assert (Hstep : betterSupportedVersion (Some name) a (Some first, "0.0")
                    = Some (Some first, "0.0")).
    { unfold betterSupportedVersion.
      destruct (XMLElement.Attribute "version" a) as [v|] eqn:Hv; [|done].
      rewrite (Hnew a v); [by destruct (SemanticVersion_gt v "0.0")| |done].
      apply Hl. by left. }
    rewrite Hstep. apply IH. intros x Hx. apply Hl. by right. }
  rewrite Hloop; [|done]. simpl. rewrite Htext.
  by destruct (XMLElement.Attribute "version" first).
Qed.
End BestVersion.

Lemma getBestSupportedModelVersion_supported_witness :
  ("1.8" = "" ∧ "model-1_8.sdf" = "")
  ∨ ∃ sdfXML, sdfXML ∈ sdfSiblings Demo.modelConfig
      ∧ XMLElement.GetText sdfXML = Some "model-1_8.sdf"
      ∧ ((XMLElement.Attribute "version" sdfXML = Some "1.8"
          ∧ SemanticVersion_le (SemanticVersion:=Demo.semanticVersion) "1.8"
              (SDF_VERSION (SemanticVersion:=Demo.semanticVersion)) = true)
         ∨ ("1.8" = "0.0" ∧ head (sdfSiblings Demo.modelConfig) = Some sdfXML)).
Proof.
  apply (getBestSupportedModelVersion_supported (SV:=Demo.semanticVersion)
           Demo.modelConfig "1.8" "model-1_8.sdf").
  vm_compute. reflexivity.
Defined.

Lemma getBestSupportedModelVersion_newest_witness :
  ("1.8" = "" ∧ "model-1_8.sdf" = "")
  ∨ ∀ sdfXML other,
      sdfXML ∈ sdfSiblings Demo.modelConfig →
      XMLElement.Attribute "version" sdfXML = Some other →
      SemanticVersion_le (SemanticVersion:=Demo.semanticVersion) other
        (SDF_VERSION (SemanticVersion:=Demo.semanticVersion)) = true →
      SemanticVersion_gt (SemanticVersion:=Demo.semanticVersion) other "1.8"
      = false.
Proof.
  apply (getBestSupportedModelVersion_newest (SV:=Demo.semanticVersion)
           Demo.modelConfig "1.8" "model-1_8.sdf").
  - intros a. simpl. apply Nat.ltb_irrefl.
  - intros a b c. simpl. rewrite !Nat.ltb_lt, !Nat.ltb_ge. lia.
  - vm_compute. reflexivity.
Defined.

Lemma getBestSupportedModelVersion_all_too_new_witness :
  getBestSupportedModelVersion (H:=Demo.semanticVersion)
    Demo.modelConfigTooNew
  = Some ("0.0", "model-2_0.sdf").
Proof.
  apply (getBestSupportedModelVersion_all_too_new
           (SV:=Demo.semanticVersion) Demo.modelConfigTooNew
           (XMLElement.mk "sdf" [Demo.xattr "version" "2.0"]
              (Some "model-2_0.sdf") [] 1)).
  - vm_compute. eauto.
  - reflexivity.
  - reflexivity.
  - intros sdfXML version Hin. vm_compute in Hin.
    apply list_elem_of_singleton in Hin as ->.
    intros [= <-]. vm_compute. reflexivity.
Defined.

(** ** parser.cc: the overrides of an include *)

Section IncludeOverrides.
Context {Env : ParserEnv}.

(** X20.  The overrides of an [<include>] fail in one case only: a
    [<placement_frame>] given for a model without a [<pose>] beside it,
    which adds one MODEL_PLACEMENT_FRAME_INVALID error.  Otherwise at most
    one error is added, the RESERVED_NAME of a placement frame that is not
    a valid frame reference. *)
Theorem applyIncludeOverrides_outcome (elemXml : XMLElement.t)
    (includeXmlPath _source : string) (topLevelElem : Element.t)
    (_errors : Errors) (ok : bool) (topLevelElem' : Element.t)
    (errors' : Errors) :
  applyIncludeOverrides elemXml includeXmlPath _source topLevelElem _errors
  = Some (ok, topLevelElem', errors') →
  (ok = false
   ↔ Element.GetName topLevelElem = "model"
     ∧ is_Some (XMLElement.FirstChildElement "placement_frame" elemXml)
     ∧ XMLElement.FirstChildElement "pose" elemXml = None)
  ∧ ∃ new, errors' = _errors ++ new
      ∧ match new with
        | [] => ok = true
        | [err] =>
            Error.Code err
            = (if ok then RESERVED_NAME else MODEL_PLACEMENT_FRAME_INVALID)
        | _ => False
        end.
Proof.
  unfold applyIncludeOverrides.
  match goal with
  | |- (?m ≫= _) = _ → _ => destruct m as [top1|]; simpl; [|done]
  end.
  match goal with
  | |- (?m ≫= _) = _ → _ => destruct m as [top2|] eqn:Hpose; simpl; [|done]
  end.
  match goal with
  | |- (?m ≫= _) = _ → _ => destruct m as [top3|]; simpl; [|done]
  end.
  destruct (XMLElement.FirstChildElement "placement_frame" elemXml)
    as [placementFrameElem|].
  - destruct (String.eqb (Element.GetName topLevelElem) "model") eqn:Hmodel.
    + apply String.eqb_eq in Hmodel.
      destruct (XMLElement.FirstChildElement "pose" elemXml) as [poseXml|].
      * destruct (XMLElement.GetText placementFrameElem) as [val|];
          simpl; [|done].
        destruct (attributeSetFromString "placement_frame" val top3);
          simpl; [|done].
        destruct (negb (isValidFrameReference val)).
        -- intros [= <- <- <-]. split; [split; [done|]; by intros (_&_&?)|].
           by eexists [_].
        -- intros [= <- <- <-]. split; [split; [done|]; by intros (_&_&?)|].
           exists []. by rewrite app_nil_r.
      * intros [= <- <- <-]. split; [by eauto|]. by eexists [_].
    + apply String.eqb_neq in Hmodel.
      intros [= <- <- <-]. split; [split; [done|]; by intros (?&_&_)|].
      exists []. by rewrite app_nil_r.
  - intros [= <- <- <-]. split; [split; [done|]; by intros (_&[]&_)|].
    exists []. by rewrite app_nil_r.
Qed.
End IncludeOverrides.

(** ** parser.cc: the name of the proxy frame *)

Lemma append_inj_l (p s1 s2 : string) : p +:+ s1 = p +:+ s2 → s1 = s2.
Proof. induction p as [|c p IH]; simpl; [done|]. intros [= H]. by apply IH. Qed.

Lemma length_append (s1 s2 : string) :
  String.length (s1 +:+ s2) = String.length s1 + String.length s2.
Proof. induction s1 as [|c s1 IH]; simpl; [done|]. by rewrite IH. Qed.

Lemma append_suffix_inj (s1 s2 suffix : string) :
  s1 +:+ suffix = s2 +:+ suffix → s1 = s2.
Proof.
  revert s2. induction s1 as [|c s1 IH]; intros [|d s2]; simpl.
  - done.
  - intros H. apply (f_equal String.length) in H.
    change (String.length suffix
            = S (String.length (s2 +:+ suffix))) in H.
    rewrite length_append in H. lia.
  - intros H. apply (f_equal String.length) in H.
    change (S (String.length (s1 +:+ suffix))
            = String.length suffix) in H.
    rewrite length_append in H. lia.
  - intros [= -> H]. f_equal. by apply IH.
Qed.

(** X21.  Two models get the same proxy frame name only when they have the
    same name: the proxy frames of two merged models never collide unless
    the models do. *)
Theorem computeMergedModelProxyFrameName_inj (_modelName other : string) :
  computeMergedModelProxyFrameName _modelName
  = computeMergedModelProxyFrameName other
  ↔ _modelName = other.
Proof.
  split; [|by intros ->]. unfold computeMergedModelProxyFrameName.
  intros H. apply append_inj_l in H. by apply append_suffix_inj in H.
Qed.

(** ** Link.cc: the children of the element that [ToElement] writes *)

Section LinkToElementOrder.
Context {Math : IgnitionMath} {Parts : LinkParts} {Env : ParserEnv}.

(** X22.  [Link::ToElement] writes the children of the link after the
    elements of its own members, one element for every child, kind by
    kind: the collisions, then the lights, the particle emitters, the
    sensors and the visuals, each kind in the order of its collection. *)
Theorem Link_ToElement_children_order (this : Link.t) :
  Link.ToElement this
  = (fun members =>
       Element.setElements
         (Element.elements members
          ++ (ToElement <$> Link.collisions this)
          ++ (ToElement <$> Link.lights this)
          ++ (ToElement <$> Link.emitters this)
          ++ (ToElement <$> Link.sensors this)
          ++ (ToElement <$> Link.visuals this)) members)
    <$> Link.ToElement_members this.
Proof.
  unfold Link.ToElement.
  destruct (Link.ToElement_members this) as [members|]; simpl; [|done].
  rewrite foldl_InsertElement5. by rewrite <- !app_assoc.
Qed.
End LinkToElementOrder.


(** ** Runs of the statements above *)

Lemma Link_Load_wrong_element_witness :
  ∃ err : Error.t,
    snd (Link.Load (Math:=Demo.textMath) (Parts:=Demo.parts) Demo.modelM
           Link.new) = [err]
    ∧ Link.sdf (fst (Link.Load (Math:=Demo.textMath) (Parts:=Demo.parts)
                       Demo.modelM Link.new)) = Some Demo.modelM
    ∧ Error.Code err = ELEMENT_INCORRECT_TYPE.
Proof.
  destruct (Link_Load_wrong_element (Math:=Demo.textMath)
              (Parts:=Demo.parts) Demo.modelM Link.new)
    as (err & Hload & Hcode).
  - vm_compute. discriminate.
  - exists err. rewrite Hload. by repeat split.
Defined.

Lemma Material_Load_wrong_element_witness :
  ∃ err : Error.t,
    snd (Material.Load (Math:=Demo.textMath) (PM:=Demo.pbrModel)
           (Element.SetFilePath "m.sdf" Demo.modelM) Material.new) = [err]
    ∧ Material.filePath
        (fst (Material.Load (Math:=Demo.textMath) (PM:=Demo.pbrModel)
                (Element.SetFilePath "m.sdf" Demo.modelM) Material.new)) = "m.sdf"
    ∧ Error.Code err = ELEMENT_INCORRECT_TYPE.
Proof.
  destruct (Material_Load_wrong_element (Math:=Demo.textMath)
              (PM:=Demo.pbrModel) (Element.SetFilePath "m.sdf" Demo.modelM) Material.new)
    as (err & Hload & Hcode).
  - vm_compute. discriminate.
  - exists err. rewrite Hload. by repeat split.
Defined.

Lemma Material_Load_error_codes_witness :
  Forall (materialErrorOrigin (Math:=Demo.textMath) (PM:=Demo.pbrModel)
            Demo.materialOfM)
    (snd (Material.Load (Math:=Demo.textMath) (PM:=Demo.pbrModel)
            Demo.materialOfM Material.new)).
Proof.
  apply (Material_Load_error_codes (Math:=Demo.textMath)
           (PM:=Demo.pbrModel) Demo.materialOfM Material.new).
  reflexivity.
Defined.

Lemma readDoc_fails_silently_witness :
  ∃ sdf', readDoc (Math:=Demo.textMath) (RL:=Demo.loader) (Env:=Demo.env)
            (Some Demo.docNoVersion) (Some Demo.freshSDF) "data-string" true
            ParserConfig.GlobalConfig []
          = Some (false, sdf', []).
Proof.
  apply (readDoc_fails_silently (Math:=Demo.textMath) (RL:=Demo.loader)
           (Env:=Demo.env) (Some Demo.docNoVersion) (Some Demo.freshSDF)
           "data-string" true ParserConfig.GlobalConfig []).
  vm_compute. reflexivity.
Defined.

Lemma readDoc_success_conditions_witness :
  ∃ (sdf' : SDF.t) (root' : Element.t),
    readDoc (Math:=Demo.textMath) (RL:=Demo.loader) (Env:=Demo.env)
      (Some Demo.docPlugin) (Some Demo.freshSDF) "data-string" true
      ParserConfig.GlobalConfig []
    = Some (true, Some sdf', [])
    ∧ SDF.Root sdf' = Some root'
    ∧ ¬ ValidatedDoubleColonName root'.
Proof.
  pose (sdf' := default Demo.freshSDF
                  (Demo.read Demo.docPlugin ≫= (fun r => r.1.2))).
  assert (Hread :
    readDoc (Math:=Demo.textMath) (RL:=Demo.loader) (Env:=Demo.env)
      (Some Demo.docPlugin) (Some Demo.freshSDF) "data-string" true
      ParserConfig.GlobalConfig []
    = Some (true, Some sdf', []))
    by (vm_compute; reflexivity).
  pose proof (readDoc_success_conditions (Math:=Demo.textMath) (RL:=Demo.loader)
              (Env:=Demo.env) Demo.docPlugin Demo.freshSDF sdf'
              "data-string" true ParserConfig.GlobalConfig [] [] Hread) as H.
  destruct H
    as (sdfNode & version & root0 & root' & _ & _ & _ & Hroot & _ & Hxml
        & Hcolon).
  exists sdf', root'. split; [exact Hread|]. split; [exact Hroot|].
  apply Hcolon. clear -Hroot.
  vm_compute in Hroot. injection Hroot as <-. vm_compute.
  reflexivity.
Defined.

Lemma applyIncludeOverrides_outcome_witness :
  let r := default (true, Demo.modelM, [])
             (applyIncludeOverrides (H:=Demo.env)
                (Demo.xml "include" []
                   [Demo.xtext "uri" "m.sdf";
                    Demo.xtext "placement_frame" "L"])
                "/sdf/world/include" "p.sdf" Demo.modelM []) in
  r.1.1 = false
  ∧ ∃ err, r.2 = [err]
           ∧ Error.Code err = MODEL_PLACEMENT_FRAME_INVALID.
Proof.
  intros r.
  assert (Hrun : applyIncludeOverrides (H:=Demo.env)
                   (Demo.xml "include" []
                      [Demo.xtext "uri" "m.sdf";
                       Demo.xtext "placement_frame" "L"])
                   "/sdf/world/include" "p.sdf" Demo.modelM []
                 = Some (r.1.1, r.1.2, r.2))
    by (vm_compute; reflexivity).
  destruct (applyIncludeOverrides_outcome (Env:=Demo.env) _ _ _ _ _ _ _ _
              Hrun) as [Hfails (new & Hnew & Hcode)].
  assert (Hok : r.1.1 = false) by (vm_compute; reflexivity).
  split; [exact Hok|].
  rewrite Hok in Hcode. destruct new as [|err [|]]; try done.
  by exists err.
Defined.
